(** * BinanceDataCollector: ring buffers, shared-memory publisher and reader

    A shallow embedding of the shared-memory publish/consume path of the
    collector (binance_collector.c, binance_common.h) and of the shared
    memory reader (display_symbol_data), followed by the properties of
    the specification stated and proved over it.

    The embedding also covers the command line of the collector (symbol
    list and stream path of [main]), the dispatch of the feed
    ([ws_callback] and the JSON part of the two handlers), the two file
    readers (trade_reader.c, kline_reader.c) and the rest of the shared
    region reader ([print_formatted_time], [print_shared_memory_info],
    [display_all_symbols_data], [main]); json-c, [atoi] and [fopen] are
    variables of the sections that use them.

    Conventions of the embedding
    - [size_t] and the other 64-bit unsigned quantities are [Z] with the
      wrap-around modulo 2^64 written out ([add64], [sub64], [mul64]);
    - [int64_t] fields are signed [Z]; a [double] is kept as its IEEE-754
      binary64 bit pattern (the code only moves doubles with assignments
      and [memcpy], and prints them);
    - the shared region is a byte-addressed memory [Z -> Z]; every load
      reduces the cell modulo 256;
    - a [FILE *] of the collector is the list of the [fwrite] and
      [fflush] calls made on it with what they returned; the files on
      disk are not modelled;
    - the LP64 layout of gcc on x86-64 is used for the packed structs:
      [message_header_t] is 32 bytes, [trade_record_t] 41 bytes,
      [kline_record_t] 65 bytes, [shared_memory_header_t] 256 bytes. *)

From Stdlib Require Import ZArith List Lia Bool String Ascii.
From stdpp Require Import base numbers list.
Import ListNotations.
Local Open Scope Z_scope.

(** ** Constants of binance_common.h *)

Definition MAX_SYMBOLS : Z := 10.
Definition MAX_SYMBOL_LENGTH : Z := 16.
Definition MAX_RECORDS_PER_SYMBOL : Z := 100.
Definition SHM_SIZE : Z := 64 * 1024 * 1024.

Definition DATA_TYPE_TRADE : Z := 1.
Definition DATA_TYPE_KLINE : Z := 2.

Definition sizeof_size_t : Z := 8.
Definition sizeof_message_header_t : Z := 32.
Definition sizeof_trade_record_t : Z := 41.
Definition sizeof_kline_record_t : Z := 65.
Definition sizeof_shared_memory_header_t : Z := 256.

(** ** 64-bit unsigned arithmetic *)

Definition wrap64 (z : Z) : Z := z mod 2 ^ 64.
Definition add64 (a b : Z) : Z := wrap64 (a + b).
Definition sub64 (a b : Z) : Z := wrap64 (a - b).
Definition mul64 (a b : Z) : Z := wrap64 (a * b).

(** Reinterpretation of a 64-bit pattern as [int64_t]. *)
Definition signed64 (z : Z) : Z := if z <? 2 ^ 63 then z else z - 2 ^ 64.

(** [(offset + 7) & ~7] on [size_t]: [~7] is the int -8 converted to
    [size_t]. *)
Definition align8 (offset : Z) : Z := Z.land (add64 offset 7) (wrap64 (-8)).

(** ** Little-endian byte strings *)

Fixpoint encode_le (n : nat) (v : Z) : list Z :=
  match n with
  | O => []
  | S k => v mod 256 :: encode_le k (v / 256)
  end.

Fixpoint decode_le (bs : list Z) : Z :=
  match bs with
  | [] => 0
  | b :: r => b + 256 * decode_le r
  end.

Definition byte_ok (b : Z) : Prop := 0 <= b < 256.
Definition byte_okb (b : Z) : bool := (0 <=? b) && (b <? 256).

(** A C string is kept as the list of its characters, without the NUL. *)
Definition cstring := list Z.

(** [strncpy(dst, src, n)]: the first [n] characters of [src], NUL padded
    to [n] bytes. *)
Definition strncpy (n : nat) (src : cstring) : list Z :=
  take n src ++ replicate (n - length (take n src)) 0.

(** [strncpy(dst, src, MAX_SYMBOL_LENGTH - 1); dst[MAX_SYMBOL_LENGTH - 1] = 0]
    into a [char[MAX_SYMBOL_LENGTH]]. *)
Definition symbol_field (src : cstring) : list Z := strncpy 15 src ++ [0].

(** The bytes of a [char[16]] array held as a list. *)
Definition pad16 (l : list Z) : list Z := take 16 (l ++ replicate 16 0).

Definition tolower (c : Z) : Z := if (65 <=? c) && (c <=? 90) then c + 32 else c.

(** ** Records of binance_common.h *)

Record trade_record := mk_trade {
  event_time : Z;
  trade_time : Z;
  price : Z;
  quantity : Z;
  trade_id : Z;
  is_buyer_maker : Z
}.

Record kline_record := mk_kline {
  open_time : Z;
  close_time : Z;
  open_price : Z;
  close_price : Z;
  high_price : Z;
  low_price : Z;
  volume : Z;
  num_trades : Z;
  is_final : Z
}.

Record message_header := mk_header {
  hdr_type : Z;
  hdr_length : Z;
  hdr_timestamp : Z;
  hdr_symbol : list Z
}.

Definition zero_trade : trade_record := mk_trade 0 0 0 0 0 0.
Definition zero_kline : kline_record := mk_kline 0 0 0 0 0 0 0 0 0.
Definition zero_header : message_header := mk_header 0 0 0 (replicate 16 0).

(** Object representations (packed, little endian). *)

Definition encode_trade (r : trade_record) : list Z :=
  encode_le 8 (event_time r) ++ encode_le 8 (trade_time r) ++
  encode_le 8 (price r) ++ encode_le 8 (quantity r) ++
  encode_le 8 (trade_id r) ++ encode_le 1 (is_buyer_maker r).

Definition decode_trade (bs : list Z) : trade_record :=
  {| event_time := signed64 (decode_le (take 8 bs));
     trade_time := signed64 (decode_le (take 8 (drop 8 bs)));
     price := decode_le (take 8 (drop 16 bs));
     quantity := decode_le (take 8 (drop 24 bs));
     trade_id := signed64 (decode_le (take 8 (drop 32 bs)));
     is_buyer_maker := decode_le (take 1 (drop 40 bs)) |}.

Definition encode_kline (r : kline_record) : list Z :=
  encode_le 8 (open_time r) ++ encode_le 8 (close_time r) ++
  encode_le 8 (open_price r) ++ encode_le 8 (close_price r) ++
  encode_le 8 (high_price r) ++ encode_le 8 (low_price r) ++
  encode_le 8 (volume r) ++ encode_le 8 (num_trades r) ++
  encode_le 1 (is_final r).

Definition decode_kline (bs : list Z) : kline_record :=
  {| open_time := signed64 (decode_le (take 8 bs));
     close_time := signed64 (decode_le (take 8 (drop 8 bs)));
     open_price := decode_le (take 8 (drop 16 bs));
     close_price := decode_le (take 8 (drop 24 bs));
     high_price := decode_le (take 8 (drop 32 bs));
     low_price := decode_le (take 8 (drop 40 bs));
     volume := decode_le (take 8 (drop 48 bs));
     num_trades := signed64 (decode_le (take 8 (drop 56 bs)));
     is_final := decode_le (take 1 (drop 64 bs)) |}.

Definition encode_header (h : message_header) : list Z :=
  encode_le 4 (hdr_type h) ++ encode_le 4 (hdr_length h) ++
  encode_le 8 (hdr_timestamp h) ++ pad16 (hdr_symbol h).

(** Values a C object of the type can hold. *)

Definition int64_okb (z : Z) : bool := (- 2 ^ 63 <=? z) && (z <? 2 ^ 63).
Definition uint64_okb (z : Z) : bool := (0 <=? z) && (z <? 2 ^ 64).

Definition trade_okb (r : trade_record) : bool :=
  int64_okb (event_time r) && int64_okb (trade_time r) &&
  uint64_okb (price r) && uint64_okb (quantity r) &&
  int64_okb (trade_id r) && byte_okb (is_buyer_maker r).

Definition kline_okb (r : kline_record) : bool :=
  int64_okb (open_time r) && int64_okb (close_time r) &&
  uint64_okb (open_price r) && uint64_okb (close_price r) &&
  uint64_okb (high_price r) && uint64_okb (low_price r) &&
  uint64_okb (volume r) && int64_okb (num_trades r) &&
  byte_okb (is_final r).

(** ** Ring buffers ([recent_data.trades], [recent_data.klines]) *)

Record ring (R : Type) := mk_ring {
  rb_records : list R;
  rb_headers : list message_header;
  rb_count : Z;
  rb_next_index : Z
}.
Arguments mk_ring {R} _ _ _ _.
Arguments rb_records {R} _.
Arguments rb_headers {R} _.
Arguments rb_count {R} _.
Arguments rb_next_index {R} _.

Section Ring.
Context {R : Type}.
Variable zero : R.

(** [memset(&symbol->recent_data, 0, ...)] in [init_symbol_data]. *)
Definition ring_init : ring R :=
  mk_ring (replicate (Z.to_nat MAX_RECORDS_PER_SYMBOL) zero)
          (replicate (Z.to_nat MAX_RECORDS_PER_SYMBOL) zero_header) 0 0.

(** The block of [handle_aggTrade] / [handle_kline] run under the
    symbol's mutex. *)
Definition rb_append (rec : R) (header : message_header) (rb : ring R) : ring R :=
  let idx := rb_next_index rb in
  mk_ring (<[Z.to_nat idx := rec]> (rb_records rb))
          (<[Z.to_nat idx := header]> (rb_headers rb))
          (if rb_count rb <? MAX_RECORDS_PER_SYMBOL
           then add64 (rb_count rb) 1 else rb_count rb)
          (add64 idx 1 mod MAX_RECORDS_PER_SYMBOL).

Definition rb_header_at (rb : ring R) (idx : Z) : message_header :=
  default zero_header (rb_headers rb !! Z.to_nat idx).

Definition rb_record_at (rb : ring R) (idx : Z) : R :=
  default zero (rb_records rb !! Z.to_nat idx).

(** [start_idx] of [update_shared_memory]. *)
Definition start_idx (rb : ring R) : Z :=
  if MAX_RECORDS_PER_SYMBOL <=? rb_count rb then rb_next_index rb else 0.

(** The publisher's loop [for (j = 0; j < n; j++)] over
    [idx = (start_idx + j) % MAX_RECORDS_PER_SYMBOL], yielding the
    (header, record) pairs it visits. *)
Fixpoint walk_from (rb : ring R) (start j : Z) (n : nat)
  : list (message_header * R) :=
  match n with
  | O => []
  | S n' =>
      let idx := add64 start j mod MAX_RECORDS_PER_SYMBOL in
      (rb_header_at rb idx, rb_record_at rb idx)
        :: walk_from rb start (add64 j 1) n'
  end.

(** The walk over all [count] entries (the specification's
    [snapshot_in_order]). *)
Definition snapshot_in_order (rb : ring R) : list (message_header * R) :=
  walk_from rb (start_idx rb) 0 (Z.to_nat (rb_count rb)).
End Ring.

(** [n] ingestions into one ring buffer, oldest first. *)
Definition rb_appends {R : Type} (rb : ring R) (l : list (message_header * R))
  : ring R :=
  fold_left (fun rb x => rb_append (snd x) (fst x) rb) l rb.

(** ** Symbol table and ingestion *)

(** The collector writes its log files through two [FILE *] per symbol
    and learns of them only what the calls return. A stream is kept as
    the calls made on it since [fopen], oldest first, each with what it
    returned: [Fwrite r n] is [fwrite(&record, sizeof(record), 1, f)]
    for the record [r] returning [n], [Fflush n] is [fflush(f)]
    returning [n]. What the file in the output directory holds is
    between the C library and the system and is not part of the
    embedding: a record the stream took may never reach the file, and
    two entries of the same name opened within the same second write
    the same path. *)
Inductive stdio_call (R : Type) :=
| Fwrite (record : R) (result : Z)
| Fflush (result : Z).
Arguments Fwrite {R} record result.
Arguments Fflush {R} result.

Definition FILE (R : Type) : Type := list (stdio_call R).

(** The records for which [fwrite] returned 1, in the order of the
    calls. *)
Fixpoint fwritten {R : Type} (f : FILE R) : list R :=
  match f with
  | [] => []
  | Fwrite r n :: rest =>
      if n =? 1 then r :: fwritten rest else fwritten rest
  | Fflush _ :: rest => fwritten rest
  end.

(** [symbol_data_t]. [name] is the string held in [char name[16]];
    [trade_file] and [kline_file] are the two streams; the mutex is left
    out (the embedding is sequential). *)
Record symbol_data := mk_symbol {
  name : cstring;
  trade_file : FILE trade_record;
  kline_file : FILE kline_record;
  trades : ring trade_record;
  klines : ring kline_record;
  trade_count : Z;
  kline_count : Z;
  message_count : Z;
  bytes_processed : Z
}.

(** [main]'s per-symbol set-up (the name copied with [strncpy], the two
    streams as [fopen(path, "wb")] returns them, no call made on them
    yet) followed by [init_symbol_data]. *)
Definition init_symbol_data (nm : cstring) : symbol_data :=
  mk_symbol (take 15 nm) [] [] (ring_init zero_trade) (ring_init zero_kline)
            0 0 0 0.

(** The lookup loop [strcmp(symbols[i].name, symbol) == 0]. *)
Fixpoint find_symbol (syms : list symbol_data) (symbol : cstring) (i : Z)
  : option Z :=
  match syms with
  | [] => None
  | s :: rest =>
      if decide (name s = symbol) then Some i
      else find_symbol rest symbol (i + 1)
  end.

Inductive ingest_result := Ingested | UnknownSymbol | WriteFailed.

Definition make_header (ty len now : Z) (symbol : cstring) : message_header :=
  mk_header ty len now (symbol_field symbol).

(** [handle_aggTrade] once the record has been extracted from the JSON
    message. [fwrite_result] and [fflush_result] are what the two calls
    on the trade stream return and [now] is [time(NULL)]. The branch is
    taken on the result of [fwrite] alone; [fflush] is called behind
    both branches and its result is discarded. *)
Definition handle_aggTrade (syms : list symbol_data) (symbol : cstring)
    (record : trade_record) (fwrite_result fflush_result : Z) (now : Z)
  : list symbol_data * ingest_result :=
  match find_symbol syms symbol 0 with
  | None => (syms, UnknownSymbol)
  | Some symbol_idx =>
      match syms !! Z.to_nat symbol_idx with
      | None => (syms, UnknownSymbol)
      | Some s =>
          let file :=
            trade_file s ++ [Fwrite record fwrite_result;
                             Fflush fflush_result] in
          if negb (fwrite_result =? 1) then
            let s' :=
              mk_symbol (name s) file (kline_file s) (trades s) (klines s)
                (trade_count s) (kline_count s) (message_count s)
                (bytes_processed s) in
            (<[Z.to_nat symbol_idx := s']> syms, WriteFailed)
          else
            let header :=
              make_header DATA_TYPE_TRADE sizeof_trade_record_t now symbol in
            let s' :=
              mk_symbol (name s) file (kline_file s)
                (rb_append record header (trades s)) (klines s)
                (add64 (trade_count s) 1) (kline_count s)
                (add64 (message_count s) 1)
                (add64 (bytes_processed s) sizeof_trade_record_t) in
            (<[Z.to_nat symbol_idx := s']> syms, Ingested)
      end
  end.

(** [handle_kline], likewise, on the kline stream. *)
Definition handle_kline (syms : list symbol_data) (symbol : cstring)
    (record : kline_record) (fwrite_result fflush_result : Z) (now : Z)
  : list symbol_data * ingest_result :=
  match find_symbol syms symbol 0 with
  | None => (syms, UnknownSymbol)
  | Some symbol_idx =>
      match syms !! Z.to_nat symbol_idx with
      | None => (syms, UnknownSymbol)
      | Some s =>
          let file :=
            kline_file s ++ [Fwrite record fwrite_result;
                             Fflush fflush_result] in
          if negb (fwrite_result =? 1) then
            let s' :=
              mk_symbol (name s) (trade_file s) file (trades s) (klines s)
                (trade_count s) (kline_count s) (message_count s)
                (bytes_processed s) in
            (<[Z.to_nat symbol_idx := s']> syms, WriteFailed)
          else
            let header :=
              make_header DATA_TYPE_KLINE sizeof_kline_record_t now symbol in
            let s' :=
              mk_symbol (name s) (trade_file s) file
                (trades s) (rb_append record header (klines s))
                (trade_count s) (add64 (kline_count s) 1)
                (add64 (message_count s) 1)
                (add64 (bytes_processed s) sizeof_kline_record_t) in
            (<[Z.to_nat symbol_idx := s']> syms, Ingested)
      end
  end.

(** ** The shared region *)

Definition mem := Z -> Z.

(** One store into the region: [memcpy], an assignment through a pointer
    or an atomic store. *)
Record write := mk_write { w_addr : Z; w_bytes : list Z }.

Definition store_bytes (m : mem) (a : Z) (bs : list Z) : mem :=
  fun x =>
    if (a <=? x) && (x <? a + Z.of_nat (length bs))
    then default 0 (bs !! Z.to_nat (x - a))
    else m x.

Definition apply_write (m : mem) (w : write) : mem :=
  store_bytes m (w_addr w) (w_bytes w).

Definition apply_writes (m : mem) (ws : list write) : mem :=
  fold_left apply_write ws m.

Definition load_bytes (m : mem) (a : Z) (n : nat) : list Z :=
  map (fun i => m (a + Z.of_nat i) mod 256) (seq 0 n).

Definition load_u32 (m : mem) (a : Z) : Z := decode_le (load_bytes m a 4).
Definition load_u64 (m : mem) (a : Z) : Z := decode_le (load_bytes m a 8).

(** Field offsets of [shared_memory_header_t]. *)
Definition OFF_write_counter : Z := 0.
Definition OFF_last_update_time : Z := 8.
Definition OFF_data_offset : Z := 16.
Definition OFF_buffer_size : Z := 24.
Definition OFF_symbol_count : Z := 32.
Definition OFF_symbols : Z := 40.

Definition shm_data_offset (m : mem) : Z := load_u64 m OFF_data_offset.
Definition shm_buffer_size (m : mem) : Z := load_u64 m OFF_buffer_size.
Definition shm_symbol_count (m : mem) : Z := load_u64 m OFF_symbol_count.
Definition shm_write_counter (m : mem) : Z := load_u64 m OFF_write_counter.
Definition shm_last_update_time (m : mem) : Z := load_u64 m OFF_last_update_time.
Definition shm_symbol_addr (i : Z) : Z := OFF_symbols + MAX_SYMBOL_LENGTH * i.

(** The copy loop of [init_shared_memory] over the symbol names. *)
Fixpoint init_names (syms : list symbol_data) (i : Z) : list write :=
  match syms with
  | [] => []
  | s :: rest =>
      mk_write (shm_symbol_addr i) (strncpy 15 (name s))
        :: mk_write (shm_symbol_addr i + 15) [0]
        :: init_names rest (i + 1)
  end.

(** The stores of [init_shared_memory] into the freshly mapped region. *)
Definition init_shared_memory (syms : list symbol_data) (now : Z) : list write :=
  [ mk_write OFF_write_counter (encode_le 8 0);
    mk_write OFF_last_update_time (encode_le 8 now);
    mk_write OFF_data_offset (encode_le 8 sizeof_shared_memory_header_t);
    mk_write OFF_buffer_size
      (encode_le 8 (sub64 SHM_SIZE sizeof_shared_memory_header_t / MAX_SYMBOLS));
    mk_write OFF_symbol_count (encode_le 8 (Z.of_nat (length syms))) ]
  ++ init_names syms 0.

(** ** The collector process *)

Record collector := mk_collector {
  symbols : list symbol_data;
  shared_memory : option mem;
  last_update_time : Z
}.

Definition symbol_count (c : collector) : Z := Z.of_nat (length (symbols c)).

(** ** Snapshot publisher ([update_shared_memory]) *)

Section WriteLoop.
Context {R : Type}.
Variable zero : R.
Variable encode : R -> list Z.
Variable sizeof_record : Z.

(** [for (j = 0; j < n; j++)] with its two [memcpy] per entry; returns
    the stores in order and the final [current_offset]. *)
Fixpoint write_loop (rb : ring R) (start j : Z) (n : nat)
    (current_offset : Z) : list write * Z :=
  match n with
  | O => ([], current_offset)
  | S n' =>
      let idx := add64 start j mod MAX_RECORDS_PER_SYMBOL in
      let w1 := mk_write current_offset (encode_header (rb_header_at rb idx)) in
      let current_offset := add64 current_offset sizeof_message_header_t in
      let w2 := mk_write current_offset (encode (rb_record_at zero rb idx)) in
      let current_offset := add64 current_offset sizeof_record in
      let '(ws, final) := write_loop rb start (add64 j 1) n' current_offset in
      (w1 :: w2 :: ws, final)
  end.
End WriteLoop.

Definition trade_frame_size : Z :=
  add64 sizeof_message_header_t sizeof_trade_record_t.
Definition kline_frame_size : Z :=
  add64 sizeof_message_header_t sizeof_kline_record_t.

(** The numbers the loop body computes before it copies anything. *)
Record plan := mk_plan {
  p_symbol_offset : Z;
  p_total_data_size : Z;
  p_trades_to_write : Z;
  p_trade_bytes : Z;
  p_klines_to_write : Z;
  p_kline_bytes : Z
}.

Definition publish_plan (m : mem) (i : Z) (s : symbol_data) : plan :=
  let symbol_offset := add64 (shm_data_offset m) (mul64 i (shm_buffer_size m)) in
  let trade_data_size := mul64 (rb_count (trades s)) trade_frame_size in
  let kline_data_size := mul64 (rb_count (klines s)) kline_frame_size in
  let total_data_size := add64 trade_data_size kline_data_size in
  let total_data_size :=
    if total_data_size >? sub64 (shm_buffer_size m) sizeof_size_t
    then sub64 (shm_buffer_size m) sizeof_size_t else total_data_size in
  let trades_to_write := rb_count (trades s) in
  let trade_bytes := mul64 trades_to_write trade_frame_size in
  let '(trades_to_write, trade_bytes) :=
    if trade_bytes >? total_data_size
    then (total_data_size / trade_frame_size,
          mul64 (total_data_size / trade_frame_size) trade_frame_size)
    else (trades_to_write, trade_bytes) in
  let remaining_space := sub64 total_data_size trade_bytes in
  let klines_to_write := rb_count (klines s) in
  let kline_bytes := mul64 klines_to_write kline_frame_size in
  let '(klines_to_write, kline_bytes) :=
    if kline_bytes >? remaining_space
    then (remaining_space / kline_frame_size,
          mul64 (remaining_space / kline_frame_size) kline_frame_size)
    else (klines_to_write, kline_bytes) in
  mk_plan symbol_offset total_data_size trades_to_write trade_bytes
          klines_to_write kline_bytes.

(** One iteration of the [for (i = 0; i < symbol_count; i++)] loop: the
    stores it performs, in order. *)
Definition publish_symbol (m : mem) (i : Z) (s : symbol_data) : list write :=
  let p := publish_plan m i s in
  let symbol_offset := p_symbol_offset p in
  if add64 symbol_offset sizeof_size_t >? SHM_SIZE then []
  else
    let w_size := mk_write symbol_offset (encode_le 8 (p_total_data_size p)) in
    let current_offset := add64 symbol_offset sizeof_size_t in
    let '(ws_trades, current_offset) :=
      write_loop zero_trade encode_trade sizeof_trade_record_t (trades s)
        (start_idx (trades s)) 0 (Z.to_nat (p_trades_to_write p))
        current_offset in
    let '(ws_klines, _) :=
      write_loop zero_kline encode_kline sizeof_kline_record_t (klines s)
        (start_idx (klines s)) 0 (Z.to_nat (p_klines_to_write p))
        current_offset in
    w_size :: ws_trades ++ ws_klines.

Fixpoint publish_loop (m : mem) (i : Z) (syms : list symbol_data)
  : mem * list write :=
  match syms with
  | [] => (m, [])
  | s :: rest =>
      let ws := publish_symbol m i s in
      let '(m', log) := publish_loop (apply_writes m ws) (i + 1) rest in
      (m', ws ++ log)
  end.

(** [update_shared_memory] called at [now = time(NULL)]: the new process
    state and the stores into the region, in program order. *)
Definition update_shared_memory (c : collector) (now : Z)
  : collector * list write :=
  match shared_memory c with
  | None => (c, [])
  | Some m =>
      let w_time := mk_write OFF_last_update_time (encode_le 8 now) in
      let m := apply_write m w_time in
      if now - last_update_time c <? 1 then
        (mk_collector (symbols c) (Some m) (last_update_time c), [w_time])
      else
        let '(m, log) := publish_loop m 0 (symbols c) in
        let w_counter :=
          mk_write OFF_write_counter
                   (encode_le 8 (add64 (shm_write_counter m) 1)) in
        (mk_collector (symbols c) (Some (apply_write m w_counter)) now,
         w_time :: log ++ [w_counter])
  end.

(** ** Shared region reader ([display_symbol_data]) *)

Inductive line :=
| L_not_found
| L_offset_outside (symbol_offset : Z)
| L_cant_read_size (symbol_offset : Z)
| L_data_size (data_size : Z)
| L_no_data
| L_too_large (data_size available : Z)
| L_data_for
| L_incomplete_header (offset : Z)
| L_mismatch (header_symbol : cstring)
| L_trade (r : trade_record)
| L_invalid_trade (len offset : Z)
| L_kline (r : kline_record)
| L_invalid_kline (len offset : Z)
| L_unknown_type (ty offset : Z)
| L_no_valid
| L_more (record_count total : Z)
| L_blank.

(** What the reader does, in order: [Read off len] is a read by the frame
    walk of [len] bytes of a header or of a record at offset [off] past
    the size field of the slot, [ReadStr off len] the [len] bytes that
    [printf("%s")] reads from offset [off] on, the NUL included, [Print]
    a line of output, [Fault] a string read that ran off the end of the
    mapping, [Diverge] marks a walk cut short by the model's iteration
    bound. *)
Inductive event :=
| Read (offset len : Z)
| ReadStr (offset len : Z)
| Print (l : line)
| Fault
| Diverge.

(** [strcasecmp(p, s) == 0] for [p] the address [a] in the region,
    together with the number of bytes of the region it looked at. *)
Fixpoint strcasecmp_at (m : mem) (a : Z) (s : cstring) : bool * Z :=
  match s with
  | [] => (m a mod 256 =? 0, 1)
  | c :: s' =>
      if tolower (m a mod 256) =? tolower c then
        let '(r, n) := strcasecmp_at m (a + 1) s' in (r, n + 1)
      else (false, 1)
  end.

(** The first NUL byte in [[a, a + p)], searched by halving the range. *)
Fixpoint scan_nul (p : positive) (m : mem) (a : Z) : option Z :=
  match p with
  | xH => if m a mod 256 =? 0 then Some a else None
  | xO q =>
      match scan_nul q m a with
      | Some r => Some r
      | None => scan_nul q m (a + Zpos q)
      end
  | xI q =>
      match scan_nul q m a with
      | Some r => Some r
      | None =>
          match scan_nul q m (a + Zpos q) with
          | Some r => Some r
          | None =>
              if m (a + Zpos (xO q)) mod 256 =? 0
              then Some (a + Zpos (xO q)) else None
          end
      end
  end.

(** The C string at address [a], as [printf("%s")] reads it; [None] when
    no NUL byte is met before the end of the mapping. *)
Definition cstr_at (m : mem) (a : Z) : option cstring :=
  match SHM_SIZE - a with
  | Zpos p =>
      match scan_nul p m a with
      | Some r => Some (load_bytes m a (Z.to_nat (r - a)))
      | None => None
      end
  | _ => None
  end.

(** A value converted to [int], or an [unsigned int] printed with
    [%d]: its residue modulo 2^32 in [-2^31, 2^31). *)
Definition to_int (z : Z) : Z :=
  let w := z mod 2 ^ 32 in if w <? 2 ^ 31 then w else w - 2 ^ 32.

(** The lines printed after the [while] loop. The total of the last
    line is [(int)(data_size / 73)]. *)
Definition epilogue (data_size offset record_count : Z) : list event :=
  (if record_count =? 0 then [Print L_no_valid]
   else if offset <? data_size
        then [Print (L_more record_count
                       (to_int (data_size / trade_frame_size)))]
        else [])
  ++ [Print L_blank].

Section Walk.
Variable m : mem.
Variable symbol : cstring.
Variable max_records : Z.
(** [symbol_offset] after the size field has been skipped. *)
Variable base : Z.
Variable data_size : Z.

(** The [while (offset < data_size && record_count < max_records)] loop
    and what follows it. *)
Fixpoint walk (fuel : nat) (offset record_count : Z) : list event :=
  if (offset <? data_size) && (record_count <? max_records) then
    match fuel with
    | O => [Diverge]
    | S fuel' =>
        if add64 offset sizeof_message_header_t >? data_size then
          Print (L_incomplete_header offset)
            :: epilogue data_size offset record_count
        else
          let header := offset in
          let offset := add64 offset sizeof_message_header_t in
          let '(same, nread) := strcasecmp_at m (base + header + 16) symbol in
          Read (header + 16) nread ::
          if negb same then
            match cstr_at m (base + header + 16) with
            | None => [Fault]
            | Some hs =>
                ReadStr (header + 16) (Z.of_nat (length hs) + 1)
                  :: Print (L_mismatch hs)
                  :: walk fuel' (align8 offset) record_count
            end
          else
            let ty := load_u32 m (base + header) in
            Read header 4 ::
            if ty =? DATA_TYPE_TRADE then
              let len := load_u32 m (base + header + 4) in
              Read (header + 4) 4 ::
              if (add64 offset len >? data_size)
                 || negb (len =? sizeof_trade_record_t)
              then Print (L_invalid_trade len offset)
                     :: epilogue data_size offset record_count
              else
                Read offset sizeof_trade_record_t
                  :: Print (L_trade (decode_trade
                              (load_bytes m (base + offset) 41)))
                  :: walk fuel' (add64 offset len) (record_count + 1)
            else if ty =? DATA_TYPE_KLINE then
              let len := load_u32 m (base + header + 4) in
              Read (header + 4) 4 ::
              if (add64 offset len >? data_size)
                 || negb (len =? sizeof_kline_record_t)
              then Print (L_invalid_kline len offset)
                     :: epilogue data_size offset record_count
              else
                Read offset sizeof_kline_record_t
                  :: Print (L_kline (decode_kline
                              (load_bytes m (base + offset) 65)))
                  :: walk fuel' (add64 offset len) (record_count + 1)
            else
              Print (L_unknown_type (to_int ty)
                       (sub64 offset sizeof_message_header_t))
                :: walk fuel' (align8 offset) record_count
    end
  else epilogue data_size offset record_count.
End Walk.

(** Iterations that suffice for the walk: every iteration that goes on
    moves [offset] forward by at least one header. *)
Definition walk_fuel (data_size : Z) : nat :=
  Z.to_nat (data_size / sizeof_message_header_t + 1).

(** The directory lookup loop [strcasecmp(shm_header->symbols[i], symbol)].
    The index found is kept in an [int]; it is an unbounded [Z] here, as
    is [record_count] in the walk. *)
Fixpoint find_in_directory (m : mem) (symbol : cstring) (n : nat) (i : Z)
  : option Z :=
  match n with
  | O => None
  | S n' =>
      if fst (strcasecmp_at m (shm_symbol_addr i) symbol) then Some i
      else find_in_directory m symbol n' (i + 1)
  end.

Definition display_symbol_data (m : mem) (symbol : cstring) (max_records : Z)
  : list event :=
  match find_in_directory m symbol (Z.to_nat (shm_symbol_count m)) 0 with
  | None => [Print L_not_found]
  | Some symbol_idx =>
      let symbol_offset :=
        add64 (shm_data_offset m) (mul64 symbol_idx (shm_buffer_size m)) in
      if symbol_offset >=? SHM_SIZE then [Print (L_offset_outside symbol_offset)]
      else if add64 symbol_offset sizeof_size_t >? SHM_SIZE
      then [Print (L_cant_read_size symbol_offset)]
      else
        let data_size := load_u64 m symbol_offset in
        Print (L_data_size data_size) ::
        if data_size =? 0 then [Print L_no_data]
        else if data_size >? sub64 (shm_buffer_size m) sizeof_size_t then
          [Print (L_too_large data_size
                    (sub64 (shm_buffer_size m) sizeof_size_t))]
        else
          let symbol_offset := add64 symbol_offset sizeof_size_t in
          Print L_data_for
            :: walk m symbol max_records symbol_offset data_size
                    (walk_fuel data_size) 0 0
  end.

(** ** Notions used in the statements *)

(** What the appends of [l], oldest first, into an empty ring buffer
    leave behind: entry [k] of [l] sits at index [k mod 100] as long as
    it is among the last hundred. *)
Record ring_after {R : Type} (l : list (message_header * R)) (rb : ring R)
  : Prop := {
  ra_len_records : length (rb_records rb) = 100%nat;
  ra_len_headers : length (rb_headers rb) = 100%nat;
  ra_next : rb_next_index rb = Z.of_nat (length l) mod 100;
  ra_count : rb_count rb = Z.min (Z.of_nat (length l)) 100;
  ra_slot : forall k x,
    l !! k = Some x -> (length l <= k + 100)%nat ->
    rb_headers rb !! Z.to_nat (Z.of_nat k mod 100) = Some (fst x) /\
    rb_records rb !! Z.to_nat (Z.of_nat k mod 100) = Some (snd x)
}.

(** The region holds the bytes [bs] from address [a] on. *)
Definition holds (m : mem) (a : Z) (bs : list Z) : Prop :=
  forall k b, bs !! k = Some b -> m (a + Z.of_nat k) = b.

(** Number of bytes stored by a sequence of stores. *)
Definition bytes_written (ws : list write) : Z :=
  fold_right (fun w n => Z.of_nat (length (w_bytes w)) + n) 0 ws.

(** A frame as the publisher copies it: header bytes, then record bytes. *)
Definition frame_of {R : Type} (encode : R -> list Z)
    (x : message_header * R) : list Z * list Z :=
  (encode_header (fst x), encode (snd x)).
Definition trade_frame := frame_of encode_trade.
Definition kline_frame := frame_of encode_kline.

(** Whole frames stored back to back from address [a] on, header first. *)
Fixpoint layout (a : Z) (frames : list (list Z * list Z)) : list write :=
  match frames with
  | [] => []
  | (h, r) :: rest =>
      mk_write a h
        :: mk_write (a + Z.of_nat (length h)) r
        :: layout (a + Z.of_nat (length h) + Z.of_nat (length r)) rest
  end.

Definition frame_bytes (frames : list (list Z * list Z)) : list Z :=
  concat (map (fun f => fst f ++ snd f) frames).

(** Start of symbol [i]'s slot, and the stores that stay inside it. *)
Definition slot_start (m : mem) (i : Z) : Z :=
  shm_data_offset m + i * shm_buffer_size m.

Definition in_slot (m : mem) (i : Z) (w : write) : Prop :=
  slot_start m i <= w_addr w /\
  w_addr w + Z.of_nat (length (w_bytes w))
    <= slot_start m i + shm_buffer_size m.

(** The frames one pass publishes for a symbol: the oldest
    [trades_to_write] trade frames, then the oldest [klines_to_write]
    kline frames. *)
Definition published_trades (m : mem) (i : Z) (s : symbol_data)
  : list (message_header * trade_record) :=
  take (Z.to_nat (p_trades_to_write (publish_plan m i s)))
       (snapshot_in_order zero_trade (trades s)).

Definition published_klines (m : mem) (i : Z) (s : symbol_data)
  : list (message_header * kline_record) :=
  take (Z.to_nat (p_klines_to_write (publish_plan m i s)))
       (snapshot_in_order zero_kline (klines s)).

Definition published_frames (m : mem) (i : Z) (s : symbol_data)
  : list (list Z * list Z) :=
  map trade_frame (published_trades m i s)
  ++ map kline_frame (published_klines m i s).

(** Bytes needed for everything the two ring buffers hold. *)
Definition serialized_size (s : symbol_data) : Z :=
  rb_count (trades s) * trade_frame_size
  + rb_count (klines s) * kline_frame_size.

(** Usable bytes of a slot: [buffer_size - sizeof(size_t)]. *)
Definition slot_capacity (m : mem) : Z := shm_buffer_size m - sizeof_size_t.

(** Sanity of the state the publisher works on. *)
Definition counts_okb {R : Type} (rb : ring R) : bool :=
  (0 <=? rb_count rb) && (rb_count rb <=? MAX_RECORDS_PER_SYMBOL)
  && (0 <=? rb_next_index rb) && (rb_next_index rb <? MAX_RECORDS_PER_SYMBOL).

Definition rings_okb (s : symbol_data) : bool :=
  counts_okb (trades s) && counts_okb (klines s).

(** The header describes [n] slots that lie behind it and inside the
    region, each with room for its size field. *)
Definition region_okb (m : mem) (n : Z) : bool :=
  (sizeof_shared_memory_header_t <=? shm_data_offset m)
  && (sizeof_size_t <=? shm_buffer_size m)
  && (0 <=? n)
  && (shm_data_offset m + n * shm_buffer_size m <=? SHM_SIZE).

(** The slot stores of one pass over [syms], symbol [i] first, all
    computed against the header found in [m]. *)
Fixpoint slots_log (m : mem) (i : Z) (syms : list symbol_data) : list write :=
  match syms with
  | [] => []
  | s :: rest => publish_symbol m i s ++ slots_log m (i + 1) rest
  end.

(** The store a pass opens with, and the one a rewriting pass ends with. *)
Definition time_store (now : Z) : write :=
  mk_write OFF_last_update_time (encode_le 8 now).
Definition counter_store (m : mem) : write :=
  mk_write OFF_write_counter (encode_le 8 (add64 (shm_write_counter m) 1)).

(** A pass rewrote the region when it bumped [write_counter]. *)
Definition is_rewrite (log : list write) : bool :=
  existsb (fun w => w_addr w =? OFF_write_counter) log.

(** The publisher thread calling [update_shared_memory] at the times
    [nows]: the times of the passes that rewrote the region. *)
Fixpoint rewrite_times (c : collector) (nows : list Z) : list Z :=
  match nows with
  | [] => []
  | now :: rest =>
      let '(c', log) := update_shared_memory c now in
      (if is_rewrite log then [now] else []) ++ rewrite_times c' rest
  end.

(** Every element exceeds its predecessor ([lo] for the first) by at
    least one. *)
Fixpoint spaced (lo : Z) (l : list Z) : Prop :=
  match l with
  | [] => True
  | a :: rest => lo + 1 <= a /\ spaced a rest
  end.

(** The bytes a pass leaves in symbol [i]'s slot: the size field, then
    the published frames. *)
Definition slot_image (m : mem) (i : Z) (s : symbol_data) : list Z :=
  encode_le 8 (p_total_data_size (publish_plan m i s))
  ++ frame_bytes (published_frames m i s).


(** Records the reader displayed, in order. *)
Inductive decoded := D_trade (r : trade_record) | D_kline (r : kline_record).

Fixpoint printed_records (evs : list event) : list decoded :=
  match evs with
  | [] => []
  | Print (L_trade r) :: rest => D_trade r :: printed_records rest
  | Print (L_kline r) :: rest => D_kline r :: printed_records rest
  | _ :: rest => printed_records rest
  end.

(** The displayed records, each with the offset of the frame (of its
    header) it was decoded from: the payload read just before the print
    is [sizeof(message_header_t)] past it. *)
Fixpoint decoded_frames (evs : list event) : list (Z * decoded) :=
  match evs with
  | [] => []
  | Read p _ :: rest =>
      match rest with
      | Print (L_trade r) :: _ =>
          (p - sizeof_message_header_t, D_trade r) :: decoded_frames rest
      | Print (L_kline r) :: _ =>
          (p - sizeof_message_header_t, D_kline r) :: decoded_frames rest
      | _ => decoded_frames rest
      end
  | _ :: rest => decoded_frames rest
  end.

(** Number of resynchronisations after a symbol mismatch. *)
Fixpoint mismatch_count (evs : list event) : Z :=
  match evs with
  | [] => 0
  | Print (L_mismatch _) :: rest => 1 + mismatch_count rest
  | _ :: rest => mismatch_count rest
  end.



(** A header or record read that stays inside the declared size. *)
Definition read_within (data_size : Z) (e : event) : Prop :=
  match e with
  | Read off len => 0 <= off /\ 0 < len /\ off + len <= data_size
  | _ => True
  end.

(** What ingestion leaves in a symbol: a name that fits its array, and
    in the live part of each ring buffer headers of the right type and
    length carrying the symbol, with records whose fields are in range. *)
Definition name_okb (nm : cstring) : bool :=
  (Z.of_nat (length nm) <=? 15) && forallb byte_okb nm.

Definition header_okb (ty len : Z) (nm : cstring) (h : message_header) : bool :=
  (hdr_type h =? ty) && (hdr_length h =? len)
  && bool_decide (hdr_symbol h = symbol_field nm).

Definition symbol_okb (s : symbol_data) : bool :=
  rings_okb s && name_okb (name s)
  && forallb (fun x => header_okb DATA_TYPE_TRADE sizeof_trade_record_t
                                  (name s) (fst x) && trade_okb (snd x))
             (snapshot_in_order zero_trade (trades s))
  && forallb (fun x => header_okb DATA_TYPE_KLINE sizeof_kline_record_t
                                  (name s) (fst x) && kline_okb (snd x))
             (snapshot_in_order zero_kline (klines s)).

(** A symbol as ingestion from the initial state leaves it: its ring
    buffers are what some sequences of appends produce, every appended
    header carrying the symbol's name and the type and length of its
    kind, every appended record within the ranges of its fields. *)
Definition symbol_inv (s : symbol_data) : Prop :=
  name_okb (name s) = true /\
  exists lt lk,
    ring_after lt (trades s) /\ ring_after lk (klines s) /\
    forallb (fun x => header_okb DATA_TYPE_TRADE sizeof_trade_record_t
                                 (name s) (fst x) && trade_okb (snd x)) lt
      = true /\
    forallb (fun x => header_okb DATA_TYPE_KLINE sizeof_kline_record_t
                                 (name s) (fst x) && kline_okb (snd x)) lk
      = true.

(** What [ws_callback] hands to the two handlers, one message at a
    time, and what the handler meets: the symbol of the stream, the
    decoded record, the results of [fwrite] and of [fflush], and the
    time. *)
Inductive feed_event :=
| Feed_trade (symbol : cstring) (r : trade_record)
    (fwrite_result fflush_result : Z) (now : Z)
| Feed_kline (symbol : cstring) (r : kline_record)
    (fwrite_result fflush_result : Z) (now : Z).

Definition ingest (syms : list symbol_data) (e : feed_event)
  : list symbol_data :=
  match e with
  | Feed_trade symbol r w f now =>
      fst (handle_aggTrade syms symbol r w f now)
  | Feed_kline symbol r w f now =>
      fst (handle_kline syms symbol r w f now)
  end.

Definition feed_okb (e : feed_event) : bool :=
  match e with
  | Feed_trade _ r _ _ _ => trade_okb r
  | Feed_kline _ r _ _ _ => kline_okb r
  end.

(** A symbol name on the command line that fits [char name[16]]. *)
Definition char_okb (c : Z) : bool := (1 <=? c) && (c <? 256).
Definition symbol_name_okb (nm : cstring) : bool :=
  (Z.of_nat (length nm) <=? 15) && forallb char_okb nm.

(** ** Example data *)

Definition c_str (s : string) : cstring :=
  map (fun a => Z.of_N (N_of_ascii a)) (list_ascii_of_string s).

Definition BTCUSDT : cstring := c_str "BTCUSDT".

(** The binary64 patterns of 10000.0, 10001.5 and 9999.25. *)
Definition price_10000_0 : Z := 0x40C3880000000000.
Definition price_10001_5 : Z := 0x40C388C000000000.
Definition price_9999_25 : Z := 0x40C387A000000000.

(** The value of a binary64 pattern of a positive normal number, as the
    pair (numerator, denominator exponent): the number is
    [numerator / 2 ^ exponent]. *)
Definition binary64_normal (bits : Z) : Z * Z :=
  let e := (bits / 2 ^ 52) mod 2 ^ 11 in
  let f := bits mod 2 ^ 52 in
  if e <? 1075 then (2 ^ 52 + f, 1075 - e)
  else ((2 ^ 52 + f) * 2 ^ (e - 1075), 0).

Definition ex_trade (t p : Z) : trade_record := mk_trade t t p 1 t 0.

Definition ex_symbols : list symbol_data := [init_symbol_data BTCUSDT].

(** The region as [init_shared_memory] leaves it for [ex_symbols]. *)
Definition ex_region : mem :=
  apply_writes (fun _ => 0) (init_shared_memory ex_symbols 1000).

(** The same region with a header announcing 108-byte slots. *)
Definition ex_small_region : mem :=
  store_bytes ex_region OFF_buffer_size (encode_le 8 108).

(** BTCUSDT after three trades at the prices 10000.0, 10001.5, 9999.25. *)
Definition ex_symbols_3 : list symbol_data :=
  let s1 := fst (handle_aggTrade ex_symbols BTCUSDT
                   (ex_trade 1 price_10000_0) 1 0 1001) in
  let s2 := fst (handle_aggTrade s1 BTCUSDT
                   (ex_trade 2 price_10001_5) 1 0 1001) in
  fst (handle_aggTrade s2 BTCUSDT (ex_trade 3 price_9999_25) 1 0 1002).

Definition ex_symbol_3 : symbol_data :=
  default (init_symbol_data BTCUSDT) (ex_symbols_3 !! 0%nat).

Definition ex_collector : collector :=
  mk_collector ex_symbols_3 (Some ex_region) 0.

(** The region after [ex_collector]'s pass at time 1003. *)
Definition ex_published : mem :=
  default ex_region
          (shared_memory (fst (update_shared_memory ex_collector 1003))).

(** The same, with the symbol in the header of the second frame
    overwritten by ETHUSDT. *)
Definition ex_corrupted : mem :=
  apply_write ex_published
    (mk_write (256 + 8 + 73 + 16) (symbol_field (c_str "ETHUSDT"))).

(** A slot announcing 32 bytes: one header whose symbol field holds 16
    times 'X' and no NUL, with "YY" and a NUL right behind it. *)
Definition ex_unterminated : mem :=
  apply_writes ex_region
    [mk_write 256 (encode_le 8 32);
     mk_write 264 (encode_le 4 DATA_TYPE_TRADE
                   ++ encode_le 4 sizeof_trade_record_t
                   ++ encode_le 8 0 ++ replicate 16 88);
     mk_write 296 [89; 89]].

(** A slot of BTCUSDT that starts with [n] headers carrying the symbol
    "X" and goes on with one trade frame of BTCUSDT. *)
Definition ex_bad_header : message_header :=
  make_header DATA_TYPE_TRADE sizeof_trade_record_t 1001 (c_str "X").

Definition ex_good_header : message_header :=
  make_header DATA_TYPE_TRADE sizeof_trade_record_t 1001 BTCUSDT.

Definition ex_retries (n : nat) : mem :=
  apply_writes ex_region
    [mk_write 256 (encode_le 8 (32 * Z.of_nat n + 73));
     mk_write 264
       (concat (replicate n (encode_header ex_bad_header))
        ++ encode_header ex_good_header
        ++ encode_trade (ex_trade 1 price_10000_0))].


(** ** Command line of the collector ([main]) *)

(** [toupper] in the C locale; [tolower] is above. *)
Definition toupper (c : Z) : Z :=
  if (97 <=? c) && (c <=? 122) then c - 32 else c.

(** [strsep(&str, ",")]: the token returned and the new value of [str],
    [None] for [NULL]. *)
Fixpoint strsep (str : cstring) : cstring * option cstring :=
  match str with
  | [] => ([], None)
  | c :: rest =>
      if c =? 44 then ([], Some rest)
      else let '(token, str') := strsep rest in (c :: token, str')
  end.

(** [while ((token = strsep(&str, ","))) symbol_list[sym_count++] = strdup(token);]
    The loop ends when [str] is [NULL]; [fuel] bounds its iterations. *)
Fixpoint strsep_loop (fuel : nat) (str : option cstring) : list cstring :=
  match fuel, str with
  | S fuel', Some s =>
      let '(token, str') := strsep s in token :: strsep_loop fuel' str'
  | _, _ => []
  end.

(** The [-s] option: [symbol_list], whose length is [symbol_count]. Every
    iteration but the last removes a comma, so the length of the argument
    plus one is an iteration bound. *)
Definition parse_symbol_list (optarg : cstring) : list cstring :=
  strsep_loop (S (length optarg)) (Some optarg).

(** [main] between the option loop and [init_shared_memory], on the path
    where every directory and file can be created: [None] is the exit
    with "At least one symbol must be specified", otherwise the symbol
    table, cut to [MAX_SYMBOLS] entries, every name upper-cased and copied
    with [strncpy(.., MAX_SYMBOL_LENGTH - 1)]. [symbol_list] is [None]
    when no [-s] option was given. *)
Definition main_symbols (symbol_list : option (list cstring))
  : option (list symbol_data) :=
  let symbol_list := default [] symbol_list in
  let symbol_count := Z.of_nat (length symbol_list) in
  if symbol_count =? 0 then None
  else
    let symbol_count :=
      if symbol_count >? MAX_SYMBOLS then MAX_SYMBOLS else symbol_count in
    Some (map (fun symbol => init_symbol_data (map toupper symbol))
              (take (Z.to_nat symbol_count) symbol_list)).

(** The loop that appends the two streams of every symbol to
    [stream_path] with [strcat]. *)
Fixpoint stream_path_loop (syms : list symbol_data) (i : Z)
    (stream_path : cstring) : cstring :=
  match syms with
  | [] => stream_path
  | s :: rest =>
      let lower_symbol := map tolower (take 15 (name s)) in
      let stream_path :=
        if i >? 0 then stream_path ++ c_str "/" else stream_path in
      let stream_path := stream_path ++ lower_symbol in
      let stream_path := stream_path ++ c_str "@aggTrade" in
      let stream_path := stream_path ++ c_str "/" in
      let stream_path := stream_path ++ lower_symbol in
      let stream_path := stream_path ++ c_str "@kline_1m" in
      stream_path_loop rest (i + 1) stream_path
  end.

(** The contents of [char stream_path[1024]] when [main] connects. *)
Definition build_stream_path (syms : list symbol_data) : cstring :=
  stream_path_loop syms 0 (([] ++ c_str "/stream") ++ c_str "?streams=").

Definition sizeof_stream_path : Z := 1024.

(** The two stream names [main] subscribes to for a symbol. *)
Definition aggTrade_stream (s : symbol_data) : cstring :=
  map tolower (take 15 (name s)) ++ c_str "@aggTrade".
Definition kline_stream (s : symbol_data) : cstring :=
  map tolower (take 15 (name s)) ++ c_str "@kline_1m".

(** ** Messages of the feed ([ws_callback] and the JSON part of the handlers) *)

(** The symbol loop of [ws_callback]:
    [while (stream[i] != '@' && stream[i] != 0 && i < MAX_SYMBOL_LENGTH - 1)]. *)
Fixpoint stream_symbol_loop (n : nat) (stream : cstring) : cstring :=
  match n, stream with
  | S n', c :: rest =>
      if c =? 64 then [] else toupper c :: stream_symbol_loop n' rest
  | _, _ => []
  end.

Definition stream_symbol (stream : cstring) : cstring :=
  stream_symbol_loop 15 stream.

Fixpoint starts_with (needle haystack : cstring) : bool :=
  match needle, haystack with
  | [], _ => true
  | c :: needle', d :: haystack' => (c =? d) && starts_with needle' haystack'
  | _ :: _, [] => false
  end.

(** [strstr(haystack, needle) != NULL]. *)
Fixpoint strstr (haystack needle : cstring) : bool :=
  starts_with needle haystack
  || match haystack with
     | [] => false
     | _ :: rest => strstr rest needle
     end.

Inductive lws_callback_reasons :=
| LWS_CALLBACK_CLIENT_ESTABLISHED
| LWS_CALLBACK_CLIENT_RECEIVE
| LWS_CALLBACK_CLIENT_CONNECTION_ERROR
| LWS_CALLBACK_CLOSED
| LWS_CALLBACK_other.

(** What a call of [ws_callback] came to. *)
Inductive ws_result :=
| WS_logged
| WS_parse_failed
| WS_no_stream
| WS_no_data
| WS_other_stream
| WS_unknown_symbol
| WS_no_kline_object
| WS_write_failed
| WS_ingested.

Definition ws_of_ingest (r : ingest_result) : ws_result :=
  match r with
  | Ingested => WS_ingested
  | UnknownSymbol => WS_unknown_symbol
  | WriteFailed => WS_write_failed
  end.

(** json-c is outside the repository: its objects and the accessors the
    collector calls are parameters. [json_object_object_get_ex] gives the
    member when the key is present, [json_object_get_string] gives [None]
    for a [NULL] result. *)
Section JsonC.
Variable json : Type.
Variable json_object_object_get_ex : json -> string -> option json.
Variable json_object_get_string : json -> option cstring.
Variable json_object_get_int64 : json -> Z.
Variable json_object_get_double : json -> Z.
Variable json_object_get_boolean : json -> bool.

(** [if (json_object_object_get_ex(root, key, &obj)) field = conv(obj);]
    the new value of the field, [old] being what it held. *)
Definition assign_if_present {A : Type} (root : json) (key : string)
    (conv : json -> A) (old : A) : A :=
  match json_object_object_get_ex root key with
  | Some obj => conv obj
  | None => old
  end.

Definition bool_to_uint8 (obj : json) : Z :=
  if json_object_get_boolean obj then 1 else 0.

(** The extraction of [handle_aggTrade]: six conditional assignments,
    each to a field of its own. [record] comes in as the uninitialised
    local and keeps the fields whose key is absent. *)
Definition extract_trade (root : json) (record : trade_record) : trade_record :=
  {| event_time :=
       assign_if_present root "E" json_object_get_int64 (event_time record);
     trade_time :=
       assign_if_present root "T" json_object_get_int64 (trade_time record);
     price :=
       assign_if_present root "p" json_object_get_double (price record);
     quantity :=
       assign_if_present root "q" json_object_get_double (quantity record);
     trade_id :=
       assign_if_present root "a" json_object_get_int64 (trade_id record);
     is_buyer_maker :=
       assign_if_present root "m" bool_to_uint8 (is_buyer_maker record) |}.

(** The extraction of [handle_kline] from the ["k"] object. *)
Definition extract_kline (k_obj : json) (record : kline_record) : kline_record :=
  {| open_time :=
       assign_if_present k_obj "t" json_object_get_int64 (open_time record);
     close_time :=
       assign_if_present k_obj "T" json_object_get_int64 (close_time record);
     open_price :=
       assign_if_present k_obj "o" json_object_get_double (open_price record);
     close_price :=
       assign_if_present k_obj "c" json_object_get_double (close_price record);
     high_price :=
       assign_if_present k_obj "h" json_object_get_double (high_price record);
     low_price :=
       assign_if_present k_obj "l" json_object_get_double (low_price record);
     volume :=
       assign_if_present k_obj "v" json_object_get_double (volume record);
     num_trades :=
       assign_if_present k_obj "n" json_object_get_int64 (num_trades record);
     is_final :=
       assign_if_present k_obj "x" bool_to_uint8 (is_final record) |}.

(** [handle_aggTrade(root, symbol)] as a whole: lookup, extraction, then
    the write and the append of [handle_aggTrade] above. [uninit] is
    what the local [record] holds before the extraction. *)
Definition handle_aggTrade_msg (syms : list symbol_data) (root : json)
    (symbol : cstring) (uninit : trade_record)
    (fwrite_result fflush_result : Z) (now : Z)
  : list symbol_data * ws_result :=
  match find_symbol syms symbol 0 with
  | None => (syms, WS_unknown_symbol)
  | Some _ =>
      let record := extract_trade root uninit in
      let '(syms', r) :=
        handle_aggTrade syms symbol record fwrite_result fflush_result now in
      (syms', ws_of_ingest r)
  end.

(** [handle_kline(root, symbol)] as a whole. *)
Definition handle_kline_msg (syms : list symbol_data) (root : json)
    (symbol : cstring) (uninit : kline_record)
    (fwrite_result fflush_result : Z) (now : Z)
  : list symbol_data * ws_result :=
  match find_symbol syms symbol 0 with
  | None => (syms, WS_unknown_symbol)
  | Some _ =>
      match json_object_object_get_ex root "k" with
      | None => (syms, WS_no_kline_object)
      | Some k_obj =>
          let record := extract_kline k_obj uninit in
          let '(syms', r) :=
            handle_kline syms symbol record fwrite_result fflush_result now in
          (syms', ws_of_ingest r)
      end
  end.

(** [ws_callback]. [root] is the result of [json_tokener_parse] on the
    payload ([None] for [NULL]); it is only looked at for
    [LWS_CALLBACK_CLIENT_RECEIVE]. A callback that returns, returns 0.
    The result is [None] when the callback does not return: the string
    of the ["stream"] member is [NULL] and the symbol loop reads
    [stream[0]] through it without a test, which is undefined behaviour
    (the process is killed by the fault). *)
Definition ws_callback (syms : list symbol_data)
    (reason : lws_callback_reasons) (root : option json)
    (uninit_trade : trade_record) (uninit_kline : kline_record)
    (fwrite_result fflush_result : Z) (now : Z)
  : option (list symbol_data * ws_result) :=
  match reason with
  | LWS_CALLBACK_CLIENT_RECEIVE =>
      match root with
      | None => Some (syms, WS_parse_failed)
      | Some root =>
          match json_object_object_get_ex root "stream" with
          | None => Some (syms, WS_no_stream)
          | Some stream_obj =>
              match json_object_get_string stream_obj with
              | None => None
              | Some stream =>
                  let symbol := stream_symbol stream in
                  match json_object_object_get_ex root "data" with
                  | None => Some (syms, WS_no_data)
                  | Some data_obj =>
                      if strstr stream (c_str "@aggTrade") then
                        Some (handle_aggTrade_msg syms data_obj symbol
                                uninit_trade fwrite_result fflush_result now)
                      else if strstr stream (c_str "@kline") then
                        Some (handle_kline_msg syms data_obj symbol
                                uninit_kline fwrite_result fflush_result now)
                      else Some (syms, WS_other_stream)
                  end
              end
          end
      end
  | _ => Some (syms, WS_logged)
  end.
End JsonC.

(** ** The file readers (trade_reader.c, kline_reader.c) *)

(** [format_timestamp]: the [time_t] handed to [localtime], the
    milliseconds divided by 1000 towards zero. *)
Definition format_timestamp (timestamp : Z) : Z := Z.quot timestamp 1000.

(** What the two tools print. The four lines on the file are one
    [FL_file_info]; a row carries the numbers handed to [printf], the two
    times as [format_timestamp] gives them, the flag as Yes/No. *)
Inductive file_line :=
| FL_usage
| FL_invalid_count
| FL_open_failed
| FL_file_info (file_size record_size record_count : Z)
| FL_column_titles
| FL_column_rule
| FL_trade (event_time_s trade_time_s price quantity trade_id : Z)
           (buyer_maker : bool)
| FL_kline (open_time_s close_time_s open close high low volume
            num_trades : Z) (final : bool)
| FL_displayed (count record_count : Z).

Definition trade_row (bs : list Z) : file_line :=
  let record := decode_trade bs in
  FL_trade (format_timestamp (event_time record))
           (format_timestamp (trade_time record))
           (price record) (quantity record) (trade_id record)
           (negb (is_buyer_maker record =? 0)).

Definition kline_row (bs : list Z) : file_line :=
  let record := decode_kline bs in
  FL_kline (format_timestamp (open_time record))
           (format_timestamp (close_time record))
           (open_price record) (close_price record)
           (high_price record) (low_price record)
           (volume record) (num_trades record)
           (negb (is_final record =? 0)).

(** The two [main] functions differ in the record type only. [atoi] and
    the file system ([fopen] followed by reading the whole file: [None]
    when the file cannot be opened) are parameters; [argv] is the
    argument vector without the program name. *)
Section FileReader.
Variable sizeof_record : Z.
Variable row : list Z -> file_line.
Variable atoi : cstring -> Z.
Variable fopen : cstring -> option (list Z).

(** [while (fread(&record, record_size, 1, file) == 1)]: [rest] is the
    unread part of the file, [count] is kept unbounded. Every iteration
    consumes a record, so the number of bytes in the file is an
    iteration bound. *)
Fixpoint read_loop (fuel : nat) (max_count : Z) (rest : list Z) (count : Z)
  : list file_line * Z :=
  match fuel with
  | O => ([], count)
  | S fuel' =>
      if sizeof_record <=? Z.of_nat (length rest) then
        let record := take (Z.to_nat sizeof_record) rest in
        let rest := drop (Z.to_nat sizeof_record) rest in
        if (max_count >? 0) && (count >=? max_count) then ([], count)
        else
          let '(rows, count') := read_loop fuel' max_count rest (count + 1) in
          (row record :: rows, count')
      else ([], count)
  end.

(** [main]: the lines printed and the exit status. *)
Definition file_reader_main (argv : list cstring) : list file_line * Z :=
  match argv with
  | [] => ([FL_usage], 1)
  | file_path :: more =>
      let max_count :=
        match more with
        | [] => -1
        | count_arg :: _ => atoi count_arg
        end in
      if match more with [] => false | _ :: _ => max_count <=? 0 end
      then ([FL_invalid_count], 1)
      else
        match fopen file_path with
        | None => ([FL_open_failed], 1)
        | Some contents =>
            let file_size := Z.of_nat (length contents) in
            let record_size := sizeof_record in
            let record_count := file_size / record_size in
            let '(rows, count) :=
              read_loop (S (length contents)) max_count contents 0 in
            (FL_file_info file_size record_size record_count
               :: FL_column_titles :: FL_column_rule
               :: rows ++ [FL_displayed count record_count], 0)
        end
  end.
End FileReader.

Definition trade_reader_main := file_reader_main sizeof_trade_record_t trade_row.
Definition kline_reader_main := file_reader_main sizeof_kline_record_t kline_row.

(** The records for which [fwrite] answered 1 on a symbol's two
    streams, as bytes, one record behind the other: what the two files
    hold when every such record reached them and nothing else did. *)
Definition trade_file_bytes (s : symbol_data) : list Z :=
  concat (map encode_trade (fwritten (trade_file s))).
Definition kline_file_bytes (s : symbol_data) : list Z :=
  concat (map encode_kline (fwritten (kline_file s))).

(** ** The rest of the shared region reader *)

(** [print_formatted_time]: the [time_t] handed to [localtime] and the
    number printed with [%03lld] behind the point; [/] and [%] are C's,
    towards zero. *)
Definition print_formatted_time (timestamp : Z) : Z * Z :=
  (Z.quot timestamp 1000, Z.rem timestamp 1000).

Definition is_fault (e : event) : bool :=
  match e with Fault => true | _ => false end.

(** The loop of [display_all_symbols_data] from entry [i] on: the
    argument of each call is the string found in the directory, the
    search for its end faulting when no NUL follows it in the mapping.
    Nothing runs after a fault. *)
Fixpoint display_all_loop (m : mem) (max_records : Z) (n : nat) (i : Z)
  : list event :=
  match n with
  | O => []
  | S n' =>
      match cstr_at m (shm_symbol_addr i) with
      | None => [Fault]
      | Some symbol =>
          let evs := display_symbol_data m symbol max_records in
          if existsb is_fault evs then evs
          else evs ++ display_all_loop m max_records n' (i + 1)
      end
  end.

Definition display_all_symbols_data (m : mem) (max_records : Z) : list event :=
  display_all_loop m max_records (Z.to_nat (shm_symbol_count m)) 0.

(** ** [print_shared_memory_info] and [main] of the shared region reader *)

Definition int_okb (z : Z) : bool := (- 2 ^ 31 <=? z) && (z <? 2 ^ 31).

(** The lines of [print_shared_memory_info]. [I_since (Some d)] is the
    number printed when [(int)difftime(..)] is exact: both times are
    held exactly by a [double] and their difference fits an [int];
    [I_since None] leaves the number open otherwise. [I_fault] is a name
    without a NUL before the end of the mapping. *)
Inductive info_line :=
| I_title
| I_last_update (last_update : Z)
| I_since (seconds : option Z)
| I_write_counter (n : Z)
| I_symbol_count (n : Z)
| I_symbol (nm : cstring)
| I_symbols_end
| I_layout (header_size data_offset buffer_size total : Z)
| I_fault.

(** The loop [printf("%s ", shm_header->symbols[i])]. *)
Fixpoint info_symbols (m : mem) (n : nat) (i : Z) : list info_line * bool :=
  match n with
  | O => ([], true)
  | S n' =>
      match cstr_at m (shm_symbol_addr i) with
      | None => ([I_fault], false)
      | Some nm =>
          let '(ls, ok) := info_symbols m n' (i + 1) in (I_symbol nm :: ls, ok)
      end
  end.

(** [print_shared_memory_info] at [current_time = time(NULL)]. *)
Definition print_shared_memory_info (m : mem) (current_time : Z)
  : list info_line :=
  let last_update := signed64 (shm_last_update_time m) in
  let difference := current_time - last_update in
  let seconds_since_update :=
    if int_okb difference
       && (Z.abs current_time <? 2 ^ 53) && (Z.abs last_update <? 2 ^ 53)
    then Some difference else None in
  let '(names, ok) := info_symbols m (Z.to_nat (shm_symbol_count m)) 0 in
  [I_title; I_last_update last_update; I_since seconds_since_update;
   I_write_counter (shm_write_counter m);
   I_symbol_count (shm_symbol_count m)]
  ++ names
  ++ (if ok
      then [I_symbols_end;
            I_layout sizeof_shared_memory_header_t (shm_data_offset m)
                     (shm_buffer_size m) SHM_SIZE]
      else []).

(** What [getopt(argc, argv, "s:ci:n:h")] returns, call after call. *)
Inductive reader_opt :=
| RO_s (optarg : cstring)
| RO_c
| RO_i (optarg : cstring)
| RO_n (optarg : cstring)
| RO_h
| RO_unknown.

Record reader_config := mk_reader_config {
  cfg_continuous : bool;
  cfg_interval_ms : Z;
  cfg_specific_symbol : option cstring;
  cfg_max_records : Z
}.

(** The initial values of [continuous], [interval_ms], [specific_symbol]
    and of the global [max_records]. *)
Definition reader_defaults : reader_config :=
  mk_reader_config false 1000 None 10.

(** The option loop of [main]: the settings, or the exit status after
    the usage text. *)
Fixpoint reader_options (atoi : cstring -> Z) (opts : list reader_opt)
    (cfg : reader_config) : reader_config + Z :=
  match opts with
  | [] => inl cfg
  | c :: rest =>
      match c with
      | RO_s optarg =>
          reader_options atoi rest
            (mk_reader_config (cfg_continuous cfg) (cfg_interval_ms cfg)
                              (Some optarg) (cfg_max_records cfg))
      | RO_c =>
          reader_options atoi rest
            (mk_reader_config true (cfg_interval_ms cfg)
                              (cfg_specific_symbol cfg) (cfg_max_records cfg))
      | RO_i optarg =>
          let interval_ms := atoi optarg in
          let interval_ms := if interval_ms <? 100 then 100 else interval_ms in
          reader_options atoi rest
            (mk_reader_config (cfg_continuous cfg) interval_ms
                              (cfg_specific_symbol cfg) (cfg_max_records cfg))
      | RO_n optarg =>
          let max_records := atoi optarg in
          let max_records := if max_records <? 1 then 1 else max_records in
          reader_options atoi rest
            (mk_reader_config (cfg_continuous cfg) (cfg_interval_ms cfg)
                              (cfg_specific_symbol cfg) max_records)
      | RO_h => inr 0
      | RO_unknown => inr 1
      end
  end.

(** One round of display: the information on the region, then one
    symbol or all of them. *)
Definition reader_round (cfg : reader_config) (m : mem) (current_time : Z)
  : list info_line * list event :=
  (print_shared_memory_info m current_time,
   match cfg_specific_symbol cfg with
   | Some symbol => display_symbol_data m symbol (cfg_max_records cfg)
   | None => display_all_symbols_data m (cfg_max_records cfg)
   end).

Inductive reader_output :=
| RD_usage
| RD_no_shared_memory
| RD_once (round : list info_line * list event)
| RD_continuous (rounds : list (list info_line * list event)).

(** [main]. [shm] is the region and the clock when [shm_open] and [mmap]
    succeed. In continuous mode [iterations] lists the region and the
    clock as each iteration of the loop finds them before [force_exit]
    is set (the pause between iterations is not modelled); otherwise
    there is the single round on [shm]. *)
Definition reader_main (atoi : cstring -> Z) (opts : list reader_opt)
    (shm : option (mem * Z)) (iterations : list (mem * Z))
  : reader_output * Z :=
  match reader_options atoi opts reader_defaults with
  | inr status => (RD_usage, status)
  | inl cfg =>
      match shm with
      | None => (RD_no_shared_memory, 1)
      | Some (m, current_time) =>
          if cfg_continuous cfg then
            (RD_continuous
               (map (fun st => reader_round cfg (fst st) (snd st))
                    iterations), 0)
          else (RD_once (reader_round cfg m current_time), 0)
      end
  end.

(** ** The two threads of the collector taken together *)

(** One step of the process: the feed delivers a message to a handler,
    or the publisher thread calls [update_shared_memory] at a time.
    Each handler call and each pass is taken as one step: a handler call
    that comes between two symbols of a pass is not modelled. *)
Inductive step :=
| Step_feed (e : feed_event)
| Step_update (now : Z).

Definition run_step (c : collector) (st : step) : collector :=
  match st with
  | Step_feed e =>
      mk_collector (ingest (symbols c) e) (shared_memory c)
                   (last_update_time c)
  | Step_update now => fst (update_shared_memory c now)
  end.

Definition run (c : collector) (sts : list step) : collector :=
  fold_left run_step sts c.

(** The passes of a run that rewrote the slots. *)
Fixpoint rewrites (c : collector) (sts : list step) : Z :=
  match sts with
  | [] => 0
  | st :: rest =>
      (match st with
       | Step_update now =>
           if is_rewrite (snd (update_shared_memory c now)) then 1 else 0
       | Step_feed _ => 0
       end) + rewrites (run_step c st) rest
  end.

(** The state [main] reaches before it starts the threads: the symbol
    table of the command line and the region as [init_shared_memory]
    leaves it, mapped over [m0], at time [t0]. *)
Definition start (names : list cstring) (m0 : mem) (t0 : Z) : collector :=
  let syms := map init_symbol_data names in
  mk_collector syms (Some (apply_writes m0 (init_shared_memory syms t0))) 0.

(** The time of the last call of [update_shared_memory] in a run started
    at [t0]. *)
Fixpoint last_update_call (t0 : Z) (sts : list step) : Z :=
  match sts with
  | [] => t0
  | Step_update now :: rest => last_update_call now rest
  | Step_feed _ :: rest => last_update_call t0 rest
  end.

(** A run whose feed delivers records within the ranges of their fields. *)
Definition step_okb (st : step) : bool :=
  match st with
  | Step_feed e => feed_okb e
  | Step_update _ => true
  end.

(** ** Further notions used in the statements *)

(** Strings put together with a separator between them. *)
Fixpoint join_with (sep : Z) (tokens : list cstring) : cstring :=
  match tokens with
  | [] => []
  | t :: rest =>
      match rest with
      | [] => t
      | _ :: _ => t ++ sep :: join_with sep rest
      end
  end.

(** The streams [main] subscribes to, in the order of the path. *)
Definition subscribed_streams (syms : list symbol_data) : list cstring :=
  concat (map (fun s => [aggTrade_stream s; kline_stream s]) syms).

Definition is_lower (c : Z) : Prop := 97 <= c <= 122.

(** A table entry without its two streams: the name, [recent_data]
    and the four counters. *)
Definition in_memory (s : symbol_data)
  : cstring * ring trade_record * ring kline_record * Z * Z * Z * Z :=
  (name s, trades s, klines s, trade_count s, kline_count s,
   message_count s, bytes_processed s).

(** The counters and ring buffers of a symbol in terms of the records
    [fwrite] reported written on its two streams. *)
Definition stats_inv (s : symbol_data) : Prop :=
  trade_count s = wrap64 (Z.of_nat (length (fwritten (trade_file s)))) /\
  kline_count s = wrap64 (Z.of_nat (length (fwritten (kline_file s)))) /\
  message_count s
  = wrap64 (Z.of_nat (length (fwritten (trade_file s)))
            + Z.of_nat (length (fwritten (kline_file s)))) /\
  bytes_processed s
  = wrap64 (sizeof_trade_record_t
              * Z.of_nat (length (fwritten (trade_file s)))
            + sizeof_kline_record_t
              * Z.of_nat (length (fwritten (kline_file s)))) /\
  (exists lt, ring_after lt (trades s)
              /\ map snd lt = fwritten (trade_file s)) /\
  (exists lk, ring_after lk (klines s)
              /\ map snd lk = fwritten (kline_file s)).

(** The records of the feed of a run that reached the streams of the
    table entry [i]: those of the messages whose symbol [find_symbol]
    resolves to [i] in the table [syms] and for which [fwrite] returned
    1, in the order of arrival. *)
Definition taken_trades (syms : list symbol_data) (i : Z) (sts : list step)
  : list trade_record :=
  flat_map (fun st =>
              match st with
              | Step_feed (Feed_trade symbol r w _ _) =>
                  if bool_decide (find_symbol syms symbol 0 = Some i)
                     && (w =? 1)
                  then [r] else []
              | _ => []
              end) sts.

Definition taken_klines (syms : list symbol_data) (i : Z) (sts : list step)
  : list kline_record :=
  flat_map (fun st =>
              match st with
              | Step_feed (Feed_kline symbol r w _ _) =>
                  if bool_decide (find_symbol syms symbol 0 = Some i)
                     && (w =? 1)
                  then [r] else []
              | _ => []
              end) sts.

(** The trace of the reader on well-formed frames. *)

Definition frame_size (d : decoded) : Z :=
  match d with
  | D_trade _ => sizeof_message_header_t + sizeof_trade_record_t
  | D_kline _ => sizeof_message_header_t + sizeof_kline_record_t
  end.

(** What the walk does on a frame at [offset] whose header names
    [symbol]: the comparison of the name, the reads of type and length,
    the read of the record, the line. *)
Definition frame_trace (symbol : cstring) (offset : Z) (d : decoded)
  : list event :=
  Read (offset + 16) (Z.of_nat (length symbol) + 1)
    :: Read offset 4 :: Read (offset + 4) 4
    :: match d with
       | D_trade r =>
           [Read (offset + 32) sizeof_trade_record_t; Print (L_trade r)]
       | D_kline r =>
           [Read (offset + 32) sizeof_kline_record_t; Print (L_kline r)]
       end.

Fixpoint frames_trace (symbol : cstring) (offset : Z) (ds : list decoded)
  : list event :=
  match ds with
  | [] => []
  | d :: rest =>
      frame_trace symbol offset d
        ++ frames_trace symbol (offset + frame_size d) rest
  end.

Definition frames_size (ds : list decoded) : Z :=
  fold_right (fun d n => frame_size d + n) 0 ds.

(** The records of a symbol's two ring buffers, trades first, each
    oldest first. *)
Definition snapshot_records (s : symbol_data) : list decoded :=
  map D_trade (map snd (snapshot_in_order zero_trade (trades s)))
  ++ map D_kline (map snd (snapshot_in_order zero_kline (klines s))).

(** ** More example data *)

Definition ex_kline (t p : Z) : kline_record :=
  mk_kline t (t + 59999) p p p p 1 7 1.

(** BTCUSDT after the three trades and two klines. *)
Definition ex_symbols_3_2 : list symbol_data :=
  let s1 := fst (handle_kline ex_symbols_3 BTCUSDT
                   (ex_kline 60000 price_10000_0) 1 0 1002) in
  fst (handle_kline s1 BTCUSDT (ex_kline 120000 price_10001_5) 1 0 1002).

Definition ex_symbol_3_2 : symbol_data :=
  default (init_symbol_data BTCUSDT) (ex_symbols_3_2 !! 0%nat).

(** A file system with one file, and an [atoi] that reads every
    argument as 2. *)
Definition ex_fopen (contents : list Z) (path : cstring) : option (list Z) :=
  if bool_decide (path = c_str "data.bin") then Some contents else None.
Definition ex_atoi (arg : cstring) : Z := 2.

(** A small model of JSON values and of the accessors, for the
    examples. json-c keeps a JSON null as the [NULL] pointer, for which
    [json_object_get_string] gives [NULL]; for a value that is neither
    a string nor null it gives the JSON text of the value, which no
    example asks for and [None] stands in for here. *)
Inductive ex_json :=
| EJ_null
| EJ_bool (b : bool)
| EJ_int (z : Z)
| EJ_double (bits : Z)
| EJ_string (s : cstring)
| EJ_object (members : ex_members)
with ex_members :=
| EM_nil
| EM_cons (key : string) (value : ex_json) (rest : ex_members).

Fixpoint ex_member (members : ex_members) (key : string) : option ex_json :=
  match members with
  | EM_nil => None
  | EM_cons k v rest =>
      if String.eqb k key then Some v else ex_member rest key
  end.

Fixpoint ex_members_of (l : list (string * ex_json)) : ex_members :=
  match l with
  | [] => EM_nil
  | (k, v) :: rest => EM_cons k v (ex_members_of rest)
  end.

Definition ex_object (l : list (string * ex_json)) : ex_json :=
  EJ_object (ex_members_of l).

Definition ex_get_ex (j : ex_json) (key : string) : option ex_json :=
  match j with EJ_object members => ex_member members key | _ => None end.
Definition ex_get_string (j : ex_json) : option cstring :=
  match j with EJ_string s => Some s | _ => None end.
Definition ex_get_int64 (j : ex_json) : Z :=
  match j with EJ_int z => z | _ => 0 end.
Definition ex_get_double (j : ex_json) : Z :=
  match j with EJ_double bits => bits | _ => 0 end.
Definition ex_get_boolean (j : ex_json) : bool :=
  match j with EJ_bool b => b | _ => false end.

(** The table [main] builds for [-s btcusdt,ethusdt], and an aggTrade
    and a kline message for its first symbol. *)
Definition ex_table : list symbol_data :=
  map (fun t => init_symbol_data (map toupper t))
      [c_str "btcusdt"; c_str "ethusdt"].

Definition ex_trade_data : ex_json :=
  ex_object [("E", EJ_int 1700000000123); ("T", EJ_int 1700000000100);
             ("p", EJ_double price_10000_0); ("q", EJ_double price_10001_5);
             ("a", EJ_int 42); ("m", EJ_bool true)]%string.

Definition ex_trade_message : ex_json :=
  ex_object [("stream", EJ_string (c_str "btcusdt@aggTrade"));
             ("data", ex_trade_data)]%string.

Definition ex_kline_object : ex_json :=
  ex_object [("t", EJ_int 1700000000000); ("T", EJ_int 1700000059999);
             ("o", EJ_double price_10000_0); ("c", EJ_double price_10001_5);
             ("h", EJ_double price_10001_5); ("l", EJ_double price_9999_25);
             ("v", EJ_double price_10000_0); ("n", EJ_int 7);
             ("x", EJ_bool false)]%string.

Definition ex_kline_message : ex_json :=
  ex_object [("stream", EJ_string (c_str "btcusdt@kline_1m"));
             ("data", ex_object [("k", ex_kline_object)])]%string.

(** A run of the collector started with [-s btcusdt]: a pass, a trade, a
    pass in the same second, a pass a second later. *)
Definition ex_steps : list step :=
  [Step_update 1001;
   Step_feed (Feed_trade BTCUSDT (ex_trade 1 price_10000_0) 1 0 1001);
   Step_update 1001;
   Step_update 1002].

Definition ex_run : collector := run (start [BTCUSDT] (fun _ => 0) 1000) ex_steps.

Definition ex_run_symbol : symbol_data :=
  default (init_symbol_data BTCUSDT) (symbols ex_run !! 0%nat).

(** Three trades for BTCUSDT, the second refused by [fwrite], the
    third taken by [fwrite] and lost by [fflush], then a pass. *)
Definition ex_steps_io : list step :=
  [Step_feed (Feed_trade BTCUSDT (ex_trade 1 price_10000_0) 1 0 1001);
   Step_feed (Feed_trade BTCUSDT (ex_trade 2 price_10001_5) 0 0 1001);
   Step_feed (Feed_trade BTCUSDT (ex_trade 3 price_9999_25) 1 (-1) 1002);
   Step_update 1003].

Definition ex_run_io_symbol : symbol_data :=
  default (init_symbol_data BTCUSDT)
          (symbols (run (start [BTCUSDT] (fun _ => 0) 1000) ex_steps_io)
             !! 0%nat).

(** Three trades for BTCUSDT and no pass yet. *)
Definition ex_steps_3 : list step :=
  [Step_feed (Feed_trade BTCUSDT (ex_trade 1 price_10000_0) 1 0 1001);
   Step_feed (Feed_trade BTCUSDT (ex_trade 2 price_10001_5) 1 0 1001);
   Step_feed (Feed_trade BTCUSDT (ex_trade 3 price_9999_25) 1 0 1002)].

(** * Properties *)

Ltac unfold_consts :=
  unfold MAX_SYMBOLS, MAX_SYMBOL_LENGTH, MAX_RECORDS_PER_SYMBOL, SHM_SIZE,
    DATA_TYPE_TRADE, DATA_TYPE_KLINE, sizeof_size_t, sizeof_message_header_t,
    sizeof_trade_record_t, sizeof_kline_record_t,
    sizeof_shared_memory_header_t in *.

(** ** Machine arithmetic *)

Lemma wrap64_small z : 0 <= z < 2 ^ 64 -> wrap64 z = z.
Proof. intros H. unfold wrap64. apply Z.mod_small. exact H. Qed.

Lemma wrap64_range z : 0 <= wrap64 z < 2 ^ 64.
Proof. unfold wrap64. apply Z.mod_pos_bound. lia. Qed.

Lemma add64_small a b : 0 <= a + b < 2 ^ 64 -> add64 a b = a + b.
Proof. apply wrap64_small. Qed.

Lemma sub64_small a b : 0 <= a - b < 2 ^ 64 -> sub64 a b = a - b.
Proof. apply wrap64_small. Qed.

Lemma mul64_small a b : 0 <= a * b < 2 ^ 64 -> mul64 a b = a * b.
Proof. apply wrap64_small. Qed.

Lemma signed64_wrap z : - 2 ^ 63 <= z < 2 ^ 63 -> signed64 (z mod 2 ^ 64) = z.
Proof.
  intros H. unfold signed64.
  destruct (Z_lt_le_dec z 0) as [Hneg | Hpos].
  - replace (z mod 2 ^ 64) with (z + 2 ^ 64).
    + destruct (Z.ltb_spec (z + 2 ^ 64) (2 ^ 63)); lia.
    + symmetry. rewrite <- (Z.mod_small (z + 2 ^ 64) (2 ^ 64)) by lia.
      rewrite <- Z.add_mod_idemp_r by lia.
      rewrite Z.mod_same by lia. f_equal. lia.
  - rewrite Z.mod_small by lia.
    destruct (Z.ltb_spec z (2 ^ 63)); lia.
Qed.

Lemma land_align x :
  0 <= x < 2 ^ 64 -> Z.land x (wrap64 (-8)) = 8 * (x / 8).
Proof.
  intros Hx.
  replace (wrap64 (-8)) with (Z.shiftl (Z.ones 61) 3) by reflexivity.
  replace (8 * (x / 8)) with (Z.shiftl (Z.shiftr x 3) 3).
  2:{ rewrite Z.shiftl_mul_pow2, Z.shiftr_div_pow2 by lia.
      change (2 ^ 3) with 8. lia. }
  apply Z.bits_inj'. intros n Hn.
  rewrite Z.land_spec.
  destruct (Z_lt_le_dec n 3) as [Hlt | Hge].
  - rewrite !Z.shiftl_spec_low by lia. apply andb_false_r.
  - rewrite !Z.shiftl_spec by lia.
    rewrite Z.shiftr_spec by lia.
    replace (n - 3 + 3) with n by lia.
    destruct (Z_lt_le_dec n 64) as [Hlt | Hge'].
    + rewrite Z.ones_spec_low by lia. apply andb_true_r.
    + rewrite Z.ones_spec_high by lia. rewrite andb_false_r.
      symmetry. destruct (Z.eq_dec x 0) as [-> | Hnz].
      * apply Z.bits_0.
      * apply Z.bits_above_log2; [lia |].
        apply Z.log2_lt_pow2; [lia |].
        apply Z.lt_le_trans with (2 ^ 64); [lia |].
        apply Z.pow_le_mono_r; lia.
Qed.

Lemma align8_bounds o :
  0 <= o -> o + 7 < 2 ^ 64 -> o <= align8 o < o + 8.
Proof.
  intros H0 H1. unfold align8.
  rewrite add64_small by lia.
  rewrite land_align by lia.
  pose proof (Z.div_mod (o + 7) 8 ltac:(lia)).
  pose proof (Z.mod_pos_bound (o + 7) 8 ltac:(lia)).
  lia.
Qed.

(** ** Little-endian codec *)

Lemma length_encode_le n v : length (encode_le n v) = n.
Proof. revert v. induction n; intros v; simpl; [done | by rewrite IHn]. Qed.

Lemma decode_encode_le n v :
  decode_le (encode_le n v) = v mod 256 ^ Z.of_nat n.
Proof.
  revert v. induction n as [| n IH]; intros v.
  - simpl. by rewrite Z.mod_1_r.
  - cbn [encode_le decode_le]. rewrite IH.
    rewrite Nat2Z.inj_succ, Z.pow_succ_r by lia.
    rewrite Z.rem_mul_r by lia. lia.
Qed.

Lemma encode_le_bytes n v : Forall byte_ok (encode_le n v).
Proof.
  revert v. induction n as [| n IH]; intros v; simpl; constructor.
  - unfold byte_ok. apply Z.mod_pos_bound. lia.
  - apply IH.
Qed.

Lemma decode_le_range bs :
  Forall byte_ok bs -> 0 <= decode_le bs < 256 ^ Z.of_nat (length bs).
Proof.
  induction 1 as [| b bs Hb _ IH]; simpl length.
  - simpl. lia.
  - cbn [decode_le]. rewrite Nat2Z.inj_succ, Z.pow_succ_r by lia.
    unfold byte_ok in Hb. lia.
Qed.

(** ** Ring buffer *)

Section RingFacts.
Context {R : Type}.
Variable zero : R.

Lemma ring_after_init : ring_after [] (ring_init zero).
Proof.
  split; simpl; done.
Qed.

Lemma mod100_lt k : (Z.to_nat (Z.of_nat k mod 100) < 100)%nat.
Proof. pose proof (Z.mod_pos_bound (Z.of_nat k) 100). lia. Qed.

Lemma mod100_ne k n :
  (k < n)%nat -> (n <= k + 99)%nat ->
  Z.to_nat (Z.of_nat n mod 100) <> Z.to_nat (Z.of_nat k mod 100).
Proof.
  intros Hlt Hle Heq.
  pose proof (Z.mod_pos_bound (Z.of_nat k) 100 ltac:(lia)).
  pose proof (Z.mod_pos_bound (Z.of_nat n) 100 ltac:(lia)).
  pose proof (Z.div_mod (Z.of_nat k) 100 ltac:(lia)).
  pose proof (Z.div_mod (Z.of_nat n) 100 ltac:(lia)).
  assert (Z.of_nat n mod 100 = Z.of_nat k mod 100) by lia.
  lia.
Qed.

Lemma ring_after_append (l : list (message_header * R)) rb h r :
  ring_after l rb -> ring_after (l ++ [(h, r)]) (rb_append r h rb).
Proof.
  intros [Hlr Hlh Hn Hc Hs].
  pose proof (Z.mod_pos_bound (Z.of_nat (length l)) 100 ltac:(lia)) as Hm.
  split; unfold rb_append; cbn [rb_records rb_headers rb_count rb_next_index].
  - by rewrite length_insert.
  - by rewrite length_insert.
  - rewrite Hn, length_app. cbn [length].
    rewrite add64_small by lia.
    rewrite Nat2Z.inj_add. change (Z.of_nat 1) with 1.
    unfold MAX_RECORDS_PER_SYMBOL.
    rewrite Z.add_mod_idemp_l by lia. done.
  - rewrite Hc, length_app. cbn [length]. unfold MAX_RECORDS_PER_SYMBOL.
    destruct (Z.ltb_spec (Z.min (Z.of_nat (length l)) 100) 100).
    + rewrite add64_small by lia. lia.
    + lia.
  - intros k x Hk Hle. rewrite length_app in Hle. cbn [length] in Hle.
    rewrite Hn.
    destruct (decide (k = length l)) as [-> | Hne].
    + rewrite lookup_app_r in Hk by lia.
      replace (length l - length l)%nat with 0%nat in Hk by lia.
      simpl in Hk. injection Hk as <-. cbn [fst snd].
      split; apply list_lookup_insert_eq.
      * rewrite Hlh. apply mod100_lt.
      * rewrite Hlr. apply mod100_lt.
    + assert (k < length l)%nat as Hlt.
      { apply lookup_lt_Some in Hk. rewrite length_app in Hk.
        cbn [length] in Hk. lia. }
      rewrite lookup_app_l in Hk by lia.
      rewrite !list_lookup_insert_ne by (apply mod100_ne; lia).
      apply Hs; [done | lia].
Qed.

Lemma ring_after_appends (l : list (message_header * R)) rb l' :
  ring_after l rb -> ring_after (l ++ l') (rb_appends rb l').
Proof.
  revert l rb. induction l' as [| [h r] l' IH]; intros l rb H.
  - by rewrite app_nil_r.
  - cbn [rb_appends fold_left fst snd].
    replace (l ++ (h, r) :: l') with ((l ++ [(h, r)]) ++ l')
      by (by rewrite <- app_assoc).
    apply (IH (l ++ [(h, r)])). by apply ring_after_append.
Qed.

Lemma walk_from_lookup rb start j n i :
  0 <= start -> 0 <= j -> start + j + Z.of_nat n < 2 ^ 64 ->
  (i < n)%nat ->
  walk_from zero rb start j n !! i =
  Some (rb_header_at rb ((start + j + Z.of_nat i) mod 100),
        rb_record_at zero rb ((start + j + Z.of_nat i) mod 100)).
Proof.
  revert j i. induction n as [| n IH]; intros j i Hs Hj Hb Hi; [lia |].
  cbn [walk_from]. destruct i as [| i].
  - cbn [lookup list_lookup]. rewrite add64_small by lia.
    rewrite Z.add_0_r. done.
  - cbn [lookup list_lookup]. rewrite add64_small by lia.
    change (walk_from zero rb start (j + 1) n !! i =
            Some (rb_header_at rb ((start + j + Z.of_nat (S i)) mod 100),
                  rb_record_at zero rb ((start + j + Z.of_nat (S i)) mod 100))).
    rewrite IH by lia.
    by replace (start + (j + 1) + Z.of_nat i)
      with (start + j + Z.of_nat (S i)) by lia.
Qed.

Lemma length_walk_from rb start j n :
  length (walk_from zero rb start j n) = n.
Proof. revert j. induction n; intros j; simpl; [done | by rewrite IHn]. Qed.

Lemma snapshot_after (l : list (message_header * R)) rb :
  ring_after l rb ->
  snapshot_in_order zero rb = drop (length l - 100) l /\
  rb_count rb = Z.min (Z.of_nat (length l)) 100.
Proof.
  intros H. split; [| apply H].
  destruct H as [Hlr Hlh Hn Hc Hs].
  pose proof (Z.mod_pos_bound (Z.of_nat (length l)) 100 ltac:(lia)) as Hm.
  apply list_eq. intros i.
  unfold snapshot_in_order.
  destruct (decide (i < Z.to_nat (rb_count rb))%nat) as [Hi | Hi].
  - assert (0 <= start_idx rb < 100) as Hst.
    { unfold start_idx. destruct (_ <=? _); lia. }
    rewrite walk_from_lookup by lia.
    rewrite lookup_drop.
    destruct (l !! (length l - 100 + i)%nat) as [x |] eqn:Hx.
    2:{ apply lookup_ge_None in Hx. lia. }
    assert ((start_idx rb + 0 + Z.of_nat i) mod 100
            = Z.of_nat (length l - 100 + i) mod 100) as Hidx.
    { unfold start_idx, MAX_RECORDS_PER_SYMBOL. rewrite Hc, Hn.
      destruct (Z.leb_spec 100 (Z.min (Z.of_nat (length l)) 100)).
      - rewrite Z.add_0_r, Z.add_mod_idemp_l by lia.
        replace (Z.of_nat (length l - 100 + i))
          with (Z.of_nat (length l) + Z.of_nat i + (-1) * 100) by lia.
        by rewrite Z.mod_add by lia.
      - f_equal. lia. }
    rewrite Hidx.
    destruct (Hs _ _ Hx ltac:(lia)) as [Hh Hr].
    unfold rb_header_at, rb_record_at. rewrite Hh, Hr. simpl.
    by destruct x.
  - rewrite (lookup_ge_None_2 (walk_from _ _ _ _ _))
      by (rewrite length_walk_from; lia).
    symmetry. apply lookup_ge_None_2. rewrite length_drop. lia.
Qed.

End RingFacts.

(** C1. After any sequence of appends into an empty ring buffer of
    capacity [MAX_RECORDS_PER_SYMBOL], the publisher's chronological
    walk yields exactly the last [min (n, MAX_RECORDS_PER_SYMBOL)]
    appended entries in insertion order, oldest first, and [count] is
    that minimum; for the trade ring buffer and for the kline ring
    buffer. *)
Theorem ring_snapshot_last_appended :
  (forall l : list (message_header * trade_record),
     let rb := rb_appends (ring_init zero_trade) l in
     snapshot_in_order zero_trade rb
       = drop (length l - Z.to_nat MAX_RECORDS_PER_SYMBOL) l /\
     rb_count rb = Z.min (Z.of_nat (length l)) MAX_RECORDS_PER_SYMBOL) /\
  (forall l : list (message_header * kline_record),
     let rb := rb_appends (ring_init zero_kline) l in
     snapshot_in_order zero_kline rb
       = drop (length l - Z.to_nat MAX_RECORDS_PER_SYMBOL) l /\
     rb_count rb = Z.min (Z.of_nat (length l)) MAX_RECORDS_PER_SYMBOL).
Proof.
  split; intros l rb; subst rb;
    apply (snapshot_after _ l);
    apply (ring_after_appends [] _ l), ring_after_init.
Qed.

(** ** Ingestion *)

Lemma find_symbol_spec syms symbol i0 i :
  find_symbol syms symbol i0 = Some i ->
  i0 <= i /\ exists s, syms !! Z.to_nat (i - i0) = Some s /\ name s = symbol.
Proof.
  revert i0. induction syms as [| s rest IH]; intros i0 H; [done |].
  cbn [find_symbol] in H. destruct (decide (name s = symbol)) as [Hn | Hn].
  - injection H as <-. split; [lia |]. exists s.
    by replace (i0 - i0) with 0 by lia.
  - apply IH in H as [Hle (s' & Hs' & Hname)]. split; [lia |].
    exists s'. split; [| done].
    replace (Z.to_nat (i - i0)) with (S (Z.to_nat (i - (i0 + 1)))) by lia.
    done.
Qed.

(** ** The region as a byte memory *)

Ltac zlia := Z.to_euclidean_division_equations; lia.

Lemma store_bytes_in m a bs x :
  a <= x < a + Z.of_nat (length bs) ->
  store_bytes m a bs x = default 0 (bs !! Z.to_nat (x - a)).
Proof.
  intros H. unfold store_bytes.
  destruct (Z.leb_spec a x); [| lia].
  destruct (Z.ltb_spec x (a + Z.of_nat (length bs))); [done | lia].
Qed.

Lemma store_bytes_out m a bs x :
  x < a \/ a + Z.of_nat (length bs) <= x ->
  store_bytes m a bs x = m x.
Proof.
  intros H. unfold store_bytes.
  destruct (Z.leb_spec a x); [| done].
  destruct (Z.ltb_spec x (a + Z.of_nat (length bs))); [lia | done].
Qed.

Lemma load_bytes_ext m1 m2 a n :
  (forall x, a <= x < a + Z.of_nat n -> m1 x = m2 x) ->
  load_bytes m1 a n = load_bytes m2 a n.
Proof.
  intros H. unfold load_bytes. apply map_ext_in. intros i Hi.
  apply in_seq in Hi. rewrite H by lia. done.
Qed.

Lemma length_load_bytes m a n : length (load_bytes m a n) = n.
Proof. unfold load_bytes. by rewrite length_map, length_seq. Qed.

Lemma load_bytes_ok m a n : Forall byte_ok (load_bytes m a n).
Proof.
  unfold load_bytes. apply Forall_forall. intros b Hb.
  apply list_elem_of_In, in_map_iff in Hb as (i & <- & _).
  unfold byte_ok. apply Z.mod_pos_bound. lia.
Qed.

Lemma load_u64_range m a : 0 <= load_u64 m a < 2 ^ 64.
Proof.
  unfold load_u64.
  pose proof (decode_le_range _ (load_bytes_ok m a 8)) as H.
  rewrite length_load_bytes in H. exact H.
Qed.

Lemma load_u32_range m a : 0 <= load_u32 m a < 2 ^ 32.
Proof.
  unfold load_u32.
  pose proof (decode_le_range _ (load_bytes_ok m a 4)) as H.
  rewrite length_load_bytes in H. exact H.
Qed.

Lemma holds_store m a bs : holds (store_bytes m a bs) a bs.
Proof.
  intros k b Hk. pose proof (lookup_lt_Some _ _ _ Hk).
  rewrite store_bytes_in by lia.
  replace (Z.to_nat (a + Z.of_nat k - a)) with k by lia.
  by rewrite Hk.
Qed.

Lemma holds_store_other m a bs a' bs' :
  a' + Z.of_nat (length bs') <= a \/ a + Z.of_nat (length bs) <= a' ->
  holds m a bs -> holds (store_bytes m a' bs') a bs.
Proof.
  intros Hd H k b Hk. pose proof (lookup_lt_Some _ _ _ Hk).
  rewrite store_bytes_out by lia. by apply H.
Qed.

Lemma holds_app m a xs ys :
  holds m a (xs ++ ys) <->
  holds m a xs /\ holds m (a + Z.of_nat (length xs)) ys.
Proof.
  split.
  - intros H. split; intros k b Hk.
    + apply H. by apply lookup_app_l_Some.
    + replace (a + Z.of_nat (length xs) + Z.of_nat k)
        with (a + Z.of_nat (length xs + k)) by lia.
      apply H. rewrite lookup_app_r by lia.
      by replace (length xs + k - length xs)%nat with k by lia.
  - intros [Hx Hy] k b Hk.
    destruct (decide (k < length xs)%nat) as [Hlt | Hge].
    + apply Hx. by rewrite lookup_app_l in Hk.
    + rewrite lookup_app_r in Hk by lia.
      replace (a + Z.of_nat k)
        with (a + Z.of_nat (length xs) + Z.of_nat (k - length xs)) by lia.
      by apply Hy.
Qed.

Lemma holds_ext m1 m2 a bs :
  (forall x, a <= x < a + Z.of_nat (length bs) -> m1 x = m2 x) ->
  holds m1 a bs -> holds m2 a bs.
Proof.
  intros He H k b Hk. pose proof (lookup_lt_Some _ _ _ Hk).
  rewrite <- He by lia. by apply H.
Qed.

Lemma load_of_holds m a bs :
  holds m a bs -> Forall byte_ok bs -> load_bytes m a (length bs) = bs.
Proof.
  intros H Hok. apply list_eq. intros k. unfold load_bytes.
  rewrite list_lookup_fmap.
  destruct (bs !! k) as [b |] eqn:Hk.
  - pose proof (lookup_lt_Some _ _ _ Hk).
    rewrite lookup_seq_lt by done. cbn.
    rewrite (H _ _ Hk).
    rewrite Forall_forall in Hok.
    assert (byte_ok b) as Hb by (apply Hok; by eapply list_elem_of_lookup_2).
    unfold byte_ok in Hb. by rewrite Z.mod_small.
  - apply lookup_ge_None in Hk. rewrite lookup_seq_ge by lia. done.
Qed.

(** Loading a piece out of the middle of bytes the region holds. *)
Lemma load_of_holds_mid m a xs ys zs :
  holds m a (xs ++ ys ++ zs) -> Forall byte_ok ys ->
  load_bytes m (a + Z.of_nat (length xs)) (length ys) = ys.
Proof.
  intros H Hok. apply holds_app in H as [_ H].
  apply holds_app in H as [H _]. by apply load_of_holds.
Qed.

Lemma apply_writes_app m ws1 ws2 :
  apply_writes m (ws1 ++ ws2) = apply_writes (apply_writes m ws1) ws2.
Proof. unfold apply_writes. by rewrite fold_left_app. Qed.

(** A store sequence leaves alone every cell no store covers. *)
Lemma apply_writes_out m ws x :
  Forall (fun w => x < w_addr w
                   \/ w_addr w + Z.of_nat (length (w_bytes w)) <= x) ws ->
  apply_writes m ws x = m x.
Proof.
  revert m. induction ws as [| w ws IH]; intros m H; [done |].
  inversion H as [| ? ? Hw Hws]; subst.
  cbn [apply_writes fold_left]. fold (apply_writes (apply_write m w) ws).
  rewrite IH by done. unfold apply_write. by rewrite store_bytes_out.
Qed.

(** ** Frames and their layout *)

Lemma length_pad16 l : length (pad16 l) = 16%nat.
Proof.
  unfold pad16. rewrite length_take, length_app, length_replicate. lia.
Qed.

Lemma length_encode_header h : length (encode_header h) = 32%nat.
Proof.
  unfold encode_header.
  rewrite !length_app, !length_encode_le, length_pad16. done.
Qed.

Lemma length_encode_trade r : length (encode_trade r) = 41%nat.
Proof. unfold encode_trade. by rewrite !length_app, !length_encode_le. Qed.

Lemma length_encode_kline r : length (encode_kline r) = 65%nat.
Proof. unfold encode_kline. by rewrite !length_app, !length_encode_le. Qed.

Lemma frame_bytes_cons f fs :
  frame_bytes (f :: fs) = (fst f ++ snd f) ++ frame_bytes fs.
Proof. done. Qed.

Lemma frame_bytes_app xs ys :
  frame_bytes (xs ++ ys) = frame_bytes xs ++ frame_bytes ys.
Proof. unfold frame_bytes. by rewrite map_app, concat_app. Qed.

Lemma layout_app a xs ys :
  layout a (xs ++ ys)
  = layout a xs ++ layout (a + Z.of_nat (length (frame_bytes xs))) ys.
Proof.
  revert a. induction xs as [| [h r] xs IH]; intros a.
  - cbn. by rewrite Z.add_0_r.
  - cbn [app layout]. rewrite IH. rewrite frame_bytes_cons.
    cbn [fst snd]. rewrite !length_app.
    replace (a + Z.of_nat (length h + length r + length (frame_bytes xs)))
      with (a + Z.of_nat (length h) + Z.of_nat (length r)
            + Z.of_nat (length (frame_bytes xs))) by lia.
    done.
Qed.

Lemma layout_within a fs :
  Forall (fun w => a <= w_addr w /\
                   w_addr w + Z.of_nat (length (w_bytes w))
                   <= a + Z.of_nat (length (frame_bytes fs)))
         (layout a fs).
Proof.
  revert a. induction fs as [| [h r] fs IH]; intros a; cbn [layout].
  - constructor.
  - rewrite frame_bytes_cons. cbn [fst snd]. rewrite !length_app.
    constructor; [cbn; lia |]. constructor; [cbn; lia |].
    eapply Forall_impl; [apply IH |]. cbn. intros w Hw. lia.
Qed.

Lemma bytes_written_app ws1 ws2 :
  bytes_written (ws1 ++ ws2) = bytes_written ws1 + bytes_written ws2.
Proof.
  unfold bytes_written.
  induction ws1 as [| w ws1 IH]; cbn [app fold_right]; [done |].
  rewrite IH. lia.
Qed.

Lemma bytes_written_layout a fs :
  bytes_written (layout a fs) = Z.of_nat (length (frame_bytes fs)).
Proof.
  revert a. induction fs as [| [h r] fs IH]; intros a; [done |].
  cbn [layout]. rewrite frame_bytes_cons. cbn [fst snd bytes_written fold_right w_bytes].
  fold (bytes_written (layout (a + Z.of_nat (length h) + Z.of_nat (length r)) fs)).
  rewrite IH, !length_app. lia.
Qed.

(** After the stores of a layout the region holds the frames' bytes. *)
Lemma holds_layout m a fs :
  holds (apply_writes m (layout a fs)) a (frame_bytes fs).
Proof.
  revert m a. induction fs as [| [h r] fs IH]; intros m a.
  - intros k b Hk. done.
  - cbn [layout apply_writes fold_left].
    set (m2 := apply_write (apply_write m _) _).
    fold (apply_writes m2 (layout (a + Z.of_nat (length h) + Z.of_nat (length r)) fs)).
    rewrite frame_bytes_cons. cbn [fst snd].
    apply holds_app. split.
    + eapply holds_ext.
      2:{ apply holds_app. split.
          - apply (holds_store_other (apply_write m (mk_write a h)) a h
                     (a + Z.of_nat (length h)) r); [lia |].
            apply holds_store.
          - apply holds_store. }
      intros x Hx. symmetry. apply apply_writes_out.
      eapply Forall_impl; [apply layout_within |].
      cbn. intros w Hw. rewrite length_app in Hx. lia.
    + rewrite length_app.
      replace (a + Z.of_nat (length h + length r))
        with (a + Z.of_nat (length h) + Z.of_nat (length r)) by lia.
      apply IH.
Qed.

Section WriteLoopFacts.
Context {R : Type}.
Variable zero : R.
Variable encode : R -> list Z.
Variable sizeof_record : Z.
Hypothesis encode_length :
  forall r, Z.of_nat (length (encode r)) = sizeof_record.

Lemma length_frame_bytes (l : list (message_header * R)) :
  Z.of_nat (length (frame_bytes (map (frame_of encode) l)))
  = Z.of_nat (length l) * (32 + sizeof_record).
Proof.
  induction l as [| x l IH]; [done |].
  cbn [map]. rewrite frame_bytes_cons. cbn [fst snd frame_of].
  rewrite !length_app, length_encode_header. cbn [length].
  rewrite !Nat2Z.inj_add, IH, encode_length. lia.
Qed.

Lemma write_loop_layout rb start j n cur :
  0 <= cur ->
  cur + Z.of_nat n * (32 + sizeof_record) < 2 ^ 64 ->
  write_loop zero encode sizeof_record rb start j n cur
  = (layout cur (map (frame_of encode) (walk_from zero rb start j n)),
     cur + Z.of_nat n * (32 + sizeof_record)).
Proof.
  pose proof (encode_length zero) as Hsz.
  revert j cur. induction n as [| n IH]; intros j cur H0 Hb.
  - cbn. f_equal. lia.
  - cbn [write_loop walk_from map layout frame_of fst snd].
    unfold sizeof_message_header_t.
    rewrite (add64_small cur 32) by lia.
    rewrite (add64_small (cur + 32) sizeof_record) by lia.
    rewrite IH by lia.
    rewrite length_encode_header.
    rewrite encode_length.
    f_equal. lia.
Qed.

Lemma walk_from_take rb start j n n' :
  (n <= n')%nat ->
  walk_from zero rb start j n = take n (walk_from zero rb start j n').
Proof.
  revert j n'. induction n as [| n IH]; intros j n' H; [done |].
  destruct n' as [| n']; [lia |].
  cbn [walk_from take]. f_equal. apply IH. lia.
Qed.

End WriteLoopFacts.

(** ** The publisher's plan *)

Lemma counts_okb_spec {R} (rb : ring R) :
  counts_okb rb = true ->
  0 <= rb_count rb <= 100 /\ 0 <= rb_next_index rb < 100.
Proof. unfold counts_okb, MAX_RECORDS_PER_SYMBOL. lia. Qed.

Lemma region_okb_spec m n :
  region_okb m n = true ->
  256 <= shm_data_offset m /\ 8 <= shm_buffer_size m < 2 ^ 64 /\ 0 <= n /\
  shm_data_offset m + n * shm_buffer_size m <= 67108864.
Proof.
  unfold region_okb. unfold_consts.
  pose proof (load_u64_range m OFF_buffer_size). unfold shm_buffer_size.
  change (64 * 1024 * 1024) with 67108864. lia.
Qed.

Lemma slot_inside m n i :
  region_okb m n = true -> 0 <= i < n ->
  256 <= slot_start m i /\
  slot_start m i + shm_buffer_size m <= 67108864.
Proof.
  intros H Hi. apply region_okb_spec in H. unfold slot_start. nia.
Qed.

Lemma frame_sizes : trade_frame_size = 73 /\ kline_frame_size = 97.
Proof. split; reflexivity. Qed.

Lemma publish_plan_offset m n i s :
  region_okb m n = true -> 0 <= i < n ->
  p_symbol_offset (publish_plan m i s) = slot_start m i.
Proof.
  intros H Hi. pose proof (slot_inside _ _ _ H Hi) as Hs.
  apply region_okb_spec in H. unfold slot_start in *.
  unfold publish_plan.
  repeat match goal with |- context [if ?c then _ else _] => destruct c end;
  cbn [p_symbol_offset];
  (rewrite mul64_small by nia); rewrite add64_small by nia; done.
Qed.

Lemma publish_plan_spec m i s :
  rings_okb s = true -> 8 <= shm_buffer_size m ->
  let p := publish_plan m i s in
  p_total_data_size p = Z.min (serialized_size s) (slot_capacity m) /\
  0 <= p_trades_to_write p <= rb_count (trades s) /\
  0 <= p_klines_to_write p <= rb_count (klines s) /\
  p_trade_bytes p = p_trades_to_write p * 73 /\
  p_kline_bytes p = p_klines_to_write p * 97 /\
  p_trades_to_write p * 73 + p_klines_to_write p * 97
    <= p_total_data_size p /\
  (0 < p_klines_to_write p -> p_trades_to_write p = rb_count (trades s)) /\
  (serialized_size s <= slot_capacity m ->
   p_trades_to_write p = rb_count (trades s) /\
   p_klines_to_write p = rb_count (klines s) /\
   p_total_data_size p = serialized_size s).
Proof.
  intros Hr Hbs.
  unfold rings_okb in Hr. apply andb_prop in Hr as [Ht Hk].
  apply counts_okb_spec in Ht as [Ht _].
  apply counts_okb_spec in Hk as [Hk _].
  pose proof (load_u64_range m OFF_buffer_size) as Hb.
  fold (shm_buffer_size m) in Hb.
  unfold serialized_size, slot_capacity, publish_plan.
  destruct frame_sizes as [-> ->]. unfold sizeof_size_t.
  set (ct := rb_count (trades s)) in *.
  set (ck := rb_count (klines s)) in *.
  set (bs := shm_buffer_size m) in *.
  rewrite (mul64_small ct 73) by lia.
  rewrite (mul64_small ck 97) by lia.
  rewrite (add64_small (ct * 73)) by lia.
  rewrite (sub64_small bs 8) by lia.
  destruct (Z.gtb_spec (ct * 73 + ck * 97) (bs - 8)) as [Hov | Hfit].
  - destruct (Z.gtb_spec (ct * 73) (bs - 8)) as [Htr | Htr].
    + rewrite (mul64_small ((bs - 8) / 73) 73) by zlia.
      rewrite (sub64_small (bs - 8)) by zlia.
      destruct (Z.gtb_spec (ck * 97) ((bs - 8) - (bs - 8) / 73 * 73)) as [Hkl | Hkl].
      * rewrite (mul64_small (_ / 97) 97) by zlia.
        cbn [p_total_data_size p_trades_to_write p_klines_to_write
             p_trade_bytes p_kline_bytes].
        repeat split; try zlia.
      * cbn [p_total_data_size p_trades_to_write p_klines_to_write
             p_trade_bytes p_kline_bytes].
        repeat split; try zlia.
    + rewrite (sub64_small (bs - 8)) by lia.
      destruct (Z.gtb_spec (ck * 97) ((bs - 8) - ct * 73)) as [Hkl | Hkl].
      * rewrite (mul64_small (_ / 97) 97) by zlia.
        cbn [p_total_data_size p_trades_to_write p_klines_to_write
             p_trade_bytes p_kline_bytes].
        repeat split; try zlia.
      * lia.
  - destruct (Z.gtb_spec (ct * 73) (ct * 73 + ck * 97)) as [Htr | Htr]; [lia |].
    rewrite (sub64_small (ct * 73 + ck * 97)) by lia.
    destruct (Z.gtb_spec (ck * 97) (ct * 73 + ck * 97 - ct * 73)) as [Hkl | Hkl]; [lia |].
    cbn [p_total_data_size p_trades_to_write p_klines_to_write
         p_trade_bytes p_kline_bytes].
    repeat split; try lia.
Qed.

Lemma encode_trade_size r :
  Z.of_nat (length (encode_trade r)) = sizeof_trade_record_t.
Proof. by rewrite length_encode_trade. Qed.

Lemma encode_kline_size r :
  Z.of_nat (length (encode_kline r)) = sizeof_kline_record_t.
Proof. by rewrite length_encode_kline. Qed.

Lemma length_snapshot {R} (zero : R) rb :
  length (snapshot_in_order zero rb) = Z.to_nat (rb_count rb).
Proof. apply length_walk_from. Qed.

Lemma length_published_trades m i s :
  rings_okb s = true -> 8 <= shm_buffer_size m ->
  Z.of_nat (length (published_trades m i s))
  = p_trades_to_write (publish_plan m i s).
Proof.
  intros Hr Hb. destruct (publish_plan_spec m i s Hr Hb) as (_ & Ht & _).
  unfold published_trades. rewrite length_take, length_snapshot. lia.
Qed.

Lemma length_published_klines m i s :
  rings_okb s = true -> 8 <= shm_buffer_size m ->
  Z.of_nat (length (published_klines m i s))
  = p_klines_to_write (publish_plan m i s).
Proof.
  intros Hr Hb. destruct (publish_plan_spec m i s Hr Hb) as (_ & _ & Hk & _).
  unfold published_klines. rewrite length_take, length_snapshot. lia.
Qed.

Lemma length_published_frames m i s :
  rings_okb s = true -> 8 <= shm_buffer_size m ->
  Z.of_nat (length (frame_bytes (published_frames m i s)))
  = p_trades_to_write (publish_plan m i s) * 73
    + p_klines_to_write (publish_plan m i s) * 97.
Proof.
  intros Hr Hb. unfold published_frames.
  rewrite frame_bytes_app, length_app, Nat2Z.inj_add.
  unfold trade_frame, kline_frame.
  rewrite (length_frame_bytes encode_trade _ encode_trade_size).
  rewrite (length_frame_bytes encode_kline _ encode_kline_size).
  rewrite length_published_trades, length_published_klines by done.
  unfold_consts. lia.
Qed.

(** The stores of one loop iteration: the size field, then the published
    frames back to back. *)
Lemma publish_symbol_layout m n i s :
  region_okb m n = true -> 0 <= i < n -> rings_okb s = true ->
  publish_symbol m i s
  = mk_write (slot_start m i)
             (encode_le 8 (p_total_data_size (publish_plan m i s)))
      :: layout (slot_start m i + 8) (published_frames m i s).
Proof.
  intros Hreg Hi Hr.
  pose proof (slot_inside _ _ _ Hreg Hi) as [Hlo Hhi].
  pose proof (region_okb_spec _ _ Hreg) as (_ & Hbs & _).
  destruct (publish_plan_spec m i s Hr ltac:(lia))
    as (_ & Htw & Hkw & _).
  unfold publish_symbol.
  rewrite (publish_plan_offset m n i s Hreg Hi).
  unfold sizeof_size_t. rewrite (add64_small (slot_start m i) 8) by lia.
  destruct (Z.gtb_spec (slot_start m i + 8) SHM_SIZE) as [Hbad | _].
  { unfold SHM_SIZE in Hbad. lia. }
  pose proof Hr as Hr'. unfold rings_okb in Hr'.
  apply andb_prop in Hr' as [Hct Hck].
  apply counts_okb_spec in Hct as [Hct _].
  apply counts_okb_spec in Hck as [Hck _].
  rewrite (write_loop_layout zero_trade encode_trade sizeof_trade_record_t
             encode_trade_size) by (unfold_consts; lia).
  rewrite (write_loop_layout zero_kline encode_kline sizeof_kline_record_t
             encode_kline_size) by (unfold_consts; lia).
  f_equal. unfold published_frames. rewrite layout_app.
  rewrite (walk_from_take zero_trade (trades s) _ 0 _
             (Z.to_nat (rb_count (trades s)))) by lia.
  rewrite (walk_from_take zero_kline (klines s) _ 0 _
             (Z.to_nat (rb_count (klines s)))) by lia.
  fold (snapshot_in_order zero_trade (trades s)).
  fold (snapshot_in_order zero_kline (klines s)).
  fold (published_trades m i s). fold (published_klines m i s).
  unfold trade_frame at 2.
  rewrite (length_frame_bytes encode_trade _ encode_trade_size).
  rewrite length_published_trades by (done || lia).
  rewrite Z2Nat.id by lia. done.
Qed.

(** ** Overflow and the size field *)

Lemma publish_symbol_bytes m n i s :
  region_okb m n = true -> 0 <= i < n -> rings_okb s = true ->
  bytes_written (tail (publish_symbol m i s))
  = p_trades_to_write (publish_plan m i s) * 73
    + p_klines_to_write (publish_plan m i s) * 97.
Proof.
  intros Hreg Hi Hr.
  pose proof (region_okb_spec _ _ Hreg) as (_ & Hbs & _).
  rewrite (publish_symbol_layout m n i s) by done. cbn [tail].
  rewrite bytes_written_layout.
  apply length_published_frames; [done | lia].
Qed.

(** C3. When what the ring buffers hold does not fit the slot, the
    stores of the pass for that symbol are the size field followed by
    whole frames laid out back to back, the kept trade frames (a prefix
    of the chronological walk) before the kept kline frames; the frames
    take at most [buffer_size - sizeof(size_t)] bytes; and a kline frame
    is published only if every trade frame of the snapshot is. *)
Theorem overflow_truncation m n i s :
  region_okb m n = true -> 0 <= i < n -> rings_okb s = true ->
  slot_capacity m < serialized_size s ->
  publish_symbol m i s
  = mk_write (slot_start m i) (encode_le 8 (slot_capacity m))
      :: layout (slot_start m i + sizeof_size_t)
                (map trade_frame (published_trades m i s)
                 ++ map kline_frame (published_klines m i s)) /\
  published_trades m i s `prefix_of` snapshot_in_order zero_trade (trades s) /\
  published_klines m i s `prefix_of` snapshot_in_order zero_kline (klines s) /\
  bytes_written (tail (publish_symbol m i s)) <= slot_capacity m /\
  (published_klines m i s <> [] ->
   published_trades m i s = snapshot_in_order zero_trade (trades s)).
Proof.
  intros Hreg Hi Hr Hov.
  pose proof (region_okb_spec _ _ Hreg) as (_ & Hbs & _).
  destruct (publish_plan_spec m i s Hr ltac:(lia))
    as (Htot & Htw & Hkw & _ & _ & Hsum & Hall & _).
  split; [| split; [| split; [| split]]].
  - rewrite (publish_symbol_layout m n i s) by done.
    rewrite Htot. rewrite Z.min_r by lia. done.
  - apply prefix_take.
  - apply prefix_take.
  - rewrite (publish_symbol_bytes m n i s) by done. lia.
  - intros Hne. unfold published_trades. apply take_ge.
    rewrite length_snapshot.
    assert (0 < p_klines_to_write (publish_plan m i s)) as Hpos.
    { destruct (Z_lt_le_dec 0 (p_klines_to_write (publish_plan m i s)));
        [done |].
      exfalso. apply Hne. unfold published_klines.
      replace (Z.to_nat _) with 0%nat by lia. done. }
    rewrite (Hall Hpos). lia.
Qed.

Lemma overflow_truncation_witness :
  publish_symbol ex_small_region 0 ex_symbol_3
  = mk_write (slot_start ex_small_region 0)
             (encode_le 8 (slot_capacity ex_small_region))
      :: layout (slot_start ex_small_region 0 + sizeof_size_t)
                (map trade_frame (published_trades ex_small_region 0 ex_symbol_3)
                 ++ map kline_frame
                      (published_klines ex_small_region 0 ex_symbol_3)) /\
  published_trades ex_small_region 0 ex_symbol_3
    `prefix_of` snapshot_in_order zero_trade (trades ex_symbol_3) /\
  published_klines ex_small_region 0 ex_symbol_3
    `prefix_of` snapshot_in_order zero_kline (klines ex_symbol_3) /\
  bytes_written (tail (publish_symbol ex_small_region 0 ex_symbol_3))
    <= slot_capacity ex_small_region /\
  (published_klines ex_small_region 0 ex_symbol_3 <> [] ->
   published_trades ex_small_region 0 ex_symbol_3
   = snapshot_in_order zero_trade (trades ex_symbol_3)).
Proof.
  apply (overflow_truncation ex_small_region 1 0 ex_symbol_3).
  - vm_compute. reflexivity.
  - lia.
  - vm_compute. reflexivity.
  - vm_compute. reflexivity.
Defined.

(** When everything fits, the size field is the number of bytes of the
    frames stored behind it. *)
Lemma size_field_exact_when_fits m n i s :
  region_okb m n = true -> 0 <= i < n -> rings_okb s = true ->
  serialized_size s <= slot_capacity m ->
  exists ws,
    publish_symbol m i s
    = mk_write (slot_start m i) (encode_le 8 (bytes_written ws)) :: ws.
Proof.
  intros Hreg Hi Hr Hfit.
  pose proof (region_okb_spec _ _ Hreg) as (_ & Hbs & _).
  destruct (publish_plan_spec m i s Hr ltac:(lia))
    as (_ & _ & _ & _ & _ & _ & _ & Hall).
  destruct (Hall Hfit) as (Ht & Hk & Htot).
  exists (tail (publish_symbol m i s)).
  rewrite (publish_symbol_bytes m n i s) by done.
  rewrite (publish_symbol_layout m n i s) at 1 by done.
  cbn [tail]. rewrite (publish_symbol_layout m n i s) by done. cbn [tail].
  rewrite Htot, Ht, Hk. unfold serialized_size.
  destruct frame_sizes as [-> ->]. done.
Qed.

(** Outside the runs of the collector: were the header to announce
    slots of 108 bytes, which [init_shared_memory] never writes, a pass
    over three trades would store the capped total 100 in the size
    field and a single whole trade frame, 73 bytes, behind it. *)
Remark size_field_of_a_truncated_slot :
  let ws := publish_symbol ex_small_region 0 ex_symbol_3 in
  let m' := apply_writes ex_small_region ws in
  serialized_size ex_symbol_3 = 219 /\
  slot_capacity ex_small_region = 100 /\
  load_u64 m' (slot_start ex_small_region 0) = 100 /\
  bytes_written (tail ws) = 73.
Proof. vm_compute. repeat split; reflexivity. Qed.

(** ** Footprint of a publisher pass *)

Lemma publish_symbol_in_slot m n i s :
  region_okb m n = true -> 0 <= i < n -> rings_okb s = true ->
  Forall (in_slot m i) (publish_symbol m i s).
Proof.
  intros Hreg Hi Hr.
  pose proof (region_okb_spec _ _ Hreg) as (_ & Hbs & _).
  destruct (publish_plan_spec m i s Hr ltac:(lia))
    as (Htot & _ & _ & _ & _ & Hsum & _).
  pose proof (length_published_frames m i s Hr ltac:(lia)) as Hlen.
  rewrite (publish_symbol_layout m n i s) by done.
  unfold slot_capacity, sizeof_size_t in Htot.
  constructor.
  - unfold in_slot. cbn [w_addr w_bytes]. rewrite length_encode_le. lia.
  - eapply Forall_impl; [apply layout_within |].
    cbn beta. intros w Hw. unfold in_slot. lia.
Qed.

Lemma in_slot_above_header m n i w :
  region_okb m n = true -> 0 <= i < n -> in_slot m i w ->
  256 <= w_addr w.
Proof.
  intros Hreg Hi [Hlo _]. pose proof (slot_inside _ _ _ Hreg Hi). lia.
Qed.

Lemma header_fields_agree m1 m2 :
  (forall x, 16 <= x < 32 -> m1 x = m2 x) ->
  shm_data_offset m1 = shm_data_offset m2 /\
  shm_buffer_size m1 = shm_buffer_size m2.
Proof.
  intros H. unfold shm_data_offset, shm_buffer_size, load_u64.
  unfold OFF_data_offset, OFF_buffer_size.
  split; f_equal; apply load_bytes_ext; intros x Hx; apply H; lia.
Qed.

Lemma publish_symbol_ext m1 m2 i s :
  shm_data_offset m1 = shm_data_offset m2 ->
  shm_buffer_size m1 = shm_buffer_size m2 ->
  publish_symbol m1 i s = publish_symbol m2 i s.
Proof.
  intros H1 H2. unfold publish_symbol, publish_plan. by rewrite H1, H2.
Qed.

Lemma forallb_cons_true {A} (f : A -> bool) x l :
  forallb f (x :: l) = true -> f x = true /\ forallb f l = true.
Proof. cbn. apply andb_prop. Qed.

Lemma slots_log_in_slots m n syms i :
  region_okb m n = true -> 0 <= i ->
  i + Z.of_nat (length syms) <= n ->
  forallb rings_okb syms = true ->
  Forall (fun w => exists j, i <= j < i + Z.of_nat (length syms)
                             /\ in_slot m j w)
         (slots_log m i syms).
Proof.
  intros Hreg. revert i.
  induction syms as [| s rest IH]; intros i Hi Hn Hok; [constructor |].
  cbn [length] in Hn. apply forallb_cons_true in Hok as [Hs Hrest].
  cbn [slots_log]. apply Forall_app. split.
  - eapply Forall_impl;
      [apply (publish_symbol_in_slot m n i s); [done | lia | done] |].
    cbn beta. intros w Hw. exists i. split; [cbn [length]; lia | done].
  - eapply Forall_impl; [apply (IH (i + 1)); [lia | lia | done] |].
    cbn beta. intros w (j & Hj & Hw). exists j. split; [cbn [length]; lia | done].
Qed.

Lemma slots_log_above_header m n syms i :
  region_okb m n = true -> 0 <= i ->
  i + Z.of_nat (length syms) <= n ->
  forallb rings_okb syms = true ->
  Forall (fun w => 256 <= w_addr w) (slots_log m i syms).
Proof.
  intros Hreg Hi Hn Hok.
  eapply Forall_impl; [by apply (slots_log_in_slots m n syms i) |].
  cbn beta. intros w (j & Hj & Hw).
  apply (in_slot_above_header m n j w); [done | lia | done].
Qed.

Lemma apply_writes_below m ws x :
  Forall (fun w => 256 <= w_addr w) ws -> x < 256 ->
  apply_writes m ws x = m x.
Proof.
  intros H Hx. apply apply_writes_out.
  eapply Forall_impl; [exact H |]. cbn beta. intros w Hw. lia.
Qed.

(** The loop re-reads the header at every iteration but never stores
    into it: its stores are those computed against the header at entry. *)
Lemma publish_loop_log m0 n syms :
  region_okb m0 n = true ->
  forall m i,
    (forall x, 16 <= x < 32 -> m x = m0 x) ->
    0 <= i -> i + Z.of_nat (length syms) <= n ->
    forallb rings_okb syms = true ->
    publish_loop m i syms
    = (apply_writes m (slots_log m0 i syms), slots_log m0 i syms).
Proof.
  intros Hreg.
  induction syms as [| s rest IH]; intros m i Hm Hi Hn Hok; [done |].
  cbn [length] in Hn. pose proof Hok as Hok'.
  apply forallb_cons_true in Hok as [Hs Hrest].
  cbn [publish_loop slots_log].
  destruct (header_fields_agree m m0 Hm) as [Hdo Hbs].
  rewrite (publish_symbol_ext m m0 i s Hdo Hbs).
  rewrite (IH (apply_writes m (publish_symbol m0 i s)) (i + 1));
    [| | lia | lia | done].
  - by rewrite apply_writes_app.
  - intros x Hx. rewrite apply_writes_below; [by apply Hm | | lia].
    eapply Forall_impl;
      [apply (publish_symbol_in_slot m0 n i s); [done | lia | done] |].
    cbn beta. intros w Hw.
    apply (in_slot_above_header m0 n i w); [done | lia | done].
Qed.

Lemma length_time_store now : length (w_bytes (time_store now)) = 8%nat.
Proof. apply length_encode_le. Qed.

(** What a pass does when the region is mapped and the header is sane:
    either the time store alone, or the time store, the slot stores and
    the counter store, in that order. *)
Lemma update_shared_memory_log c m now :
  shared_memory c = Some m ->
  region_okb m (symbol_count c) = true ->
  forallb rings_okb (symbols c) = true ->
  (now - last_update_time c < 1 ->
   update_shared_memory c now
   = (mk_collector (symbols c) (Some (apply_write m (time_store now)))
                   (last_update_time c),
      [time_store now])) /\
  (1 <= now - last_update_time c ->
   update_shared_memory c now
   = (mk_collector (symbols c)
        (Some (apply_writes m
                 (time_store now :: slots_log m 0 (symbols c)
                  ++ [counter_store m])))
        now,
      time_store now :: slots_log m 0 (symbols c) ++ [counter_store m])).
Proof.
  intros Hshm Hreg Hok. unfold update_shared_memory. rewrite Hshm.
  fold (time_store now). split; intros Hgate.
  - destruct (Z.ltb_spec (now - last_update_time c) 1); [done | lia].
  - destruct (Z.ltb_spec (now - last_update_time c) 1); [lia |].
    rewrite (publish_loop_log m (symbol_count c) (symbols c) Hreg
               (apply_write m (time_store now)) 0);
      [| | lia | unfold symbol_count; lia | done].
    2:{ intros x Hx. unfold apply_write, time_store. cbn [w_addr w_bytes].
        rewrite store_bytes_out; [done |].
        rewrite length_encode_le. unfold OFF_last_update_time. lia. }
    assert (shm_write_counter
              (apply_writes (apply_write m (time_store now))
                 (slots_log m 0 (symbols c)))
            = shm_write_counter m) as Hwc.
    { unfold shm_write_counter, load_u64. f_equal.
      apply load_bytes_ext. intros x Hx. unfold OFF_write_counter in Hx.
      rewrite apply_writes_below;
        [| apply (slots_log_above_header m (symbol_count c));
           [done | lia | unfold symbol_count; lia | done] | lia].
      unfold apply_write, time_store. cbn [w_addr w_bytes].
      rewrite store_bytes_out; [done |]. unfold OFF_last_update_time. lia. }
    rewrite Hwc. fold (counter_store m).
    f_equal. f_equal. f_equal.
    cbn [apply_writes fold_left].
    fold (apply_writes (apply_write m (time_store now))
            (slots_log m 0 (symbols c) ++ [counter_store m])).
    by rewrite apply_writes_app.
Qed.

(** C10. A pass over a mapped region with a sane header stores, apart
    from [last_update_time] and [write_counter], only inside the slots:
    iteration [i] only inside slot [i], so that it leaves every byte
    outside that slot as it was, slots of different symbols do not
    overlap, and after the pass every byte from offset 16 on that lies
    in no active slot (the rest of the header included) is unchanged. *)
Theorem publisher_pass_frame c m now :
  shared_memory c = Some m ->
  region_okb m (symbol_count c) = true ->
  forallb rings_okb (symbols c) = true ->
  let log := snd (update_shared_memory c now) in
  (log = [time_store now] \/
   log = time_store now :: slots_log m 0 (symbols c) ++ [counter_store m]) /\
  (forall i s, symbols c !! i = Some s ->
     Forall (in_slot m (Z.of_nat i)) (publish_symbol m (Z.of_nat i) s)) /\
  (forall i s m0 x, symbols c !! i = Some s ->
     ~ (slot_start m (Z.of_nat i) <= x
        < slot_start m (Z.of_nat i) + shm_buffer_size m) ->
     apply_writes m0 (publish_symbol m (Z.of_nat i) s) x = m0 x) /\
  (forall i j, 0 <= i < j ->
     slot_start m i + shm_buffer_size m <= slot_start m j) /\
  exists m',
    shared_memory (fst (update_shared_memory c now)) = Some m' /\
    m' = apply_writes m log /\
    forall x, 16 <= x ->
      (forall i, 0 <= i < symbol_count c ->
         ~ (slot_start m i <= x < slot_start m i + shm_buffer_size m)) ->
      m' x = m x.
Proof.
  intros Hshm Hreg Hok log.
  pose proof (region_okb_spec _ _ Hreg) as (Hdo & Hbs & _ & Hend).
  assert (forall i s, symbols c !! i = Some s ->
            Forall (in_slot m (Z.of_nat i))
                   (publish_symbol m (Z.of_nat i) s)) as Hslot.
  { intros i s Hs.
    apply (publish_symbol_in_slot m (symbol_count c)); [done | |].
    - apply lookup_lt_Some in Hs. unfold symbol_count. lia.
    - rewrite forallb_forall in Hok. apply Hok.
      apply list_elem_of_In. by eapply list_elem_of_lookup_2. }
  destruct (update_shared_memory_log c m now Hshm Hreg Hok) as [Hclosed Hopen].
  split; [| split; [exact Hslot | split; [| split]]].
  - subst log. destruct (Z_lt_le_dec (now - last_update_time c) 1) as [Hg | Hg].
    + left. by rewrite (Hclosed Hg).
    + right. by rewrite (Hopen Hg).
  - intros i s m0 x Hs Hx. apply apply_writes_out.
    eapply Forall_impl; [apply (Hslot i s Hs) |].
    cbn beta. unfold in_slot. intros w Hw. lia.
  - intros i j Hij. unfold slot_start. nia.
  - subst log. destruct (Z_lt_le_dec (now - last_update_time c) 1) as [Hg | Hg].
    + rewrite (Hclosed Hg). cbn [fst snd shared_memory].
      eexists. split; [done |]. split; [done |].
      intros x Hx _. unfold apply_write, time_store. cbn [w_addr w_bytes].
      rewrite store_bytes_out; [done |].
      rewrite length_encode_le. unfold OFF_last_update_time. lia.
    + rewrite (Hopen Hg). cbn [fst snd shared_memory].
      eexists. split; [done |]. split; [done |].
      intros x Hx Hout. apply apply_writes_out.
      constructor.
      { cbn [time_store w_addr w_bytes]. rewrite length_encode_le.
        unfold OFF_last_update_time. lia. }
      apply Forall_app. split.
      * eapply Forall_impl;
          [apply (slots_log_in_slots m (symbol_count c) (symbols c) 0);
           [done | lia | unfold symbol_count; lia | done] |].
        cbn beta. intros w (j & Hj & Hw). unfold in_slot in Hw.
        specialize (Hout j ltac:(unfold symbol_count; lia)). lia.
      * constructor; [| constructor].
        cbn [counter_store w_addr w_bytes]. rewrite length_encode_le.
        unfold OFF_write_counter. lia.
Qed.

Lemma publisher_pass_frame_witness :
  let c := ex_collector in
  let m := ex_region in
  let now := 1003 in
  let log := snd (update_shared_memory c now) in
  (log = [time_store now] \/
   log = time_store now :: slots_log m 0 (symbols c) ++ [counter_store m]) /\
  (forall i s, symbols c !! i = Some s ->
     Forall (in_slot m (Z.of_nat i)) (publish_symbol m (Z.of_nat i) s)) /\
  (forall i s m0 x, symbols c !! i = Some s ->
     ~ (slot_start m (Z.of_nat i) <= x
        < slot_start m (Z.of_nat i) + shm_buffer_size m) ->
     apply_writes m0 (publish_symbol m (Z.of_nat i) s) x = m0 x) /\
  (forall i j, 0 <= i < j ->
     slot_start m i + shm_buffer_size m <= slot_start m j) /\
  exists m',
    shared_memory (fst (update_shared_memory c now)) = Some m' /\
    m' = apply_writes m log /\
    forall x, 16 <= x ->
      (forall i, 0 <= i < symbol_count c ->
         ~ (slot_start m i <= x < slot_start m i + shm_buffer_size m)) ->
      m' x = m x.
Proof.
  apply (publisher_pass_frame ex_collector ex_region 1003).
  - reflexivity.
  - vm_compute. reflexivity.
  - vm_compute. reflexivity.
Defined.

(** ** Order of the stores and gap between rewrites *)

Lemma load_u64_holds m a v :
  holds m a (encode_le 8 v) -> load_u64 m a = wrap64 v.
Proof.
  intros H. unfold load_u64.
  replace 8%nat with (length (encode_le 8 v)) at 1
    by apply length_encode_le.
  rewrite load_of_holds; [| done | apply encode_le_bytes].
  by rewrite decode_encode_le.
Qed.

Lemma is_rewrite_open now log w :
  w_addr w = OFF_write_counter ->
  is_rewrite (time_store now :: log ++ [w]) = true.
Proof.
  intros Hw. unfold is_rewrite. cbn [existsb].
  rewrite existsb_app. cbn [existsb]. rewrite Hw.
  rewrite Z.eqb_refl. cbn [orb]. by rewrite !orb_true_r.
Qed.

(** A pass either keeps the process's [last_update_time] and does not
    rewrite, or rewrites, at least one second after it, and sets it. *)
Lemma update_gate c now :
  (is_rewrite (snd (update_shared_memory c now)) = false /\
   last_update_time (fst (update_shared_memory c now)) = last_update_time c)
  \/
  (is_rewrite (snd (update_shared_memory c now)) = true /\
   last_update_time (fst (update_shared_memory c now)) = now /\
   last_update_time c + 1 <= now).
Proof.
  unfold update_shared_memory.
  destruct (shared_memory c) as [m |]; [| by left].
  destruct (Z.ltb_spec (now - last_update_time c) 1) as [Hg | Hg].
  - left. done.
  - right. destruct (publish_loop _ 0 (symbols c)) as [m2 log].
    cbn [fst snd]. split; [| split; [reflexivity | lia]].
    by apply (is_rewrite_open now log).
Qed.

Lemma rewrite_times_spaced nows :
  forall c, spaced (last_update_time c) (rewrite_times c nows).
Proof.
  induction nows as [| now rest IH]; intros c; [done |].
  cbn [rewrite_times].
  pose proof (update_gate c now) as Hg.
  destruct (update_shared_memory c now) as [c' log]. cbn [fst snd] in Hg.
  specialize (IH c').
  destruct Hg as [[-> Hl] | (-> & Hl & Hgap)]; cbn [app].
  - by rewrite Hl in IH.
  - cbn [spaced]. split; [done |]. by rewrite Hl in IH.
Qed.

Lemma spaced_lookup lo l k a b :
  spaced lo l -> l !! k = Some a -> l !! S k = Some b -> 1 <= b - a.
Proof.
  revert lo k. induction l as [| x l IH]; intros lo k Hs Ha Hb; [done |].
  destruct Hs as [_ Hs]. destruct k as [| k].
  - cbn in Ha. injection Ha as ->.
    destruct l as [| y l]; [done |]. cbn in Hb. injection Hb as ->.
    destruct Hs as [Hs _]. lia.
  - by apply (IH x k).
Qed.

(** C7 (as the code has it). Every pass first stores the time into the
    region's [last_update_time]; a pass less than one second after the
    last rewrite stores nothing else; any other pass then stores the
    slots of all symbols and only after them increments [write_counter]
    by one; and any two successive rewriting passes of a publisher run
    are at least one second apart on the clock of [time]. *)
Theorem publisher_order_and_gap c m now nows :
  shared_memory c = Some m ->
  region_okb m (symbol_count c) = true ->
  forallb rings_okb (symbols c) = true ->
  (now - last_update_time c < 1 ->
   snd (update_shared_memory c now) = [time_store now] /\
   last_update_time (fst (update_shared_memory c now)) = last_update_time c) /\
  (1 <= now - last_update_time c ->
   snd (update_shared_memory c now)
   = time_store now :: slots_log m 0 (symbols c) ++ [counter_store m] /\
   last_update_time (fst (update_shared_memory c now)) = now /\
   exists m',
     shared_memory (fst (update_shared_memory c now)) = Some m' /\
     shm_write_counter m' = add64 (shm_write_counter m) 1 /\
     shm_last_update_time m' = wrap64 now) /\
  (forall k a b,
     rewrite_times c nows !! k = Some a ->
     rewrite_times c nows !! S k = Some b -> 1 <= b - a).
Proof.
  intros Hshm Hreg Hok.
  destruct (update_shared_memory_log c m now Hshm Hreg Hok) as [Hclosed Hopen].
  split; [| split].
  - intros Hg. by rewrite (Hclosed Hg).
  - intros Hg. rewrite (Hopen Hg). cbn [fst snd last_update_time shared_memory].
    split; [done |]. split; [done |]. eexists. split; [done |].
    assert (Forall (fun w => 256 <= w_addr w) (slots_log m 0 (symbols c)))
      as Habove.
    { apply (slots_log_above_header m (symbol_count c));
        [done | lia | unfold symbol_count; lia | done]. }
    split.
    + change (time_store now :: slots_log m 0 (symbols c) ++ [counter_store m])
        with ((time_store now :: slots_log m 0 (symbols c))
              ++ [counter_store m]).
      rewrite apply_writes_app. cbn [apply_writes fold_left].
      unfold shm_write_counter at 1.
      rewrite (load_u64_holds _ _ (add64 (shm_write_counter m) 1)).
      * apply wrap64_small, wrap64_range.
      * apply holds_store.
    + unfold shm_last_update_time.
      apply load_u64_holds.
      eapply holds_ext; [| apply (holds_store m OFF_last_update_time)].
      intros x Hx. rewrite length_encode_le in Hx.
      unfold OFF_last_update_time in Hx.
      cbn [apply_writes fold_left].
      fold (apply_writes (apply_write m (time_store now))
              (slots_log m 0 (symbols c) ++ [counter_store m])).
      symmetry. apply apply_writes_out. apply Forall_app. split.
      * eapply Forall_impl; [exact Habove |]. cbn beta. intros w Hw. lia.
      * constructor; [| constructor].
        cbn [counter_store w_addr w_bytes]. rewrite length_encode_le.
        unfold OFF_write_counter. lia.
  - intros k a b. apply spaced_lookup with (lo := last_update_time c).
    apply rewrite_times_spaced.
Qed.

Lemma publisher_order_and_gap_witness :
  let c := ex_collector in
  let m := ex_region in
  let now := 1003 in
  let nows := [1003; 1003; 1004; 1004; 1006] in
  snd (update_shared_memory c now)
  = time_store now :: slots_log m 0 (symbols c) ++ [counter_store m] /\
  last_update_time (fst (update_shared_memory c now)) = now /\
  (exists m',
     shared_memory (fst (update_shared_memory c now)) = Some m' /\
     shm_write_counter m' = add64 (shm_write_counter m) 1 /\
     shm_last_update_time m' = wrap64 now) /\
  (forall k a b,
     rewrite_times c nows !! k = Some a ->
     rewrite_times c nows !! S k = Some b -> 1 <= b - a).
Proof.
  intros c m now nows.
  destruct (publisher_order_and_gap ex_collector ex_region 1003
              [1003; 1003; 1004; 1004; 1006])
    as (_ & Hopen & Hgap).
  - reflexivity.
  - vm_compute. reflexivity.
  - vm_compute. reflexivity.
  - destruct Hopen as (Hlog & Hlast & Hm); [vm_compute; discriminate |].
    repeat split; assumption.
Defined.

(** C7 as stated fails: in a rewriting pass the store into
    [last_update_time] is the first store of the pass and the slot
    stores come after it. *)
Lemma last_update_time_not_stored_last :
  ~ (forall c now j k w_slot w_time,
       is_rewrite (snd (update_shared_memory c now)) = true ->
       snd (update_shared_memory c now) !! j = Some w_slot ->
       sizeof_shared_memory_header_t <= w_addr w_slot ->
       snd (update_shared_memory c now) !! k = Some w_time ->
       w_addr w_time = OFF_last_update_time ->
       (j < k)%nat).
Proof.
  intros H.
  specialize (H ex_collector 1003 1%nat 0%nat
                (mk_write 256 (encode_le 8 219)) (time_store 1003)).
  assert (1 < 0)%nat; [| lia].
  apply H; vm_compute; (reflexivity || discriminate).
Qed.

(** ** Object representations read back *)

Lemma take_encode n v rest : take n (encode_le n v ++ rest) = encode_le n v.
Proof. apply take_app_length'. symmetry. apply length_encode_le. Qed.

Lemma drop_encode n v rest : drop n (encode_le n v ++ rest) = rest.
Proof. apply drop_app_length'. symmetry. apply length_encode_le. Qed.

Lemma decode_u64 v : 0 <= v < 2 ^ 64 -> decode_le (encode_le 8 v) = v.
Proof. intros H. rewrite decode_encode_le. apply Z.mod_small. exact H. Qed.

Lemma decode_i64 v :
  - 2 ^ 63 <= v < 2 ^ 63 -> signed64 (decode_le (encode_le 8 v)) = v.
Proof. intros H. rewrite decode_encode_le. by apply signed64_wrap. Qed.

Lemma decode_u8 v : 0 <= v < 256 -> decode_le (encode_le 1 v) = v.
Proof. intros H. rewrite decode_encode_le. apply Z.mod_small. exact H. Qed.

Lemma int64_okb_spec z : int64_okb z = true -> - 2 ^ 63 <= z < 2 ^ 63.
Proof. unfold int64_okb. lia. Qed.

Lemma uint64_okb_spec z : uint64_okb z = true -> 0 <= z < 2 ^ 64.
Proof. unfold uint64_okb. lia. Qed.

Lemma byte_okb_spec z : byte_okb z = true -> 0 <= z < 256.
Proof. unfold byte_okb. lia. Qed.

Lemma decode_encode_trade r :
  trade_okb r = true -> decode_trade (encode_trade r) = r.
Proof.
  unfold trade_okb. rewrite !andb_true_iff.
  intros [[[[[H1 H2] H3] H4] H5] H6].
  apply int64_okb_spec in H1, H2, H5.
  apply uint64_okb_spec in H3, H4. apply byte_okb_spec in H6.
  destruct r as [f1 f2 f3 f4 f5 f6]. cbn [event_time trade_time price
    quantity trade_id is_buyer_maker] in *.
  unfold decode_trade, encode_trade.
  cbn [event_time trade_time price quantity trade_id is_buyer_maker].
  rewrite <- !(drop_drop _ 32 8), <- !(drop_drop _ 24 8),
    <- !(drop_drop _ 16 8), <- !(drop_drop _ 8 8).
  rewrite !drop_encode. rewrite !take_encode.
  rewrite (take_ge (encode_le 1 f6)) by (by rewrite length_encode_le).
  rewrite !decode_i64 by done. rewrite !decode_u64 by done.
  rewrite decode_u8 by done. done.
Qed.

Lemma decode_encode_kline r :
  kline_okb r = true -> decode_kline (encode_kline r) = r.
Proof.
  unfold kline_okb. rewrite !andb_true_iff.
  intros [[[[[[[[H1 H2] H3] H4] H5] H6] H7] H8] H9].
  apply int64_okb_spec in H1, H2, H8.
  apply uint64_okb_spec in H3, H4, H5, H6, H7. apply byte_okb_spec in H9.
  destruct r as [f1 f2 f3 f4 f5 f6 f7 f8 f9]. cbn [open_time close_time
    open_price close_price high_price low_price volume num_trades
    is_final] in *.
  unfold decode_kline, encode_kline.
  cbn [open_time close_time open_price close_price high_price low_price
       volume num_trades is_final].
  rewrite <- !(drop_drop _ 56 8), <- !(drop_drop _ 48 8),
    <- !(drop_drop _ 40 8), <- !(drop_drop _ 32 8), <- !(drop_drop _ 24 8),
    <- !(drop_drop _ 16 8), <- !(drop_drop _ 8 8).
  rewrite !drop_encode. rewrite !take_encode.
  rewrite (take_ge (encode_le 1 f9)) by (by rewrite length_encode_le).
  rewrite !decode_i64 by done. rewrite !decode_u64 by done.
  rewrite decode_u8 by done. done.
Qed.

(** ** What a pass leaves in a slot *)

Lemma slots_log_app m i l1 l2 :
  slots_log m i (l1 ++ l2)
  = slots_log m i l1 ++ slots_log m (i + Z.of_nat (length l1)) l2.
Proof.
  revert i. induction l1 as [| s l1 IH]; intros i.
  - cbn. by rewrite Z.add_0_r.
  - cbn [app slots_log length]. rewrite IH, <- app_assoc.
    do 2 f_equal. f_equal. lia.
Qed.

Lemma holds_apply_writes_other m ws a bs :
  Forall (fun w => w_addr w + Z.of_nat (length (w_bytes w)) <= a
                   \/ a + Z.of_nat (length bs) <= w_addr w) ws ->
  holds m a bs -> holds (apply_writes m ws) a bs.
Proof.
  intros Hws H. eapply holds_ext; [| exact H].
  intros x Hx. symmetry. apply apply_writes_out.
  eapply Forall_impl; [exact Hws |]. cbn beta. intros w Hw. lia.
Qed.

Lemma length_slot_image m i s :
  rings_okb s = true -> 8 <= shm_buffer_size m ->
  8 <= Z.of_nat (length (slot_image m i s)) <= shm_buffer_size m.
Proof.
  intros Hr Hbs.
  destruct (publish_plan_spec m i s Hr Hbs)
    as (Htot & Htw & Hkw & _ & _ & Hsum & _).
  pose proof (length_published_frames m i s Hr Hbs) as Hlen.
  unfold slot_image. rewrite length_app, length_encode_le.
  unfold slot_capacity, sizeof_size_t in Htot. lia.
Qed.

Lemma publish_symbol_holds m0 m n i s :
  region_okb m n = true -> 0 <= i < n -> rings_okb s = true ->
  holds (apply_writes m0 (publish_symbol m i s))
        (slot_start m i) (slot_image m i s).
Proof.
  intros Hreg Hi Hr.
  rewrite (publish_symbol_layout m n i s) by done.
  cbn [apply_writes fold_left].
  match goal with
  | |- holds (fold_left apply_write ?ws ?m1) _ _ =>
      change (fold_left apply_write ws m1) with (apply_writes m1 ws)
  end.
  unfold slot_image. apply holds_app. split.
  - apply holds_apply_writes_other; [| apply holds_store].
    eapply Forall_impl; [apply layout_within |].
    cbn beta. intros w Hw. rewrite length_encode_le. lia.
  - rewrite length_encode_le. apply holds_layout.
Qed.

(** After a rewriting pass the slot of each symbol holds its image and
    the header past the two counters is as before. *)
Lemma pass_slot_holds c m now i s :
  shared_memory c = Some m ->
  region_okb m (symbol_count c) = true ->
  forallb rings_okb (symbols c) = true ->
  1 <= now - last_update_time c ->
  symbols c !! i = Some s ->
  exists m',
    shared_memory (fst (update_shared_memory c now)) = Some m' /\
    holds m' (slot_start m (Z.of_nat i)) (slot_image m (Z.of_nat i) s) /\
    (forall x, 16 <= x < 256 -> m' x = m x).
Proof.
  intros Hshm Hreg Hok Hgate Hs.
  destruct (update_shared_memory_log c m now Hshm Hreg Hok) as [_ Hopen].
  rewrite (Hopen Hgate). cbn [fst shared_memory].
  eexists. split; [done |].
  pose proof (region_okb_spec _ _ Hreg) as (Hdo & Hbs & _ & Hend).
  pose proof (lookup_lt_Some _ _ _ Hs) as Hlt.
  assert (rings_okb s = true) as Hrs.
  { rewrite forallb_forall in Hok. apply Hok.
    apply list_elem_of_In. by eapply list_elem_of_lookup_2. }
  pose proof (length_slot_image m (Z.of_nat i) s Hrs ltac:(lia)) as Himg.
  pose proof (slot_inside m (symbol_count c) (Z.of_nat i) Hreg
                ltac:(unfold symbol_count; lia)) as [Hlo Hhi].
  split.
  - rewrite <- (take_drop_middle _ _ _ Hs) at 1.
    rewrite slots_log_app. cbn [slots_log].
    rewrite length_take. replace (i `min` length (symbols c))%nat with i by lia.
    rewrite Z.add_0_l.
    rewrite <- (app_assoc (slots_log m 0 (take i (symbols c)))).
    rewrite app_comm_cons.
    rewrite apply_writes_app. rewrite <- app_assoc. rewrite apply_writes_app.
    apply holds_apply_writes_other;
      [| apply (publish_symbol_holds _ m (symbol_count c));
         [done | unfold symbol_count; lia | done]].
    apply Forall_app. split.
    + eapply Forall_impl;
        [apply (slots_log_in_slots m (symbol_count c) _ (Z.of_nat i + 1));
         [done | lia | | ] |].
      * rewrite length_drop. unfold symbol_count. lia.
      * rewrite forallb_forall in Hok |- *. intros x Hx. apply Hok.
        apply list_elem_of_In. apply list_elem_of_In in Hx.
        by apply (subseteq_drop (S i) (symbols c)).
      * cbn beta. intros w (j & Hj & Hw). unfold in_slot, slot_start in *.
        right. nia.
    + constructor; [| constructor]. left.
      cbn [counter_store w_addr w_bytes]. rewrite length_encode_le.
      unfold OFF_write_counter. lia.
  - intros x Hx. apply apply_writes_out. constructor.
    { cbn [time_store w_addr w_bytes]. rewrite length_encode_le.
      unfold OFF_last_update_time. lia. }
    apply Forall_app. split.
    + eapply Forall_impl;
        [apply (slots_log_above_header m (symbol_count c));
         [done | lia | unfold symbol_count; lia | done] |].
      cbn beta. intros w Hw. lia.
    + constructor; [| constructor].
      cbn [counter_store w_addr w_bytes]. rewrite length_encode_le.
      unfold OFF_write_counter. lia.
Qed.

(** ** The reader up to the frame walk *)

Lemma region_okb_ext m1 m2 n :
  (forall x, 16 <= x < 32 -> m1 x = m2 x) ->
  region_okb m2 n = region_okb m1 n /\ slot_start m1 = slot_start m2 /\
  shm_buffer_size m1 = shm_buffer_size m2.
Proof.
  intros H. destruct (header_fields_agree m1 m2 H) as [Hdo Hbs].
  unfold region_okb, slot_start. rewrite Hdo, Hbs. done.
Qed.

(** Once the directory lookup has found slot [idx] of a sane header, the
    reader prints the size field and then reports no data, or refuses a
    size beyond the capacity, or walks the frames from offset 0. *)
Lemma display_symbol_data_found m n symbol max_records idx :
  region_okb m n = true -> 0 <= idx < n ->
  find_in_directory m symbol (Z.to_nat (shm_symbol_count m)) 0 = Some idx ->
  let data_size := load_u64 m (slot_start m idx) in
  display_symbol_data m symbol max_records
  = Print (L_data_size data_size) ::
    if data_size =? 0 then [Print L_no_data]
    else if data_size >? slot_capacity m
         then [Print (L_too_large data_size (slot_capacity m))]
         else Print L_data_for
                :: walk m symbol max_records (slot_start m idx + 8) data_size
                        (walk_fuel data_size) 0 0.
Proof.
  intros Hreg Hidx Hfind ds.
  pose proof (slot_inside _ _ _ Hreg Hidx) as [Hlo Hhi].
  pose proof (region_okb_spec _ _ Hreg) as (Hdo & Hbs & _ & Hend).
  unfold display_symbol_data. rewrite Hfind.
  assert (add64 (shm_data_offset m) (mul64 idx (shm_buffer_size m))
          = slot_start m idx) as ->.
  { unfold slot_start in *. rewrite mul64_small by nia.
    rewrite add64_small by nia. done. }
  unfold SHM_SIZE, sizeof_size_t.
  destruct (Z.geb_spec (slot_start m idx) (64 * 1024 * 1024)); [lia |].
  rewrite (add64_small (slot_start m idx) 8) by lia.
  destruct (Z.gtb_spec (slot_start m idx + 8) (64 * 1024 * 1024)); [lia |].
  rewrite sub64_small by lia. done.
Qed.

(** C8. After a rewriting pass, the slot of a symbol whose two ring
    buffers are empty has a size field of 0; and the reader, asked for a
    symbol that resolves to that slot, prints the size and "no data" and
    nothing else: no record is decoded and no warning is printed. *)
Theorem empty_symbol_no_data c m now i s :
  shared_memory c = Some m ->
  region_okb m (symbol_count c) = true ->
  forallb rings_okb (symbols c) = true ->
  1 <= now - last_update_time c ->
  symbols c !! i = Some s ->
  rb_count (trades s) = 0 -> rb_count (klines s) = 0 ->
  exists m',
    shared_memory (fst (update_shared_memory c now)) = Some m' /\
    load_u64 m' (slot_start m' (Z.of_nat i)) = 0 /\
    forall symbol max_records,
      find_in_directory m' symbol (Z.to_nat (shm_symbol_count m')) 0
        = Some (Z.of_nat i) ->
      display_symbol_data m' symbol max_records
      = [Print (L_data_size 0); Print L_no_data].
Proof.
  intros Hshm Hreg Hok Hgate Hs Ht Hk.
  destruct (pass_slot_holds c m now i s Hshm Hreg Hok Hgate Hs)
    as (m' & Hm' & Hholds & Hhdr).
  exists m'. split; [done |].
  destruct (region_okb_ext m' m (symbol_count c)) as (Hreg' & Hss & Hbs').
  { intros x Hx. apply Hhdr. lia. }
  pose proof (region_okb_spec _ _ Hreg) as (_ & Hbs & _).
  assert (rings_okb s = true) as Hrs.
  { rewrite forallb_forall in Hok. apply Hok.
    apply list_elem_of_In. by eapply list_elem_of_lookup_2. }
  destruct (publish_plan_spec m (Z.of_nat i) s Hrs ltac:(lia))
    as (Htot & _).
  assert (load_u64 m' (slot_start m' (Z.of_nat i)) = 0) as Hsize.
  { rewrite Hss. unfold slot_image in Hholds.
    apply holds_app in Hholds as [Hsz _].
    rewrite (load_u64_holds _ _ _ Hsz). rewrite Htot.
    unfold serialized_size, slot_capacity, sizeof_size_t.
    rewrite Ht, Hk. rewrite Z.min_l by lia. done. }
  split; [done |].
  intros symbol max_records Hfind.
  pose proof (lookup_lt_Some _ _ _ Hs) as Hlt.
  rewrite (display_symbol_data_found m' (symbol_count c) symbol max_records
             (Z.of_nat i));
    [| by rewrite <- Hreg' | unfold symbol_count; lia | done].
  cbn zeta. rewrite Hsize. done.
Qed.

Lemma empty_symbol_no_data_witness :
  exists m',
    shared_memory
      (fst (update_shared_memory
              (mk_collector ex_symbols (Some ex_region) 0) 1003)) = Some m' /\
    load_u64 m' (slot_start m' (Z.of_nat 0)) = 0 /\
    display_symbol_data m' BTCUSDT 10
    = [Print (L_data_size 0); Print L_no_data].
Proof.
  destruct (empty_symbol_no_data (mk_collector ex_symbols (Some ex_region) 0)
              ex_region 1003 0 (init_symbol_data BTCUSDT))
    as (m' & Hm' & Hsize & Hread).
  - reflexivity.
  - vm_compute. reflexivity.
  - vm_compute. reflexivity.
  - simpl. lia.
  - reflexivity.
  - reflexivity.
  - reflexivity.
  - exists m'. split; [exact Hm' |]. split; [exact Hsize |].
    apply Hread.
    assert (m' = default ex_region
                   (shared_memory
                      (fst (update_shared_memory
                              (mk_collector ex_symbols (Some ex_region) 0)
                              1003)))) as ->
      by (rewrite Hm'; reflexivity).
    vm_compute. reflexivity.
Defined.

(** ** The frame walk on arbitrary slot contents *)


Section WalkFacts.
Variable m : mem.
Variable symbol : cstring.
Variable max_records : Z.
Variable base : Z.
Variable data_size : Z.
Hypothesis data_size_small : data_size <= 2 ^ 63.


End WalkFacts.




(** On the corrupted example the reader displays the first trade, warns
    about ETHUSDT in the second header, retries four times in all and
    displays nothing more. *)
Example reader_on_corrupted_slot :
  decoded_frames (display_symbol_data ex_corrupted BTCUSDT 10)
    = [(0, D_trade (ex_trade 1 price_10000_0))] /\
  mismatch_count (display_symbol_data ex_corrupted BTCUSDT 10) = 4 /\
  In (Print (L_mismatch (c_str "ETHUSDT")))
     (display_symbol_data ex_corrupted BTCUSDT 10).
Proof. vm_compute. repeat split; tauto. Qed.

(** ** Reads past the declared size *)

(** C9 (where the code departs from it). A slot that announces 32 bytes
    and passes the capacity check, holding one header whose symbol field
    has no NUL byte: the mismatch warning prints the field as a C
    string and reads 19 bytes from offset 16, up to offset 34, beyond
    the declared 32 bytes. *)
Theorem mismatch_warning_reads_past_data_size :
  load_u64 ex_unterminated (slot_start ex_unterminated 0) = 32 /\
  32 <= slot_capacity ex_unterminated /\
  display_symbol_data ex_unterminated BTCUSDT 10
  = [Print (L_data_size 32); Print L_data_for;
     Read 16 1; ReadStr 16 19;
     Print (L_mismatch (replicate 16 88 ++ [89; 89]));
     Print L_no_valid; Print L_blank] /\
  32 < 16 + 19.
Proof. vm_compute. repeat split; (reflexivity || discriminate). Qed.

(** ** Header and record reads stay inside the declared size *)

Lemma strcasecmp_at_reads m s :
  forall a, 1 <= snd (strcasecmp_at m a s) <= Z.of_nat (length s) + 1.
Proof.
  induction s as [| c s IH]; intros a; cbn [strcasecmp_at length].
  - cbn. lia.
  - destruct (tolower (m a mod 256) =? tolower c); [| cbn; lia].
    specialize (IH (a + 1)).
    destruct (strcasecmp_at m (a + 1) s) as [r n]. cbn [snd] in *. lia.
Qed.

Lemma epilogue_reads ds o rc : Forall (read_within ds) (epilogue ds o rc).
Proof.
  unfold epilogue.
  destruct (rc =? 0); [| destruct (o <? ds)]; repeat constructor.
Qed.

Section WalkReads.
Variable m : mem.
Variable symbol : cstring.
Variable max_records : Z.
Variable base : Z.
Variable data_size : Z.
Hypothesis data_size_small : data_size <= 2 ^ 63.
Hypothesis symbol_fits : Z.of_nat (length symbol) < MAX_SYMBOL_LENGTH.

(** Apart from the string read of the mismatch warning, every read of
    the walk lies below the declared size. *)
Lemma walk_reads_within fuel :
  forall o rc, 0 <= o ->
    Forall (read_within data_size)
           (walk m symbol max_records base data_size fuel o rc).
Proof.
  unfold MAX_SYMBOL_LENGTH in symbol_fits.
  induction fuel as [| fuel IH]; intros o rc Ho; cbn [walk].
  - destruct ((o <? data_size) && (rc <? max_records));
      [repeat constructor | apply epilogue_reads].
  - destruct (Z.ltb_spec o data_size) as [Hlt | Hge]; cbn [andb];
      [destruct (Z.ltb_spec rc max_records) as [Hrc | Hrc] |];
      [| apply epilogue_reads | apply epilogue_reads].
    unfold sizeof_message_header_t.
    rewrite (add64_small o 32) by lia.
    destruct (Z.gtb_spec (o + 32) data_size) as [Hinc | Hhdr].
    { constructor; [exact I | apply epilogue_reads]. }
    pose proof (align8_bounds (o + 32) ltac:(lia) ltac:(lia)) as Hal.
    pose proof (strcasecmp_at_reads m symbol (base + o + 16)) as Hn.
    destruct (strcasecmp_at m (base + o + 16) symbol) as [same n].
    cbn [snd] in Hn.
    constructor; [cbn; lia |].
    destruct same; cbn [negb].
    + constructor; [cbn; lia |].
      destruct (load_u32 m (base + o) =? DATA_TYPE_TRADE);
        [| destruct (load_u32 m (base + o) =? DATA_TYPE_KLINE)].
      * constructor; [cbn; lia |].
        destruct (Z.gtb_spec (add64 (o + 32) (load_u32 m (base + o + 4)))
                    data_size) as [Hbig | Hfit]; cbn [orb].
        { constructor; [exact I | apply epilogue_reads]. }
        destruct (Z.eqb_spec (load_u32 m (base + o + 4)) sizeof_trade_record_t)
          as [Hlen | Hlen]; cbn [negb].
        2:{ constructor; [exact I | apply epilogue_reads]. }
        rewrite Hlen in *. unfold sizeof_trade_record_t in *.
        rewrite (add64_small (o + 32) 41) in * by lia.
        constructor; [cbn; lia |]. constructor; [exact I |].
        apply IH. lia.
      * constructor; [cbn; lia |].
        destruct (Z.gtb_spec (add64 (o + 32) (load_u32 m (base + o + 4)))
                    data_size) as [Hbig | Hfit]; cbn [orb].
        { constructor; [exact I | apply epilogue_reads]. }
        destruct (Z.eqb_spec (load_u32 m (base + o + 4)) sizeof_kline_record_t)
          as [Hlen | Hlen]; cbn [negb].
        2:{ constructor; [exact I | apply epilogue_reads]. }
        rewrite Hlen in *. unfold sizeof_kline_record_t in *.
        rewrite (add64_small (o + 32) 65) in * by lia.
        constructor; [cbn; lia |]. constructor; [exact I |].
        apply IH. lia.
      * constructor; [exact I |]. apply IH. lia.
    + destruct (cstr_at m (base + o + 16)) as [hs |].
      * constructor; [exact I |]. constructor; [exact I |]. apply IH. lia.
      * repeat constructor.
Qed.

End WalkReads.

(** ** Reading back what was published *)

Lemma load_u32_holds m a v :
  holds m a (encode_le 4 v) -> load_u32 m a = v mod 2 ^ 32.
Proof.
  intros H. unfold load_u32.
  replace 4%nat with (length (encode_le 4 v)) at 1
    by apply length_encode_le.
  rewrite load_of_holds; [| done | apply encode_le_bytes].
  by rewrite decode_encode_le.
Qed.

Lemma holds_header m a h payload :
  holds m a (encode_header h ++ payload) ->
  load_u32 m a = hdr_type h mod 2 ^ 32 /\
  load_u32 m (a + 4) = hdr_length h mod 2 ^ 32 /\
  holds m (a + 16) (pad16 (hdr_symbol h)) /\
  holds m (a + 32) payload.
Proof.
  intros H. apply holds_app in H as [Hh Hp].
  rewrite length_encode_header in Hp.
  unfold encode_header in Hh.
  apply holds_app in Hh as [Hty Hh]. rewrite length_encode_le in Hh.
  apply holds_app in Hh as [Hlen Hh]. rewrite length_encode_le in Hh.
  apply holds_app in Hh as [_ Hsym]. rewrite length_encode_le in Hsym.
  repeat split.
  - by apply load_u32_holds.
  - by apply load_u32_holds.
  - by replace (a + 16)
      with (a + Z.of_nat 4 + Z.of_nat 4 + Z.of_nat 8) by lia.
  - done.
Qed.

Lemma strcasecmp_at_match m symbol :
  forall a nm rest,
    holds m a (nm ++ 0 :: rest) -> Forall byte_ok nm ->
    map tolower nm = map tolower symbol ->
    strcasecmp_at m a symbol = (true, Z.of_nat (length symbol) + 1).
Proof.
  induction symbol as [| c symbol IH]; intros a nm rest Hh Hok Heq.
  - destruct nm as [| c' nm]; [| done].
    cbn [strcasecmp_at]. pose proof (Hh 0%nat 0 eq_refl) as H0.
    cbn in H0. rewrite Z.add_0_r in H0. by rewrite H0.
  - destruct nm as [| c' nm]; [done |].
    cbn [map] in Heq. injection Heq as Hc Heq.
    inversion Hok as [| ? ? Hc' Hok']; subst.
    cbn [strcasecmp_at].
    pose proof (Hh 0%nat c' eq_refl) as H0.
    cbn in H0. rewrite Z.add_0_r in H0. rewrite H0.
    unfold byte_ok in Hc'. rewrite (Z.mod_small c') by lia.
    rewrite Hc, Z.eqb_refl.
    rewrite (IH (a + 1) nm rest); [| | done | done].
    + cbn [length]. f_equal. lia.
    + intros k b Hk. replace (a + 1 + Z.of_nat k) with (a + Z.of_nat (S k)) by lia.
      by apply Hh.
Qed.

Lemma name_okb_spec nm :
  name_okb nm = true -> (length nm <= 15)%nat /\ Forall byte_ok nm.
Proof.
  unfold name_okb. rewrite andb_true_iff. intros [Hl Hb]. split; [lia |].
  apply Forall_forall. intros b Hin. rewrite forallb_forall in Hb.
  apply byte_okb_spec, Hb. by apply list_elem_of_In.
Qed.

Lemma symbol_field_shape nm :
  (length nm <= 15)%nat ->
  exists rest, pad16 (symbol_field nm) = nm ++ 0 :: rest.
Proof.
  intros Hl. exists (replicate (15 - length nm) 0).
  unfold pad16, symbol_field, strncpy.
  rewrite (take_ge nm 15) by lia.
  rewrite take_app_length'.
  - rewrite <- app_assoc. f_equal.
    generalize (15 - length nm)%nat. intros k.
    induction k as [| k IHk]; [done |]. cbn. by rewrite IHk.
  - rewrite !length_app, length_replicate. cbn. lia.
Qed.

Lemma header_okb_spec ty len nm h :
  header_okb ty len nm h = true ->
  hdr_type h = ty /\ hdr_length h = len /\ hdr_symbol h = symbol_field nm.
Proof.
  unfold header_okb. rewrite !andb_true_iff. intros [[H1 H2] H3].
  apply bool_decide_eq_true in H3. repeat split; [lia | lia | done].
Qed.

Section ReadBack.
Variable m : mem.
Variable symbol : cstring.
Variable max_records : Z.
Variable base : Z.
Variable data_size : Z.
Variable nm : cstring.
Hypothesis data_size_small : data_size <= 2 ^ 63.
Hypothesis nm_ok : name_okb nm = true.
Hypothesis symbol_matches : map tolower nm = map tolower symbol.

Lemma walk_trade_frame fuel o rc h r :
  0 <= o -> o + 73 <= data_size -> rc < max_records ->
  holds m (base + o) (encode_header h ++ encode_trade r) ->
  header_okb DATA_TYPE_TRADE sizeof_trade_record_t nm h = true ->
  trade_okb r = true ->
  printed_records (walk m symbol max_records base data_size (S fuel) o rc)
  = D_trade r
      :: printed_records
           (walk m symbol max_records base data_size fuel (o + 73) (rc + 1)).
Proof.
  intros Ho Hfit Hrc Hh Hhdr Hr.
  destruct (header_okb_spec _ _ _ _ Hhdr) as (Hty & Hlen & Hsym).
  destruct (holds_header _ _ _ _ Hh) as (Lty & Llen & Hs & Hp).
  destruct (name_okb_spec _ nm_ok) as [Hnl Hnb].
  destruct (symbol_field_shape nm Hnl) as [rest Hshape].
  rewrite Hsym, Hshape in Hs.
  pose proof (strcasecmp_at_match m symbol _ nm rest Hs Hnb symbol_matches)
    as Hcmp.
  rewrite Hty in Lty. rewrite Hlen in Llen.
  cbn [walk]. unfold sizeof_message_header_t.
  destruct (Z.ltb_spec o data_size); [| lia].
  destruct (Z.ltb_spec rc max_records); [| lia]. cbn [andb].
  rewrite (add64_small o 32) by lia.
  destruct (Z.gtb_spec (o + 32) data_size); [lia |].
  rewrite Hcmp. cbn [negb]. rewrite Lty, Llen.
  change (DATA_TYPE_TRADE mod 2 ^ 32) with 1.
  change (sizeof_trade_record_t mod 2 ^ 32) with 41.
  change (1 =? DATA_TYPE_TRADE) with true. cbn iota.
  unfold sizeof_trade_record_t.
  rewrite (add64_small (o + 32) 41) by lia.
  destruct (Z.gtb_spec (o + 32 + 41) data_size); [lia |].
  cbn [orb negb Z.eqb Pos.eqb printed_records].
  replace (base + (o + 32)) with (base + o + 32) by lia.
  replace 41%nat with (length (encode_trade r)) by apply length_encode_trade.
  rewrite load_of_holds; [| done |].
  - rewrite decode_encode_trade by done.
    by replace (o + 32 + 41) with (o + 73) by lia.
  - unfold encode_trade. repeat (apply Forall_app; split);
      apply encode_le_bytes.
Qed.

Lemma walk_kline_frame fuel o rc h r :
  0 <= o -> o + 97 <= data_size -> rc < max_records ->
  holds m (base + o) (encode_header h ++ encode_kline r) ->
  header_okb DATA_TYPE_KLINE sizeof_kline_record_t nm h = true ->
  kline_okb r = true ->
  printed_records (walk m symbol max_records base data_size (S fuel) o rc)
  = D_kline r
      :: printed_records
           (walk m symbol max_records base data_size fuel (o + 97) (rc + 1)).
Proof.
  intros Ho Hfit Hrc Hh Hhdr Hr.
  destruct (header_okb_spec _ _ _ _ Hhdr) as (Hty & Hlen & Hsym).
  destruct (holds_header _ _ _ _ Hh) as (Lty & Llen & Hs & Hp).
  destruct (name_okb_spec _ nm_ok) as [Hnl Hnb].
  destruct (symbol_field_shape nm Hnl) as [rest Hshape].
  rewrite Hsym, Hshape in Hs.
  pose proof (strcasecmp_at_match m symbol _ nm rest Hs Hnb symbol_matches)
    as Hcmp.
  rewrite Hty in Lty. rewrite Hlen in Llen.
  cbn [walk]. unfold sizeof_message_header_t.
  destruct (Z.ltb_spec o data_size); [| lia].
  destruct (Z.ltb_spec rc max_records); [| lia]. cbn [andb].
  rewrite (add64_small o 32) by lia.
  destruct (Z.gtb_spec (o + 32) data_size); [lia |].
  rewrite Hcmp. cbn [negb]. rewrite Lty, Llen.
  change (DATA_TYPE_KLINE mod 2 ^ 32) with 2.
  change (sizeof_kline_record_t mod 2 ^ 32) with 65.
  change (2 =? DATA_TYPE_TRADE) with false.
  change (2 =? DATA_TYPE_KLINE) with true. cbn iota.
  unfold sizeof_kline_record_t.
  rewrite (add64_small (o + 32) 65) by lia.
  destruct (Z.gtb_spec (o + 32 + 65) data_size); [lia |].
  cbn [orb negb Z.eqb Pos.eqb printed_records].
  replace (base + (o + 32)) with (base + o + 32) by lia.
  replace 65%nat with (length (encode_kline r)) by apply length_encode_kline.
  rewrite load_of_holds; [| done |].
  - rewrite decode_encode_kline by done.
    by replace (o + 32 + 65) with (o + 97) by lia.
  - unfold encode_kline. repeat (apply Forall_app; split);
      apply encode_le_bytes.
Qed.

End ReadBack.

Lemma printed_records_epilogue ds o rc : printed_records (epilogue ds o rc) = [].
Proof.
  unfold epilogue. destruct (rc =? 0); [| destruct (o <? ds)]; done.
Qed.

Lemma forallb_take {A} (f : A -> bool) n l :
  forallb f l = true -> forallb f (take n l) = true.
Proof.
  revert n. induction l as [| x l IH]; intros n H; [by destruct n |].
  destruct n as [| n]; [done |]. cbn in *.
  apply andb_prop in H as [Hx Hl]. by rewrite Hx, IH.
Qed.

Section ReadBackFrames.
Variable m : mem.
Variable symbol : cstring.
Variable max_records : Z.
Variable base : Z.
Variable data_size : Z.
Variable nm : cstring.
Hypothesis data_size_small : data_size <= 2 ^ 63.
Hypothesis nm_ok : name_okb nm = true.
Hypothesis symbol_matches : map tolower nm = map tolower symbol.

Lemma walk_trade_frames ts :
  forall fuel o rc,
    0 <= o -> o + 73 * Z.of_nat (length ts) <= data_size ->
    rc + Z.of_nat (length ts) <= max_records ->
    holds m (base + o) (frame_bytes (map trade_frame ts)) ->
    forallb (fun x => header_okb DATA_TYPE_TRADE sizeof_trade_record_t nm
                                 (fst x) && trade_okb (snd x)) ts = true ->
    printed_records
      (walk m symbol max_records base data_size (length ts + fuel) o rc)
    = map D_trade (map snd ts)
      ++ printed_records
           (walk m symbol max_records base data_size fuel
                 (o + 73 * Z.of_nat (length ts))
                 (rc + Z.of_nat (length ts))).
Proof.
  induction ts as [| [h r] ts IH]; intros fuel o rc Ho Hfit Hrc Hh Hok.
  - cbn. by rewrite !Z.add_0_r.
  - cbn [length] in *. cbn [map] in Hh. rewrite frame_bytes_cons in Hh.
    cbn [trade_frame frame_of fst snd] in Hh.
    apply holds_app in Hh as [Hframe Hrest].
    rewrite length_app, length_encode_header, length_encode_trade in Hrest.
    apply forallb_cons_true in Hok as [Hx Hok]. cbn [fst snd] in Hx.
    apply andb_prop in Hx as [Hhdr Hr].
    cbn [Nat.add].
    rewrite (walk_trade_frame m symbol max_records base data_size nm
               data_size_small nm_ok symbol_matches _ o rc h r)
      by (done || lia).
    rewrite (IH fuel (o + 73) (rc + 1)); [| lia | lia | lia | | done].
    + replace (o + 73 + 73 * Z.of_nat (length ts))
        with (o + 73 * Z.of_nat (S (length ts))) by lia.
      by replace (rc + 1 + Z.of_nat (length ts))
        with (rc + Z.of_nat (S (length ts))) by lia.
    + by replace (base + (o + 73)) with (base + o + Z.of_nat (32 + 41)) by lia.
Qed.

Lemma walk_kline_frames ks :
  forall fuel o rc,
    0 <= o -> o + 97 * Z.of_nat (length ks) <= data_size ->
    rc + Z.of_nat (length ks) <= max_records ->
    holds m (base + o) (frame_bytes (map kline_frame ks)) ->
    forallb (fun x => header_okb DATA_TYPE_KLINE sizeof_kline_record_t nm
                                 (fst x) && kline_okb (snd x)) ks = true ->
    printed_records
      (walk m symbol max_records base data_size (length ks + fuel) o rc)
    = map D_kline (map snd ks)
      ++ printed_records
           (walk m symbol max_records base data_size fuel
                 (o + 97 * Z.of_nat (length ks))
                 (rc + Z.of_nat (length ks))).
Proof.
  induction ks as [| [h r] ks IH]; intros fuel o rc Ho Hfit Hrc Hh Hok.
  - cbn. by rewrite !Z.add_0_r.
  - cbn [length] in *. cbn [map] in Hh. rewrite frame_bytes_cons in Hh.
    cbn [kline_frame frame_of fst snd] in Hh.
    apply holds_app in Hh as [Hframe Hrest].
    rewrite length_app, length_encode_header, length_encode_kline in Hrest.
    apply forallb_cons_true in Hok as [Hx Hok]. cbn [fst snd] in Hx.
    apply andb_prop in Hx as [Hhdr Hr].
    cbn [Nat.add].
    rewrite (walk_kline_frame m symbol max_records base data_size nm
               data_size_small nm_ok symbol_matches _ o rc h r)
      by (done || lia).
    rewrite (IH fuel (o + 97) (rc + 1)); [| lia | lia | lia | | done].
    + replace (o + 97 + 97 * Z.of_nat (length ks))
        with (o + 97 * Z.of_nat (S (length ks))) by lia.
      by replace (rc + 1 + Z.of_nat (length ks))
        with (rc + Z.of_nat (S (length ks))) by lia.
    + by replace (base + (o + 97)) with (base + o + Z.of_nat (32 + 65)) by lia.
Qed.

End ReadBackFrames.

Lemma symbol_okb_spec s :
  symbol_okb s = true ->
  rings_okb s = true /\ name_okb (name s) = true /\
  forallb (fun x => header_okb DATA_TYPE_TRADE sizeof_trade_record_t
                               (name s) (fst x) && trade_okb (snd x))
          (snapshot_in_order zero_trade (trades s)) = true /\
  forallb (fun x => header_okb DATA_TYPE_KLINE sizeof_kline_record_t
                               (name s) (fst x) && kline_okb (snd x))
          (snapshot_in_order zero_kline (klines s)) = true.
Proof.
  unfold symbol_okb. rewrite !andb_true_iff. tauto.
Qed.

Lemma symbols_rings_ok syms :
  forallb symbol_okb syms = true -> forallb rings_okb syms = true.
Proof.
  rewrite !forallb_forall. intros H s Hs.
  by destruct (symbol_okb_spec s (H s Hs)).
Qed.

(** What the reader displays for a slot a pass has just written: the
    published trades, then the published klines, then whatever the walk
    makes of the bytes between the last frame and the declared size. *)
Lemma read_back_slot m' m n i s symbol max_records :
  region_okb m n = true -> 0 <= i < n ->
  (forall x, 16 <= x < 32 -> m' x = m x) ->
  holds m' (slot_start m i) (slot_image m i s) ->
  symbol_okb s = true ->
  map tolower symbol = map tolower (name s) ->
  Z.of_nat (length (published_trades m i s))
    + Z.of_nat (length (published_klines m i s)) <= max_records ->
  find_in_directory m' symbol (Z.to_nat (shm_symbol_count m')) 0 = Some i ->
  exists rest,
    printed_records (display_symbol_data m' symbol max_records)
    = map D_trade (map snd (published_trades m i s))
      ++ map D_kline (map snd (published_klines m i s)) ++ rest /\
    (serialized_size s <= slot_capacity m ->
     rest = [] /\
     published_trades m i s = snapshot_in_order zero_trade (trades s) /\
     published_klines m i s = snapshot_in_order zero_kline (klines s)).
Proof.
  intros Hreg Hi Hhdr Hholds Hsok Hsym Hmax Hfind.
  destruct (symbol_okb_spec s Hsok) as (Hrs & Hnm & Hts & Hks).
  destruct (region_okb_ext m' m n Hhdr) as (Hreg' & Hss & Hbs').
  pose proof (region_okb_spec _ _ Hreg) as (_ & Hbs & _).
  destruct (publish_plan_spec m i s Hrs ltac:(lia))
    as (Htot & Htw & Hkw & _ & _ & Hsum & _ & Hall).
  pose proof (length_published_trades m i s Hrs ltac:(lia)) as Hlt.
  pose proof (length_published_klines m i s Hrs ltac:(lia)) as Hlk.
  pose proof Hrs as Hrs'. unfold rings_okb in Hrs'.
  apply andb_prop in Hrs' as [Hct Hck].
  apply counts_okb_spec in Hct as [Hct _].
  apply counts_okb_spec in Hck as [Hck _].
  set (total := p_total_data_size (publish_plan m i s)) in *.
  assert (0 <= total <= 17000) as Htotal.
  { unfold serialized_size, slot_capacity, sizeof_size_t in Htot.
    destruct frame_sizes as [E1 E2]. rewrite E1, E2 in Htot. lia. }
  unfold slot_image in Hholds. fold total in Hholds.
  apply holds_app in Hholds as [Hsz Hfr]. rewrite length_encode_le in Hfr.
  unfold published_frames in Hfr. rewrite frame_bytes_app in Hfr.
  apply holds_app in Hfr as [Hft Hfk].
  unfold trade_frame in Hfk.
  rewrite (length_frame_bytes encode_trade _ encode_trade_size) in Hfk.
  assert (load_u64 m' (slot_start m' i) = total) as Hsize.
  { rewrite Hss, (load_u64_holds _ _ _ Hsz). apply wrap64_small. lia. }
  rewrite (display_symbol_data_found m' n symbol max_records i);
    [| by rewrite <- Hreg' | done | done].
  cbn zeta. rewrite Hsize.
  assert (slot_capacity m' = slot_capacity m) as Hcap
    by (unfold slot_capacity; by rewrite Hbs').
  rewrite Hcap.
  destruct (Z.eqb_spec total 0) as [Hz | Hnz].
  { (* nothing published *)
    assert (published_trades m i s = []) as Et
      by (apply length_zero_iff_nil; lia).
    assert (published_klines m i s = []) as Ek
      by (apply length_zero_iff_nil; lia).
    exists []. rewrite Et, Ek. split; [done |].
    intros Hfit. destruct (Hall Hfit) as (H1 & H2 & _).
    split; [done |]. unfold snapshot_in_order.
    replace (Z.to_nat (rb_count (trades s))) with 0%nat by lia.
    replace (Z.to_nat (rb_count (klines s))) with 0%nat by lia. done. }
  destruct (Z.gtb_spec total (slot_capacity m)) as [Hbig | _].
  { unfold slot_capacity, sizeof_size_t in *. lia. }
  cbn [printed_records].
  set (lt := length (published_trades m i s)) in *.
  set (lk := length (published_klines m i s)) in *.
  assert (Z.of_nat lt + Z.of_nat lk < Z.of_nat (walk_fuel total)) as Hfuel.
  { unfold walk_fuel, sizeof_message_header_t. zlia. }
  replace (walk_fuel total)
    with (lt + (lk + (walk_fuel total - (lt + lk))))%nat by lia.
  rewrite Hss.
  rewrite (walk_trade_frames m' symbol max_records (slot_start m i + 8) total
             (name s) ltac:(lia) Hnm (eq_sym Hsym)
             (published_trades m i s));
    [| lia | fold lt; lia | fold lt; lia
     | by rewrite Z.add_0_r
     | by apply forallb_take].
  fold lt. rewrite !Z.add_0_l.
  rewrite (walk_kline_frames m' symbol max_records (slot_start m i + 8) total
             (name s) ltac:(lia) Hnm (eq_sym Hsym)
             (published_klines m i s));
    [| lia | fold lk; lia | fold lk; lia
     | | by apply forallb_take].
  2:{ replace (slot_start m i + 8 + 73 * Z.of_nat lt)
        with (slot_start m i + Z.of_nat 8
              + Z.of_nat lt * (32 + sizeof_trade_record_t))
        by (unfold sizeof_trade_record_t; lia).
      exact Hfk. }
  fold lk.
  eexists. split; [reflexivity |].
  intros Hfit. destruct (Hall Hfit) as (H1 & H2 & H3).
  split; [| split].
  - assert (73 * Z.of_nat lt + 97 * Z.of_nat lk = total) as ->.
    { fold total in H3. rewrite H3. unfold serialized_size.
      destruct frame_sizes as [-> ->]. lia. }
    destruct (walk_fuel total - (lt + lk))%nat; cbn [walk];
      (destruct (Z.ltb_spec total total); [lia |]); cbn [andb];
      apply printed_records_epilogue.
  - unfold published_trades. apply take_ge. rewrite length_snapshot. lia.
  - unfold published_klines. apply take_ge. rewrite length_snapshot. lia.
Qed.

(** The three bit patterns are the doubles 10000.0, 10001.5, 9999.25. *)
Example example_prices :
  fst (binary64_normal price_10000_0)
    = 10000 * 2 ^ snd (binary64_normal price_10000_0) /\
  2 * fst (binary64_normal price_10001_5)
    = 20003 * 2 ^ snd (binary64_normal price_10001_5) /\
  4 * fst (binary64_normal price_9999_25)
    = 39997 * 2 ^ snd (binary64_normal price_9999_25).
Proof. vm_compute. repeat split; reflexivity. Qed.

(** C2. After a rewriting pass, the reader asked for a symbol that
    resolves to slot [i], with a record limit that covers what was
    published, displays first the published trade records and then the
    published kline records, each equal field for field to the record in
    the ring buffer, in chronological order; when the ring buffers'
    content fits the slot these are all the records of both ring buffers
    and nothing else is displayed. In particular, after three trades for
    BTCUSDT at 10000.0, 10001.5 and 9999.25, the count is 3 and the
    reader displays exactly these three trades, in that order. *)
Theorem publish_read_roundtrip c m now i s symbol max_records :
  shared_memory c = Some m ->
  region_okb m (symbol_count c) = true ->
  forallb symbol_okb (symbols c) = true ->
  1 <= now - last_update_time c ->
  symbols c !! i = Some s ->
  map tolower symbol = map tolower (name s) ->
  Z.of_nat (length (published_trades m (Z.of_nat i) s))
    + Z.of_nat (length (published_klines m (Z.of_nat i) s)) <= max_records ->
  (exists m',
     shared_memory (fst (update_shared_memory c now)) = Some m' /\
     (find_in_directory m' symbol (Z.to_nat (shm_symbol_count m')) 0
        = Some (Z.of_nat i) ->
      exists rest,
        printed_records (display_symbol_data m' symbol max_records)
        = map D_trade (map snd (published_trades m (Z.of_nat i) s))
          ++ map D_kline (map snd (published_klines m (Z.of_nat i) s))
          ++ rest /\
        (serialized_size s <= slot_capacity m ->
         rest = [] /\
         published_trades m (Z.of_nat i) s
           = snapshot_in_order zero_trade (trades s) /\
         published_klines m (Z.of_nat i) s
           = snapshot_in_order zero_kline (klines s)))) /\
  (rb_count (trades ex_symbol_3) = 3 /\
   printed_records (display_symbol_data ex_published BTCUSDT 10)
   = [D_trade (ex_trade 1 price_10000_0);
      D_trade (ex_trade 2 price_10001_5);
      D_trade (ex_trade 3 price_9999_25)] /\
   map price (map snd (snapshot_in_order zero_trade (trades ex_symbol_3)))
   = [price_10000_0; price_10001_5; price_9999_25]).
Proof.
  intros Hshm Hreg Hok Hgate Hs Hsym Hmax. split.
  - destruct (pass_slot_holds c m now i s Hshm Hreg
                (symbols_rings_ok _ Hok) Hgate Hs)
      as (m' & Hm' & Hholds & Hhdr).
    exists m'. split; [done |]. intros Hfind.
    pose proof (lookup_lt_Some _ _ _ Hs) as Hlt.
    apply (read_back_slot m' m (symbol_count c) (Z.of_nat i) s symbol
             max_records); try done.
    + unfold symbol_count. lia.
    + intros x Hx. apply Hhdr. lia.
    + rewrite forallb_forall in Hok. apply Hok.
      apply list_elem_of_In. by eapply list_elem_of_lookup_2.
  - vm_compute. repeat split; reflexivity.
Qed.

Lemma publish_read_roundtrip_witness :
  exists m',
    shared_memory (fst (update_shared_memory ex_collector 1003)) = Some m' /\
    exists rest,
      printed_records (display_symbol_data m' BTCUSDT 10)
      = map D_trade (map snd (published_trades ex_region (Z.of_nat 0)
                                ex_symbol_3))
        ++ map D_kline (map snd (published_klines ex_region (Z.of_nat 0)
                                   ex_symbol_3))
        ++ rest /\
      rest = [] /\
      published_trades ex_region (Z.of_nat 0) ex_symbol_3
      = snapshot_in_order zero_trade (trades ex_symbol_3).
Proof.
  destruct (publish_read_roundtrip ex_collector ex_region 1003 0 ex_symbol_3
              BTCUSDT 10)
    as [(m' & Hm' & Hread) _].
  - reflexivity.
  - vm_compute. reflexivity.
  - vm_compute. reflexivity.
  - simpl. lia.
  - reflexivity.
  - reflexivity.
  - vm_compute. discriminate.
  - exists m'. split; [exact Hm' |].
    destruct Hread as (rest & Hrec & Hfit).
    + assert (m' = default ex_region
                     (shared_memory
                        (fst (update_shared_memory ex_collector 1003)))) as ->
        by (rewrite Hm'; reflexivity).
      vm_compute. reflexivity.
    + exists rest. split; [exact Hrec |].
      destruct Hfit as (Hrest & Ht & _); [vm_compute; discriminate |].
      split; [exact Hrest | exact Ht].
Defined.

(** ** States reached by ingestion and initialisation *)

Lemma forallb_drop {A} (f : A -> bool) n l :
  forallb f l = true -> forallb f (drop n l) = true.
Proof.
  revert n. induction l as [| x l IH]; intros n H; [by destruct n |].
  destruct n as [| n]; [done |]. cbn in *.
  apply andb_prop in H as [_ Hl]. by apply IH.
Qed.

Lemma ring_after_counts {R} (l : list (message_header * R)) rb :
  ring_after l rb -> counts_okb rb = true.
Proof.
  intros [_ _ Hn Hc _]. unfold counts_okb, MAX_RECORDS_PER_SYMBOL.
  rewrite Hn, Hc.
  pose proof (Z.mod_pos_bound (Z.of_nat (length l)) 100 ltac:(lia)). lia.
Qed.

Lemma symbol_inv_init nm :
  forallb byte_okb nm = true -> symbol_inv (init_symbol_data nm).
Proof.
  intros Hb. split.
  - unfold name_okb. cbn [init_symbol_data name].
    rewrite (forallb_take _ 15 nm Hb), length_take, andb_true_r.
    apply Z.leb_le. lia.
  - exists [], []. cbn [init_symbol_data trades klines].
    repeat split; try apply ring_after_init; done.
Qed.

(** The invariant gives what the read-back theorem asks of a symbol. *)
Lemma symbol_inv_okb s : symbol_inv s -> symbol_okb s = true.
Proof.
  intros (Hnm & lt & lk & Ht & Hk & Hlt & Hlk).
  unfold symbol_okb, rings_okb.
  rewrite (ring_after_counts lt _ Ht), (ring_after_counts lk _ Hk), Hnm.
  destruct (snapshot_after zero_trade lt _ Ht) as [-> _].
  destruct (snapshot_after zero_kline lk _ Hk) as [-> _].
  by rewrite !forallb_drop.
Qed.

Lemma handle_aggTrade_inv syms symbol r w f now :
  Forall symbol_inv syms -> trade_okb r = true ->
  Forall symbol_inv (fst (handle_aggTrade syms symbol r w f now)).
Proof.
  intros Hinv Hr. unfold handle_aggTrade.
  destruct (find_symbol syms symbol 0) as [idx |] eqn:Hfind; [| done].
  destruct (find_symbol_spec _ _ _ _ Hfind) as [_ (s & Hs & Hname)].
  rewrite Z.sub_0_r in Hs. rewrite Hs.
  assert (symbol_inv s) as Hsinv.
  { rewrite Forall_forall in Hinv. apply Hinv.
    by eapply list_elem_of_lookup_2. }
  destruct (Z.eqb_spec w 1) as [-> | Hw]; cbn [negb fst];
    (apply Forall_insert; [done |]); [| exact Hsinv].
  destruct Hsinv as (Hnm & lt & lk & Ht & Hk & Hlt & Hlk).
  split; [done |]. cbn [name trades klines].
  exists (lt ++ [(make_header DATA_TYPE_TRADE sizeof_trade_record_t now symbol,
                   r)]), lk.
  split; [by apply ring_after_append |]. split; [done |]. split; [| done].
  rewrite forallb_app, Hlt. cbn [forallb fst snd andb].
  rewrite Hr, !andb_true_r. unfold header_okb, make_header.
  cbn [hdr_type hdr_length hdr_symbol]. rewrite !Z.eqb_refl. cbn [andb].
  apply bool_decide_eq_true. by rewrite Hname.
Qed.

Lemma handle_kline_inv syms symbol r w f now :
  Forall symbol_inv syms -> kline_okb r = true ->
  Forall symbol_inv (fst (handle_kline syms symbol r w f now)).
Proof.
  intros Hinv Hr. unfold handle_kline.
  destruct (find_symbol syms symbol 0) as [idx |] eqn:Hfind; [| done].
  destruct (find_symbol_spec _ _ _ _ Hfind) as [_ (s & Hs & Hname)].
  rewrite Z.sub_0_r in Hs. rewrite Hs.
  assert (symbol_inv s) as Hsinv.
  { rewrite Forall_forall in Hinv. apply Hinv.
    by eapply list_elem_of_lookup_2. }
  destruct (Z.eqb_spec w 1) as [-> | Hw]; cbn [negb fst];
    (apply Forall_insert; [done |]); [| exact Hsinv].
  destruct Hsinv as (Hnm & lt & lk & Ht & Hk & Hlt & Hlk).
  split; [done |]. cbn [name trades klines].
  exists lt,
    (lk ++ [(make_header DATA_TYPE_KLINE sizeof_kline_record_t now symbol, r)]).
  split; [done |]. split; [by apply ring_after_append |]. split; [done |].
  rewrite forallb_app, Hlk. cbn [forallb fst snd andb].
  rewrite Hr, !andb_true_r. unfold header_okb, make_header.
  cbn [hdr_type hdr_length hdr_symbol]. rewrite !Z.eqb_refl. cbn [andb].
  apply bool_decide_eq_true. by rewrite Hname.
Qed.

Lemma init_names_above syms :
  forall i, 0 <= i ->
    Forall (fun w => 40 <= w_addr w) (init_names syms i).
Proof.
  induction syms as [| s syms IH]; intros i Hi; cbn [init_names];
    [constructor |].
  unfold shm_symbol_addr, OFF_symbols, MAX_SYMBOL_LENGTH.
  constructor; [cbn; lia |]. constructor; [cbn; lia |].
  apply IH. lia.
Qed.

(** The last store that covers a range decides what the region holds
    there. *)
Lemma holds_apply_writes_last m pre w post :
  Forall (fun w' => w_addr w' + Z.of_nat (length (w_bytes w')) <= w_addr w
                    \/ w_addr w + Z.of_nat (length (w_bytes w)) <= w_addr w')
         post ->
  holds (apply_writes m (pre ++ w :: post)) (w_addr w) (w_bytes w).
Proof.
  intros Hpost. rewrite apply_writes_app.
  change (w :: post) with ([w] ++ post). rewrite apply_writes_app.
  apply holds_apply_writes_other; [done |]. apply holds_store.
Qed.

(** The header [init_shared_memory] writes is the sane header the
    publisher and reader theorems assume. *)
Lemma init_shared_memory_region_ok m0 syms now :
  Z.of_nat (length syms) <= MAX_SYMBOLS ->
  region_okb (apply_writes m0 (init_shared_memory syms now))
             (Z.of_nat (length syms)) = true.
Proof.
  intros Hn. unfold MAX_SYMBOLS in Hn.
  pose proof (init_names_above syms 0 ltac:(lia)) as Hnames.
  assert (shm_data_offset (apply_writes m0 (init_shared_memory syms now))
          = 256) as Hdo.
  { unfold shm_data_offset.
    rewrite (load_u64_holds _ _ sizeof_shared_memory_header_t); [done |].
    apply (holds_apply_writes_last m0
             [mk_write OFF_write_counter (encode_le 8 0);
              mk_write OFF_last_update_time (encode_le 8 now)]
             (mk_write OFF_data_offset
                (encode_le 8 sizeof_shared_memory_header_t))).
    unfold OFF_data_offset, OFF_buffer_size, OFF_symbol_count.
    cbn [w_addr w_bytes]. rewrite length_encode_le.
    constructor; [cbn [w_addr]; lia |]. constructor; [cbn [w_addr]; lia |].
    eapply Forall_impl; [exact Hnames |]. cbn beta. intros w Hw. lia. }
  assert (shm_buffer_size (apply_writes m0 (init_shared_memory syms now))
          = 6710860) as Hbs.
  { unfold shm_buffer_size.
    rewrite (load_u64_holds _ _
               (sub64 SHM_SIZE sizeof_shared_memory_header_t / MAX_SYMBOLS));
      [done |].
    apply (holds_apply_writes_last m0
             [mk_write OFF_write_counter (encode_le 8 0);
              mk_write OFF_last_update_time (encode_le 8 now);
              mk_write OFF_data_offset
                (encode_le 8 sizeof_shared_memory_header_t)]
             (mk_write OFF_buffer_size
                (encode_le 8 (sub64 SHM_SIZE sizeof_shared_memory_header_t
                              / MAX_SYMBOLS)))).
    unfold OFF_data_offset, OFF_buffer_size, OFF_symbol_count.
    cbn [w_addr w_bytes]. rewrite length_encode_le.
    constructor; [cbn [w_addr]; lia |].
    eapply Forall_impl; [exact Hnames |]. cbn beta. intros w Hw. lia. }
  unfold region_okb. rewrite Hdo, Hbs. unfold_consts.
  change (64 * 1024 * 1024) with 67108864. lia.
Qed.

(** ** The directory lookup *)

Lemma tolower_nonzero c : c <> 0 -> tolower c <> 0.
Proof.
  intros H. unfold tolower.
  destruct (Z.leb_spec 65 c); destruct (Z.leb_spec c 90); cbn [andb]; lia.
Qed.

(** [strcasecmp] answers 0 only for names equal up to case. *)
Lemma strcasecmp_at_sound m symbol :
  forall a nm rest,
    holds m a (nm ++ 0 :: rest) ->
    forallb char_okb nm = true -> Forall (fun c => c <> 0) symbol ->
    fst (strcasecmp_at m a symbol) = true ->
    map tolower nm = map tolower symbol.
Proof.
  induction symbol as [| c symbol IH]; intros a nm rest Hh Hnm Hsym Hcmp.
  - destruct nm as [| c' nm]; [done |].
    cbn [strcasecmp_at fst] in Hcmp.
    pose proof (Hh 0%nat c' eq_refl) as H0.
    cbn in H0. rewrite Z.add_0_r in H0. rewrite H0 in Hcmp.
    apply forallb_cons_true in Hnm as [Hc' _]. unfold char_okb in Hc'.
    rewrite Z.mod_small in Hcmp by lia. lia.
  - inversion Hsym as [| ? ? Hc Hsym']; subst.
    cbn [strcasecmp_at] in Hcmp.
    destruct nm as [| c' nm].
    + pose proof (Hh 0%nat 0 eq_refl) as H0.
      cbn in H0. rewrite Z.add_0_r in H0. rewrite H0 in Hcmp.
      pose proof (tolower_nonzero c Hc).
      change (tolower (0 mod 256)) with 0 in Hcmp.
      destruct (Z.eqb_spec 0 (tolower c)); [lia | done].
    + pose proof (Hh 0%nat c' eq_refl) as H0.
      cbn in H0. rewrite Z.add_0_r in H0. rewrite H0 in Hcmp.
      apply forallb_cons_true in Hnm as [Hc' Hnm]. unfold char_okb in Hc'.
      rewrite Z.mod_small in Hcmp by lia.
      destruct (Z.eqb_spec (tolower c') (tolower c)) as [Heq | Hne];
        [| done].
      cbn [map]. rewrite Heq. f_equal.
      apply (IH (a + 1) nm rest); [| done | done |].
      * intros k b Hk.
        replace (a + 1 + Z.of_nat k) with (a + Z.of_nat (S k)) by lia.
        by apply Hh.
      * by destruct (strcasecmp_at m (a + 1) symbol).
Qed.

Lemma find_in_directory_first m symbol i :
  fst (strcasecmp_at m (shm_symbol_addr i) symbol) = true ->
  forall n j0,
    j0 <= i < j0 + Z.of_nat n ->
    (forall j, j0 <= j < i ->
       fst (strcasecmp_at m (shm_symbol_addr j) symbol) = false) ->
    find_in_directory m symbol n j0 = Some i.
Proof.
  intros Hi. induction n as [| n IH]; intros j0 Hr Hbefore; [lia |].
  cbn [find_in_directory].
  destruct (Z.eq_dec j0 i) as [-> | Hne].
  - by rewrite Hi.
  - rewrite (Hbefore j0) by lia. apply IH; [lia |].
    intros j Hj. apply Hbefore. lia.
Qed.

Lemma symbol_name_okb_spec nm :
  symbol_name_okb nm = true ->
  name_okb nm = true /\ forallb char_okb nm = true /\
  Forall (fun c => c <> 0) nm /\ take 15 nm = nm.
Proof.
  unfold symbol_name_okb, name_okb. rewrite andb_true_iff.
  intros [Hl Hc]. rewrite Hl, Hc. cbn [andb].
  assert (forall c, c ∈ nm -> 1 <= c < 256) as Hr.
  { intros c Hin. rewrite forallb_forall in Hc.
    specialize (Hc c ltac:(by apply list_elem_of_In)).
    unfold char_okb in Hc. lia. }
  repeat split.
  - apply forallb_forall. intros c Hin.
    specialize (Hr c ltac:(by apply list_elem_of_In)).
    unfold byte_okb. lia.
  - apply Forall_forall. intros c Hin. specialize (Hr c Hin). lia.
  - apply take_ge. lia.
Qed.

(** In a directory that holds the names of [names], pairwise different
    up to case, the lookup of the name at index [i] finds [i]. *)
Lemma directory_lookup m names i nm :
  (forall k nm_k, names !! k = Some nm_k ->
     holds m (shm_symbol_addr (Z.of_nat k)) (symbol_field nm_k)) ->
  forallb symbol_name_okb names = true ->
  NoDup (map (map tolower) names) ->
  names !! i = Some nm ->
  find_in_directory m nm (length names) 0 = Some (Z.of_nat i).
Proof.
  intros Hdir Hok Hnd Hi.
  assert (forall k nm_k, names !! k = Some nm_k ->
            symbol_name_okb nm_k = true) as Hoks.
  { intros k nm_k Hk. rewrite forallb_forall in Hok. apply Hok.
    apply list_elem_of_In. by eapply list_elem_of_lookup_2. }
  assert (forall k nm_k, names !! k = Some nm_k ->
            exists rest,
              holds m (shm_symbol_addr (Z.of_nat k)) (nm_k ++ 0 :: rest))
    as Hshape.
  { intros k nm_k Hk.
    destruct (symbol_name_okb_spec _ (Hoks _ _ Hk)) as (Hn & _ & _ & _).
    destruct (name_okb_spec _ Hn) as [Hl _].
    destruct (symbol_field_shape nm_k Hl) as [rest Hrest].
    exists rest. rewrite <- Hrest. unfold pad16.
    rewrite take_app_length'; [by apply Hdir |].
    unfold symbol_field, strncpy.
    rewrite !length_app, length_replicate, length_take. cbn [length]. lia. }
  destruct (symbol_name_okb_spec _ (Hoks _ _ Hi)) as (Hn & Hc & Hnz & _).
  destruct (name_okb_spec _ Hn) as [_ Hb].
  pose proof (lookup_lt_Some _ _ _ Hi) as Hlt.
  apply find_in_directory_first; [| lia |].
  - destruct (Hshape _ _ Hi) as [rest Hh].
    by rewrite (strcasecmp_at_match m nm _ nm rest Hh Hb eq_refl).
  - intros j Hj.
    destruct (names !! Z.to_nat j) as [nm_j |] eqn:Hjl.
    2:{ apply lookup_ge_None in Hjl. lia. }
    destruct (fst (strcasecmp_at m (shm_symbol_addr j) nm)) eqn:Hcmp;
      [| done].
    exfalso.
    destruct (Hshape _ _ Hjl) as [rest Hh].
    rewrite Z2Nat.id in Hh by lia.
    destruct (symbol_name_okb_spec _ (Hoks _ _ Hjl)) as (_ & Hcj & _ & _).
    pose proof (strcasecmp_at_sound m nm _ nm_j rest Hh Hcj Hnz Hcmp) as Heq.
    assert (Z.to_nat j = i); [| lia].
    apply (NoDup_lookup _ _ _ (map tolower nm) Hnd).
    + change (map (map tolower) names) with (map tolower <$> names).
      unfold cstring in *. rewrite list_lookup_fmap, Hjl. cbn.
      by rewrite Heq.
    + change (map (map tolower) names) with (map tolower <$> names).
      unfold cstring in *. by rewrite list_lookup_fmap, Hi.
Qed.

(** ** From start-up to read-back *)

Lemma length_strncpy n src : length (strncpy n src) = n.
Proof.
  unfold strncpy. rewrite length_app, length_replicate, length_take. lia.
Qed.

Lemma init_names_from syms :
  forall i, 0 <= i ->
    Forall (fun w => shm_symbol_addr i <= w_addr w) (init_names syms i).
Proof.
  induction syms as [| s syms IH]; intros i Hi; cbn [init_names];
    [constructor |].
  constructor; [cbn; lia |]. constructor; [cbn; lia |].
  eapply Forall_impl; [apply (IH (i + 1)); lia |].
  cbn beta. unfold shm_symbol_addr, OFF_symbols, MAX_SYMBOL_LENGTH.
  intros w Hw. lia.
Qed.

Lemma init_names_holds syms :
  forall i0 m k s, 0 <= i0 -> syms !! k = Some s ->
    holds (apply_writes m (init_names syms i0))
          (shm_symbol_addr (i0 + Z.of_nat k)) (symbol_field (name s)).
Proof.
  induction syms as [| s0 syms IH]; intros i0 m k s Hi Hk; [done |].
  cbn [init_names].
  destruct k as [| k].
  - cbn in Hk. injection Hk as ->. rewrite Z.add_0_r.
    change (mk_write (shm_symbol_addr i0) (strncpy 15 (name s))
              :: mk_write (shm_symbol_addr i0 + 15) [0]
              :: init_names syms (i0 + 1))
      with ([mk_write (shm_symbol_addr i0) (strncpy 15 (name s));
             mk_write (shm_symbol_addr i0 + 15) [0]]
            ++ init_names syms (i0 + 1)).
    rewrite apply_writes_app.
    apply holds_apply_writes_other.
    + eapply Forall_impl; [apply (init_names_from syms (i0 + 1)); lia |].
      cbn beta. unfold symbol_field. rewrite length_app, length_strncpy.
      unfold shm_symbol_addr, OFF_symbols, MAX_SYMBOL_LENGTH. cbn [length].
      intros w Hw. lia.
    + unfold symbol_field. apply holds_app. rewrite length_strncpy.
      cbn [apply_writes fold_left apply_write w_addr w_bytes]. split.
      * apply holds_store_other; [rewrite length_strncpy; cbn; lia |].
        apply holds_store.
      * apply holds_store.
  - cbn in Hk.
    change (mk_write (shm_symbol_addr i0) (strncpy 15 (name s0))
              :: mk_write (shm_symbol_addr i0 + 15) [0]
              :: init_names syms (i0 + 1))
      with ([mk_write (shm_symbol_addr i0) (strncpy 15 (name s0));
             mk_write (shm_symbol_addr i0 + 15) [0]]
            ++ init_names syms (i0 + 1)).
    rewrite apply_writes_app.
    replace (i0 + Z.of_nat (S k)) with (i0 + 1 + Z.of_nat k) by lia.
    apply IH; [lia | done].
Qed.

Lemma init_directory m0 syms now k s :
  syms !! k = Some s ->
  holds (apply_writes m0 (init_shared_memory syms now))
        (shm_symbol_addr (Z.of_nat k)) (symbol_field (name s)).
Proof.
  intros Hk. unfold init_shared_memory. rewrite apply_writes_app.
  rewrite <- (Z.add_0_l (Z.of_nat k)). by apply init_names_holds.
Qed.

Lemma init_symbol_count m0 syms now :
  Z.of_nat (length syms) <= MAX_SYMBOLS ->
  shm_symbol_count (apply_writes m0 (init_shared_memory syms now))
  = Z.of_nat (length syms).
Proof.
  intros Hn. unfold MAX_SYMBOLS in Hn. unfold shm_symbol_count.
  rewrite (load_u64_holds _ _ (Z.of_nat (length syms))).
  - apply wrap64_small. lia.
  - apply (holds_apply_writes_last m0
             [mk_write OFF_write_counter (encode_le 8 0);
              mk_write OFF_last_update_time (encode_le 8 now);
              mk_write OFF_data_offset
                (encode_le 8 sizeof_shared_memory_header_t);
              mk_write OFF_buffer_size
                (encode_le 8 (sub64 SHM_SIZE sizeof_shared_memory_header_t
                              / MAX_SYMBOLS))]
             (mk_write OFF_symbol_count
                (encode_le 8 (Z.of_nat (length syms))))).
    unfold OFF_symbol_count. cbn [w_addr w_bytes]. rewrite length_encode_le.
    eapply Forall_impl; [apply (init_names_above syms 0); lia |].
    cbn beta. intros w Hw. lia.
Qed.

Lemma map_name_insert syms i s s' :
  syms !! i = Some s -> name s' = name s ->
  map name (<[i := s']> syms) = map name syms.
Proof.
  intros Hs Hn. change (name <$> <[i := s']> syms = name <$> syms).
  rewrite list_fmap_insert, Hn. apply list_insert_id.
  by rewrite list_lookup_fmap, Hs.
Qed.

Lemma handle_aggTrade_names syms symbol r w f now :
  map name (fst (handle_aggTrade syms symbol r w f now)) = map name syms.
Proof.
  unfold handle_aggTrade.
  destruct (find_symbol syms symbol 0) as [idx |]; [| done].
  destruct (syms !! Z.to_nat idx) as [s |] eqn:Hs; [| done].
  destruct (negb (w =? 1)); cbn [fst]; by apply (map_name_insert _ _ s).
Qed.

Lemma handle_kline_names syms symbol r w f now :
  map name (fst (handle_kline syms symbol r w f now)) = map name syms.
Proof.
  unfold handle_kline.
  destruct (find_symbol syms symbol 0) as [idx |]; [| done].
  destruct (syms !! Z.to_nat idx) as [s |] eqn:Hs; [| done].
  destruct (negb (w =? 1)); cbn [fst]; by apply (map_name_insert _ _ s).
Qed.

(** Ingestion keeps the names and the invariant of every symbol. *)
Lemma ingest_all_inv evs :
  forall syms,
    Forall symbol_inv syms -> forallb feed_okb evs = true ->
    Forall symbol_inv (fold_left ingest evs syms) /\
    map name (fold_left ingest evs syms) = map name syms.
Proof.
  induction evs as [| e evs IH]; intros syms Hinv Hok; [done |].
  apply forallb_cons_true in Hok as [He Hok]. cbn [fold_left].
  destruct (IH (ingest syms e)) as [H1 H2]; [| done |].
  - destruct e as [symbol r ok fl now | symbol r ok fl now]; cbn [ingest feed_okb] in *.
    + by apply handle_aggTrade_inv.
    + by apply handle_kline_inv.
  - split; [done |]. rewrite H2.
    destruct e as [symbol r ok fl now | symbol r ok fl now]; cbn [ingest].
    + apply handle_aggTrade_names.
    + apply handle_kline_names.
Qed.

Lemma init_symbols_inv names :
  forallb symbol_name_okb names = true ->
  Forall symbol_inv (map init_symbol_data names) /\
  map name (map init_symbol_data names) = names.
Proof.
  induction names as [| nm names IH]; intros Hok; [done |].
  apply forallb_cons_true in Hok as [Hnm Hok].
  destruct (IH Hok) as [H1 H2].
  destruct (symbol_name_okb_spec nm Hnm) as (Hn & _ & _ & Htake).
  cbn [map]. split.
  - constructor; [| done]. apply symbol_inv_init.
    unfold name_okb in Hn. by apply andb_prop in Hn as [_ Hn].
  - cbn [init_symbol_data name]. by rewrite Htake, H2.
Qed.

Lemma init_buffer_size m0 syms now :
  shm_buffer_size (apply_writes m0 (init_shared_memory syms now)) = 6710860.
Proof.
  unfold shm_buffer_size.
  rewrite (load_u64_holds _ _
             (sub64 SHM_SIZE sizeof_shared_memory_header_t / MAX_SYMBOLS));
    [done |].
  apply (holds_apply_writes_last m0
           [mk_write OFF_write_counter (encode_le 8 0);
            mk_write OFF_last_update_time (encode_le 8 now);
            mk_write OFF_data_offset
              (encode_le 8 sizeof_shared_memory_header_t)]
           (mk_write OFF_buffer_size
              (encode_le 8 (sub64 SHM_SIZE sizeof_shared_memory_header_t
                            / MAX_SYMBOLS)))).
  unfold OFF_data_offset, OFF_buffer_size, OFF_symbol_count.
  cbn [w_addr w_bytes]. rewrite length_encode_le.
  constructor; [cbn [w_addr]; lia |].
  eapply Forall_impl; [apply (init_names_above syms 0); lia |].
  cbn beta. intros w Hw. lia.
Qed.

(** From start-up to read-back. The collector is started for up to ten
    symbol names, different up to case and fitting their arrays; any
    sequence of trade and kline messages with in-range fields is
    ingested; one rewriting pass of the publisher runs; the reader is
    then asked for one of the names with a record limit that covers what
    the two ring buffers hold. It displays exactly the trades of the
    symbol's ring buffer, oldest first, then its klines, oldest first. *)
Lemma start_to_read_back names m0 t0 evs now i nm max_records :
  Z.of_nat (length names) <= MAX_SYMBOLS ->
  forallb symbol_name_okb names = true ->
  NoDup (map (map tolower) names) ->
  forallb feed_okb evs = true ->
  names !! i = Some nm ->
  1 <= now ->
  let syms := fold_left ingest evs (map init_symbol_data names) in
  let region :=
    apply_writes m0 (init_shared_memory (map init_symbol_data names) t0) in
  let c := mk_collector syms (Some region) 0 in
  exists s m',
    syms !! i = Some s /\ name s = nm /\
    shared_memory (fst (update_shared_memory c now)) = Some m' /\
    (rb_count (trades s) + rb_count (klines s) <= max_records ->
     printed_records (display_symbol_data m' nm max_records)
     = map D_trade (map snd (snapshot_in_order zero_trade (trades s)))
       ++ map D_kline (map snd (snapshot_in_order zero_kline (klines s)))).
Proof.
  intros Hn Hok Hnd Hfeed Hi Hnow syms region c.
  destruct (init_symbols_inv names Hok) as [Hinv0 Hnames0].
  destruct (ingest_all_inv evs _ Hinv0 Hfeed) as [Hinv Hnames].
  fold syms in Hinv, Hnames. rewrite Hnames0 in Hnames.
  assert (length syms = length names) as Hlen
    by (rewrite <- Hnames; by rewrite length_map).
  assert (length (map init_symbol_data names) = length names) as Hlen0
    by apply length_map.
  assert (exists s, syms !! i = Some s /\ name s = nm) as (s & Hs & Hname).
  { change (map name syms) with (name <$> syms) in Hnames.
    rewrite <- Hnames in Hi.
    apply list_lookup_fmap_Some in Hi as (s & Hs & ->). by exists s. }
  assert (forallb symbol_okb syms = true) as Hsok.
  { apply forallb_forall. intros x Hx. apply symbol_inv_okb.
    rewrite Forall_forall in Hinv. apply Hinv. by apply list_elem_of_In. }
  assert (region_okb region (symbol_count c) = true) as Hreg.
  { unfold symbol_count, c. cbn [symbols]. rewrite Hlen, <- Hlen0.
    apply init_shared_memory_region_ok. by rewrite Hlen0. }
  pose proof (init_buffer_size m0 (map init_symbol_data names) t0) as Hbs.
  fold region in Hbs.
  destruct (pass_slot_holds c region now i s eq_refl Hreg
              (symbols_rings_ok _ Hsok) ltac:(cbn; lia) Hs)
    as (m' & Hm' & Hholds & Hhdr).
  exists s, m'. split; [done |]. split; [done |]. split; [done |].
  intros Hmax.
  pose proof (lookup_lt_Some _ _ _ Hs) as Hlt.
  assert (symbol_okb s = true) as Hs_ok.
  { rewrite forallb_forall in Hsok. apply Hsok.
    apply list_elem_of_In. by eapply list_elem_of_lookup_2. }
  destruct (symbol_okb_spec s Hs_ok) as (Hrs & _).
  pose proof Hrs as Hrs'. unfold rings_okb in Hrs'.
  apply andb_prop in Hrs' as [Hct Hck].
  apply counts_okb_spec in Hct as [Hct _].
  apply counts_okb_spec in Hck as [Hck _].
  assert (serialized_size s <= slot_capacity region) as Hfit.
  { unfold serialized_size, slot_capacity, sizeof_size_t. rewrite Hbs.
    destruct frame_sizes as [-> ->]. lia. }
  destruct (publish_plan_spec region (Z.of_nat i) s Hrs ltac:(lia))
    as (_ & _ & _ & _ & _ & _ & _ & Hall).
  destruct (Hall Hfit) as (Htw & Hkw & _).
  assert (find_in_directory m' nm (Z.to_nat (shm_symbol_count m')) 0
          = Some (Z.of_nat i)) as Hfind.
  { assert (shm_symbol_count m' = Z.of_nat (length names)) as ->.
    { rewrite <- Hlen0.
      rewrite <- (init_symbol_count m0 (map init_symbol_data names) t0)
        by (by rewrite Hlen0).
      fold region. unfold shm_symbol_count, load_u64. f_equal.
      apply load_bytes_ext. intros x Hx. unfold OFF_symbol_count in Hx.
      apply Hhdr. lia. }
    rewrite Nat2Z.id.
    apply directory_lookup; [| done | done | exact Hi].
    intros k nm_k Hk.
    pose proof (lookup_lt_Some _ _ _ Hk) as Hklt.
    unfold MAX_SYMBOLS in Hn.
    eapply holds_ext.
    - intros x Hx. symmetry. apply Hhdr.
      unfold symbol_field in Hx. rewrite length_app, length_strncpy in Hx.
      cbn [length] in Hx.
      unfold shm_symbol_addr, OFF_symbols, MAX_SYMBOL_LENGTH in Hx. lia.
    - assert (map init_symbol_data names !! k
              = Some (init_symbol_data nm_k)) as Hk0.
      { change (map init_symbol_data names)
          with (init_symbol_data <$> names).
        by rewrite list_lookup_fmap, Hk. }
      pose proof (init_directory m0 _ t0 k _ Hk0) as Hd.
      cbn [init_symbol_data name] in Hd.
      assert (symbol_name_okb nm_k = true) as Hkok.
      { rewrite forallb_forall in Hok. apply Hok.
        apply list_elem_of_In. by eapply list_elem_of_lookup_2. }
      destruct (symbol_name_okb_spec _ Hkok) as (_ & _ & _ & Htake).
      by rewrite Htake in Hd. }
  destruct (read_back_slot m' region (symbol_count c) (Z.of_nat i) s nm
              max_records)
    as (rest & Hrec & Hrest); try done.
  - unfold symbol_count, c. cbn [symbols]. lia.
  - intros x Hx. apply Hhdr. lia.
  - by rewrite Hname.
  - rewrite length_published_trades, length_published_klines by (done || lia).
    lia.
  - destruct (Hrest Hfit) as (-> & <- & <-).
    by rewrite Hrec, app_nil_r.
Qed.

(** ** The file readers *)

Section FileReaderFacts.
Variable sizeof_record : Z.
Variable row : list Z -> file_line.
Hypothesis sizeof_pos : 0 < sizeof_record.

(** Record [k] of a file: its bytes from [k * sizeof_record] on. *)
Lemma read_loop_spec fuel :
  forall max_count rest count,
    (length rest < fuel)%nat ->
    let avail := Z.of_nat (length rest) / sizeof_record in
    let shown :=
      if max_count >? 0 then Z.max 0 (Z.min avail (max_count - count))
      else avail in
    read_loop sizeof_record row fuel max_count rest count
    = (map (fun k => row (take (Z.to_nat sizeof_record)
                            (drop (k * Z.to_nat sizeof_record) rest)))
           (seq 0 (Z.to_nat shown)),
       count + shown).
Proof.
  induction fuel as [|fuel IH]; intros max_count rest count Hlen; [lia|].
  cbn zeta. cbn [read_loop].
  destruct (Z.leb_spec sizeof_record (Z.of_nat (length rest))) as [Hle|Hgt].
  - assert (Z.of_nat (length (drop (Z.to_nat sizeof_record) rest))
            = Z.of_nat (length rest) - sizeof_record) as Hdrop
      by (rewrite length_drop; lia).
    assert ((Z.of_nat (length rest) - sizeof_record) / sizeof_record
            = Z.of_nat (length rest) / sizeof_record - 1) as Hdiv.
    { replace (Z.of_nat (length rest) - sizeof_record)
        with (Z.of_nat (length rest) + (-1) * sizeof_record) by lia.
      rewrite Z.div_add by lia. lia. }
    assert (1 <= Z.of_nat (length rest) / sizeof_record) as Hq.
    { apply Z.div_le_lower_bound; lia. }
    destruct (Z.gtb_spec max_count 0) as [Hmax|Hmax]; cbn [andb].
    + destruct (Z.geb_spec count max_count) as [Hc|Hc].
      * replace (Z.max 0 _) with 0 by lia.
        cbn. rewrite Z.add_0_r. reflexivity.
      * rewrite IH by (rewrite length_drop; lia).
        rewrite Hdrop, Hdiv.
        destruct (Z.gtb_spec max_count 0) as [_|?]; [|lia].
        set (q := Z.of_nat (length rest) / sizeof_record) in *.
        replace (Z.to_nat (Z.max 0 (Z.min q (max_count - count))))
          with (S (Z.to_nat (Z.max 0 (Z.min (q - 1)
                                        (max_count - (count + 1)))))) by lia.
        cbn [seq map]. f_equal; [|lia].
        f_equal. rewrite <- seq_shift, map_map.
        apply map_ext. intros k. rewrite drop_drop. repeat f_equal; lia.
    + destruct (Z.geb_spec count max_count) as [Hc|Hc];
        (rewrite IH by (rewrite length_drop; lia);
         rewrite Hdrop, Hdiv;
         destruct (Z.gtb_spec max_count 0) as [?|_]; [lia|];
         set (q := Z.of_nat (length rest) / sizeof_record) in *;
         replace (Z.to_nat q) with (S (Z.to_nat (q - 1))) by lia;
         cbn [seq map]; f_equal; [|lia];
         f_equal; rewrite <- seq_shift, map_map;
         apply map_ext; intros k; rewrite drop_drop; repeat f_equal; lia).
  - rewrite Z.div_small by lia.
    replace (Z.max 0 (Z.min 0 (max_count - count))) with 0 by lia.
    destruct (max_count >? 0); cbn; f_equal; lia.
Qed.
End FileReaderFacts.

Lemma blocks_rows {A} (n : nat) (f : list Z -> A) (tail : list Z) bss :
  Forall (fun b => length b = n) bss ->
  forall shown, (shown <= length bss)%nat ->
    map (fun k => f (take n (drop (k * n) (concat bss ++ tail)))) (seq 0 shown)
    = map f (take shown bss).
Proof.
  induction 1 as [|b bss Hb Hbss IH]; intros shown Hshown.
  - cbn in Hshown. by replace shown with 0%nat by lia.
  - destruct shown as [|shown]; [done|].
    cbn [seq map take concat]. cbn [length] in Hshown. f_equal.
    + rewrite Nat.mul_0_l, drop_0, <- app_assoc.
      by rewrite take_app_length' by done.
    + rewrite <- seq_shift, map_map, <- IH by lia.
      apply map_ext. intros k. do 2 f_equal.
      replace (S k * n)%nat with (n + k * n)%nat by lia.
      rewrite <- drop_drop, <- app_assoc.
      by rewrite drop_app_length' by done.
Qed.

Lemma length_concat_blocks (n : nat) (bss : list (list Z)) :
  Forall (fun b => length b = n) bss ->
  length (concat bss) = (length bss * n)%nat.
Proof.
  induction 1 as [|b bss Hb _ IH]; [done|].
  cbn [concat length]. rewrite length_app, IH, Hb. lia.
Qed.

Section FileReaderMain.
Variable sizeof_record : Z.
Variable row : list Z -> file_line.
Variable atoi : cstring -> Z.
Variable fopen : cstring -> option (list Z).
Hypothesis sizeof_pos : 0 < sizeof_record.

(** [main] on a file of whole records followed by less than a record. *)
Lemma file_reader_main_blocks file_path more bss tail :
  Forall (fun b => length b = Z.to_nat sizeof_record) bss ->
  Z.of_nat (length tail) < sizeof_record ->
  fopen file_path = Some (concat bss ++ tail) ->
  match more with [] => True | count_arg :: _ => 0 < atoi count_arg end ->
  let n := Z.of_nat (length bss) in
  let shown :=
    match more with [] => n | count_arg :: _ => Z.min n (atoi count_arg) end in
  file_reader_main sizeof_record row atoi fopen (file_path :: more)
  = (FL_file_info (n * sizeof_record + Z.of_nat (length tail)) sizeof_record n
       :: FL_column_titles :: FL_column_rule
       :: map row (take (Z.to_nat shown) bss) ++ [FL_displayed shown n], 0).
Proof.
  intros Hbss Htail Hopen Hmore n shown.
  assert (Z.of_nat (length (concat bss ++ tail))
          = n * sizeof_record + Z.of_nat (length tail)) as Hlen.
  { rewrite length_app, (length_concat_blocks _ _ Hbss). unfold n. lia. }
  assert ((n * sizeof_record + Z.of_nat (length tail)) / sizeof_record = n)
    as Hdiv.
  { rewrite Z.add_comm, Z.div_add by lia. rewrite Z.div_small by lia. lia. }
  unfold file_reader_main. rewrite Hopen.
  assert (match more with [] => false | _ :: _ =>
            match more with [] => -1 | count_arg :: _ => atoi count_arg end
            <=? 0 end = false) as ->.
  { destruct more; [done|]. apply Z.leb_gt. lia. }
  rewrite read_loop_spec by (done || lia).
  cbn zeta. rewrite Hlen, Hdiv.
  set (shown' := if _ >? 0 then _ else _).
  assert (shown' = shown) as ->.
  { unfold shown', shown. destruct more as [|count_arg more'].
    - done.
    - destruct (Z.gtb_spec (atoi count_arg) 0); lia. }
  rewrite Z.add_0_l.
  rewrite (blocks_rows (Z.to_nat sizeof_record) row tail bss Hbss)
    by (unfold shown, n; destruct more; lia).
  reflexivity.
Qed.
End FileReaderMain.

Section FileReaderAny.
Variable sizeof_record : Z.
Variable row : list Z -> file_line.
Variable atoi : cstring -> Z.
Variable fopen : cstring -> option (list Z).
Hypothesis sizeof_pos : 0 < sizeof_record.

(** [main] on any file that can be opened, with a valid count or none. *)
Lemma file_reader_main_any file_path more contents :
  fopen file_path = Some contents ->
  match more with [] => True | count_arg :: _ => 0 < atoi count_arg end ->
  let n := Z.of_nat (length contents) / sizeof_record in
  let shown :=
    match more with [] => n | count_arg :: _ => Z.min n (atoi count_arg) end in
  file_reader_main sizeof_record row atoi fopen (file_path :: more)
  = (FL_file_info (Z.of_nat (length contents)) sizeof_record n
       :: FL_column_titles :: FL_column_rule
       :: map (fun k => row (take (Z.to_nat sizeof_record)
                               (drop (k * Z.to_nat sizeof_record) contents)))
              (seq 0 (Z.to_nat shown))
          ++ [FL_displayed shown n], 0).
Proof.
  intros Hopen Hmore n shown.
  assert (0 <= n) as Hn by (apply Z.div_pos; lia).
  unfold file_reader_main. rewrite Hopen.
  assert (match more with [] => false | _ :: _ =>
            match more with [] => -1 | count_arg :: _ => atoi count_arg end
            <=? 0 end = false) as ->.
  { destruct more; [done|]. apply Z.leb_gt. lia. }
  rewrite read_loop_spec by (done || lia).
  cbn zeta. fold n.
  set (shown' := if _ >? 0 then _ else _).
  assert (shown' = shown) as ->.
  { unfold shown', shown. destruct more as [|count_arg more'].
    - done.
    - destruct (Z.gtb_spec (atoi count_arg) 0); lia. }
  by rewrite Z.add_0_l.
Qed.
End FileReaderAny.

Lemma rows_ignore_tail {A} (n : nat) (f : list Z -> A) contents tail shown :
  (shown * n <= length contents)%nat ->
  map (fun k => f (take n (drop (k * n) (contents ++ tail)))) (seq 0 shown)
  = map (fun k => f (take n (drop (k * n) contents))) (seq 0 shown).
Proof.
  intros Hshown. apply map_ext_in. intros k Hk. apply in_seq in Hk. f_equal.
  assert (k * n + n <= length contents)%nat as Hkn by nia.
  rewrite drop_app_le by lia.
  rewrite take_app_le by (rewrite length_drop; lia).
  done.
Qed.

Lemma trade_row_encode r :
  trade_okb r = true ->
  trade_row (encode_trade r)
  = FL_trade (Z.quot (event_time r) 1000) (Z.quot (trade_time r) 1000)
             (price r) (quantity r) (trade_id r)
             (negb (is_buyer_maker r =? 0)).
Proof.
  intros Hok. unfold trade_row. by rewrite decode_encode_trade.
Qed.

Lemma kline_row_encode r :
  kline_okb r = true ->
  kline_row (encode_kline r)
  = FL_kline (Z.quot (open_time r) 1000) (Z.quot (close_time r) 1000)
             (open_price r) (close_price r) (high_price r) (low_price r)
             (volume r) (num_trades r) (negb (is_final r =? 0)).
Proof.
  intros Hok. unfold kline_row. by rewrite decode_encode_kline.
Qed.

(** X1. [trade_reader] reads back the file the collector wrote: on a
    file that holds the records for which [fwrite] returned 1 in
    [handle_aggTrade], and nothing else, it prints one row per record,
    in the order of ingestion, with the fields of the record (the two
    times in whole seconds), stops after [count] rows when a count is
    given, and reports the number of rows shown out of the number of
    records. *)
Theorem trade_reader_reads_collector_file atoi fopen file_path more s :
  forallb trade_okb (fwritten (trade_file s)) = true ->
  fopen file_path = Some (trade_file_bytes s) ->
  match more with [] => True | count_arg :: _ => 0 < atoi count_arg end ->
  let n := Z.of_nat (length (fwritten (trade_file s))) in
  let shown :=
    match more with [] => n | count_arg :: _ => Z.min n (atoi count_arg) end in
  trade_reader_main atoi fopen (file_path :: more)
  = (FL_file_info (n * 41) 41 n :: FL_column_titles :: FL_column_rule
       :: map (fun r =>
                 FL_trade (Z.quot (event_time r) 1000)
                          (Z.quot (trade_time r) 1000)
                          (price r) (quantity r) (trade_id r)
                          (negb (is_buyer_maker r =? 0)))
              (take (Z.to_nat shown) (fwritten (trade_file s)))
          ++ [FL_displayed shown n], 0).
Proof.
  intros Hok Hopen Hmore n shown.
  unfold trade_reader_main, trade_file_bytes in *.
  rewrite (file_reader_main_blocks sizeof_trade_record_t trade_row atoi fopen
             ltac:(done) file_path more (map encode_trade (fwritten (trade_file s))) []).
  - rewrite length_map, Z.add_0_r. fold n. fold shown.
    do 5 f_equal. rewrite firstn_map, map_map.
    apply map_ext_in. intros r Hr. apply trade_row_encode.
    rewrite forallb_forall in Hok. apply Hok.
    apply list_elem_of_In. eapply subseteq_take. by apply list_elem_of_In.
  - apply Forall_forall. intros b Hb. apply list_elem_of_In, in_map_iff in Hb.
    destruct Hb as (r & <- & _). by rewrite length_encode_trade.
  - done.
  - by rewrite app_nil_r.
  - done.
Qed.

(** X2. [kline_reader] reads back the kline file the collector wrote:
    on a file that holds the records for which [fwrite] returned 1 in
    [handle_kline], and nothing else, it prints row for record, with
    the same count limit and report. *)
Theorem kline_reader_reads_collector_file atoi fopen file_path more s :
  forallb kline_okb (fwritten (kline_file s)) = true ->
  fopen file_path = Some (kline_file_bytes s) ->
  match more with [] => True | count_arg :: _ => 0 < atoi count_arg end ->
  let n := Z.of_nat (length (fwritten (kline_file s))) in
  let shown :=
    match more with [] => n | count_arg :: _ => Z.min n (atoi count_arg) end in
  kline_reader_main atoi fopen (file_path :: more)
  = (FL_file_info (n * 65) 65 n :: FL_column_titles :: FL_column_rule
       :: map (fun r =>
                 FL_kline (Z.quot (open_time r) 1000)
                          (Z.quot (close_time r) 1000)
                          (open_price r) (close_price r)
                          (high_price r) (low_price r)
                          (volume r) (num_trades r)
                          (negb (is_final r =? 0)))
              (take (Z.to_nat shown) (fwritten (kline_file s)))
          ++ [FL_displayed shown n], 0).
Proof.
  intros Hok Hopen Hmore n shown.
  unfold kline_reader_main, kline_file_bytes in *.
  rewrite (file_reader_main_blocks sizeof_kline_record_t kline_row atoi fopen
             ltac:(done) file_path more (map encode_kline (fwritten (kline_file s))) []).
  - rewrite length_map, Z.add_0_r. fold n. fold shown.
    do 5 f_equal. rewrite firstn_map, map_map.
    apply map_ext_in. intros r Hr. apply kline_row_encode.
    rewrite forallb_forall in Hok. apply Hok.
    apply list_elem_of_In. eapply subseteq_take. by apply list_elem_of_In.
  - apply Forall_forall. intros b Hb. apply list_elem_of_In, in_map_iff in Hb.
    destruct Hb as (r & <- & _). by rewrite length_encode_kline.
  - done.
  - by rewrite app_nil_r.
  - done.
Qed.

Lemma trade_reader_reads_collector_file_witness :
  trade_reader_main ex_atoi (ex_fopen (trade_file_bytes ex_symbol_3_2))
    [c_str "data.bin"; c_str "2"]
  = (FL_file_info (3 * 41) 41 3 :: FL_column_titles :: FL_column_rule
       :: map (fun r =>
                 FL_trade (Z.quot (event_time r) 1000)
                          (Z.quot (trade_time r) 1000)
                          (price r) (quantity r) (trade_id r)
                          (negb (is_buyer_maker r =? 0)))
              (take 2 (fwritten (trade_file ex_symbol_3_2)))
          ++ [FL_displayed 2 3], 0).
Proof.
  apply (trade_reader_reads_collector_file ex_atoi
           (ex_fopen (trade_file_bytes ex_symbol_3_2))
           (c_str "data.bin") [c_str "2"] ex_symbol_3_2).
  - vm_compute. reflexivity.
  - reflexivity.
  - simpl. unfold ex_atoi. lia.
Defined.

Lemma kline_reader_reads_collector_file_witness :
  kline_reader_main ex_atoi (ex_fopen (kline_file_bytes ex_symbol_3_2))
    [c_str "data.bin"]
  = (FL_file_info (2 * 65) 65 2 :: FL_column_titles :: FL_column_rule
       :: map (fun r =>
                 FL_kline (Z.quot (open_time r) 1000)
                          (Z.quot (close_time r) 1000)
                          (open_price r) (close_price r)
                          (high_price r) (low_price r)
                          (volume r) (num_trades r)
                          (negb (is_final r =? 0)))
              (take 2 (fwritten (kline_file ex_symbol_3_2)))
          ++ [FL_displayed 2 2], 0).
Proof.
  apply (kline_reader_reads_collector_file ex_atoi
           (ex_fopen (kline_file_bytes ex_symbol_3_2))
           (c_str "data.bin") [] ex_symbol_3_2).
  - vm_compute. reflexivity.
  - reflexivity.
  - exact I.
Defined.

(** X3. Bytes behind the last whole record of a file (a record cut
    short by an interrupted write) are ignored by both tools: the
    record total, the rows and the report are those of the file without
    them; only the file size printed differs. *)
Theorem file_readers_ignore_partial_record atoi fopen fopen' file_path more
    contents tail :
  fopen file_path = Some contents ->
  fopen' file_path = Some (contents ++ tail) ->
  match more with [] => True | count_arg :: _ => 0 < atoi count_arg end ->
  (Z.of_nat (length contents) mod 41 = 0 -> Z.of_nat (length tail) < 41 ->
   exists rows,
     trade_reader_main atoi fopen (file_path :: more)
     = (FL_file_info (Z.of_nat (length contents)) 41
                     (Z.of_nat (length contents) / 41) :: rows, 0) /\
     trade_reader_main atoi fopen' (file_path :: more)
     = (FL_file_info (Z.of_nat (length contents) + Z.of_nat (length tail)) 41
                     (Z.of_nat (length contents) / 41) :: rows, 0)) /\
  (Z.of_nat (length contents) mod 65 = 0 -> Z.of_nat (length tail) < 65 ->
   exists rows,
     kline_reader_main atoi fopen (file_path :: more)
     = (FL_file_info (Z.of_nat (length contents)) 65
                     (Z.of_nat (length contents) / 65) :: rows, 0) /\
     kline_reader_main atoi fopen' (file_path :: more)
     = (FL_file_info (Z.of_nat (length contents) + Z.of_nat (length tail)) 65
                     (Z.of_nat (length contents) / 65) :: rows, 0)).
Proof.
  intros Hopen Hopen' Hmore.
  assert (forall sz row, 0 < sz ->
            Z.of_nat (length contents) mod sz = 0 ->
            Z.of_nat (length tail) < sz ->
            exists rows,
              file_reader_main sz row atoi fopen (file_path :: more)
              = (FL_file_info (Z.of_nat (length contents)) sz
                   (Z.of_nat (length contents) / sz) :: rows, 0) /\
              file_reader_main sz row atoi fopen' (file_path :: more)
              = (FL_file_info
                   (Z.of_nat (length contents) + Z.of_nat (length tail)) sz
                   (Z.of_nat (length contents) / sz) :: rows, 0)) as Hgen.
  { intros sz row Hsz Hmod Htail.
    assert (Z.of_nat (length contents)
            = sz * (Z.of_nat (length contents) / sz)) as Hq.
    { rewrite (Z.div_mod (Z.of_nat (length contents)) sz) at 1 by lia. lia. }
    set (q := Z.of_nat (length contents) / sz) in *.
    assert (0 <= q) as Hq0 by (apply Z.div_pos; lia).
    assert ((Z.of_nat (length contents) + Z.of_nat (length tail)) / sz = q)
      as Hq'.
    { rewrite Hq, Z.mul_comm, Z.add_comm, Z.div_add by lia.
      rewrite Z.div_small by lia. lia. }
    eexists. split.
    - rewrite (file_reader_main_any sz row atoi fopen Hsz file_path more
                 contents Hopen Hmore).
      fold q. reflexivity.
    - rewrite (file_reader_main_any sz row atoi fopen' Hsz file_path more
                 (contents ++ tail) Hopen' Hmore).
      rewrite length_app, Nat2Z.inj_add, Hq'.
      do 5 f_equal. apply rows_ignore_tail.
      destruct more; nia. }
  split; intros Hmod Htail.
  - apply (Hgen 41 trade_row); done.
  - apply (Hgen 65 kline_row); done.
Qed.

Lemma file_readers_ignore_partial_record_witness :
  (exists rows,
     trade_reader_main ex_atoi (ex_fopen (trade_file_bytes ex_symbol_3_2))
       [c_str "data.bin"]
     = (FL_file_info 123 41 3 :: rows, 0) /\
     trade_reader_main ex_atoi
       (ex_fopen (trade_file_bytes ex_symbol_3_2 ++ replicate 40 255))
       [c_str "data.bin"]
     = (FL_file_info 163 41 3 :: rows, 0)) /\
  (exists rows,
     kline_reader_main ex_atoi (ex_fopen (kline_file_bytes ex_symbol_3_2))
       [c_str "data.bin"]
     = (FL_file_info 130 65 2 :: rows, 0) /\
     kline_reader_main ex_atoi
       (ex_fopen (kline_file_bytes ex_symbol_3_2 ++ replicate 64 255))
       [c_str "data.bin"]
     = (FL_file_info 194 65 2 :: rows, 0)).
Proof.
  split.
  - apply (file_readers_ignore_partial_record ex_atoi
             (ex_fopen (trade_file_bytes ex_symbol_3_2))
             (ex_fopen (trade_file_bytes ex_symbol_3_2 ++ replicate 40 255))
             (c_str "data.bin") [] (trade_file_bytes ex_symbol_3_2)
             (replicate 40 255)); reflexivity.
  - apply (file_readers_ignore_partial_record ex_atoi
             (ex_fopen (kline_file_bytes ex_symbol_3_2))
             (ex_fopen (kline_file_bytes ex_symbol_3_2 ++ replicate 64 255))
             (c_str "data.bin") [] (kline_file_bytes ex_symbol_3_2)
             (replicate 64 255)); reflexivity.
Defined.

(** ** The command line of the collector *)

Lemma strsep_token t :
  ~ In 44 t ->
  strsep t = (t, None) /\
  forall rest, strsep (t ++ 44 :: rest) = (t, Some rest).
Proof.
  induction t as [|c t IH]; intros Hno.
  - split; [done|]. intros rest. done.
  - assert (c <> 44) as Hc by (intros ->; apply Hno; by left).
    destruct IH as [IH1 IH2]; [intros Hin; apply Hno; by right|].
    split; [|intros rest]; cbn [strsep app];
      destruct (Z.eqb_spec c 44) as [?|_]; try done.
    + by rewrite IH1.
    + by rewrite IH2.
Qed.

Lemma length_join_with sep tokens :
  (length tokens <= S (length (join_with sep tokens)))%nat.
Proof.
  induction tokens as [|t rest IH]; [cbn; lia|].
  cbn [join_with]. destruct rest as [|t' rest'].
  - cbn. lia.
  - rewrite length_app. cbn [length] in *. lia.
Qed.

Lemma strsep_loop_join tokens :
  tokens <> [] -> Forall (fun t => ~ In 44 t) tokens ->
  forall fuel, (length tokens <= fuel)%nat ->
    strsep_loop fuel (Some (join_with 44 tokens)) = tokens.
Proof.
  induction tokens as [|t rest IH]; [done|].
  intros _ Hall fuel Hfuel. apply Forall_cons in Hall as [Ht Hrest].
  destruct fuel as [|fuel]; [cbn in Hfuel; lia|].
  cbn [length] in Hfuel.
  destruct (strsep_token t Ht) as [Hend Hsep].
  cbn [strsep_loop join_with]. destruct rest as [|t' rest'].
  - rewrite Hend. by destruct fuel.
  - rewrite Hsep. f_equal. apply IH; [done|done|lia].
Qed.

Lemma parse_symbol_list_join tokens :
  tokens <> [] -> Forall (fun t => ~ In 44 t) tokens ->
  parse_symbol_list (join_with 44 tokens) = tokens.
Proof.
  intros Hne Hall. unfold parse_symbol_list.
  apply strsep_loop_join; [done|done|]. apply length_join_with.
Qed.

Lemma toupper_not_lower c : ~ is_lower (toupper c).
Proof.
  unfold toupper, is_lower.
  destruct (Z.leb_spec 97 c), (Z.leb_spec c 122); cbn [andb]; lia.
Qed.

Lemma main_symbols_names symbol_list syms :
  main_symbols symbol_list = Some syms ->
  (1 <= length syms <= 10)%nat /\
  Forall (fun s => (length (name s) <= 15)%nat /\
                   Forall (fun c => ~ is_lower c) (name s)) syms.
Proof.
  unfold main_symbols. intros H.
  destruct (Z.eqb_spec (Z.of_nat (length (default [] symbol_list))) 0)
    as [|Hne]; [done|].
  injection H as <-. rewrite length_map, length_take. split.
  - unfold MAX_SYMBOLS, cstring in *.
    destruct (Z.gtb_spec (Z.of_nat (length (default [] symbol_list))) 10);
      lia.
  - apply Forall_forall. intros s Hs.
    apply list_elem_of_In, in_map_iff in Hs as (t & <- & _).
    cbn [init_symbol_data name]. split.
    + rewrite length_take. lia.
    + apply Forall_forall. intros c Hc.
      apply (subseteq_take 15) in Hc.
      apply list_elem_of_In, in_map_iff in Hc as (c0 & <- & _).
      apply toupper_not_lower.
Qed.

(** X4. The [-s] option: for a list of symbols written with commas
    between them, [main] builds one table entry per symbol, in order,
    keeps only the first [MAX_SYMBOLS] of them, and names each entry by
    the symbol in upper case cut to 15 characters; the table is never
    empty. *)
Theorem main_symbol_table tokens :
  tokens <> [] -> Forall (fun t => ~ In 44 t) tokens ->
  exists syms,
    main_symbols (Some (parse_symbol_list (join_with 44 tokens))) = Some syms /\
    syms = map (fun t => init_symbol_data (map toupper t)) (take 10 tokens) /\
    map name syms = map (fun t => take 15 (map toupper t)) (take 10 tokens) /\
    Z.of_nat (length syms) = Z.min (Z.of_nat (length tokens)) MAX_SYMBOLS /\
    1 <= Z.of_nat (length syms).
Proof.
  intros Hne Hall. rewrite parse_symbol_list_join by done.
  unfold main_symbols, cstring. cbn [default from_option id].
  destruct (Z.eqb_spec (Z.of_nat (length tokens)) 0) as [H0|_].
  { destruct tokens; [done|cbn in H0; lia]. }
  eexists. split; [reflexivity|].
  assert (take (Z.to_nat (if Z.of_nat (length tokens) >? MAX_SYMBOLS
                          then MAX_SYMBOLS else Z.of_nat (length tokens)))
               tokens = take 10 tokens) as ->.
  { unfold MAX_SYMBOLS. destruct (Z.gtb_spec (Z.of_nat (length tokens)) 10).
    - done.
    - rewrite !take_ge by lia. done. }
  split; [done|]. split.
  - rewrite map_map. done.
  - rewrite length_map, length_take. unfold MAX_SYMBOLS.
    destruct tokens; [done|]. cbn [length]. lia.
Qed.

Lemma main_symbol_table_witness :
  exists syms,
    main_symbols
      (Some (parse_symbol_list
               (join_with 44 [c_str "btcusdt"; c_str "ethusdt"])))
    = Some syms /\
    syms = map (fun t => init_symbol_data (map toupper t))
               (take 10 [c_str "btcusdt"; c_str "ethusdt"]) /\
    map name syms
    = map (fun t => take 15 (map toupper t))
          (take 10 [c_str "btcusdt"; c_str "ethusdt"]) /\
    Z.of_nat (length syms)
    = Z.min (Z.of_nat (length [c_str "btcusdt"; c_str "ethusdt"]))
            MAX_SYMBOLS /\
    1 <= Z.of_nat (length syms).
Proof.
  apply (main_symbol_table [c_str "btcusdt"; c_str "ethusdt"]).
  - discriminate.
  - repeat constructor; vm_compute; intuition discriminate.
Defined.

(** ** The stream path *)

Lemma join_with_cons sep t rest :
  join_with sep (t :: rest)
  = t ++ match rest with [] => [] | _ :: _ => sep :: join_with sep rest end.
Proof. destruct rest; cbn [join_with]; by rewrite ?app_nil_r. Qed.

Lemma stream_path_loop_spec syms :
  forall i stream_path,
    0 <= i ->
    stream_path_loop syms i stream_path
    = stream_path
      ++ (if (i >? 0) && negb (bool_decide (syms = [])) then [47] else [])
      ++ join_with 47 (subscribed_streams syms).
Proof.
  induction syms as [|s syms IH]; intros i stream_path Hi.
  - cbn. rewrite andb_false_r. by rewrite app_nil_r.
  - cbn [stream_path_loop]. rewrite IH by lia.
    unfold subscribed_streams. cbn [map concat app].
    fold (subscribed_streams syms).
    rewrite !join_with_cons.
    change (c_str "/") with [47].
    assert (bool_decide (s :: syms = []) = false) as -> by done.
    rewrite andb_true_r. cbn [negb].
    unfold aggTrade_stream, kline_stream.
    set (lower := map tolower (take 15 (name s))).
    assert ((i + 1 >? 0) = true) as -> by lia.
    destruct syms as [|s' syms'].
    + cbn [subscribed_streams map concat join_with bool_decide negb andb].
      rewrite !app_nil_r.
      destruct (i >? 0); rewrite <- ?app_assoc; done.
    + assert (bool_decide (s' :: syms' = []) = false) as -> by done.
      cbn [andb negb].
      destruct (subscribed_streams (s' :: syms')) eqn:Hsub; [done|].
      destruct (i >? 0); rewrite <- ?app_assoc; cbn [app]; done.
Qed.

Lemma length_stream_path_loop syms :
  forall i stream_path,
    (length (stream_path_loop syms i stream_path)
     <= length stream_path + 50 * length syms)%nat.
Proof.
  induction syms as [|s syms IH]; intros i stream_path.
  - cbn. lia.
  - cbn [stream_path_loop]. etrans; [apply IH|].
    rewrite !length_app, length_map, length_take.
    change (length (c_str "@aggTrade")) with 9%nat.
    change (length (c_str "@kline_1m")) with 9%nat.
    change (length (c_str "/")) with 1%nat.
    cbn [length].
    destruct (i >? 0); rewrite ?length_app;
      change (length (c_str "/")) with 1%nat; unfold cstring in *; lia.
Qed.

(** X5. The path [main] builds with [strcat] is "/stream?streams="
    followed by the aggTrade and kline_1m stream of every symbol,
    separated by '/', and with its NUL it takes at most 517 bytes: it
    never runs past [char stream_path[1024]]. *)
Theorem stream_path_fits symbol_list syms :
  main_symbols symbol_list = Some syms ->
  build_stream_path syms
  = c_str "/stream?streams=" ++ join_with 47 (subscribed_streams syms) /\
  Z.of_nat (length (build_stream_path syms)) + 1 <= 517 /\
  517 < sizeof_stream_path.
Proof.
  intros Hmain. destruct (main_symbols_names _ _ Hmain) as [Hlen _].
  split; [|split; [|done]].
  - unfold build_stream_path. rewrite stream_path_loop_spec by done.
    cbn [Z.gtb Z.compare andb]. done.
  - unfold build_stream_path.
    pose proof (length_stream_path_loop syms 0
                  (([] ++ c_str "/stream") ++ c_str "?streams=")) as H.
    change (length (([] ++ c_str "/stream") ++ c_str "?streams="))
      with 16%nat in H.
    lia.
Qed.

Lemma stream_path_fits_witness :
  build_stream_path
    (map (fun t => init_symbol_data (map toupper t))
         [c_str "btcusdt"; c_str "ethusdt"])
  = c_str "/stream?streams="
    ++ join_with 47
         (subscribed_streams
            (map (fun t => init_symbol_data (map toupper t))
                 [c_str "btcusdt"; c_str "ethusdt"])) /\
  Z.of_nat (length (build_stream_path
                      (map (fun t => init_symbol_data (map toupper t))
                           [c_str "btcusdt"; c_str "ethusdt"]))) + 1 <= 517 /\
  517 < sizeof_stream_path.
Proof.
  apply (stream_path_fits (Some [c_str "btcusdt"; c_str "ethusdt"])).
  reflexivity.
Defined.

(** ** Dispatch of the feed *)

Lemma tolower_not_at c : c <> 64 -> tolower c <> 64.
Proof.
  unfold tolower. intros Hc.
  destruct (Z.leb_spec 65 c), (Z.leb_spec c 90); cbn [andb]; lia.
Qed.

Lemma toupper_tolower c : ~ is_lower c -> toupper (tolower c) = c.
Proof.
  unfold toupper, tolower, is_lower. intros Hc.
  destruct (Z.leb_spec 65 c), (Z.leb_spec c 90); cbn [andb];
    repeat match goal with
           | |- context [?a <=? ?b] => destruct (Z.leb_spec a b)
           end; cbn [andb]; lia.
Qed.

Lemma stream_symbol_loop_prefix nm :
  forall n rest,
    (length nm <= n)%nat -> ~ In 64 nm -> Forall (fun c => ~ is_lower c) nm ->
    stream_symbol_loop n (map tolower nm ++ 64 :: rest) = nm.
Proof.
  induction nm as [|c nm IH]; intros n rest Hlen Hat Hlow.
  - cbn. by destruct n.
  - destruct n as [|n]; [cbn in Hlen; lia|].
    apply Forall_cons in Hlow as [Hc Hlow].
    cbn [map app stream_symbol_loop].
    destruct (Z.eqb_spec (tolower c) 64) as [He|_].
    { exfalso. apply (tolower_not_at c); [|done]. intros ->. apply Hat. by left. }
    rewrite toupper_tolower by done. f_equal.
    apply IH; [cbn in Hlen; lia| |done]. intros Hin. apply Hat. by right.
Qed.

Lemma strstr_found pre needle hay :
  starts_with needle hay = true -> strstr (pre ++ hay) needle = true.
Proof.
  intros Hs. induction pre as [|c pre IH].
  - destruct hay; cbn [app strstr]; by rewrite Hs.
  - cbn [app strstr]. rewrite IH. apply orb_true_r.
Qed.

Lemma strstr_behind_prefix pre needle hay :
  ~ In 64 pre ->
  strstr (pre ++ hay) (64 :: needle) = strstr hay (64 :: needle).
Proof.
  intros Hat. induction pre as [|c pre IH]; [done|].
  cbn [app strstr starts_with].
  destruct (Z.eqb_spec 64 c) as [He|_].
  { exfalso. apply Hat. left. congruence. }
  cbn [andb orb]. apply IH. intros Hin. apply Hat. by right.
Qed.

Lemma find_symbol_exists syms :
  forall i s i0,
    syms !! i = Some s ->
    exists j s',
      find_symbol syms (name s) i0 = Some j /\ i0 <= j <= i0 + Z.of_nat i /\
      syms !! Z.to_nat (j - i0) = Some s' /\ name s' = name s.
Proof.
  induction syms as [|s0 syms IH]; intros i s i0 Hi; [done|].
  cbn [find_symbol]. destruct (decide (name s0 = name s)) as [He|Hne].
  - exists i0, s0. rewrite Z.sub_diag. repeat split; try done; lia.
  - destruct i as [|i]; [cbn in Hi; congruence|]. cbn in Hi.
    destruct (IH i s (i0 + 1) Hi) as (j & s' & Hf & Hj & Hl & Hn).
    exists j, s'. repeat split; try done; try lia.
    replace (Z.to_nat (j - i0)) with (S (Z.to_nat (j - (i0 + 1)))) by lia.
    done.
Qed.

Lemma not_at_tolower nm : ~ In 64 nm -> ~ In 64 (map tolower nm).
Proof.
  intros Hat Hin. apply in_map_iff in Hin as (c & Hc & Hin).
  apply (tolower_not_at c); [|done]. intros ->. done.
Qed.

(** X6. Every stream [main] subscribes to comes back to its symbol: for
    a symbol of the table whose name has no '@', [ws_callback] turns the
    stream names "<lower>@aggTrade" and "<lower>@kline_1m" into the name
    of the symbol, hands the data object to [handle_aggTrade] and
    [handle_kline] respectively, and ([fwrite] returning 1) the record
    is ingested into the first table entry of that name. *)
Theorem subscribed_streams_reach_their_symbol
    (json : Type) (get_ex : json -> string -> option json)
    (get_string : json -> option cstring)
    (get_int64 get_double : json -> Z) (get_boolean : json -> bool)
    symbol_list syms i s root stream_obj data_obj
    uninit_trade uninit_kline fflush_result now :
  main_symbols symbol_list = Some syms ->
  syms !! i = Some s ->
  ~ In 64 (name s) ->
  get_ex root "stream"%string = Some stream_obj ->
  get_ex root "data"%string = Some data_obj ->
  (exists j s',
     find_symbol syms (name s) 0 = Some j /\ j <= Z.of_nat i /\
     syms !! Z.to_nat j = Some s' /\ name s' = name s) /\
  stream_symbol (aggTrade_stream s) = name s /\
  stream_symbol (kline_stream s) = name s /\
  (get_string stream_obj = Some (aggTrade_stream s) ->
   ws_callback json get_ex get_string get_int64 get_double get_boolean
     syms LWS_CALLBACK_CLIENT_RECEIVE (Some root)
     uninit_trade uninit_kline 1 fflush_result now
   = Some (fst (handle_aggTrade syms (name s)
                  (extract_trade json get_ex get_int64 get_double get_boolean
                     data_obj uninit_trade) 1 fflush_result now),
           WS_ingested)) /\
  (get_string stream_obj = Some (kline_stream s) ->
   forall k_obj,
     get_ex data_obj "k"%string = Some k_obj ->
     ws_callback json get_ex get_string get_int64 get_double get_boolean
       syms LWS_CALLBACK_CLIENT_RECEIVE (Some root)
       uninit_trade uninit_kline 1 fflush_result now
     = Some (fst (handle_kline syms (name s)
                    (extract_kline json get_ex get_int64 get_double
                       get_boolean k_obj uninit_kline) 1 fflush_result now),
             WS_ingested)).
Proof.
  intros Hmain Hi Hat Hstream Hdata.
  destruct (main_symbols_names _ _ Hmain) as [_ Hnames].
  rewrite Forall_forall in Hnames.
  destruct (Hnames s) as [Hlen Hlow]; [by eapply list_elem_of_lookup_2|].
  destruct (find_symbol_exists syms i s 0 Hi) as (j & s' & Hf & Hj & Hl & Hn).
  rewrite Z.sub_0_r in Hl.
  assert (take 15 (name s) = name s) as Htake by (apply take_ge; lia).
  assert (stream_symbol (aggTrade_stream s) = name s) as Hsa.
  { unfold stream_symbol, aggTrade_stream. rewrite Htake.
    change (c_str "@aggTrade") with (64 :: c_str "aggTrade").
    by apply stream_symbol_loop_prefix. }
  assert (stream_symbol (kline_stream s) = name s) as Hsk.
  { unfold stream_symbol, kline_stream. rewrite Htake.
    change (c_str "@kline_1m") with (64 :: c_str "kline_1m").
    by apply stream_symbol_loop_prefix. }
  split; [exists j, s'; repeat split; try done; lia|].
  split; [done|]. split; [done|]. split.
  - intros Hs. unfold ws_callback. rewrite Hstream, Hs, Hdata, Hsa.
    assert (strstr (aggTrade_stream s) (c_str "@aggTrade") = true) as ->.
    { unfold aggTrade_stream. by apply strstr_found. }
    unfold handle_aggTrade_msg. rewrite Hf.
    unfold handle_aggTrade. rewrite Hf, Hl. done.
  - intros Hs k_obj Hk. unfold ws_callback. rewrite Hstream, Hs, Hdata, Hsk.
    assert (strstr (kline_stream s) (c_str "@aggTrade") = false) as ->.
    { unfold kline_stream.
      change (c_str "@aggTrade") with (64 :: c_str "aggTrade").
      rewrite strstr_behind_prefix; [done|].
      apply not_at_tolower. by rewrite Htake. }
    assert (strstr (kline_stream s) (c_str "@kline") = true) as ->.
    { unfold kline_stream. by apply strstr_found. }
    unfold handle_kline_msg. rewrite Hf, Hk.
    unfold handle_kline. rewrite Hf, Hl. done.
Qed.

Lemma subscribed_streams_reach_their_symbol_witness :
  ws_callback ex_json ex_get_ex ex_get_string ex_get_int64 ex_get_double
    ex_get_boolean ex_table LWS_CALLBACK_CLIENT_RECEIVE (Some ex_trade_message)
    zero_trade zero_kline 1 0 1001
  = Some (fst (handle_aggTrade ex_table BTCUSDT
                 (extract_trade ex_json ex_get_ex ex_get_int64 ex_get_double
                    ex_get_boolean ex_trade_data zero_trade) 1 0 1001),
          WS_ingested) /\
  ws_callback ex_json ex_get_ex ex_get_string ex_get_int64 ex_get_double
    ex_get_boolean ex_table LWS_CALLBACK_CLIENT_RECEIVE (Some ex_kline_message)
    zero_trade zero_kline 1 0 1001
  = Some (fst (handle_kline ex_table BTCUSDT
                 (extract_kline ex_json ex_get_ex ex_get_int64 ex_get_double
                    ex_get_boolean ex_kline_object zero_kline) 1 0 1001),
          WS_ingested).
Proof.
  split.
  - destruct (subscribed_streams_reach_their_symbol ex_json ex_get_ex
                ex_get_string ex_get_int64 ex_get_double ex_get_boolean
                (Some [c_str "btcusdt"; c_str "ethusdt"]) ex_table 0%nat
                (init_symbol_data (map toupper (c_str "btcusdt")))
                ex_trade_message (EJ_string (c_str "btcusdt@aggTrade"))
                ex_trade_data zero_trade zero_kline 0 1001)
      as (_ & _ & _ & Ht & _).
    + reflexivity.
    + reflexivity.
    + vm_compute. intuition discriminate.
    + reflexivity.
    + reflexivity.
    + apply Ht. reflexivity.
  - destruct (subscribed_streams_reach_their_symbol ex_json ex_get_ex
                ex_get_string ex_get_int64 ex_get_double ex_get_boolean
                (Some [c_str "btcusdt"; c_str "ethusdt"]) ex_table 0%nat
                (init_symbol_data (map toupper (c_str "btcusdt")))
                ex_kline_message (EJ_string (c_str "btcusdt@kline_1m"))
                (ex_object [("k"%string, ex_kline_object)])
                zero_trade zero_kline 0 1001)
      as (_ & _ & _ & _ & Hk).
    + reflexivity.
    + reflexivity.
    + vm_compute. intuition discriminate.
    + reflexivity.
    + reflexivity.
    + apply Hk; reflexivity.
Defined.

Lemma map_in_memory_insert syms i s s' :
  syms !! i = Some s -> in_memory s' = in_memory s ->
  map in_memory (<[i := s']> syms) = map in_memory syms.
Proof.
  intros Hs Hn.
  change (in_memory <$> <[i := s']> syms = in_memory <$> syms).
  rewrite list_fmap_insert, Hn. apply list_insert_id.
  by rewrite list_lookup_fmap, Hs.
Qed.

Lemma handle_aggTrade_frame syms symbol r w f now :
  (snd (handle_aggTrade syms symbol r w f now) <> Ingested ->
   map in_memory (fst (handle_aggTrade syms symbol r w f now))
   = map in_memory syms) /\
  (snd (handle_aggTrade syms symbol r w f now) = UnknownSymbol ->
   fst (handle_aggTrade syms symbol r w f now) = syms) /\
  (w <> 1 -> snd (handle_aggTrade syms symbol r w f now) <> Ingested) /\
  exists j : nat, forall k, k <> j ->
    fst (handle_aggTrade syms symbol r w f now) !! k = syms !! k.
Proof.
  unfold handle_aggTrade.
  destruct (find_symbol syms symbol 0) as [j|];
    [|repeat split; [done .. |by exists 0%nat]].
  destruct (syms !! Z.to_nat j) as [s|] eqn:Hs;
    [|repeat split; [done .. |by exists 0%nat]].
  destruct (Z.eqb_spec w 1) as [-> | Hw]; cbn [negb fst snd].
  - repeat split; [done .. |]. exists (Z.to_nat j). intros k Hk.
    by rewrite list_lookup_insert_ne.
  - repeat split; [| done .. |].
    + intros _. by apply (map_in_memory_insert _ _ s).
    + exists (Z.to_nat j). intros k Hk. by rewrite list_lookup_insert_ne.
Qed.

Lemma handle_kline_frame syms symbol r w f now :
  (snd (handle_kline syms symbol r w f now) <> Ingested ->
   map in_memory (fst (handle_kline syms symbol r w f now))
   = map in_memory syms) /\
  (snd (handle_kline syms symbol r w f now) = UnknownSymbol ->
   fst (handle_kline syms symbol r w f now) = syms) /\
  (w <> 1 -> snd (handle_kline syms symbol r w f now) <> Ingested) /\
  exists j : nat, forall k, k <> j ->
    fst (handle_kline syms symbol r w f now) !! k = syms !! k.
Proof.
  unfold handle_kline.
  destruct (find_symbol syms symbol 0) as [j|];
    [|repeat split; [done .. |by exists 0%nat]].
  destruct (syms !! Z.to_nat j) as [s|] eqn:Hs;
    [|repeat split; [done .. |by exists 0%nat]].
  destruct (Z.eqb_spec w 1) as [-> | Hw]; cbn [negb fst snd].
  - repeat split; [done .. |]. exists (Z.to_nat j). intros k Hk.
    by rewrite list_lookup_insert_ne.
  - repeat split; [| done .. |].
    + intros _. by apply (map_in_memory_insert _ _ s).
    + exists (Z.to_nat j). intros k Hk. by rewrite list_lookup_insert_ne.
Qed.

Lemma ws_of_ingest_ingested r : ws_of_ingest r = WS_ingested -> r = Ingested.
Proof. by destruct r. Qed.

Lemma ws_of_ingest_unknown r :
  ws_of_ingest r = WS_unknown_symbol -> r = UnknownSymbol.
Proof. by destruct r. Qed.

(** X7. A call of [ws_callback] that returns never adds, removes or
    renames a symbol and changes at most one table entry. Ring buffers
    and counters change only when it reports an ingested record, hence
    not when [fwrite] does not return 1; the table is left as it was
    unless a handler got as far as [fwrite], and for every reason other
    than [LWS_CALLBACK_CLIENT_RECEIVE]. The call does not return in one
    case only: the message has a ["stream"] member for which
    [json_object_get_string] gives [NULL]. *)
Theorem ws_callback_frame
    (json : Type) (get_ex : json -> string -> option json)
    (get_string : json -> option cstring)
    (get_int64 get_double : json -> Z) (get_boolean : json -> bool)
    syms reason root uninit_trade uninit_kline fwrite_result fflush_result
    now :
  match
    ws_callback json get_ex get_string get_int64 get_double get_boolean
      syms reason root uninit_trade uninit_kline fwrite_result fflush_result
      now
  with
  | Some result =>
      map name (fst result) = map name syms /\
      (snd result <> WS_ingested ->
       map in_memory (fst result) = map in_memory syms) /\
      (snd result <> WS_ingested -> snd result <> WS_write_failed ->
       fst result = syms) /\
      (reason <> LWS_CALLBACK_CLIENT_RECEIVE -> result = (syms, WS_logged)) /\
      (fwrite_result <> 1 -> snd result <> WS_ingested) /\
      exists j : nat, forall k, k <> j -> fst result !! k = syms !! k
  | None =>
      reason = LWS_CALLBACK_CLIENT_RECEIVE /\
      exists root' stream_obj,
        root = Some root' /\
        get_ex root' "stream"%string = Some stream_obj /\
        get_string stream_obj = None
  end.
Proof.
  assert (forall r,
            r <> WS_ingested ->
            (reason <> LWS_CALLBACK_CLIENT_RECEIVE -> r = WS_logged) ->
            let result := (syms, r) in
            map name (fst result) = map name syms /\
            (snd result <> WS_ingested ->
             map in_memory (fst result) = map in_memory syms) /\
            (snd result <> WS_ingested -> snd result <> WS_write_failed ->
             fst result = syms) /\
            (reason <> LWS_CALLBACK_CLIENT_RECEIVE ->
             result = (syms, WS_logged)) /\
            (fwrite_result <> 1 -> snd result <> WS_ingested) /\
            exists j : nat, forall k, k <> j -> fst result !! k = syms !! k)
    as Hsame.
  { intros r Hr Hl. cbn [fst snd]. repeat split; try done.
    - intros Hreason. by rewrite (Hl Hreason).
    - by exists 0%nat. }
  unfold ws_callback.
  destruct reason; try (by apply Hsame).
  assert (forall res : list symbol_data * ingest_result,
            map name (fst res) = map name syms ->
            ((snd res <> Ingested ->
              map in_memory (fst res) = map in_memory syms) /\
             (snd res = UnknownSymbol -> fst res = syms) /\
             (fwrite_result <> 1 -> snd res <> Ingested) /\
             exists j : nat, forall k, k <> j -> fst res !! k = syms !! k) ->
            let result := (let '(syms', r) := res in (syms', ws_of_ingest r)) in
            map name (fst result) = map name syms /\
            (snd result <> WS_ingested ->
             map in_memory (fst result) = map in_memory syms) /\
            (snd result <> WS_ingested -> snd result <> WS_write_failed ->
             fst result = syms) /\
            (LWS_CALLBACK_CLIENT_RECEIVE <> LWS_CALLBACK_CLIENT_RECEIVE ->
             result = (syms, WS_logged)) /\
            (fwrite_result <> 1 -> snd result <> WS_ingested) /\
            exists j : nat, forall k, k <> j -> fst result !! k = syms !! k)
    as Hlift.
  { intros [syms' r] Hn (Hu & Hk & Hw & Hj). cbn [fst snd] in *.
    repeat split; try done.
    - intros Hr. apply Hu. by intros ->.
    - intros Hr Hr'. apply Hk. by destruct r.
    - intros Hne Hr. apply (Hw Hne). by apply ws_of_ingest_ingested. }
  destruct root as [root|]; [|by apply Hsame].
  destruct (get_ex root "stream"%string) as [stream_obj|] eqn:Hstream;
    [|by apply Hsame].
  destruct (get_string stream_obj) as [stream|] eqn:Hstring.
  2:{ split; [done |]. by exists root, stream_obj. }
  destruct (get_ex root "data"%string) as [data_obj|]; [|by apply Hsame].
  destruct (strstr stream (c_str "@aggTrade")).
  - unfold handle_aggTrade_msg.
    destruct (find_symbol syms (stream_symbol stream) 0); [|by apply Hsame].
    apply Hlift; [apply handle_aggTrade_names | apply handle_aggTrade_frame].
  - destruct (strstr stream (c_str "@kline")); [|by apply Hsame].
    unfold handle_kline_msg.
    destruct (find_symbol syms (stream_symbol stream) 0); [|by apply Hsame].
    destruct (get_ex data_obj "k"%string) as [k_obj|]; [|by apply Hsame].
    apply Hlift; [apply handle_kline_names | apply handle_kline_frame].
Qed.

(** A message whose ["stream"] member is [null]: json-c keeps a JSON
    null as the [NULL] pointer, [json_object_get_string] gives [NULL]
    for it, and the callback reads through it. *)
Example ws_callback_null_stream :
  ws_callback ex_json ex_get_ex ex_get_string ex_get_int64 ex_get_double
    ex_get_boolean ex_table LWS_CALLBACK_CLIENT_RECEIVE
    (Some (ex_object [("stream", EJ_null); ("data", ex_trade_data)]%string))
    zero_trade zero_kline 1 0 1001
  = None.
Proof. reflexivity. Qed.

(** X8. Missing keys. [handle_aggTrade] does not validate its message:
    for a known symbol a data object without any of the keys is
    ingested, the record being what the uninitialised local held; with
    all six keys present the record is made of the six values alone.
    [handle_kline] changes nothing when the message has no ["k"] member,
    and ingests the uninitialised record when ["k"] has none of the
    keys. *)
Theorem messages_with_missing_keys
    (json : Type) (get_ex : json -> string -> option json)
    (get_int64 get_double : json -> Z) (get_boolean : json -> bool)
    syms symbol j root uninit_trade uninit_kline fflush_result now :
  find_symbol syms symbol 0 = Some j ->
  ((forall key, get_ex root key = None) ->
   handle_aggTrade_msg json get_ex get_int64 get_double get_boolean
     syms root symbol uninit_trade 1 fflush_result now
   = (fst (handle_aggTrade syms symbol uninit_trade 1 fflush_result now),
      WS_ingested)) /\
  (forall fwrite_result,
     get_ex root "k"%string = None ->
     handle_kline_msg json get_ex get_int64 get_double get_boolean
       syms root symbol uninit_kline fwrite_result fflush_result now
     = (syms, WS_no_kline_object)) /\
  (forall k_obj,
     get_ex root "k"%string = Some k_obj ->
     (forall key, get_ex k_obj key = None) ->
     handle_kline_msg json get_ex get_int64 get_double get_boolean
       syms root symbol uninit_kline 1 fflush_result now
     = (fst (handle_kline syms symbol uninit_kline 1 fflush_result now),
        WS_ingested)) /\
  (forall e t p q a m,
     get_ex root "E"%string = Some e -> get_ex root "T"%string = Some t ->
     get_ex root "p"%string = Some p -> get_ex root "q"%string = Some q ->
     get_ex root "a"%string = Some a -> get_ex root "m"%string = Some m ->
     extract_trade json get_ex get_int64 get_double get_boolean
       root uninit_trade
     = mk_trade (get_int64 e) (get_int64 t) (get_double p) (get_double q)
                (get_int64 a) (if get_boolean m then 1 else 0)).
Proof.
  intros Hf.
  destruct (find_symbol_spec _ _ _ _ Hf) as (_ & s & Hs & Hn).
  rewrite Z.sub_0_r in Hs.
  repeat split.
  - intros Hnone. unfold handle_aggTrade_msg. rewrite Hf.
    assert (extract_trade json get_ex get_int64 get_double get_boolean
              root uninit_trade = uninit_trade) as ->.
    { unfold extract_trade, assign_if_present. rewrite !Hnone.
      by destruct uninit_trade. }
    unfold handle_aggTrade. rewrite Hf, Hs. done.
  - intros fwrite_result Hk. unfold handle_kline_msg. by rewrite Hf, Hk.
  - intros k_obj Hk Hnone. unfold handle_kline_msg. rewrite Hf, Hk.
    assert (extract_kline json get_ex get_int64 get_double get_boolean
              k_obj uninit_kline = uninit_kline) as ->.
    { unfold extract_kline, assign_if_present. rewrite !Hnone.
      by destruct uninit_kline. }
    unfold handle_kline. rewrite Hf, Hs. done.
  - intros e t p q a m He Ht Hp Hq Ha Hm.
    unfold extract_trade, assign_if_present, bool_to_uint8.
    rewrite He, Ht, Hp, Hq, Ha, Hm. done.
Qed.

Lemma messages_with_missing_keys_witness :
  handle_aggTrade_msg ex_json ex_get_ex ex_get_int64 ex_get_double
    ex_get_boolean ex_table (ex_object []) BTCUSDT
    (ex_trade 7 price_9999_25) 1 0 1001
  = (fst (handle_aggTrade ex_table BTCUSDT (ex_trade 7 price_9999_25)
            1 0 1001),
     WS_ingested).
Proof.
  destruct (messages_with_missing_keys ex_json ex_get_ex ex_get_int64
              ex_get_double ex_get_boolean ex_table BTCUSDT 0 (ex_object [])
              (ex_trade 7 price_9999_25) zero_kline 0 1001) as (Ht & _).
  - reflexivity.
  - apply Ht. intros key. reflexivity.
Defined.

(** ** Runs of the collector *)

Lemma rb_append_counts {R} (rec : R) header rb :
  counts_okb rb = true -> counts_okb (rb_append rec header rb) = true.
Proof.
  intros Hok. apply counts_okb_spec in Hok as (Hc & Hn).
  unfold counts_okb, rb_append. cbn [rb_count rb_next_index].
  unfold MAX_RECORDS_PER_SYMBOL in *.
  assert (0 <= add64 (rb_next_index rb) 1 mod 100 < 100) as Hm
    by (apply Z.mod_pos_bound; lia).
  destruct (Z.ltb_spec (rb_count rb) 100).
  - rewrite add64_small by lia. lia.
  - lia.
Qed.

Lemma forallb_insert_true {A} (P : A -> bool) (l : list A) i x :
  forallb P l = true -> P x = true -> forallb P (<[i := x]> l) = true.
Proof.
  intros Hl Hx. rewrite forallb_forall in Hl |- *. intros y Hy.
  apply list_elem_of_In, list_elem_of_lookup in Hy as [k Hk].
  destruct (decide (k = i)) as [-> | Hne].
  - apply list_lookup_insert_Some in Hk as [(_ & <- & _) | (? & _)]; done.
  - rewrite list_lookup_insert_ne in Hk by done.
    apply Hl, list_elem_of_In. by eapply list_elem_of_lookup_2.
Qed.

Lemma handle_aggTrade_rings syms symbol r w f now :
  forallb rings_okb syms = true ->
  forallb rings_okb (fst (handle_aggTrade syms symbol r w f now)) = true.
Proof.
  intros Hok. unfold handle_aggTrade.
  destruct (find_symbol syms symbol 0) as [j|]; [|done].
  destruct (syms !! Z.to_nat j) as [s|] eqn:Hs; [|done].
  assert (rings_okb s = true) as Hrs.
  { rewrite forallb_forall in Hok.
    apply Hok, list_elem_of_In. by eapply list_elem_of_lookup_2. }
  destruct (negb (w =? 1)); cbn [fst];
    (apply forallb_insert_true; [done |]); [exact Hrs |].
  unfold rings_okb in *. cbn [trades klines].
  apply andb_prop in Hrs as [Ht Hk']. rewrite Hk', andb_true_r.
  by apply rb_append_counts.
Qed.

Lemma handle_kline_rings syms symbol r w f now :
  forallb rings_okb syms = true ->
  forallb rings_okb (fst (handle_kline syms symbol r w f now)) = true.
Proof.
  intros Hok. unfold handle_kline.
  destruct (find_symbol syms symbol 0) as [j|]; [|done].
  destruct (syms !! Z.to_nat j) as [s|] eqn:Hs; [|done].
  assert (rings_okb s = true) as Hrs.
  { rewrite forallb_forall in Hok.
    apply Hok, list_elem_of_In. by eapply list_elem_of_lookup_2. }
  destruct (negb (w =? 1)); cbn [fst];
    (apply forallb_insert_true; [done |]); [exact Hrs |].
  unfold rings_okb in *. cbn [trades klines].
  apply andb_prop in Hrs as [Ht Hk']. rewrite Ht. cbn [andb].
  by apply rb_append_counts.
Qed.

Lemma ingest_rings syms e :
  forallb rings_okb syms = true ->
  forallb rings_okb (ingest syms e) = true /\
  map name (ingest syms e) = map name syms.
Proof.
  intros Hok. destruct e; cbn [ingest]; split;
    auto using handle_aggTrade_rings, handle_kline_rings,
               handle_aggTrade_names, handle_kline_names.
Qed.

Lemma init_rings names :
  forallb rings_okb (map init_symbol_data names) = true.
Proof.
  apply forallb_forall. intros s Hs.
  apply in_map_iff in Hs as (nm & <- & _). done.
Qed.

(** One call of [update_shared_memory]: what it leaves of the header. *)
Lemma update_keeps_header c m now :
  shared_memory c = Some m ->
  region_okb m (symbol_count c) = true ->
  forallb rings_okb (symbols c) = true ->
  exists m',
    shared_memory (fst (update_shared_memory c now)) = Some m' /\
    symbols (fst (update_shared_memory c now)) = symbols c /\
    (forall x, 16 <= x < 256 -> m' x = m x) /\
    shm_write_counter m'
    = wrap64 (shm_write_counter m
              + if is_rewrite (snd (update_shared_memory c now))
                then 1 else 0).
Proof.
  intros Hshm Hreg Hok.
  destruct (update_shared_memory_log c m now Hshm Hreg Hok) as [Hclosed Hopen].
  destruct (Z.lt_ge_cases (now - last_update_time c) 1) as [Hg|Hg].
  - rewrite (Hclosed Hg). cbn [fst snd shared_memory symbols].
    eexists. split; [done|]. split; [done|].
    assert (forall x, ~ 8 <= x < 16 ->
              apply_write m (time_store now) x = m x) as Hout.
    { intros x Hx. unfold apply_write. apply store_bytes_out.
      cbn [time_store w_addr w_bytes]. rewrite length_encode_le.
      unfold OFF_last_update_time. lia. }
    split; [intros x Hx; apply Hout; lia|].
    cbn [is_rewrite existsb time_store w_addr orb].
    unfold OFF_last_update_time, OFF_write_counter. cbn [Z.eqb orb].
    rewrite Z.add_0_r.
    unfold shm_write_counter at 1 2. unfold load_u64 at 1.
    rewrite (load_bytes_ext _ m).
    + symmetry. apply wrap64_small, load_u64_range.
    + intros k Hk. apply Hout. unfold OFF_write_counter in *. lia.
  - rewrite (Hopen ltac:(lia)). cbn [fst snd shared_memory symbols].
    eexists. split; [done|]. split; [done|].
    assert (Forall (fun w => 256 <= w_addr w) (slots_log m 0 (symbols c)))
      as Habove.
    { apply (slots_log_above_header m (symbol_count c));
        [done | lia | unfold symbol_count; lia | done]. }
    split.
    + intros x Hx. apply apply_writes_out. constructor.
      { cbn [time_store w_addr w_bytes]. rewrite length_encode_le.
        unfold OFF_last_update_time. lia. }
      apply Forall_app. split.
      * eapply Forall_impl; [exact Habove|]. cbn beta. intros w Hw. lia.
      * constructor; [|constructor].
        cbn [counter_store w_addr w_bytes]. rewrite length_encode_le.
        unfold OFF_write_counter. lia.
    + rewrite is_rewrite_open by done.
      change (time_store now :: slots_log m 0 (symbols c) ++ [counter_store m])
        with ((time_store now :: slots_log m 0 (symbols c))
              ++ [counter_store m]).
      rewrite apply_writes_app. cbn [apply_writes fold_left].
      unfold shm_write_counter at 1.
      rewrite (load_u64_holds _ _ (add64 (shm_write_counter m) 1)).
      * unfold add64. apply wrap64_small, wrap64_range.
      * apply holds_store.
Qed.

Lemma run_from m0 sts :
  forall c m,
    shared_memory c = Some m ->
    (forall x, 16 <= x < 256 -> m x = m0 x) ->
    region_okb m0 (symbol_count c) = true ->
    forallb rings_okb (symbols c) = true ->
    exists m',
      shared_memory (run c sts) = Some m' /\
      (forall x, 16 <= x < 256 -> m' x = m0 x) /\
      forallb rings_okb (symbols (run c sts)) = true /\
      map name (symbols (run c sts)) = map name (symbols c) /\
      shm_write_counter m' = wrap64 (shm_write_counter m + rewrites c sts).
Proof.
  induction sts as [|st sts IH]; intros c m Hshm Hhdr Hreg Hok.
  - exists m. cbn [run fold_left rewrites]. repeat split; try done.
    rewrite Z.add_0_r. symmetry. apply wrap64_small, load_u64_range.
  - cbn [run fold_left rewrites]. fold (run (run_step c st) sts).
    destruct st as [e|now].
    + destruct (ingest_rings (symbols c) e Hok) as [Hok' Hnames].
      destruct (IH (run_step c (Step_feed e)) m) as (m' & H1 & H2 & H3 & H4 & H5);
        try done.
      { unfold symbol_count in *. cbn [run_step symbols].
        rewrite <- (length_map name), Hnames, length_map. done. }
      exists m'. repeat split; try done.
      rewrite H4. cbn [run_step symbols]. done.
    + assert (region_okb m (symbol_count c) = true) as Hreg'.
      { destruct (region_okb_ext m m0 (symbol_count c)) as [<- _]; [|done].
        intros x Hx. apply Hhdr. lia. }
      destruct (update_keeps_header c m now Hshm Hreg' Hok)
        as (m1 & Hm1 & Hs1 & Hh1 & Hc1).
      cbn [run_step].
      destruct (IH (fst (update_shared_memory c now)) m1)
        as (m' & H1 & H2 & H3 & H4 & H5); try done.
      { intros x Hx. rewrite Hh1 by done. by apply Hhdr. }
      { unfold symbol_count in *. by rewrite Hs1. }
      { by rewrite Hs1. }
      exists m'. repeat split; try done.
      * by rewrite H4, Hs1.
      * rewrite H5, Hc1. unfold wrap64.
        rewrite Z.add_mod_idemp_l by done. f_equal. lia.
Qed.

Lemma init_write_counter m0 syms now :
  shm_write_counter (apply_writes m0 (init_shared_memory syms now)) = 0.
Proof.
  unfold shm_write_counter.
  rewrite (load_u64_holds _ _ 0); [done|].
  apply (holds_apply_writes_last m0 []
           (mk_write OFF_write_counter (encode_le 8 0))).
  unfold OFF_write_counter, OFF_last_update_time, OFF_data_offset,
    OFF_buffer_size, OFF_symbol_count.
  cbn [w_addr w_bytes]. rewrite length_encode_le.
  repeat (constructor; [cbn [w_addr]; lia|]).
  eapply Forall_impl; [apply (init_names_above syms 0); lia|].
  cbn beta. intros w Hw. lia.
Qed.

Lemma run_from_start names m0 t0 sts :
  Z.of_nat (length names) <= MAX_SYMBOLS ->
  let region :=
    apply_writes m0 (init_shared_memory (map init_symbol_data names) t0) in
  exists m,
    shared_memory (run (start names m0 t0) sts) = Some m /\
    (forall x, 16 <= x < 256 -> m x = region x) /\
    forallb rings_okb (symbols (run (start names m0 t0) sts)) = true /\
    map name (symbols (run (start names m0 t0) sts)) = map (take 15) names /\
    shm_write_counter m = wrap64 (rewrites (start names m0 t0) sts).
Proof.
  intros Hn region.
  destruct (run_from region sts (start names m0 t0) region)
    as (m & H1 & H2 & H3 & H4 & H5); try done.
  - unfold symbol_count, start. cbn [symbols].
    apply init_shared_memory_region_ok. by rewrite length_map.
  - apply init_rings.
  - exists m. repeat split; try done.
    + rewrite H4. unfold start. cbn [symbols]. rewrite map_map. done.
    + rewrite H5. unfold region. by rewrite init_write_counter.
Qed.

Lemma init_data_offset m0 syms now :
  shm_data_offset (apply_writes m0 (init_shared_memory syms now)) = 256.
Proof.
  unfold shm_data_offset.
  rewrite (load_u64_holds _ _ sizeof_shared_memory_header_t); [done|].
  apply (holds_apply_writes_last m0
           [mk_write OFF_write_counter (encode_le 8 0);
            mk_write OFF_last_update_time (encode_le 8 now)]
           (mk_write OFF_data_offset
              (encode_le 8 sizeof_shared_memory_header_t))).
  unfold OFF_data_offset, OFF_buffer_size, OFF_symbol_count.
  cbn [w_addr w_bytes]. rewrite length_encode_le.
  repeat (constructor; [cbn [w_addr]; lia|]).
  eapply Forall_impl; [apply (init_names_above syms 0); lia|].
  cbn beta. intros w Hw. lia.
Qed.

Lemma symbol_field_take nm : symbol_field (take 15 nm) = symbol_field nm.
Proof. unfold symbol_field, strncpy. by rewrite take_take. Qed.

(** X9. However handler calls and publisher passes interleave after
    start-up, the header stays as [init_shared_memory] wrote it:
    [data_offset], [buffer_size], [symbol_count] and the directory of
    names never change, and [write_counter] is the number of passes that
    rewrote the slots (modulo 2^64). *)
Theorem header_stable_over_run names m0 t0 sts :
  Z.of_nat (length names) <= MAX_SYMBOLS ->
  exists m,
    shared_memory (run (start names m0 t0) sts) = Some m /\
    shm_write_counter m = wrap64 (rewrites (start names m0 t0) sts) /\
    shm_data_offset m = sizeof_shared_memory_header_t /\
    shm_buffer_size m = 6710860 /\
    shm_symbol_count m = Z.of_nat (length names) /\
    forall k nm,
      names !! k = Some nm ->
      holds m (shm_symbol_addr (Z.of_nat k)) (symbol_field nm).
Proof.
  intros Hn.
  destruct (run_from_start names m0 t0 sts Hn) as (m & Hm & Hhdr & _ & _ & Hc).
  cbn zeta in Hhdr.
  set (region := apply_writes m0
                   (init_shared_memory (map init_symbol_data names) t0)) in *.
  destruct (header_fields_agree m region) as [Hdo Hbs].
  { intros x Hx. apply Hhdr. lia. }
  exists m. repeat split; try done.
  - rewrite Hdo. apply init_data_offset.
  - rewrite Hbs. apply init_buffer_size.
  - rewrite <- (length_map init_symbol_data names).
    rewrite <- (init_symbol_count m0 (map init_symbol_data names) t0)
      by (by rewrite length_map).
    unfold shm_symbol_count, load_u64. f_equal. apply load_bytes_ext.
    intros x Hx. apply Hhdr. unfold OFF_symbol_count in Hx. lia.
  - intros k nm Hk.
    pose proof (lookup_lt_Some _ _ _ Hk) as Hlt. unfold MAX_SYMBOLS in Hn.
    eapply holds_ext.
    + intros x Hx. symmetry. apply Hhdr.
      unfold symbol_field in Hx. rewrite length_app, length_strncpy in Hx.
      cbn [length] in Hx.
      unfold shm_symbol_addr, OFF_symbols, MAX_SYMBOL_LENGTH in Hx. lia.
    + rewrite <- symbol_field_take.
      apply (init_directory m0 (map init_symbol_data names) t0 k
               (init_symbol_data nm)).
      change (map init_symbol_data names) with (init_symbol_data <$> names).
      by rewrite list_lookup_fmap, Hk.
Qed.

Lemma header_stable_over_run_witness :
  exists m,
    shared_memory ex_run = Some m /\
    shm_write_counter m
    = wrap64 (rewrites (start [BTCUSDT] (fun _ => 0) 1000) ex_steps) /\
    shm_data_offset m = sizeof_shared_memory_header_t /\
    shm_buffer_size m = 6710860 /\
    shm_symbol_count m = Z.of_nat (length [BTCUSDT]) /\
    forall k nm,
      [BTCUSDT] !! k = Some nm ->
      holds m (shm_symbol_addr (Z.of_nat k)) (symbol_field nm).
Proof.
  apply (header_stable_over_run [BTCUSDT] (fun _ => 0) 1000 ex_steps).
  simpl. unfold MAX_SYMBOLS. lia.
Defined.

(** X10. With the header [init_shared_memory] writes, the overflow
    branch of the publisher is never taken: a symbol serializes to at
    most 100 * 73 + 100 * 97 = 17000 bytes, a slot holds 6710852, so
    in every state of a run the plan of a pass writes the size of
    everything and publishes both ring buffers whole. *)
Theorem published_whole_after_start names m0 t0 sts i s :
  Z.of_nat (length names) <= MAX_SYMBOLS ->
  symbols (run (start names m0 t0) sts) !! i = Some s ->
  exists m,
    shared_memory (run (start names m0 t0) sts) = Some m /\
    serialized_size s <= 17000 /\
    slot_capacity m = 6710852 /\
    p_total_data_size (publish_plan m (Z.of_nat i) s) = serialized_size s /\
    published_trades m (Z.of_nat i) s
    = snapshot_in_order zero_trade (trades s) /\
    published_klines m (Z.of_nat i) s
    = snapshot_in_order zero_kline (klines s).
Proof.
  intros Hn Hs.
  destruct (run_from_start names m0 t0 sts Hn) as (m & Hm & Hhdr & Hok & _).
  cbn zeta in Hhdr.
  destruct (header_fields_agree
              m (apply_writes m0
                   (init_shared_memory (map init_symbol_data names) t0)))
    as [_ Hbs].
  { intros x Hx. apply Hhdr. lia. }
  rewrite init_buffer_size in Hbs.
  assert (rings_okb s = true) as Hrs.
  { rewrite forallb_forall in Hok. apply Hok.
    apply list_elem_of_In. by eapply list_elem_of_lookup_2. }
  pose proof Hrs as Hrs'. unfold rings_okb in Hrs'.
  apply andb_prop in Hrs' as [Ht Hk].
  apply counts_okb_spec in Ht as (Ht & _).
  apply counts_okb_spec in Hk as (Hk & _).
  assert (serialized_size s <= 17000) as Hsize.
  { unfold serialized_size. rewrite (proj1 frame_sizes), (proj2 frame_sizes).
    unfold MAX_RECORDS_PER_SYMBOL in *. lia. }
  assert (slot_capacity m = 6710852) as Hcap.
  { unfold slot_capacity, sizeof_size_t. lia. }
  destruct (publish_plan_spec m (Z.of_nat i) s Hrs ltac:(lia))
    as (_ & _ & _ & _ & _ & _ & _ & Hfit).
  destruct Hfit as (Htw & Hkw & Htot); [lia|].
  exists m. repeat split; try done.
  - unfold published_trades. rewrite Htw. apply take_ge.
    rewrite length_snapshot. lia.
  - unfold published_klines. rewrite Hkw. apply take_ge.
    rewrite length_snapshot. lia.
Qed.

Lemma published_whole_after_start_witness :
  exists m,
    shared_memory ex_run = Some m /\
    serialized_size ex_run_symbol <= 17000 /\
    slot_capacity m = 6710852 /\
    p_total_data_size (publish_plan m (Z.of_nat 0) ex_run_symbol)
    = serialized_size ex_run_symbol /\
    published_trades m (Z.of_nat 0) ex_run_symbol
    = snapshot_in_order zero_trade (trades ex_run_symbol) /\
    published_klines m (Z.of_nat 0) ex_run_symbol
    = snapshot_in_order zero_kline (klines ex_run_symbol).
Proof.
  apply (published_whole_after_start [BTCUSDT] (fun _ => 0) 1000 ex_steps
           0%nat ex_run_symbol).
  - simpl. unfold MAX_SYMBOLS. lia.
  - reflexivity.
Defined.

(** ** Statistics and ring buffers against the records written *)

Lemma add64_wrap a b : add64 (wrap64 a) b = wrap64 (a + b).
Proof. unfold add64, wrap64. by rewrite Z.add_mod_idemp_l. Qed.

Lemma stats_inv_init nm : stats_inv (init_symbol_data nm).
Proof.
  unfold stats_inv, init_symbol_data. cbn. repeat split.
  - exists []. split; [apply ring_after_init|done].
  - exists []. split; [apply ring_after_init|done].
Qed.

Lemma fwritten_app {R} (f g : FILE R) :
  fwritten (f ++ g) = fwritten f ++ fwritten g.
Proof.
  induction f as [| [r n | n] f IH]; cbn [app fwritten]; [done | | done].
  destruct (n =? 1); [| done]. by rewrite IH.
Qed.

Lemma fwritten_calls {R} (f : FILE R) r w fl :
  fwritten (f ++ [Fwrite r w; Fflush fl])
  = fwritten f ++ (if w =? 1 then [r] else []).
Proof.
  rewrite fwritten_app. cbn [fwritten]. by destruct (w =? 1).
Qed.

Lemma handle_aggTrade_stats syms symbol r w f now :
  Forall stats_inv syms ->
  Forall stats_inv (fst (handle_aggTrade syms symbol r w f now)).
Proof.
  intros Hinv. unfold handle_aggTrade.
  destruct (find_symbol syms symbol 0) as [idx|]; [|done].
  destruct (syms !! Z.to_nat idx) as [s|] eqn:Hs; [|done].
  assert (stats_inv s) as (Ht & Hk & Hm & Hb & (lt & Hlt & Hft) & Hlk).
  { rewrite Forall_forall in Hinv. apply Hinv.
    by eapply list_elem_of_lookup_2. }
  destruct (Z.eqb_spec w 1) as [-> | Hw]; cbn [negb fst];
    (apply Forall_insert; [done|]); unfold stats_inv;
    cbn [trade_count kline_count message_count bytes_processed trade_file
         kline_file trades klines];
    rewrite fwritten_calls.
  - change (1 =? 1) with true. cbn match.
    rewrite Ht, Hm, Hb, !add64_wrap, length_app. cbn [length].
    repeat split; try done; try (f_equal; lia).
    exists (lt ++ [(make_header DATA_TYPE_TRADE sizeof_trade_record_t now
                      symbol, r)]).
    split; [by apply ring_after_append|].
    by rewrite map_app, Hft.
  - destruct (Z.eqb_spec w 1) as [| _]; [done |]. rewrite app_nil_r.
    repeat split; try done. by exists lt.
Qed.

Lemma handle_kline_stats syms symbol r w f now :
  Forall stats_inv syms ->
  Forall stats_inv (fst (handle_kline syms symbol r w f now)).
Proof.
  intros Hinv. unfold handle_kline.
  destruct (find_symbol syms symbol 0) as [idx|]; [|done].
  destruct (syms !! Z.to_nat idx) as [s|] eqn:Hs; [|done].
  assert (stats_inv s) as (Ht & Hk & Hm & Hb & Hlt & (lk & Hlk & Hfk)).
  { rewrite Forall_forall in Hinv. apply Hinv.
    by eapply list_elem_of_lookup_2. }
  destruct (Z.eqb_spec w 1) as [-> | Hw]; cbn [negb fst];
    (apply Forall_insert; [done|]); unfold stats_inv;
    cbn [trade_count kline_count message_count bytes_processed trade_file
         kline_file trades klines];
    rewrite fwritten_calls.
  - change (1 =? 1) with true. cbn match.
    rewrite Hk, Hm, Hb, !add64_wrap, length_app. cbn [length].
    repeat split; try done; try (f_equal; lia).
    exists (lk ++ [(make_header DATA_TYPE_KLINE sizeof_kline_record_t now
                      symbol, r)]).
    split; [by apply ring_after_append|].
    by rewrite map_app, Hfk.
  - destruct (Z.eqb_spec w 1) as [| _]; [done |]. rewrite app_nil_r.
    repeat split; try done. by exists lk.
Qed.

Lemma update_shared_memory_symbols c now :
  symbols (fst (update_shared_memory c now)) = symbols c.
Proof.
  unfold update_shared_memory.
  destruct (shared_memory c) as [m|]; [|done].
  destruct (now - last_update_time c <? 1); [done|].
  by destruct (publish_loop _ _ _).
Qed.

Lemma run_stats sts :
  forall c, Forall stats_inv (symbols c) ->
            Forall stats_inv (symbols (run c sts)).
Proof.
  induction sts as [|st sts IH]; intros c Hinv; [done|].
  cbn [run fold_left]. fold (run (run_step c st) sts). apply IH.
  destruct st as [[symbol r w f now|symbol r w f now]|now];
    cbn [run_step symbols ingest].
  - by apply handle_aggTrade_stats.
  - by apply handle_kline_stats.
  - by rewrite update_shared_memory_symbols.
Qed.

Lemma find_symbol_names syms syms' symbol :
  map name syms = map name syms' ->
  forall i, find_symbol syms symbol i = find_symbol syms' symbol i.
Proof.
  revert syms'. induction syms as [| s syms IH]; intros [| s' syms'] Hn i;
    try done.
  cbn [map] in Hn. injection Hn as Hs Hn. cbn [find_symbol]. rewrite Hs.
  destruct (decide (name s' = symbol)); [done |]. by apply IH.
Qed.

Lemma taken_names syms syms' i sts :
  map name syms = map name syms' ->
  taken_trades syms i sts = taken_trades syms' i sts /\
  taken_klines syms i sts = taken_klines syms' i sts.
Proof.
  intros Hn. unfold taken_trades, taken_klines.
  split; apply flat_map_ext; intros [[symbol r w f now | symbol r w f now] | now];
    try done; by rewrite (find_symbol_names syms syms' symbol Hn).
Qed.

(** What a handler call adds to the records written on the streams of
    an entry. *)
Lemma ingest_streams syms e i s :
  syms !! i = Some s ->
  exists s',
    ingest syms e !! i = Some s' /\
    fwritten (trade_file s')
    = fwritten (trade_file s) ++ taken_trades syms (Z.of_nat i) [Step_feed e] /\
    fwritten (kline_file s')
    = fwritten (kline_file s) ++ taken_klines syms (Z.of_nat i) [Step_feed e].
Proof.
  intros Hs. unfold taken_trades, taken_klines.
  destruct e as [symbol r w f now | symbol r w f now];
    cbn [ingest flat_map]; rewrite !app_nil_r;
    [unfold handle_aggTrade | unfold handle_kline].
  all: destruct (find_symbol syms symbol 0) as [idx |] eqn:Hfind.
  all: try (exists s; rewrite bool_decide_eq_false_2 by done;
            cbn [andb fst]; by rewrite !app_nil_r).
  all: destruct (find_symbol_spec _ _ _ _ Hfind) as [Hge (s0 & Hs0 & _)].
  all: rewrite Z.sub_0_r in Hs0; rewrite Hs0.
  all: destruct (decide (i = Z.to_nat idx)) as [-> | Hne].
  all: try (rewrite bool_decide_eq_false_2
              by (intros [= Heq]; apply Hne; lia);
            cbn [andb]; rewrite !app_nil_r; exists s;
            destruct (negb (w =? 1)); cbn [fst];
            by rewrite list_lookup_insert_ne).
  all: rewrite bool_decide_eq_true_2 by (f_equal; lia); cbn [andb].
  all: assert (s0 = s) as -> by congruence.
  all: destruct (Z.eqb_spec w 1) as [-> | Hw]; cbn [negb fst].
  all: eexists; (split;
         [apply list_lookup_insert_eq; by eapply lookup_lt_Some |]).
  all: cbn [trade_file kline_file]; rewrite ?fwritten_calls, ?app_nil_r.
  all: try change (1 =? 1) with true; cbn match.
  all: try (destruct (Z.eqb_spec w 1) as [| _]; [done |]).
  all: by rewrite ?app_nil_r.
Qed.

Lemma run_streams sts :
  forall c i s,
    symbols c !! i = Some s ->
    exists s',
      symbols (run c sts) !! i = Some s' /\
      fwritten (trade_file s')
      = fwritten (trade_file s) ++ taken_trades (symbols c) (Z.of_nat i) sts /\
      fwritten (kline_file s')
      = fwritten (kline_file s) ++ taken_klines (symbols c) (Z.of_nat i) sts.
Proof.
  induction sts as [| st sts IH]; intros c i s Hs.
  { exists s. by rewrite !app_nil_r. }
  cbn [run fold_left]. fold (run (run_step c st) sts).
  assert (exists s1,
            symbols (run_step c st) !! i = Some s1 /\
            fwritten (trade_file s1)
            = fwritten (trade_file s)
              ++ taken_trades (symbols c) (Z.of_nat i) [st] /\
            fwritten (kline_file s1)
            = fwritten (kline_file s)
              ++ taken_klines (symbols c) (Z.of_nat i) [st] /\
            map name (symbols (run_step c st)) = map name (symbols c))
    as (s1 & Hs1 & Ht1 & Hk1 & Hn).
  { destruct st as [e | now]; cbn [run_step symbols].
    - destruct (ingest_streams (symbols c) e i s Hs) as (s1 & H1 & H2 & H3).
      exists s1. repeat split; try done.
      destruct e; cbn [ingest];
        [apply handle_aggTrade_names | apply handle_kline_names].
    - rewrite update_shared_memory_symbols. exists s.
      unfold taken_trades, taken_klines. cbn [flat_map].
      by rewrite !app_nil_r. }
  destruct (IH _ i s1 Hs1) as (s' & Hs' & Ht' & Hk').
  destruct (taken_names _ _ (Z.of_nat i) sts Hn) as [Et Ek].
  exists s'. split; [done |].
  rewrite Ht', Hk', Ht1, Hk1, Et, Ek, <- !app_assoc.
  unfold taken_trades, taken_klines. cbn [flat_map].
  by rewrite !app_nil_r.
Qed.

(** X11. In every state of a run, for every entry of the symbol table:
    [trade_count] and [kline_count] are the numbers of trade and kline
    messages that were handed to the entry and for which [fwrite]
    returned 1, [message_count] is their sum, [bytes_processed] 41 and
    65 bytes for each of them (all modulo 2^64), and the two ring
    buffers hold, oldest first, the last hundred records of these
    messages (all of them while there are fewer). The records are also
    those the two streams of the entry report written. Whether they are
    in the files is not said. *)
Theorem statistics_count_written_records names m0 t0 sts i s :
  symbols (run (start names m0 t0) sts) !! i = Some s ->
  let wt := taken_trades (map init_symbol_data names) (Z.of_nat i) sts in
  let wk := taken_klines (map init_symbol_data names) (Z.of_nat i) sts in
  fwritten (trade_file s) = wt /\
  fwritten (kline_file s) = wk /\
  trade_count s = wrap64 (Z.of_nat (length wt)) /\
  kline_count s = wrap64 (Z.of_nat (length wk)) /\
  message_count s = wrap64 (Z.of_nat (length wt) + Z.of_nat (length wk)) /\
  bytes_processed s
  = wrap64 (41 * Z.of_nat (length wt) + 65 * Z.of_nat (length wk)) /\
  map snd (snapshot_in_order zero_trade (trades s))
  = drop (length wt - 100) wt /\
  map snd (snapshot_in_order zero_kline (klines s))
  = drop (length wk - 100) wk.
Proof.
  intros Hs wt wk.
  assert (stats_inv s) as (Ht & Hk & Hm & Hb & (lt & Hlt & Hft) & (lk & Hlk & Hfk)).
  { assert (Forall stats_inv (symbols (run (start names m0 t0) sts))) as Hall.
    { apply run_stats. unfold start. cbn [symbols].
      apply Forall_forall. intros x Hx.
      apply list_elem_of_In, in_map_iff in Hx as (nm & <- & _).
      apply stats_inv_init. }
    rewrite Forall_forall in Hall. apply Hall.
    by eapply list_elem_of_lookup_2. }
  assert (fwritten (trade_file s) = wt /\ fwritten (kline_file s) = wk)
    as [Ewt Ewk].
  { assert (exists s0, symbols (start names m0 t0) !! i = Some s0 /\
                       trade_file s0 = [] /\ kline_file s0 = [])
      as (s0 & Hs0 & Ht0 & Hk0).
    { assert (i < length (symbols (start names m0 t0)))%nat as Hlt'.
      { apply lookup_lt_Some in Hs.
        assert (length (map name (symbols (run (start names m0 t0) sts)))
                = length (map name (symbols (start names m0 t0)))) as Hl.
        { f_equal. clear. generalize (start names m0 t0).
          induction sts as [| st sts IH]; intros c; [done |].
          cbn [run fold_left]. fold (run (run_step c st) sts). rewrite IH.
          destruct st as [[symbol r w f now | symbol r w f now] | now];
            cbn [run_step symbols ingest].
          - apply handle_aggTrade_names.
          - apply handle_kline_names.
          - by rewrite update_shared_memory_symbols. }
        rewrite !length_map in Hl. lia. }
      apply lookup_lt_is_Some_2 in Hlt' as [s0 Hs0]. exists s0.
      split; [done |].
      pose proof (list_elem_of_lookup_2 _ _ _ Hs0) as Hin.
      unfold start in Hin. cbn [symbols] in Hin.
      apply list_elem_of_In, in_map_iff in Hin as (nm & <- & _). done. }
    destruct (run_streams sts _ i s0 Hs0) as (s' & Hs' & Et & Ek).
    assert (s' = s) as -> by congruence.
    rewrite Et, Ek, Ht0, Hk0. done. }
  rewrite <- Ewt, <- Ewk.
  repeat split; try done.
  - destruct (snapshot_after zero_trade lt (trades s) Hlt) as [-> _].
    rewrite <- Hft, length_map. by rewrite skipn_map.
  - destruct (snapshot_after zero_kline lk (klines s) Hlk) as [-> _].
    rewrite <- Hfk, length_map. by rewrite skipn_map.
Qed.

Lemma statistics_count_written_records_witness :
  let wt := taken_trades (map init_symbol_data [BTCUSDT]) (Z.of_nat 0)
              ex_steps_io in
  let wk := taken_klines (map init_symbol_data [BTCUSDT]) (Z.of_nat 0)
              ex_steps_io in
  fwritten (trade_file ex_run_io_symbol) = wt /\
  fwritten (kline_file ex_run_io_symbol) = wk /\
  trade_count ex_run_io_symbol = wrap64 (Z.of_nat (length wt)) /\
  kline_count ex_run_io_symbol = wrap64 (Z.of_nat (length wk)) /\
  message_count ex_run_io_symbol
  = wrap64 (Z.of_nat (length wt) + Z.of_nat (length wk)) /\
  bytes_processed ex_run_io_symbol
  = wrap64 (41 * Z.of_nat (length wt) + 65 * Z.of_nat (length wk)) /\
  map snd (snapshot_in_order zero_trade (trades ex_run_io_symbol))
  = drop (length wt - 100) wt /\
  map snd (snapshot_in_order zero_kline (klines ex_run_io_symbol))
  = drop (length wk - 100) wk.
Proof.
  apply (statistics_count_written_records [BTCUSDT] (fun _ => 0) 1000
           ex_steps_io 0%nat ex_run_io_symbol).
  reflexivity.
Defined.

(** In that run two of the three trades count: the one [fwrite] refused
    does not, the one [fflush] lost does. *)
Example statistics_of_the_io_run :
  taken_trades (map init_symbol_data [BTCUSDT]) 0 ex_steps_io
  = [ex_trade 1 price_10000_0; ex_trade 3 price_9999_25] /\
  trade_count ex_run_io_symbol = 2 /\
  bytes_processed ex_run_io_symbol = 82 /\
  map snd (snapshot_in_order zero_trade (trades ex_run_io_symbol))
  = [ex_trade 1 price_10000_0; ex_trade 3 price_9999_25].
Proof. vm_compute. repeat split; reflexivity. Qed.

(** ** The reader on arbitrary region contents *)

Lemma epilogue_no_read ds o rc off len : ~ In (Read off len) (epilogue ds o rc).
Proof.
  unfold epilogue. destruct (rc =? 0); [|destruct (o <? ds)]; cbn;
    intuition discriminate.
Qed.

(** X12. Whatever the region holds, every read of a header field or of
    a record that [display_symbol_data] performs for a symbol argument
    of at most 15 characters lies inside the size the slot declares, and
    that size inside the slot: only the string read of the mismatch
    warning can go further. *)
Theorem reader_reads_stay_in_slot m symbol max_records off len :
  sizeof_size_t <= shm_buffer_size m <= 2 ^ 63 ->
  Z.of_nat (length symbol) < MAX_SYMBOL_LENGTH ->
  In (Read off len) (display_symbol_data m symbol max_records) ->
  exists idx,
    find_in_directory m symbol (Z.to_nat (shm_symbol_count m)) 0 = Some idx /\
    let data_size :=
      load_u64 m (add64 (shm_data_offset m) (mul64 idx (shm_buffer_size m))) in
    0 <= off /\ 0 < len /\ off + len <= data_size /\
    data_size <= slot_capacity m.
Proof.
  intros Hbs Hsym Hin. unfold sizeof_size_t in Hbs.
  unfold display_symbol_data in Hin.
  destruct (find_in_directory m symbol _ 0) as [idx|] eqn:Hfind.
  2:{ cbn in Hin. intuition discriminate. }
  exists idx. split; [done|]. cbn zeta.
  set (so := add64 (shm_data_offset m) (mul64 idx (shm_buffer_size m))) in *.
  destruct (so >=? SHM_SIZE); [cbn in Hin; intuition discriminate|].
  destruct (add64 so sizeof_size_t >? SHM_SIZE);
    [cbn in Hin; intuition discriminate|].
  destruct Hin as [Hin|Hin]; [discriminate|].
  destruct (Z.eqb_spec (load_u64 m so) 0); [cbn in Hin; intuition discriminate|].
  rewrite (sub64_small (shm_buffer_size m) sizeof_size_t) in Hin
    by (unfold sizeof_size_t; lia).
  destruct (Z.gtb_spec (load_u64 m so) (shm_buffer_size m - sizeof_size_t))
    as [|Hfit]; [cbn in Hin; intuition discriminate|].
  destruct Hin as [Hin|Hin]; [discriminate|].
  unfold sizeof_size_t in Hfit.
  pose proof (walk_reads_within m symbol max_records (add64 so 8)
                (load_u64 m so) ltac:(lia) Hsym (walk_fuel (load_u64 m so))
                0 0 ltac:(lia)) as Hall.
  rewrite Forall_forall in Hall.
  specialize (Hall _ (proj2 (list_elem_of_In _ _) Hin)).
  unfold read_within in Hall.
  unfold slot_capacity, sizeof_size_t. lia.
Qed.

Lemma reader_reads_stay_in_slot_witness :
  exists idx,
    find_in_directory ex_corrupted BTCUSDT
      (Z.to_nat (shm_symbol_count ex_corrupted)) 0 = Some idx /\
    let data_size :=
      load_u64 ex_corrupted
        (add64 (shm_data_offset ex_corrupted)
               (mul64 idx (shm_buffer_size ex_corrupted))) in
    0 <= 32 /\ 0 < 41 /\ 32 + 41 <= data_size /\
    data_size <= slot_capacity ex_corrupted.
Proof.
  apply (reader_reads_stay_in_slot ex_corrupted BTCUSDT 10 32 41).
  - vm_compute. split; discriminate.
  - vm_compute. reflexivity.
  - vm_compute. tauto.
Defined.

Lemma strcasecmp_at_tolower m s :
  forall s' a,
    map tolower s = map tolower s' ->
    strcasecmp_at m a s = strcasecmp_at m a s'.
Proof.
  induction s as [|c s IH]; intros [|c' s'] a Heq; try done.
  cbn [map] in Heq. injection Heq as Hc Hs.
  cbn [strcasecmp_at]. rewrite Hc, (IH s' (a + 1) Hs). done.
Qed.

Lemma find_in_directory_tolower m s s' n :
  map tolower s = map tolower s' ->
  forall i, find_in_directory m s n i = find_in_directory m s' n i.
Proof.
  intros Heq. induction n as [|n IH]; intros i; [done|].
  cbn [find_in_directory].
  rewrite (strcasecmp_at_tolower m s s' _ Heq), IH. done.
Qed.

Lemma walk_tolower m s s' max_records base data_size fuel :
  map tolower s = map tolower s' ->
  forall o rc,
    walk m s max_records base data_size fuel o rc
    = walk m s' max_records base data_size fuel o rc.
Proof.
  intros Heq. induction fuel as [|fuel IH]; intros o rc; [done|].
  cbn [walk]. rewrite (strcasecmp_at_tolower m s s' _ Heq).
  by rewrite !IH.
Qed.

(** X13. The reader does not look at the case of its symbol argument:
    two arguments equal up to the case of ASCII letters give the same
    reads, the same records and the same warnings, on any region. *)
Theorem reader_ignores_case m symbol symbol' max_records :
  map tolower symbol = map tolower symbol' ->
  display_symbol_data m symbol max_records
  = display_symbol_data m symbol' max_records.
Proof.
  intros Heq. unfold display_symbol_data.
  rewrite (find_in_directory_tolower m symbol symbol' _ Heq).
  destruct (find_in_directory m symbol' _ 0); [|done].
  by rewrite (walk_tolower m symbol symbol' _ _ _ _ Heq).
Qed.

Lemma reader_ignores_case_witness :
  display_symbol_data ex_published (c_str "btcUsdt") 10
  = display_symbol_data ex_published BTCUSDT 10.
Proof.
  apply (reader_ignores_case ex_published (c_str "btcUsdt") BTCUSDT 10).
  reflexivity.
Defined.

Lemma find_in_directory_none m symbol n :
  forall i,
    (forall j, i <= j < i + Z.of_nat n ->
       fst (strcasecmp_at m (shm_symbol_addr j) symbol) = false) ->
    find_in_directory m symbol n i = None.
Proof.
  induction n as [|n IH]; intros i Hall; [done|].
  cbn [find_in_directory]. rewrite Hall by lia. apply IH.
  intros j Hj. apply Hall. lia.
Qed.

Lemma directory_entry_shape m a nm :
  (length nm <= 15)%nat ->
  holds m a (symbol_field nm) ->
  exists rest, holds m a (nm ++ 0 :: rest).
Proof.
  intros Hl Hh. destruct (symbol_field_shape nm Hl) as [rest Hrest].
  exists rest. rewrite <- Hrest. unfold pad16.
  rewrite take_app_length'; [done|].
  unfold symbol_field, strncpy.
  rewrite !length_app, length_replicate, length_take. cbn [length]. lia.
Qed.

(** X14. A symbol that equals no name of the directory, even up to
    case, is reported as not found, and nothing of the data area is
    read. *)
Theorem unknown_symbol_not_found m names symbol max_records :
  shm_symbol_count m = Z.of_nat (length names) ->
  (forall k nm, names !! k = Some nm ->
     holds m (shm_symbol_addr (Z.of_nat k)) (symbol_field nm)) ->
  forallb symbol_name_okb names = true ->
  Forall (fun c => c <> 0) symbol ->
  ~ In (map tolower symbol) (map (map tolower) names) ->
  display_symbol_data m symbol max_records = [Print L_not_found].
Proof.
  intros Hcount Hdir Hok Hsym Hnot.
  unfold display_symbol_data.
  rewrite Hcount, Nat2Z.id, find_in_directory_none; [done|].
  intros j Hj.
  destruct (names !! Z.to_nat j) as [nm|] eqn:Hnm.
  2:{ apply lookup_ge_None in Hnm. lia. }
  destruct (fst (strcasecmp_at m (shm_symbol_addr j) symbol)) eqn:Hcmp; [|done].
  exfalso. apply Hnot.
  assert (symbol_name_okb nm = true) as Hnmok.
  { rewrite forallb_forall in Hok. apply Hok.
    apply list_elem_of_In. by eapply list_elem_of_lookup_2. }
  destruct (symbol_name_okb_spec _ Hnmok) as (Hname & Hchars & _ & _).
  destruct (name_okb_spec _ Hname) as [Hlen _].
  pose proof (Hdir _ _ Hnm) as Hh. rewrite Z2Nat.id in Hh by lia.
  destruct (directory_entry_shape m _ nm Hlen Hh) as [rest Hshape].
  pose proof (strcasecmp_at_sound m symbol _ nm rest Hshape Hchars Hsym Hcmp)
    as He.
  rewrite <- He. apply in_map. apply list_elem_of_In.
  by eapply list_elem_of_lookup_2.
Qed.

Lemma unknown_symbol_not_found_witness :
  display_symbol_data ex_published (c_str "ETHUSDT") 10 = [Print L_not_found].
Proof.
  apply (unknown_symbol_not_found ex_published [BTCUSDT] (c_str "ETHUSDT") 10).
  - vm_compute. reflexivity.
  - intros [|k] nm Hk; [|destruct k; discriminate].
    injection Hk as <-. intros j b Hb.
    assert (j < 16)%nat as Hj
      by (apply lookup_lt_Some in Hb; vm_compute in Hb; lia).
    do 16 (destruct j as [|j]; [vm_compute in Hb |- *; congruence|]). lia.
  - reflexivity.
  - repeat constructor; discriminate.
  - vm_compute. intuition discriminate.
Defined.

(** ** The trace of the reader on what a pass published *)

Section Trace.
Variable m : mem.
Variable symbol : cstring.
Variable max_records : Z.
Variable base : Z.
Variable data_size : Z.
Variable nm : cstring.
Hypothesis data_size_small : data_size <= 2 ^ 63.
Hypothesis nm_ok : name_okb nm = true.
Hypothesis symbol_matches : map tolower nm = map tolower symbol.

Lemma walk_trade_frame_trace fuel o rc h r :
  0 <= o -> o + 73 <= data_size -> rc < max_records ->
  holds m (base + o) (encode_header h ++ encode_trade r) ->
  header_okb DATA_TYPE_TRADE sizeof_trade_record_t nm h = true ->
  trade_okb r = true ->
  walk m symbol max_records base data_size (S fuel) o rc
  = frame_trace symbol o (D_trade r)
    ++ walk m symbol max_records base data_size fuel (o + 73) (rc + 1).
Proof.
  intros Ho Hfit Hrc Hh Hhdr Hr.
  destruct (header_okb_spec _ _ _ _ Hhdr) as (Hty & Hlen & Hsym).
  destruct (holds_header _ _ _ _ Hh) as (Lty & Llen & Hs & Hp).
  destruct (name_okb_spec _ nm_ok) as [Hnl Hnb].
  destruct (symbol_field_shape nm Hnl) as [rest Hshape].
  rewrite Hsym, Hshape in Hs.
  pose proof (strcasecmp_at_match m symbol _ nm rest Hs Hnb symbol_matches)
    as Hcmp.
  rewrite Hty in Lty. rewrite Hlen in Llen.
  cbn [walk]. unfold sizeof_message_header_t.
  destruct (Z.ltb_spec o data_size); [| lia].
  destruct (Z.ltb_spec rc max_records); [| lia]. cbn [andb].
  rewrite (add64_small o 32) by lia.
  destruct (Z.gtb_spec (o + 32) data_size); [lia |].
  rewrite Hcmp. cbn [negb]. rewrite Lty, Llen.
  change (DATA_TYPE_TRADE mod 2 ^ 32) with 1.
  change (sizeof_trade_record_t mod 2 ^ 32) with 41.
  change (1 =? DATA_TYPE_TRADE) with true. cbn iota.
  unfold sizeof_trade_record_t.
  rewrite (add64_small (o + 32) 41) by lia.
  destruct (Z.gtb_spec (o + 32 + 41) data_size); [lia |].
  cbn [orb negb Z.eqb Pos.eqb].
  replace (base + (o + 32)) with (base + o + 32) by lia.
  replace 41%nat with (length (encode_trade r)) by apply length_encode_trade.
  rewrite load_of_holds; [| done |].
  - rewrite decode_encode_trade by done.
    unfold frame_trace, sizeof_trade_record_t. cbn [app].
    by replace (o + 32 + 41) with (o + 73) by lia.
  - unfold encode_trade. repeat (apply Forall_app; split);
      apply encode_le_bytes.
Qed.

Lemma walk_kline_frame_trace fuel o rc h r :
  0 <= o -> o + 97 <= data_size -> rc < max_records ->
  holds m (base + o) (encode_header h ++ encode_kline r) ->
  header_okb DATA_TYPE_KLINE sizeof_kline_record_t nm h = true ->
  kline_okb r = true ->
  walk m symbol max_records base data_size (S fuel) o rc
  = frame_trace symbol o (D_kline r)
    ++ walk m symbol max_records base data_size fuel (o + 97) (rc + 1).
Proof.
  intros Ho Hfit Hrc Hh Hhdr Hr.
  destruct (header_okb_spec _ _ _ _ Hhdr) as (Hty & Hlen & Hsym).
  destruct (holds_header _ _ _ _ Hh) as (Lty & Llen & Hs & Hp).
  destruct (name_okb_spec _ nm_ok) as [Hnl Hnb].
  destruct (symbol_field_shape nm Hnl) as [rest Hshape].
  rewrite Hsym, Hshape in Hs.
  pose proof (strcasecmp_at_match m symbol _ nm rest Hs Hnb symbol_matches)
    as Hcmp.
  rewrite Hty in Lty. rewrite Hlen in Llen.
  cbn [walk]. unfold sizeof_message_header_t.
  destruct (Z.ltb_spec o data_size); [| lia].
  destruct (Z.ltb_spec rc max_records); [| lia]. cbn [andb].
  rewrite (add64_small o 32) by lia.
  destruct (Z.gtb_spec (o + 32) data_size); [lia |].
  rewrite Hcmp. cbn [negb]. rewrite Lty, Llen.
  change (DATA_TYPE_KLINE mod 2 ^ 32) with 2.
  change (sizeof_kline_record_t mod 2 ^ 32) with 65.
  change (2 =? DATA_TYPE_TRADE) with false.
  change (2 =? DATA_TYPE_KLINE) with true. cbn iota.
  unfold sizeof_kline_record_t.
  rewrite (add64_small (o + 32) 65) by lia.
  destruct (Z.gtb_spec (o + 32 + 65) data_size); [lia |].
  cbn [orb negb Z.eqb Pos.eqb].
  replace (base + (o + 32)) with (base + o + 32) by lia.
  replace 65%nat with (length (encode_kline r)) by apply length_encode_kline.
  rewrite load_of_holds; [| done |].
  - rewrite decode_encode_kline by done.
    unfold frame_trace, sizeof_kline_record_t. cbn [app].
    by replace (o + 32 + 65) with (o + 97) by lia.
  - unfold encode_kline. repeat (apply Forall_app; split);
      apply encode_le_bytes.
Qed.

Lemma walk_trades_trace ts :
  forall fuel o rc,
    0 <= o -> o + 73 * Z.of_nat (length ts) <= data_size ->
    rc + Z.of_nat (length ts) <= max_records ->
    holds m (base + o) (frame_bytes (map trade_frame ts)) ->
    forallb (fun x => header_okb DATA_TYPE_TRADE sizeof_trade_record_t nm
                                 (fst x) && trade_okb (snd x)) ts = true ->
    walk m symbol max_records base data_size (length ts + fuel) o rc
    = frames_trace symbol o (map D_trade (map snd ts))
      ++ walk m symbol max_records base data_size fuel
              (o + 73 * Z.of_nat (length ts)) (rc + Z.of_nat (length ts)).
Proof.
  induction ts as [| [h r] ts IH]; intros fuel o rc Ho Hfit Hrc Hh Hok.
  - cbn. by rewrite !Z.add_0_r.
  - cbn [length] in *. cbn [map] in Hh. rewrite frame_bytes_cons in Hh.
    cbn [trade_frame frame_of fst snd] in Hh.
    apply holds_app in Hh as [Hframe Hrest].
    rewrite length_app, length_encode_header, length_encode_trade in Hrest.
    apply forallb_cons_true in Hok as [Hx Hok]. cbn [fst snd] in Hx.
    apply andb_prop in Hx as [Hhdr Hr].
    cbn [Nat.add].
    rewrite (walk_trade_frame_trace _ o rc h r) by (done || lia).
    rewrite (IH fuel (o + 73) (rc + 1)); [| lia | lia | lia | | done].
    + cbn [map frames_trace frame_size snd]. rewrite <- app_assoc.
      unfold sizeof_message_header_t, sizeof_trade_record_t.
      replace (o + (32 + 41)) with (o + 73) by lia.
      replace (o + 73 + 73 * Z.of_nat (length ts))
        with (o + 73 * Z.of_nat (S (length ts))) by lia.
      by replace (rc + 1 + Z.of_nat (length ts))
        with (rc + Z.of_nat (S (length ts))) by lia.
    + by replace (base + (o + 73)) with (base + o + Z.of_nat (32 + 41)) by lia.
Qed.

Lemma walk_klines_trace ks :
  forall fuel o rc,
    0 <= o -> o + 97 * Z.of_nat (length ks) <= data_size ->
    rc + Z.of_nat (length ks) <= max_records ->
    holds m (base + o) (frame_bytes (map kline_frame ks)) ->
    forallb (fun x => header_okb DATA_TYPE_KLINE sizeof_kline_record_t nm
                                 (fst x) && kline_okb (snd x)) ks = true ->
    walk m symbol max_records base data_size (length ks + fuel) o rc
    = frames_trace symbol o (map D_kline (map snd ks))
      ++ walk m symbol max_records base data_size fuel
              (o + 97 * Z.of_nat (length ks)) (rc + Z.of_nat (length ks)).
Proof.
  induction ks as [| [h r] ks IH]; intros fuel o rc Ho Hfit Hrc Hh Hok.
  - cbn. by rewrite !Z.add_0_r.
  - cbn [length] in *. cbn [map] in Hh. rewrite frame_bytes_cons in Hh.
    cbn [kline_frame frame_of fst snd] in Hh.
    apply holds_app in Hh as [Hframe Hrest].
    rewrite length_app, length_encode_header, length_encode_kline in Hrest.
    apply forallb_cons_true in Hok as [Hx Hok]. cbn [fst snd] in Hx.
    apply andb_prop in Hx as [Hhdr Hr].
    cbn [Nat.add].
    rewrite (walk_kline_frame_trace _ o rc h r) by (done || lia).
    rewrite (IH fuel (o + 97) (rc + 1)); [| lia | lia | lia | | done].
    + cbn [map frames_trace frame_size snd]. rewrite <- app_assoc.
      unfold sizeof_message_header_t, sizeof_kline_record_t.
      replace (o + (32 + 65)) with (o + 97) by lia.
      replace (o + 97 + 97 * Z.of_nat (length ks))
        with (o + 97 * Z.of_nat (S (length ks))) by lia.
      by replace (rc + 1 + Z.of_nat (length ks))
        with (rc + Z.of_nat (S (length ks))) by lia.
    + by replace (base + (o + 97)) with (base + o + Z.of_nat (32 + 65)) by lia.
Qed.

End Trace.

Lemma frames_trace_app symbol ds1 :
  forall o ds2,
    frames_trace symbol o (ds1 ++ ds2)
    = frames_trace symbol o ds1
      ++ frames_trace symbol (o + frames_size ds1) ds2.
Proof.
  induction ds1 as [|d ds1 IH]; intros o ds2.
  - cbn. by rewrite Z.add_0_r.
  - cbn [app frames_trace frames_size fold_right].
    fold (frames_size ds1). rewrite IH, <- app_assoc.
    by replace (o + frame_size d + frames_size ds1)
      with (o + (frame_size d + frames_size ds1)) by lia.
Qed.

Lemma frames_size_app ds1 ds2 :
  frames_size (ds1 ++ ds2) = frames_size ds1 + frames_size ds2.
Proof.
  induction ds1 as [|d ds1 IH]; [done|].
  cbn [app frames_size fold_right]. fold (frames_size (ds1 ++ ds2)).
  fold (frames_size ds1). lia.
Qed.

Lemma frames_size_trades (rs : list trade_record) :
  frames_size (map D_trade rs) = 73 * Z.of_nat (length rs).
Proof.
  induction rs as [|r rs IH]; [done|].
  cbn [map frames_size fold_right length]. fold (frames_size (map D_trade rs)).
  rewrite IH.
  unfold frame_size, sizeof_message_header_t, sizeof_trade_record_t. lia.
Qed.

Lemma frames_size_klines (rs : list kline_record) :
  frames_size (map D_kline rs) = 97 * Z.of_nat (length rs).
Proof.
  induction rs as [|r rs IH]; [done|].
  cbn [map frames_size fold_right length]. fold (frames_size (map D_kline rs)).
  rewrite IH.
  unfold frame_size, sizeof_message_header_t, sizeof_kline_record_t. lia.
Qed.

Lemma walk_done m symbol max_records base data_size fuel o rc :
  (o <? data_size) && (rc <? max_records) = false ->
  walk m symbol max_records base data_size fuel o rc
  = epilogue data_size o rc.
Proof. intros H. destruct fuel; cbn [walk]; by rewrite H. Qed.

Lemma length_trade_frames (ts : list (message_header * trade_record)) :
  Z.of_nat (length (frame_bytes (map trade_frame ts)))
  = 73 * Z.of_nat (length ts).
Proof.
  unfold trade_frame.
  rewrite (length_frame_bytes encode_trade 41) by
    (intros r; by rewrite length_encode_trade).
  lia.
Qed.

Lemma length_kline_frames (ks : list (message_header * kline_record)) :
  Z.of_nat (length (frame_bytes (map kline_frame ks)))
  = 97 * Z.of_nat (length ks).
Proof.
  unfold kline_frame.
  rewrite (length_frame_bytes encode_kline 65) by
    (intros r; by rewrite length_encode_kline).
  lia.
Qed.

Lemma holds_trade_prefix m a k (ts : list (message_header * trade_record)) :
  holds m a (frame_bytes (map trade_frame ts)) ->
  holds m a (frame_bytes (map trade_frame (take k ts))).
Proof.
  intros Hh. rewrite <- (take_drop k ts), map_app, frame_bytes_app in Hh.
  by apply holds_app in Hh as [Hh _].
Qed.

Lemma holds_kline_prefix m a k (ks : list (message_header * kline_record)) :
  holds m a (frame_bytes (map kline_frame ks)) ->
  holds m a (frame_bytes (map kline_frame (take k ks))).
Proof.
  intros Hh. rewrite <- (take_drop k ks), map_app, frame_bytes_app in Hh.
  by apply holds_app in Hh as [Hh _].
Qed.

(** The walk over a slot that holds the frames of [ts], then those of
    [ks], and announces their size. *)
Lemma walk_snapshot_trace m symbol max_records base nm ts ks fuel :
  name_okb nm = true -> map tolower nm = map tolower symbol ->
  let data_size := 73 * Z.of_nat (length ts) + 97 * Z.of_nat (length ks) in
  data_size <= 2 ^ 63 ->
  holds m base (frame_bytes (map trade_frame ts ++ map kline_frame ks)) ->
  forallb (fun x => header_okb DATA_TYPE_TRADE sizeof_trade_record_t nm
                               (fst x) && trade_okb (snd x)) ts = true ->
  forallb (fun x => header_okb DATA_TYPE_KLINE sizeof_kline_record_t nm
                               (fst x) && kline_okb (snd x)) ks = true ->
  (length ts + length ks <= fuel)%nat ->
  let shown :=
    take (Z.to_nat max_records)
         (map D_trade (map snd ts) ++ map D_kline (map snd ks)) in
  walk m symbol max_records base data_size fuel 0 0
  = frames_trace symbol 0 shown
    ++ epilogue data_size (frames_size shown) (Z.of_nat (length shown)).
Proof.
  intros Hnm Hsym data_size Hsmall Hh Hts Hks Hfuel shown.
  rewrite frame_bytes_app in Hh. apply holds_app in Hh as [Hht Hhk].
  rewrite length_trade_frames in Hhk.
  destruct (Z.le_gt_cases max_records 0) as [Hneg|Hpos].
  { assert (shown = []) as ->.
    { unfold shown. by replace (Z.to_nat max_records) with 0%nat by lia. }
    cbn [frames_trace frames_size fold_right length app].
    apply walk_done. apply andb_false_iff. right.
    apply Z.ltb_ge. cbn. lia. }
  set (k := Z.to_nat max_records) in *.
  destruct (decide (k <= length ts)%nat) as [Hk|Hk].
  - assert (shown = map D_trade (map snd (take k ts))) as ->.
    { unfold shown. rewrite take_app_le by (by rewrite !length_map).
      by rewrite <- !firstn_map. }
    rewrite !length_map, frames_size_trades, length_map, length_take.
    replace (k `min` length ts)%nat with k by lia.
    replace fuel with (length (take k ts) + (fuel - k))%nat
      by (rewrite length_take; lia).
    rewrite (walk_trades_trace m symbol max_records base data_size nm
               Hsmall Hnm Hsym (take k ts) (fuel - k) 0 0);
      [| lia | rewrite length_take; lia | rewrite length_take; lia
       | rewrite Z.add_0_r; by apply holds_trade_prefix
       | by apply forallb_take].
    rewrite length_take. replace (k `min` length ts)%nat with k by lia.
    rewrite !Z.add_0_l. f_equal.
    apply walk_done. rewrite andb_false_iff. right. apply Z.ltb_ge. lia.
  - assert (shown
            = map D_trade (map snd ts)
              ++ map D_kline (map snd (take (k - length ts) ks))) as ->.
    { unfold shown. rewrite take_app_ge by (rewrite !length_map; lia).
      rewrite !length_map. by rewrite <- !firstn_map. }
    rewrite frames_trace_app, frames_size_app, frames_size_trades,
      frames_size_klines, length_app, !length_map, length_take.
    set (k' := ((k - length ts) `min` length ks)%nat).
    replace fuel with (length ts + (fuel - length ts))%nat by lia.
    rewrite (walk_trades_trace m symbol max_records base data_size nm
               Hsmall Hnm Hsym ts (fuel - length ts) 0 0);
      [| lia | lia | lia | by rewrite Z.add_0_r | done].
    rewrite <- app_assoc. f_equal. rewrite !Z.add_0_l.
    replace (fuel - length ts)%nat
      with (length (take (k - length ts) ks) + (fuel - length ts - k'))%nat
      by (rewrite length_take; lia).
    rewrite (walk_klines_trace m symbol max_records base data_size nm
               Hsmall Hnm Hsym (take (k - length ts) ks));
      [| lia | rewrite length_take; lia | rewrite length_take; lia
       | by apply holds_kline_prefix
       | by apply forallb_take].
    rewrite length_take. fold k'. f_equal.
    replace (Z.of_nat (length ts + k')) with (Z.of_nat (length ts) + Z.of_nat k')
      by lia.
    apply walk_done. rewrite andb_false_iff.
    destruct (decide (k' = length ks)) as [He|Hne].
    + left. apply Z.ltb_ge. rewrite He. lia.
    + right. apply Z.ltb_ge. lia.
Qed.

Lemma run_symbol_inv sts :
  forall c,
    forallb step_okb sts = true -> Forall symbol_inv (symbols c) ->
    Forall symbol_inv (symbols (run c sts)) /\
    map name (symbols (run c sts)) = map name (symbols c).
Proof.
  induction sts as [|st sts IH]; intros c Hok Hinv; [done|].
  cbn [forallb] in Hok. apply andb_prop in Hok as [Hst Hok].
  cbn [run fold_left]. fold (run (run_step c st) sts).
  destruct st as [[symbol r ok fl now|symbol r ok fl now]|now];
    cbn [run_step step_okb feed_okb] in *.
  - destruct (IH (mk_collector
                    (ingest (symbols c) (Feed_trade symbol r ok fl now))
                    (shared_memory c) (last_update_time c)) Hok)
      as [H1 H2].
    { cbn [symbols ingest]. by apply handle_aggTrade_inv. }
    split; [done|]. rewrite H2. cbn [symbols ingest].
    apply handle_aggTrade_names.
  - destruct (IH (mk_collector
                    (ingest (symbols c) (Feed_kline symbol r ok fl now))
                    (shared_memory c) (last_update_time c)) Hok)
      as [H1 H2].
    { cbn [symbols ingest]. by apply handle_kline_inv. }
    split; [done|]. rewrite H2. cbn [symbols ingest].
    apply handle_kline_names.
  - destruct (IH (fst (update_shared_memory c now)) Hok) as [H1 H2].
    { by rewrite update_shared_memory_symbols. }
    split; [done|]. by rewrite H2, update_shared_memory_symbols.
Qed.

(** A pass that rewrites the slots, then the reader on one symbol. *)
Lemma display_after_pass names m0 t0 sts now i nm symbol max_records :
  Z.of_nat (length names) <= MAX_SYMBOLS ->
  forallb symbol_name_okb names = true ->
  NoDup (map (map tolower) names) ->
  forallb step_okb sts = true ->
  names !! i = Some nm ->
  map tolower symbol = map tolower nm ->
  1 <= now - last_update_time (run (start names m0 t0) sts) ->
  exists s m',
    symbols (run (start names m0 t0) sts) !! i = Some s /\ name s = nm /\
    shared_memory (fst (update_shared_memory (run (start names m0 t0) sts) now))
    = Some m' /\
    (forall x, 16 <= x < 256 ->
       m' x = apply_writes m0 (init_shared_memory
                                 (map init_symbol_data names) t0) x) /\
    serialized_size s = frames_size (snapshot_records s) /\
    display_symbol_data m' symbol max_records
    = Print (L_data_size (serialized_size s))
        :: if serialized_size s =? 0 then [Print L_no_data]
           else Print L_data_for
                  :: frames_trace symbol 0
                       (take (Z.to_nat max_records) (snapshot_records s))
                  ++ epilogue (serialized_size s)
                       (frames_size
                          (take (Z.to_nat max_records) (snapshot_records s)))
                       (Z.of_nat
                          (length (take (Z.to_nat max_records)
                                        (snapshot_records s)))).
Proof.
  intros Hn Hok Hnd Hsts Hi Hsym Hnow.
  set (c := run (start names m0 t0) sts) in *.
  set (region := apply_writes m0
                   (init_shared_memory (map init_symbol_data names) t0)).
  destruct (run_from_start names m0 t0 sts Hn) as (m & Hm & Hhdr & Hrings & _).
  cbn zeta in Hhdr. fold c in Hm, Hrings. fold region in Hhdr.
  destruct (init_symbols_inv names Hok) as [Hinv0 Hnames0].
  destruct (run_symbol_inv sts (start names m0 t0) Hsts Hinv0)
    as [Hinv Hnames].
  fold c in Hinv, Hnames. unfold start in Hnames. cbn [symbols] in Hnames.
  rewrite Hnames0 in Hnames.
  assert (length (symbols c) = length names) as Hlen
    by (rewrite <- Hnames; by rewrite length_map).
  assert (exists s, symbols c !! i = Some s /\ name s = nm)
    as (s & Hs & Hname).
  { change (map name (symbols c)) with (name <$> symbols c) in Hnames.
    rewrite <- Hnames in Hi.
    apply list_lookup_fmap_Some in Hi as (s & Hs & ->). by exists s. }
  assert (symbol_okb s = true) as Hsok.
  { apply symbol_inv_okb. rewrite Forall_forall in Hinv. apply Hinv.
    by eapply list_elem_of_lookup_2. }
  destruct (symbol_okb_spec s Hsok) as (Hrs & Hnmok & Hts & Hks).
  assert (region_okb region (Z.of_nat (length names)) = true) as Hreg0.
  { rewrite <- (length_map init_symbol_data names).
    apply init_shared_memory_region_ok. by rewrite length_map. }
  destruct (region_okb_ext m region (Z.of_nat (length names)))
    as (Hreg & Hss & Hbs); [intros x Hx; apply Hhdr; lia|].
  rewrite Hreg0 in Hreg. symmetry in Hreg.
  unfold region in Hbs. rewrite init_buffer_size in Hbs.
  destruct (pass_slot_holds c m now i s Hm
              ltac:(unfold symbol_count; by rewrite Hlen) Hrings Hnow Hs)
    as (m' & Hm' & Hholds & Hhdr').
  assert (forall x, 16 <= x < 256 -> m' x = region x) as Hhdr2.
  { intros x Hx. rewrite Hhdr' by done. by apply Hhdr. }
  exists s, m'. split; [done|]. split; [done|]. split; [done|].
  split; [done|].
  pose proof (lookup_lt_Some _ _ _ Hs) as Hlt.
  pose proof Hrs as Hrs'. unfold rings_okb in Hrs'.
  apply andb_prop in Hrs' as [Hct Hck].
  apply counts_okb_spec in Hct as [Hct _].
  apply counts_okb_spec in Hck as [Hck _].
  assert (serialized_size s
          = 73 * Z.of_nat (length (snapshot_in_order zero_trade (trades s)))
            + 97 * Z.of_nat (length (snapshot_in_order zero_kline (klines s))))
    as Hsize.
  { unfold serialized_size. destruct frame_sizes as [-> ->].
    rewrite !length_snapshot. lia. }
  assert (serialized_size s <= 17000) as Hsmall.
  { unfold serialized_size. destruct frame_sizes as [-> ->]. lia. }
  assert (serialized_size s <= slot_capacity m) as Hfit.
  { unfold slot_capacity, sizeof_size_t. lia. }
  destruct (publish_plan_spec m (Z.of_nat i) s Hrs ltac:(lia))
    as (_ & _ & _ & _ & _ & _ & _ & Hall).
  destruct (Hall Hfit) as (Htw & Hkw & Htot).
  assert (published_trades m (Z.of_nat i) s
          = snapshot_in_order zero_trade (trades s)) as Hpt.
  { unfold published_trades. rewrite Htw. apply take_ge.
    rewrite length_snapshot. lia. }
  assert (published_klines m (Z.of_nat i) s
          = snapshot_in_order zero_kline (klines s)) as Hpk.
  { unfold published_klines. rewrite Hkw. apply take_ge.
    rewrite length_snapshot. lia. }
  unfold slot_image, published_frames in Hholds.
  rewrite Htot, Hpt, Hpk in Hholds.
  apply holds_app in Hholds as [Hsz Hfr]. rewrite length_encode_le in Hfr.
  destruct (region_okb_ext m' m (Z.of_nat (length names)))
    as (Hreg' & Hss' & Hbs'); [intros x Hx; apply Hhdr'; lia|].
  assert (find_in_directory m' symbol (Z.to_nat (shm_symbol_count m')) 0
          = Some (Z.of_nat i)) as Hfind.
  { rewrite (find_in_directory_tolower m' symbol nm _ Hsym).
    assert (shm_symbol_count m' = Z.of_nat (length names)) as ->.
    { rewrite <- (length_map init_symbol_data names).
      rewrite <- (init_symbol_count m0 (map init_symbol_data names) t0)
        by (by rewrite length_map).
      fold region. unfold shm_symbol_count, load_u64. f_equal.
      apply load_bytes_ext. intros x Hx. unfold OFF_symbol_count in Hx.
      apply Hhdr2. lia. }
    rewrite Nat2Z.id.
    apply directory_lookup; [| done | done | exact Hi].
    intros k nm_k Hk.
    pose proof (lookup_lt_Some _ _ _ Hk) as Hklt.
    unfold MAX_SYMBOLS in Hn.
    eapply holds_ext.
    - intros x Hx. symmetry. apply Hhdr2.
      unfold symbol_field in Hx. rewrite length_app, length_strncpy in Hx.
      cbn [length] in Hx.
      unfold shm_symbol_addr, OFF_symbols, MAX_SYMBOL_LENGTH in Hx. lia.
    - rewrite <- symbol_field_take.
      apply (init_directory m0 (map init_symbol_data names) t0 k
               (init_symbol_data nm_k)).
      change (map init_symbol_data names) with (init_symbol_data <$> names).
      by rewrite list_lookup_fmap, Hk. }
  assert (load_u64 m' (slot_start m' (Z.of_nat i)) = serialized_size s)
    as Hds.
  { rewrite Hss', (load_u64_holds _ _ _ Hsz). apply wrap64_small.
    unfold serialized_size. destruct frame_sizes as [-> ->]. lia. }
  split.
  { unfold snapshot_records.
    rewrite frames_size_app, frames_size_trades, frames_size_klines.
    by rewrite !length_map. }
  rewrite (display_symbol_data_found m' (Z.of_nat (length names)) symbol
             max_records (Z.of_nat i));
    [| by rewrite <- Hreg' | lia | done].
  cbn zeta. rewrite Hds. f_equal.
  destruct (Z.eqb_spec (serialized_size s) 0) as [|Hnz]; [done|].
  assert (slot_capacity m' = slot_capacity m) as ->
    by (unfold slot_capacity; by rewrite Hbs').
  destruct (Z.gtb_spec (serialized_size s) (slot_capacity m)); [lia|].
  f_equal. rewrite Hss'. rewrite Hsize at 1 2.
  unfold snapshot_records. rewrite <- Hname in Hsym.
  rewrite (walk_snapshot_trace m' symbol max_records
             (slot_start m (Z.of_nat i) + 8) (name s)
             (snapshot_in_order zero_trade (trades s))
             (snapshot_in_order zero_kline (klines s))
             _ Hnmok (eq_sym Hsym)); try done.
  - by rewrite Hsize.
  - lia.
  - rewrite <- Hsize. unfold walk_fuel, sizeof_message_header_t.
    rewrite !length_snapshot in *. zlia.
Qed.

(** X15. The whole trace of the reader on what a pass published. After
    start-up and any interleaving of handler calls and passes, once a
    pass has rewritten the slots, [display_symbol_data] for a name of the
    table (in any case) prints the serialized size and then, per record
    of the two ring buffers, trades first and each oldest first, up to
    [max_records] of them: four reads inside the frame and the line of
    the record; no warning, no string read; then the closing lines. *)
Theorem reader_trace_after_pass names m0 t0 sts now i nm symbol max_records :
  Z.of_nat (length names) <= MAX_SYMBOLS ->
  forallb symbol_name_okb names = true ->
  NoDup (map (map tolower) names) ->
  forallb step_okb sts = true ->
  names !! i = Some nm ->
  map tolower symbol = map tolower nm ->
  1 <= now - last_update_time (run (start names m0 t0) sts) ->
  exists s m',
    symbols (run (start names m0 t0) sts) !! i = Some s /\ name s = nm /\
    shared_memory (fst (update_shared_memory (run (start names m0 t0) sts) now))
    = Some m' /\
    display_symbol_data m' symbol max_records
    = Print (L_data_size (serialized_size s))
        :: if serialized_size s =? 0 then [Print L_no_data]
           else Print L_data_for
                  :: frames_trace symbol 0
                       (take (Z.to_nat max_records) (snapshot_records s))
                  ++ epilogue (serialized_size s)
                       (frames_size
                          (take (Z.to_nat max_records) (snapshot_records s)))
                       (Z.of_nat
                          (length (take (Z.to_nat max_records)
                                        (snapshot_records s)))).
Proof.
  intros Hn Hok Hnd Hsts Hi Hsym Hnow.
  destruct (display_after_pass names m0 t0 sts now i nm symbol max_records
              Hn Hok Hnd Hsts Hi Hsym Hnow)
    as (s & m' & Hs & Hname & Hm' & _ & _ & Hdisp).
  by exists s, m'.
Qed.

Lemma reader_trace_after_pass_witness :
  exists s m',
    symbols ex_run !! 0%nat = Some s /\ name s = BTCUSDT /\
    shared_memory (fst (update_shared_memory ex_run 1003)) = Some m' /\
    display_symbol_data m' (c_str "btcusdt") 10
    = Print (L_data_size (serialized_size s))
        :: if serialized_size s =? 0 then [Print L_no_data]
           else Print L_data_for
                  :: frames_trace (c_str "btcusdt") 0
                       (take (Z.to_nat 10) (snapshot_records s))
                  ++ epilogue (serialized_size s)
                       (frames_size (take (Z.to_nat 10) (snapshot_records s)))
                       (Z.of_nat
                          (length (take (Z.to_nat 10) (snapshot_records s)))).
Proof.
  apply (reader_trace_after_pass [BTCUSDT] (fun _ => 0) 1000 ex_steps 1003
           0%nat BTCUSDT (c_str "btcusdt") 10).
  - simpl. unfold MAX_SYMBOLS. lia.
  - reflexivity.
  - simpl. repeat constructor. intros H. inversion H.
  - reflexivity.
  - reflexivity.
  - reflexivity.
  - vm_compute. discriminate.
Defined.

Lemma printed_records_frames_trace symbol ds :
  forall o rest,
    printed_records (frames_trace symbol o ds ++ rest)
    = ds ++ printed_records rest.
Proof.
  induction ds as [|d ds IH]; intros o rest; [done|].
  cbn [frames_trace]. rewrite <- app_assoc.
  destruct d; cbn [frame_trace app printed_records]; by rewrite IH.
Qed.

Lemma frames_size_pos ds : ds <> [] -> 0 < frames_size ds.
Proof.
  assert (forall l, 0 <= frames_size l) as Hnn.
  { induction l as [|d l IH]; [done|].
    cbn [frames_size fold_right]. fold (frames_size l).
    destruct d; cbn [frame_size]; unfold_consts; lia. }
  destruct ds as [|d ds]; [done|]. intros _.
  cbn [frames_size fold_right]. fold (frames_size ds).
  specialize (Hnn ds). destruct d; cbn [frame_size]; unfold_consts; lia.
Qed.

Lemma to_int_small z : 0 <= z < 2 ^ 31 -> to_int z = z.
Proof.
  intros Hz. unfold to_int. rewrite Z.mod_small by lia.
  destruct (Z.ltb_spec z (2 ^ 31)); [done | lia].
Qed.

Lemma run_serialized_size names m0 t0 sts i s :
  Z.of_nat (length names) <= MAX_SYMBOLS ->
  symbols (run (start names m0 t0) sts) !! i = Some s ->
  0 <= serialized_size s <= 17000.
Proof.
  intros Hn Hs.
  destruct (run_from_start names m0 t0 sts Hn) as (_ & _ & _ & Hok & _).
  assert (rings_okb s = true) as Hrs.
  { rewrite forallb_forall in Hok. apply Hok.
    apply list_elem_of_In. by eapply list_elem_of_lookup_2. }
  unfold rings_okb in Hrs. apply andb_prop in Hrs as [Ht Hk].
  apply counts_okb_spec in Ht as (Ht & _).
  apply counts_okb_spec in Hk as (Hk & _).
  unfold serialized_size. rewrite (proj1 frame_sizes), (proj2 frame_sizes).
  unfold MAX_RECORDS_PER_SYMBOL in *. lia.
Qed.

(** X16. [max_records] is a limit on records, the oldest first. When it
    cuts the display short the last line but one is "more records
    available (showing max_records of N)" with N the serialized size
    divided by the size of a trade frame (73), whatever the share of
    kline frames (97 bytes) in the slot. *)
Theorem reader_record_limit names m0 t0 sts now i nm symbol max_records :
  Z.of_nat (length names) <= MAX_SYMBOLS ->
  forallb symbol_name_okb names = true ->
  NoDup (map (map tolower) names) ->
  forallb step_okb sts = true ->
  names !! i = Some nm ->
  map tolower symbol = map tolower nm ->
  1 <= now - last_update_time (run (start names m0 t0) sts) ->
  exists s m',
    symbols (run (start names m0 t0) sts) !! i = Some s /\
    shared_memory (fst (update_shared_memory (run (start names m0 t0) sts) now))
    = Some m' /\
    printed_records (display_symbol_data m' symbol max_records)
    = take (Z.to_nat max_records) (snapshot_records s) /\
    (0 < max_records < Z.of_nat (length (snapshot_records s)) ->
     exists pre,
       display_symbol_data m' symbol max_records
       = pre ++ [Print (L_more max_records (serialized_size s / 73));
                 Print L_blank]).
Proof.
  intros Hn Hok Hnd Hsts Hi Hsym Hnow.
  destruct (display_after_pass names m0 t0 sts now i nm symbol max_records
              Hn Hok Hnd Hsts Hi Hsym Hnow)
    as (s & m' & Hs & Hname & Hm' & _ & Hsize & Hdisp).
  exists s, m'. split; [done|]. split; [done|].
  rewrite Hdisp. set (shown := take (Z.to_nat max_records) (snapshot_records s)).
  split.
  - cbn [printed_records].
    destruct (Z.eqb_spec (serialized_size s) 0) as [Hz|Hnz].
    + cbn [printed_records]. unfold shown.
      destruct (snapshot_records s) as [|d l] eqn:Hrec; [by rewrite take_nil|].
      pose proof (frames_size_pos (d :: l) ltac:(done)). lia.
    + cbn [printed_records].
      by rewrite printed_records_frames_trace, printed_records_epilogue,
        app_nil_r.
  - intros [Hpos Hlt].
    assert (length shown = Z.to_nat max_records) as Hlen
      by (unfold shown; rewrite length_take; lia).
    assert (frames_size shown < serialized_size s) as Hoff.
    { rewrite Hsize.
      rewrite <- (take_drop (Z.to_nat max_records) (snapshot_records s)) at 1.
      rewrite frames_size_app. fold shown.
      pose proof (frames_size_pos
                    (drop (Z.to_nat max_records) (snapshot_records s))) as Hd.
      assert (drop (Z.to_nat max_records) (snapshot_records s) <> []) as Hne.
      { intros He. apply (f_equal length) in He.
        rewrite length_drop in He. cbn in He. lia. }
      specialize (Hd Hne). lia. }
    assert (0 < serialized_size s) as Hds.
    { assert (0 <= frames_size shown); [|lia].
      destruct shown as [|d l]; [done|].
      pose proof (frames_size_pos (d :: l) ltac:(done)). lia. }
    destruct (Z.eqb_spec (serialized_size s) 0); [lia|].
    exists (Print (L_data_size (serialized_size s)) :: Print L_data_for
              :: frames_trace symbol 0 shown).
    cbn [app]. do 2 f_equal. f_equal.
    unfold epilogue. rewrite Hlen, Z2Nat.id by lia.
    destruct (Z.eqb_spec max_records 0); [lia|].
    destruct (Z.ltb_spec (frames_size shown) (serialized_size s)); [|lia].
    pose proof (run_serialized_size names m0 t0 sts i s Hn Hs) as Hbound.
    rewrite to_int_small; [done |].
    change trade_frame_size with 73. zlia.
Qed.

Lemma reader_record_limit_witness :
  exists s m',
    symbols (run (start [BTCUSDT] (fun _ => 0) 1000) ex_steps_3) !! 0%nat
    = Some s /\
    shared_memory
      (fst (update_shared_memory
              (run (start [BTCUSDT] (fun _ => 0) 1000) ex_steps_3) 1003))
    = Some m' /\
    printed_records (display_symbol_data m' BTCUSDT 2)
    = take (Z.to_nat 2) (snapshot_records s) /\
    (0 < 2 < Z.of_nat (length (snapshot_records s)) ->
     exists pre,
       display_symbol_data m' BTCUSDT 2
       = pre ++ [Print (L_more 2 (serialized_size s / 73)); Print L_blank]).
Proof.
  apply (reader_record_limit [BTCUSDT] (fun _ => 0) 1000 ex_steps_3 1003
           0%nat BTCUSDT BTCUSDT 2).
  - simpl. unfold MAX_SYMBOLS. lia.
  - reflexivity.
  - simpl. repeat constructor. intros H. inversion H.
  - reflexivity.
  - reflexivity.
  - reflexivity.
  - vm_compute. discriminate.
Defined.

(** ** All symbols *)

Lemma scan_nul_spec p :
  forall m a,
    match scan_nul p m a with
    | Some r =>
        a <= r < a + Zpos p /\ m r mod 256 = 0 /\
        forall x, a <= x < r -> m x mod 256 <> 0
    | None => forall x, a <= x < a + Zpos p -> m x mod 256 <> 0
    end.
Proof.
  induction p as [q IH|q IH|]; intros m a; cbn [scan_nul].
  - pose proof (IH m a) as H1. destruct (scan_nul q m a) as [r|].
    { destruct H1 as (? & ? & ?). repeat split; try done; lia. }
    pose proof (IH m (a + Zpos q)) as H2.
    destruct (scan_nul q m (a + Zpos q)) as [r|].
    { destruct H2 as (? & ? & H2). repeat split; try done; try lia.
      intros x Hx. destruct (Z.lt_ge_cases x (a + Zpos q)).
      - apply H1. lia.
      - apply H2. lia. }
    destruct (Z.eqb_spec (m (a + Zpos q~0) mod 256) 0) as [Hz|Hnz].
    + repeat split; try done; try lia.
      intros x Hx. destruct (Z.lt_ge_cases x (a + Zpos q)).
      * apply H1. lia.
      * apply H2. lia.
    + intros x Hx.
      destruct (Z.lt_ge_cases x (a + Zpos q)); [apply H1; lia|].
      destruct (Z.lt_ge_cases x (a + Zpos q~0)); [apply H2; lia|].
      by replace x with (a + Zpos q~0) by lia.
  - pose proof (IH m a) as H1. destruct (scan_nul q m a) as [r|].
    { destruct H1 as (? & ? & ?). repeat split; try done; lia. }
    pose proof (IH m (a + Zpos q)) as H2.
    destruct (scan_nul q m (a + Zpos q)) as [r|].
    { destruct H2 as (? & ? & H2). repeat split; try done; try lia.
      intros x Hx. destruct (Z.lt_ge_cases x (a + Zpos q)).
      - apply H1. lia.
      - apply H2. lia. }
    intros x Hx. destruct (Z.lt_ge_cases x (a + Zpos q)).
    + apply H1. lia.
    + apply H2. lia.
  - destruct (Z.eqb_spec (m a mod 256) 0) as [Hz|Hnz].
    + repeat split; try done; try lia.
    + intros x Hx. by replace x with a by lia.
Qed.

Lemma cstr_at_holds m a nm rest :
  holds m a (nm ++ 0 :: rest) ->
  forallb char_okb nm = true ->
  0 <= a -> a + Z.of_nat (length nm) < SHM_SIZE ->
  cstr_at m a = Some nm.
Proof.
  intros Hh Hchars Ha Hend.
  assert (forall k c, nm !! k = Some c -> m (a + Z.of_nat k) = c /\ 1 <= c < 256)
    as Hnm.
  { intros k c Hk. split.
    - apply Hh. by rewrite lookup_app_l by (by eapply lookup_lt_Some).
    - rewrite forallb_forall in Hchars.
      assert (char_okb c = true) as Hc
        by (apply Hchars, list_elem_of_In; by eapply list_elem_of_lookup_2).
      unfold char_okb in Hc. lia. }
  assert (m (a + Z.of_nat (length nm)) = 0) as Hnul.
  { apply Hh. rewrite lookup_app_r by lia. by rewrite Nat.sub_diag. }
  unfold cstr_at.
  destruct (SHM_SIZE - a) as [|p|p] eqn:Hp; try lia.
  pose proof (scan_nul_spec p m a) as Hscan.
  destruct (scan_nul p m a) as [r|].
  - destruct Hscan as (Hr & Hz & Hbefore).
    assert (r = a + Z.of_nat (length nm)) as ->.
    { destruct (Z.lt_trichotomy r (a + Z.of_nat (length nm))) as [Hlt|[He|Hgt]];
        [|done|].
      - exfalso.
        destruct (nm !! Z.to_nat (r - a)) as [c|] eqn:Hc.
        + destruct (Hnm _ _ Hc) as [Hm Hrange].
          rewrite Z2Nat.id in Hm by lia.
          replace (a + (r - a)) with r in Hm by lia.
          rewrite Hm, Z.mod_small in Hz by lia. lia.
        + apply lookup_ge_None in Hc. lia.
      - exfalso. apply (Hbefore (a + Z.of_nat (length nm))); [lia|].
        by rewrite Hnul. }
    f_equal. replace (Z.to_nat (a + Z.of_nat (length nm) - a))
      with (length nm) by lia.
    apply load_of_holds.
    + apply holds_app in Hh. tauto.
    + apply Forall_forall. intros c Hc.
      apply list_elem_of_lookup in Hc as [k Hk].
      destruct (Hnm _ _ Hk) as [_ Hrange]. unfold byte_ok. lia.
  - exfalso. apply (Hscan (a + Z.of_nat (length nm))); [lia|].
    by rewrite Hnul.
Qed.

Lemma printed_records_app evs1 evs2 :
  printed_records (evs1 ++ evs2)
  = printed_records evs1 ++ printed_records evs2.
Proof.
  induction evs1 as [|e evs1 IH]; [done|].
  destruct e as [| |l| |]; cbn [app printed_records]; try done.
  destruct l; cbn [app]; by rewrite ?IH.
Qed.

Lemma frames_trace_no_fault symbol ds :
  forall o, existsb is_fault (frames_trace symbol o ds) = false.
Proof.
  induction ds as [|d ds IH]; intros o; [done|].
  cbn [frames_trace]. rewrite existsb_app, IH. by destruct d.
Qed.

Lemma epilogue_no_fault ds o rc : existsb is_fault (epilogue ds o rc) = false.
Proof.
  unfold epilogue. destruct (rc =? 0); [|destruct (o <? ds)]; done.
Qed.

Lemma display_all_loop_spec m max_records names :
  (forall k nm, names !! k = Some nm ->
     cstr_at m (shm_symbol_addr (Z.of_nat k)) = Some nm /\
     existsb is_fault (display_symbol_data m nm max_records) = false) ->
  forall n i,
    (i + n = length names)%nat ->
    display_all_loop m max_records n (Z.of_nat i)
    = concat (map (fun nm => display_symbol_data m nm max_records)
                  (drop i names)).
Proof.
  intros Hall. induction n as [|n IH]; intros i Hi.
  - rewrite drop_ge by lia. done.
  - destruct (names !! i) as [nm|] eqn:Hnm.
    2:{ apply lookup_ge_None in Hnm. lia. }
    destruct (Hall _ _ Hnm) as [Hstr Hnf].
    cbn [display_all_loop]. rewrite Hstr, Hnf.
    rewrite (drop_S _ _ _ Hnm). cbn [map concat]. f_equal.
    replace (Z.of_nat i + 1) with (Z.of_nat (S i)) by lia.
    apply IH. lia.
Qed.

(** X17. [display_all_symbols_data] after a rewriting pass is the
    display of every name of the table, in table order, and shows for
    every symbol the records of its two ring buffers up to
    [max_records]. *)
Theorem display_all_after_pass names m0 t0 sts now max_records :
  Z.of_nat (length names) <= MAX_SYMBOLS ->
  forallb symbol_name_okb names = true ->
  NoDup (map (map tolower) names) ->
  forallb step_okb sts = true ->
  1 <= now - last_update_time (run (start names m0 t0) sts) ->
  exists m',
    shared_memory (fst (update_shared_memory (run (start names m0 t0) sts) now))
    = Some m' /\
    display_all_symbols_data m' max_records
    = concat (map (fun nm => display_symbol_data m' nm max_records) names) /\
    printed_records (display_all_symbols_data m' max_records)
    = concat (map (fun s => take (Z.to_nat max_records) (snapshot_records s))
                  (symbols (run (start names m0 t0) sts))).
Proof.
  intros Hn Hok Hnd Hsts Hnow.
  set (c := run (start names m0 t0) sts) in *.
  set (region := apply_writes m0
                   (init_shared_memory (map init_symbol_data names) t0)).
  destruct (run_from_start names m0 t0 sts Hn)
    as (m & Hm & Hhdr & Hrings & Hnames & _).
  cbn zeta in Hhdr. fold c in Hm, Hrings, Hnames. fold region in Hhdr.
  assert (length (symbols c) = length names) as Hlen.
  { rewrite <- (length_map name), Hnames. by rewrite length_map. }
  assert (region_okb m (symbol_count c) = true) as Hreg.
  { destruct (region_okb_ext m region (symbol_count c)) as (<- & _);
      [intros x Hx; apply Hhdr; lia|].
    unfold symbol_count. rewrite Hlen.
    rewrite <- (length_map init_symbol_data names).
    apply init_shared_memory_region_ok. by rewrite length_map. }
  destruct (update_keeps_header c m now Hm Hreg Hrings)
    as (m' & Hm' & _ & Hhdr' & _).
  assert (forall x, 16 <= x < 256 -> m' x = region x) as Hhdr2.
  { intros x Hx. rewrite Hhdr' by done. by apply Hhdr. }
  assert (forall k nm, names !! k = Some nm ->
            exists s,
              symbols c !! k = Some s /\
              display_symbol_data m' nm max_records
              = Print (L_data_size (serialized_size s))
                  :: (if serialized_size s =? 0 then [Print L_no_data]
                      else Print L_data_for
                             :: frames_trace nm 0
                                  (take (Z.to_nat max_records)
                                        (snapshot_records s))
                             ++ epilogue (serialized_size s)
                                  (frames_size
                                     (take (Z.to_nat max_records)
                                           (snapshot_records s)))
                                  (Z.of_nat
                                     (length (take (Z.to_nat max_records)
                                                   (snapshot_records s))))))
    as Heach.
  { intros k nm Hk.
    destruct (display_after_pass names m0 t0 sts now k nm nm max_records
                Hn Hok Hnd Hsts Hk eq_refl Hnow)
      as (s & m'' & Hs & _ & Hm'' & _ & _ & Hd).
    fold c in Hs, Hm''. rewrite Hm' in Hm''. injection Hm'' as <-.
    by exists s. }
  exists m'. split; [done|].
  assert (shm_symbol_count m' = Z.of_nat (length names)) as Hcount.
  { rewrite <- (length_map init_symbol_data names).
    rewrite <- (init_symbol_count m0 (map init_symbol_data names) t0)
      by (by rewrite length_map).
    fold region. unfold shm_symbol_count, load_u64. f_equal.
    apply load_bytes_ext. intros x Hx. unfold OFF_symbol_count in Hx.
    apply Hhdr2. lia. }
  assert (display_all_symbols_data m' max_records
          = concat (map (fun nm => display_symbol_data m' nm max_records)
                        names)) as Hall.
  { unfold display_all_symbols_data. rewrite Hcount, Nat2Z.id.
    rewrite (display_all_loop_spec m' max_records names) with (i := 0%nat);
      [done| |lia].
    intros k nm Hk.
    pose proof (lookup_lt_Some _ _ _ Hk) as Hklt. unfold MAX_SYMBOLS in Hn.
    assert (symbol_name_okb nm = true) as Hnmok.
    { rewrite forallb_forall in Hok. apply Hok.
      apply list_elem_of_In. by eapply list_elem_of_lookup_2. }
    destruct (symbol_name_okb_spec _ Hnmok) as (Hname & Hchars & _ & _).
    destruct (name_okb_spec _ Hname) as [Hl _].
    split.
    - assert (holds m' (shm_symbol_addr (Z.of_nat k)) (symbol_field nm))
        as Hh.
      { eapply holds_ext.
        - intros x Hx. symmetry. apply Hhdr2.
          unfold symbol_field in Hx. rewrite length_app, length_strncpy in Hx.
          cbn [length] in Hx.
          unfold shm_symbol_addr, OFF_symbols, MAX_SYMBOL_LENGTH in Hx. lia.
        - rewrite <- symbol_field_take.
          apply (init_directory m0 (map init_symbol_data names) t0 k
                   (init_symbol_data nm)).
          change (map init_symbol_data names)
            with (init_symbol_data <$> names).
          by rewrite list_lookup_fmap, Hk. }
      destruct (directory_entry_shape m' _ nm Hl Hh) as [rest Hshape].
      apply (cstr_at_holds m' _ nm rest Hshape Hchars);
        unfold shm_symbol_addr, OFF_symbols, MAX_SYMBOL_LENGTH, SHM_SIZE; lia.
    - destruct (Heach _ _ Hk) as (s & _ & ->).
      cbn [existsb is_fault orb].
      destruct (serialized_size s =? 0); [done|].
      cbn [existsb is_fault orb].
      by rewrite existsb_app, frames_trace_no_fault, epilogue_no_fault. }
  split; [done|]. rewrite Hall.
  assert (Forall2 (fun nm s =>
                     printed_records (display_symbol_data m' nm max_records)
                     = take (Z.to_nat max_records) (snapshot_records s))
                  names (symbols c)) as Hrel.
  { apply Forall2_same_length_lookup_2; [done|].
    intros k nm s Hk Hs. destruct (Heach _ _ Hk) as (s' & Hs' & ->).
    rewrite Hs in Hs'. injection Hs' as <-.
    cbn [printed_records].
    destruct (Z.eqb_spec (serialized_size s) 0) as [Hz|Hnz].
    - cbn [printed_records].
      destruct (snapshot_records s) as [|d l] eqn:Hrec; [by rewrite take_nil|].
      destruct (display_after_pass names m0 t0 sts now k nm nm max_records
                  Hn Hok Hnd Hsts Hk eq_refl Hnow)
        as (s2 & _ & Hs2 & _ & _ & _ & Hsz & _).
      fold c in Hs2. rewrite Hs in Hs2. injection Hs2 as <-.
      rewrite Hrec in Hsz.
      pose proof (frames_size_pos (d :: l) ltac:(done)). lia.
    - cbn [printed_records].
      by rewrite printed_records_frames_trace, printed_records_epilogue,
        app_nil_r. }
  clear -Hrel. induction Hrel as [|nm s names' syms' Hhd _ IH]; [done|].
  cbn [map concat]. by rewrite printed_records_app, Hhd, IH.
Qed.

Lemma display_all_after_pass_witness :
  exists m',
    shared_memory
      (fst (update_shared_memory
              (run (start [BTCUSDT; c_str "ETHUSDT"] (fun _ => 0) 1000)
                   ex_steps_3) 1003))
    = Some m' /\
    display_all_symbols_data m' 10
    = concat (map (fun nm => display_symbol_data m' nm 10)
                  [BTCUSDT; c_str "ETHUSDT"]) /\
    printed_records (display_all_symbols_data m' 10)
    = concat (map (fun s => take (Z.to_nat 10) (snapshot_records s))
                  (symbols (run (start [BTCUSDT; c_str "ETHUSDT"]
                                       (fun _ => 0) 1000) ex_steps_3))).
Proof.
  apply (display_all_after_pass [BTCUSDT; c_str "ETHUSDT"] (fun _ => 0) 1000
           ex_steps_3 1003 10).
  - simpl. unfold MAX_SYMBOLS. lia.
  - reflexivity.
  - simpl. repeat constructor.
    + intros H. apply list_elem_of_In in H. simpl in H.
      destruct H as [H|H]; [discriminate H|exact H].
    + intros H. inversion H.
  - reflexivity.
  - vm_compute. discriminate.
Defined.

(** ** Symbols given twice *)

Lemma find_symbol_least syms symbol :
  forall i0 idx,
    find_symbol syms symbol i0 = Some idx ->
    forall k s, (k < Z.to_nat (idx - i0))%nat -> syms !! k = Some s ->
                name s <> symbol.
Proof.
  induction syms as [|s0 syms IH]; intros i0 idx Hf k s Hk Hs; [done|].
  cbn [find_symbol] in Hf.
  destruct (decide (name s0 = symbol)) as [He|Hne].
  - injection Hf as <-. rewrite Z.sub_diag in Hk. cbn in Hk. lia.
  - destruct (find_symbol_spec _ _ _ _ Hf) as [Hge _].
    destruct k as [|k]; [cbn in Hs; by injection Hs as <-|].
    cbn in Hs. apply (IH (i0 + 1) idx Hf k s); [lia|done].
Qed.

Lemma handle_aggTrade_later_twin syms symbol r w f now i j si sj :
  (i < j)%nat -> syms !! i = Some si -> syms !! j = Some sj ->
  name si = name sj ->
  fst (handle_aggTrade syms symbol r w f now) !! j = Some sj.
Proof.
  intros Hij Hi Hj Hname. unfold handle_aggTrade.
  destruct (find_symbol syms symbol 0) as [idx|] eqn:Hf; [|done].
  destruct (find_symbol_spec _ _ _ _ Hf) as (Hge & s & Hs & Hn).
  rewrite Z.sub_0_r in Hs. rewrite Hs.
  destruct (negb (w =? 1)); cbn [fst].
  all: rewrite list_lookup_insert_ne; [done|].
  all: intros He; rewrite He in Hs; rewrite Hj in Hs; injection Hs as <-.
  all: apply (find_symbol_least _ _ _ _ Hf i si); [lia|done|congruence].
Qed.

Lemma handle_kline_later_twin syms symbol r w f now i j si sj :
  (i < j)%nat -> syms !! i = Some si -> syms !! j = Some sj ->
  name si = name sj ->
  fst (handle_kline syms symbol r w f now) !! j = Some sj.
Proof.
  intros Hij Hi Hj Hname. unfold handle_kline.
  destruct (find_symbol syms symbol 0) as [idx|] eqn:Hf; [|done].
  destruct (find_symbol_spec _ _ _ _ Hf) as (Hge & s & Hs & Hn).
  rewrite Z.sub_0_r in Hs. rewrite Hs.
  destruct (negb (w =? 1)); cbn [fst].
  all: rewrite list_lookup_insert_ne; [done|].
  all: intros He; rewrite He in Hs; rewrite Hj in Hs; injection Hs as <-.
  all: apply (find_symbol_least _ _ _ _ Hf i si); [lia|done|congruence].
Qed.

Lemma run_later_twin sts :
  forall c i j sj,
    (i < j)%nat ->
    (exists si, symbols c !! i = Some si /\ name si = name sj) ->
    symbols c !! j = Some sj ->
    symbols (run c sts) !! j = Some sj.
Proof.
  induction sts as [|st sts IH]; intros c i j sj Hij (si & Hi & Hname) Hj;
    [done|].
  cbn [run fold_left]. fold (run (run_step c st) sts).
  apply (IH _ i j sj Hij).
  - destruct st as [[symbol r ok fl now|symbol r ok fl now]|now];
      cbn [run_step symbols ingest].
    + pose proof (handle_aggTrade_names (symbols c) symbol r ok fl now) as Hn.
      apply (f_equal (fun l => l !! i)) in Hn.
      change (map name ?l) with (name <$> l) in Hn.
      rewrite !list_lookup_fmap, Hi in Hn. cbn in Hn.
      destruct (fst (handle_aggTrade (symbols c) symbol r ok fl now) !! i)
        as [si'|]; [|done].
      exists si'. split; [done|]. cbn in Hn. congruence.
    + pose proof (handle_kline_names (symbols c) symbol r ok fl now) as Hn.
      apply (f_equal (fun l => l !! i)) in Hn.
      change (map name ?l) with (name <$> l) in Hn.
      rewrite !list_lookup_fmap, Hi in Hn. cbn in Hn.
      destruct (fst (handle_kline (symbols c) symbol r ok fl now) !! i)
        as [si'|]; [|done].
      exists si'. split; [done|]. cbn in Hn. congruence.
    + rewrite update_shared_memory_symbols. by exists si.
  - destruct st as [[symbol r ok fl now|symbol r ok fl now]|now];
      cbn [run_step symbols ingest].
    + by apply (handle_aggTrade_later_twin _ _ _ _ _ _ i j si sj).
    + by apply (handle_kline_later_twin _ _ _ _ _ _ i j si sj).
    + by rewrite update_shared_memory_symbols.
Qed.

(** X18. A symbol given twice on the command line (two names equal in
    their first 15 characters) gets two table entries and two slots, but
    the handlers find the first entry only: in every state of a run the
    later entry is as [init_symbol_data] left it, and its slot never
    announces any data. *)
Theorem duplicate_symbol_never_fed names m0 t0 sts i j nm_i nm_j :
  (i < j)%nat ->
  names !! i = Some nm_i -> names !! j = Some nm_j ->
  take 15 nm_i = take 15 nm_j ->
  symbols (run (start names m0 t0) sts) !! j = Some (init_symbol_data nm_j) /\
  serialized_size (init_symbol_data nm_j) = 0.
Proof.
  intros Hij Hi Hj Hname. split; [|done]. unfold cstring in *.
  apply (run_later_twin sts (start names m0 t0) i j _ Hij).
  - exists (init_symbol_data nm_i). split; [|done].
    unfold start. cbn [symbols].
    change (map init_symbol_data names) with (init_symbol_data <$> names).
    apply list_lookup_fmap_Some. eauto.
  - unfold start. cbn [symbols].
    change (map init_symbol_data names) with (init_symbol_data <$> names).
    apply list_lookup_fmap_Some. eauto.
Qed.

Lemma duplicate_symbol_never_fed_witness :
  symbols (run (start [BTCUSDT; BTCUSDT] (fun _ => 0) 1000) ex_steps_3)
    !! 1%nat = Some (init_symbol_data BTCUSDT) /\
  serialized_size (init_symbol_data BTCUSDT) = 0.
Proof.
  apply (duplicate_symbol_never_fed [BTCUSDT; BTCUSDT] (fun _ => 0) 1000
           ex_steps_3 0%nat 1%nat BTCUSDT BTCUSDT).
  - lia.
  - reflexivity.
  - reflexivity.
  - reflexivity.
Defined.

(** ** Stores of the publisher *)

(** X19. In every state of a run, every store of a call of
    [update_shared_memory] lies inside the [SHM_SIZE] bytes of the
    mapping. *)
Theorem publisher_stores_inside_mapping names m0 t0 sts now :
  Z.of_nat (length names) <= MAX_SYMBOLS ->
  Forall (fun w => 0 <= w_addr w /\
                   w_addr w + Z.of_nat (length (w_bytes w)) <= SHM_SIZE)
         (snd (update_shared_memory (run (start names m0 t0) sts) now)).
Proof.
  intros Hn.
  set (c := run (start names m0 t0) sts).
  destruct (run_from_start names m0 t0 sts Hn)
    as (m & Hm & Hhdr & Hrings & Hnames & _).
  cbn zeta in Hhdr. fold c in Hm, Hrings, Hnames.
  assert (length (symbols c) = length names) as Hlen.
  { rewrite <- (length_map name), Hnames. by rewrite length_map. }
  assert (region_okb m (symbol_count c) = true) as Hreg.
  { destruct (region_okb_ext m
                (apply_writes m0
                   (init_shared_memory (map init_symbol_data names) t0))
                (symbol_count c)) as (<- & _);
      [intros x Hx; apply Hhdr; lia|].
    unfold symbol_count. rewrite Hlen.
    rewrite <- (length_map init_symbol_data names).
    apply init_shared_memory_region_ok. by rewrite length_map. }
  assert (Forall (fun w => 0 <= w_addr w /\
                           w_addr w + Z.of_nat (length (w_bytes w))
                           <= SHM_SIZE) [time_store now]) as Htime.
  { constructor; [|constructor].
    cbn [time_store w_addr w_bytes]. rewrite length_encode_le.
    unfold OFF_last_update_time, SHM_SIZE. lia. }
  destruct (update_shared_memory_log c m now Hm Hreg Hrings)
    as [Hclosed Hopen].
  destruct (Z.lt_ge_cases (now - last_update_time c) 1) as [Hg|Hg].
  - by rewrite (Hclosed Hg).
  - rewrite (Hopen ltac:(lia)). cbn [snd].
    change (time_store now :: slots_log m 0 (symbols c) ++ [counter_store m])
      with ([time_store now] ++ slots_log m 0 (symbols c)
            ++ [counter_store m]).
    apply Forall_app. split; [done|]. apply Forall_app. split.
    + eapply Forall_impl;
        [apply (slots_log_in_slots m (symbol_count c) (symbols c) 0);
         [done | lia | unfold symbol_count; lia | done]|].
      cbn beta. intros w (j & Hj & Hin).
      destruct (slot_inside m (symbol_count c) j Hreg
                  ltac:(unfold symbol_count in *; lia)) as [Hlo Hhi].
      unfold in_slot in Hin. unfold SHM_SIZE in *. lia.
    + constructor; [|constructor].
      cbn [counter_store w_addr w_bytes]. rewrite length_encode_le.
      unfold OFF_write_counter, SHM_SIZE. lia.
Qed.

Lemma publisher_stores_inside_mapping_witness :
  Forall (fun w => 0 <= w_addr w /\
                   w_addr w + Z.of_nat (length (w_bytes w)) <= SHM_SIZE)
         (snd (update_shared_memory
                 (run (start [BTCUSDT] (fun _ => 0) 1000) ex_steps_3) 1003)).
Proof.
  apply (publisher_stores_inside_mapping [BTCUSDT] (fun _ => 0) 1000
           ex_steps_3 1003).
  simpl. unfold MAX_SYMBOLS. lia.
Defined.

(** ** Times *)

(** X20. [print_formatted_time] and [format_timestamp] split a time in
    milliseconds into whole seconds and a rest so that seconds * 1000 +
    rest gives the time back; the rest is between 0 and 999 for a time
    that is not negative, and between -999 and 0 for a negative one
    (the seconds are rounded towards zero, not down). *)
Theorem timestamp_split timestamp :
  timestamp
  = 1000 * fst (print_formatted_time timestamp)
    + snd (print_formatted_time timestamp) /\
  (0 <= timestamp -> 0 <= snd (print_formatted_time timestamp) < 1000) /\
  (timestamp < 0 -> -1000 < snd (print_formatted_time timestamp) <= 0) /\
  (-1000 < timestamp < 1000 -> fst (print_formatted_time timestamp) = 0) /\
  format_timestamp timestamp = fst (print_formatted_time timestamp).
Proof.
  unfold print_formatted_time, format_timestamp. cbn [fst snd].
  pose proof (Z.quot_rem' timestamp 1000) as Hqr.
  assert (0 <= timestamp -> 0 <= Z.rem timestamp 1000 < 1000) as Hpos
    by (intros H; apply Z.rem_bound_pos; lia).
  assert (timestamp < 0 -> -1000 < Z.rem timestamp 1000 <= 0) as Hneg.
  { intros H. pose proof (Z.rem_bound_pos (- timestamp) 1000).
    rewrite Z.rem_opp_l in * by lia. lia. }
  repeat split; lia.
Qed.

(** ** The information on the region *)

Lemma init_last_update m0 syms now :
  shm_last_update_time (apply_writes m0 (init_shared_memory syms now))
  = wrap64 now.
Proof.
  unfold shm_last_update_time.
  apply load_u64_holds.
  apply (holds_apply_writes_last m0
           [mk_write OFF_write_counter (encode_le 8 0)]
           (mk_write OFF_last_update_time (encode_le 8 now))).
  unfold OFF_last_update_time, OFF_data_offset, OFF_buffer_size,
    OFF_symbol_count.
  cbn [w_addr w_bytes]. rewrite length_encode_le.
  repeat (constructor; [cbn [w_addr]; lia|]).
  eapply Forall_impl; [apply (init_names_above syms 0); lia|].
  cbn beta. intros w Hw. lia.
Qed.

Lemma update_last_time c m now :
  shared_memory c = Some m ->
  region_okb m (symbol_count c) = true ->
  forallb rings_okb (symbols c) = true ->
  exists m',
    shared_memory (fst (update_shared_memory c now)) = Some m' /\
    shm_last_update_time m' = wrap64 now.
Proof.
  intros Hshm Hreg Hok.
  destruct (update_shared_memory_log c m now Hshm Hreg Hok) as [Hclosed Hopen].
  destruct (Z.lt_ge_cases (now - last_update_time c) 1) as [Hg|Hg].
  - rewrite (Hclosed Hg). cbn [fst shared_memory].
    eexists. split; [done|]. unfold shm_last_update_time.
    apply load_u64_holds. apply (holds_store m OFF_last_update_time).
  - rewrite (Hopen ltac:(lia)). cbn [fst shared_memory].
    eexists. split; [done|]. unfold shm_last_update_time.
    apply load_u64_holds.
    apply (holds_apply_writes_last m [] (time_store now)).
    apply Forall_app. split.
    + eapply Forall_impl;
        [apply (slots_log_above_header m (symbol_count c));
         [done | lia | unfold symbol_count; lia | done]|].
      cbn beta. intros w Hw.
      cbn [time_store w_addr w_bytes]. rewrite length_encode_le.
      unfold OFF_last_update_time. lia.
    + constructor; [|constructor].
      cbn [counter_store time_store w_addr w_bytes].
      rewrite !length_encode_le.
      unfold OFF_write_counter, OFF_last_update_time. lia.
Qed.

Lemma run_last_update m0 sts :
  forall c m t,
    shared_memory c = Some m ->
    (forall x, 16 <= x < 256 -> m x = m0 x) ->
    region_okb m0 (symbol_count c) = true ->
    forallb rings_okb (symbols c) = true ->
    shm_last_update_time m = wrap64 t ->
    exists m',
      shared_memory (run c sts) = Some m' /\
      shm_last_update_time m' = wrap64 (last_update_call t sts).
Proof.
  induction sts as [|st sts IH]; intros c m t Hshm Hhdr Hreg Hok Ht.
  - by exists m.
  - cbn [run fold_left last_update_call]. fold (run (run_step c st) sts).
    destruct st as [e|now].
    + destruct (ingest_rings (symbols c) e Hok) as [Hok' Hnames].
      apply (IH (run_step c (Step_feed e)) m t); try done.
      unfold symbol_count in *. cbn [run_step symbols].
      rewrite <- (length_map name), Hnames, length_map. done.
    + assert (region_okb m (symbol_count c) = true) as Hreg'.
      { destruct (region_okb_ext m m0 (symbol_count c)) as [<- _]; [|done].
        intros x Hx. apply Hhdr. lia. }
      destruct (update_keeps_header c m now Hshm Hreg' Hok)
        as (m1 & Hm1 & Hs1 & Hh1 & _).
      destruct (update_last_time c m now Hshm Hreg' Hok)
        as (m1' & Hm1' & Ht1).
      rewrite Hm1 in Hm1'. injection Hm1' as <-.
      cbn [run_step].
      apply (IH (fst (update_shared_memory c now)) m1 now); try done.
      * intros x Hx. rewrite Hh1 by done. by apply Hhdr.
      * unfold symbol_count in *. by rewrite Hs1.
      * by rewrite Hs1.
Qed.

Lemma info_symbols_spec m names :
  (forall k nm, names !! k = Some nm ->
     cstr_at m (shm_symbol_addr (Z.of_nat k)) = Some nm) ->
  forall n i,
    (i + n = length names)%nat ->
    info_symbols m n (Z.of_nat i) = (map I_symbol (drop i names), true).
Proof.
  intros Hall. induction n as [|n IH]; intros i Hi.
  - rewrite drop_ge by lia. done.
  - destruct (names !! i) as [nm|] eqn:Hnm.
    2:{ apply lookup_ge_None in Hnm. lia. }
    cbn [info_symbols]. rewrite (Hall _ _ Hnm).
    replace (Z.of_nat i + 1) with (Z.of_nat (S i)) by lia.
    rewrite IH by lia. by rewrite (drop_S _ _ _ Hnm).
Qed.

(** X21. [print_shared_memory_info] after any run: it prints the time
    of the latest call of [update_shared_memory] (rewriting or not) as
    the last update, the seconds since then, the number of rewriting
    passes as the write counter, the number of symbols, the names of the
    table in order as read back from the directory, and the layout the
    collector set up. *)
Theorem info_after_run names m0 t0 sts current_time :
  Z.of_nat (length names) <= MAX_SYMBOLS ->
  forallb symbol_name_okb names = true ->
  0 <= last_update_call t0 sts <= current_time ->
  current_time < 2 ^ 31 ->
  exists m,
    shared_memory (run (start names m0 t0) sts) = Some m /\
    print_shared_memory_info m current_time
    = [I_title;
       I_last_update (last_update_call t0 sts);
       I_since (Some (current_time - last_update_call t0 sts));
       I_write_counter (wrap64 (rewrites (start names m0 t0) sts));
       I_symbol_count (Z.of_nat (length names))]
      ++ map I_symbol names
      ++ [I_symbols_end;
          I_layout sizeof_shared_memory_header_t
                   sizeof_shared_memory_header_t 6710860 SHM_SIZE].
Proof.
  intros Hn Hok Ht Hnow.
  set (region := apply_writes m0
                   (init_shared_memory (map init_symbol_data names) t0)).
  destruct (run_from_start names m0 t0 sts Hn)
    as (m & Hm & Hhdr & _ & _ & Hcnt).
  cbn zeta in Hhdr. fold region in Hhdr.
  destruct (run_last_update region sts (start names m0 t0) region t0)
    as (m1 & Hm1 & Hlast); try done.
  { unfold symbol_count, start. cbn [symbols].
    apply init_shared_memory_region_ok. by rewrite length_map. }
  { apply init_rings. }
  { apply init_last_update. }
  rewrite Hm in Hm1. injection Hm1 as <-.
  exists m. split; [done|].
  destruct (header_fields_agree m region) as [Hdo Hbs].
  { intros x Hx. apply Hhdr. lia. }
  unfold region in Hdo, Hbs.
  rewrite init_data_offset in Hdo. rewrite init_buffer_size in Hbs.
  assert (shm_symbol_count m = Z.of_nat (length names)) as Hcount.
  { rewrite <- (length_map init_symbol_data names).
    rewrite <- (init_symbol_count m0 (map init_symbol_data names) t0)
      by (by rewrite length_map).
    fold region. unfold shm_symbol_count, load_u64. f_equal.
    apply load_bytes_ext. intros x Hx. unfold OFF_symbol_count in Hx.
    apply Hhdr. lia. }
  assert (info_symbols m (length names) 0 = (map I_symbol names, true))
    as Hsyms.
  { apply (info_symbols_spec m names) with (i := 0%nat); [|lia].
    intros k nm Hk.
    pose proof (lookup_lt_Some _ _ _ Hk) as Hklt. unfold MAX_SYMBOLS in Hn.
    assert (symbol_name_okb nm = true) as Hnmok.
    { rewrite forallb_forall in Hok. apply Hok.
      apply list_elem_of_In. by eapply list_elem_of_lookup_2. }
    destruct (symbol_name_okb_spec _ Hnmok) as (Hname & Hchars & _ & _).
    destruct (name_okb_spec _ Hname) as [Hl _].
    assert (holds m (shm_symbol_addr (Z.of_nat k)) (symbol_field nm)) as Hh.
    { eapply holds_ext.
      - intros x Hx. symmetry. apply Hhdr.
        unfold symbol_field in Hx. rewrite length_app, length_strncpy in Hx.
        cbn [length] in Hx.
        unfold shm_symbol_addr, OFF_symbols, MAX_SYMBOL_LENGTH in Hx. lia.
      - rewrite <- symbol_field_take.
        apply (init_directory m0 (map init_symbol_data names) t0 k
                 (init_symbol_data nm)).
        change (map init_symbol_data names)
          with (init_symbol_data <$> names).
        apply list_lookup_fmap_Some. eauto. }
    destruct (directory_entry_shape m _ nm Hl Hh) as [rest Hshape].
    apply (cstr_at_holds m _ nm rest Hshape Hchars);
      unfold shm_symbol_addr, OFF_symbols, MAX_SYMBOL_LENGTH, SHM_SIZE; lia. }
  unfold print_shared_memory_info.
  rewrite Hcount, Nat2Z.id, Hsyms, Hlast, Hcnt, Hdo, Hbs.
  rewrite (wrap64_small (last_update_call t0 sts)) by lia.
  assert (signed64 (last_update_call t0 sts) = last_update_call t0 sts) as ->.
  { unfold signed64. destruct (Z.ltb_spec (last_update_call t0 sts) (2 ^ 63));
      lia. }
  assert (int_okb (current_time - last_update_call t0 sts)
          && (Z.abs current_time <? 2 ^ 53)
          && (Z.abs (last_update_call t0 sts) <? 2 ^ 53) = true) as ->.
  { unfold int_okb. lia. }
  done.
Qed.

Lemma info_after_run_witness :
  exists m,
    shared_memory ex_run = Some m /\
    print_shared_memory_info m 1005
    = [I_title;
       I_last_update (last_update_call 1000 ex_steps);
       I_since (Some (1005 - last_update_call 1000 ex_steps));
       I_write_counter
         (wrap64 (rewrites (start [BTCUSDT] (fun _ => 0) 1000) ex_steps));
       I_symbol_count (Z.of_nat (length [BTCUSDT]))]
      ++ map I_symbol [BTCUSDT]
      ++ [I_symbols_end;
          I_layout sizeof_shared_memory_header_t
                   sizeof_shared_memory_header_t 6710860 SHM_SIZE].
Proof.
  apply (info_after_run [BTCUSDT] (fun _ => 0) 1000 ex_steps 1005).
  - simpl. unfold MAX_SYMBOLS. lia.
  - reflexivity.
  - simpl. lia.
  - lia.
Defined.

(** ** [main] of the shared region reader *)

Lemma reader_options_bounds atoi opts :
  forall cfg cfg',
    1 <= cfg_max_records cfg -> 100 <= cfg_interval_ms cfg ->
    reader_options atoi opts cfg = inl cfg' ->
    1 <= cfg_max_records cfg' /\ 100 <= cfg_interval_ms cfg'.
Proof.
  induction opts as [|c opts IH]; intros cfg cfg' Hm Hi Hopt.
  - cbn in Hopt. by injection Hopt as <-.
  - cbn [reader_options] in Hopt. destruct c as [a| |a|a| |]; try done.
    + eapply IH; [| |exact Hopt]; done.
    + eapply IH; [| |exact Hopt]; done.
    + eapply IH; [| |exact Hopt]; [done|]. cbn [cfg_interval_ms].
      destruct (Z.ltb_spec (atoi a) 100); lia.
    + eapply IH; [| |exact Hopt]; [|done]. cbn [cfg_max_records].
      destruct (Z.ltb_spec (atoi a) 1); lia.
Qed.

(** X22. [main] of the reader with [-s SYMBOL] and any [-n COUNT]: the
    count is raised to 1 when it is smaller, the single round displays
    the oldest records of the symbol up to that count, and so at least
    one record whenever the symbol has any. *)
Theorem reader_main_shows_records atoi opts cfg names m0 t0 sts now i nm
    symbol current_time iterations :
  reader_options atoi opts reader_defaults = inl cfg ->
  cfg_continuous cfg = false ->
  cfg_specific_symbol cfg = Some symbol ->
  Z.of_nat (length names) <= MAX_SYMBOLS ->
  forallb symbol_name_okb names = true ->
  NoDup (map (map tolower) names) ->
  forallb step_okb sts = true ->
  names !! i = Some nm ->
  map tolower symbol = map tolower nm ->
  1 <= now - last_update_time (run (start names m0 t0) sts) ->
  exists s m' info evs,
    symbols (run (start names m0 t0) sts) !! i = Some s /\
    shared_memory (fst (update_shared_memory (run (start names m0 t0) sts) now))
    = Some m' /\
    reader_main atoi opts (Some (m', current_time)) iterations
    = (RD_once (info, evs), 0) /\
    1 <= cfg_max_records cfg /\
    printed_records evs
    = take (Z.to_nat (cfg_max_records cfg)) (snapshot_records s) /\
    (snapshot_records s <> [] -> printed_records evs <> []).
Proof.
  intros Hopts Hc Hsym Hn Hok Hnd Hsts Hi Hcase Hnow.
  destruct (reader_options_bounds atoi opts reader_defaults cfg
              ltac:(cbn; lia) ltac:(cbn; lia) Hopts) as [Hmax _].
  destruct (display_after_pass names m0 t0 sts now i nm symbol
              (cfg_max_records cfg) Hn Hok Hnd Hsts Hi Hcase Hnow)
    as (s & m' & Hs & Hname & Hm' & _ & Hsize & Hdisp).
  assert (printed_records (display_symbol_data m' symbol (cfg_max_records cfg))
          = take (Z.to_nat (cfg_max_records cfg)) (snapshot_records s))
    as Hrec.
  { rewrite Hdisp. cbn [printed_records].
    destruct (Z.eqb_spec (serialized_size s) 0) as [Hz|Hnz].
    - cbn [printed_records].
      destruct (snapshot_records s) as [|d l] eqn:Hr; [by rewrite take_nil|].
      pose proof (frames_size_pos (d :: l) ltac:(done)). lia.
    - cbn [printed_records].
      by rewrite printed_records_frames_trace, printed_records_epilogue,
        app_nil_r. }
  exists s, m', (print_shared_memory_info m' current_time),
    (display_symbol_data m' symbol (cfg_max_records cfg)).
  split; [done|]. split; [done|]. split.
  { unfold reader_main, reader_round. by rewrite Hopts, Hc, Hsym. }
  split; [done|]. split; [done|].
  intros Hne. rewrite Hrec.
  destruct (snapshot_records s) as [|d l]; [done|].
  replace (Z.to_nat (cfg_max_records cfg))
    with (S (Z.to_nat (cfg_max_records cfg - 1))) by lia.
  done.
Qed.

Lemma reader_main_shows_records_witness :
  exists s m' info evs,
    symbols (run (start [BTCUSDT] (fun _ => 0) 1000) ex_steps_3) !! 0%nat
    = Some s /\
    shared_memory
      (fst (update_shared_memory
              (run (start [BTCUSDT] (fun _ => 0) 1000) ex_steps_3) 1003))
    = Some m' /\
    reader_main (fun _ => 0) [RO_n (c_str "0"); RO_s (c_str "btcusdt")]
      (Some (m', 1005)) []
    = (RD_once (info, evs), 0) /\
    1 <= cfg_max_records (mk_reader_config false 1000
                            (Some (c_str "btcusdt")) 1) /\
    printed_records evs
    = take (Z.to_nat (cfg_max_records
                        (mk_reader_config false 1000
                           (Some (c_str "btcusdt")) 1)))
           (snapshot_records s) /\
    (snapshot_records s <> [] -> printed_records evs <> []).
Proof.
  apply (reader_main_shows_records (fun _ => 0)
           [RO_n (c_str "0"); RO_s (c_str "btcusdt")]
           (mk_reader_config false 1000 (Some (c_str "btcusdt")) 1)
           [BTCUSDT] (fun _ => 0) 1000 ex_steps_3 1003 0%nat BTCUSDT
           (c_str "btcusdt") 1005 []).
  - reflexivity.
  - reflexivity.
  - reflexivity.
  - simpl. unfold MAX_SYMBOLS. lia.
  - reflexivity.
  - simpl. repeat constructor. intros H. inversion H.
  - reflexivity.
  - reflexivity.
  - reflexivity.
  - vm_compute. discriminate.
Defined.

(** ** The symbol of a stream name *)

Lemma stream_symbol_loop_spec n :
  forall stream,
    exists pre rest,
      stream = pre ++ rest /\
      stream_symbol_loop n stream = map toupper pre /\
      (length pre <= n)%nat /\ ~ In 64 pre /\
      (rest = [] \/ (exists rest', rest = 64 :: rest') \/ length pre = n).
Proof.
  induction n as [|n IH]; intros stream.
  - exists [], stream.
    split; [done|]. split; [by destruct stream|]. split; [done|].
    split; [by intros []|]. by right; right.
  - destruct stream as [|c stream].
    + exists [], [].
      split; [done|]. split; [done|]. split; [cbn; lia|].
      split; [by intros []|]. by left.
    + cbn [stream_symbol_loop]. destruct (Z.eqb_spec c 64) as [->|Hc].
      * exists [], (64 :: stream).
        split; [done|]. split; [done|]. split; [cbn; lia|].
        split; [by intros []|]. right; left. by eexists.
      * destruct (IH stream) as (pre & rest & -> & Hs & Hl & Hat & Hend).
        exists (c :: pre), rest. rewrite Hs.
        split; [done|]. split; [done|]. split; [cbn [length]; lia|].
        split; [intros [He|Hin]; [congruence|done]|].
        destruct Hend as [?|[?|?]]; [by left|by right; left|].
        right; right. cbn [length]. lia.
Qed.

(** X23. Whatever stream name a message carries, the symbol
    [ws_callback] hands to the handlers has at most 15 characters (it
    fits [char symbol[16]] with its NUL), contains no '@' and no
    lower-case letter: it is the upper-cased part of the name before the
    first '@', cut to 15 characters. *)
Theorem stream_symbol_bounds stream :
  (length (stream_symbol stream) <= 15)%nat /\
  ~ In 64 (stream_symbol stream) /\
  Forall (fun c => ~ is_lower c) (stream_symbol stream) /\
  exists pre rest,
    stream = pre ++ rest /\ stream_symbol stream = map toupper pre /\
    ~ In 64 pre /\
    (rest = [] \/ (exists rest', rest = 64 :: rest') \/ length pre = 15%nat).
Proof.
  unfold stream_symbol.
  destruct (stream_symbol_loop_spec 15 stream)
    as (pre & rest & Hst & Hs & Hl & Hat & Hend).
  rewrite Hs. split; [by rewrite length_map|]. split; [|split].
  - intros Hin. apply in_map_iff in Hin as (c & Hc & Hin).
    unfold toupper in Hc.
    destruct ((97 <=? c) && (c <=? 122)) eqn:Hlow; [lia|].
    subst c. done.
  - apply Forall_forall. intros c Hc.
    apply list_elem_of_In, in_map_iff in Hc as (c0 & <- & _).
    apply toupper_not_lower.
  - exists pre, rest. by rewrite <- Hs.
Qed.

(** ** Before the first pass *)

Lemma init_names_below syms :
  forall i, 0 <= i -> i + Z.of_nat (length syms) <= MAX_SYMBOLS ->
    Forall (fun w => w_addr w + Z.of_nat (length (w_bytes w)) <= 200)
           (init_names syms i).
Proof.
  unfold MAX_SYMBOLS.
  induction syms as [|s syms IH]; intros i Hi Hn; cbn [init_names];
    [constructor|].
  cbn [length] in Hn.
  unfold shm_symbol_addr, OFF_symbols, MAX_SYMBOL_LENGTH.
  constructor; [cbn [w_addr w_bytes]; rewrite length_strncpy; lia|].
  constructor; [cbn; lia|].
  apply IH; lia.
Qed.

(** X24. [init_shared_memory] writes below offset 200 only: the data
    area still holds what the mapping held before. The first call of
    [update_shared_memory] afterwards rewrites the slots whatever the
    time (from 1 on), the static [last_update_time] starting at 0. *)
Theorem data_area_before_first_pass names m0 t0 now :
  Z.of_nat (length names) <= MAX_SYMBOLS ->
  1 <= now ->
  (forall x, 200 <= x ->
     apply_writes m0 (init_shared_memory (map init_symbol_data names) t0) x
     = m0 x) /\
  is_rewrite (snd (update_shared_memory (start names m0 t0) now)) = true.
Proof.
  intros Hn Hnow. split.
  - intros x Hx. apply apply_writes_out. unfold init_shared_memory.
    apply Forall_app. split.
    + unfold OFF_write_counter, OFF_last_update_time, OFF_data_offset,
        OFF_buffer_size, OFF_symbol_count.
      repeat (constructor;
              [cbn [w_addr w_bytes]; rewrite length_encode_le; lia|]).
      constructor.
    + eapply Forall_impl;
        [apply (init_names_below (map init_symbol_data names) 0);
         [lia|by rewrite length_map]|].
      cbn beta. intros w Hw. lia.
  - destruct (update_gate (start names m0 t0) now) as [[_ Hl]|[Hr _]];
      [|done].
    exfalso.
    pose proof (update_shared_memory_log (start names m0 t0) _ now eq_refl)
      as Hlog.
    destruct Hlog as [_ Hopen].
    + unfold symbol_count, start. cbn [symbols].
      apply init_shared_memory_region_ok. by rewrite length_map.
    + apply init_rings.
    + rewrite Hopen in Hl by (cbn; lia). cbn in Hl. lia.
Qed.

Lemma data_area_before_first_pass_witness :
  (forall x, 200 <= x ->
     apply_writes ex_published
       (init_shared_memory (map init_symbol_data [c_str "ETHUSDT"]) 2000) x
     = ex_published x) /\
  is_rewrite
    (snd (update_shared_memory (start [c_str "ETHUSDT"] ex_published 2000)
            2001)) = true.
Proof.
  apply (data_area_before_first_pass [c_str "ETHUSDT"] ex_published 2000 2001).
  - simpl. unfold MAX_SYMBOLS. lia.
  - lia.
Defined.

(** ** The size field in the runs of the collector *)



(** The pass of the example: three trades, 219 bytes announced and 219
    bytes of frames stored. *)
Example size_field_of_three_trades :
  let c := run (start [BTCUSDT] (fun _ => 0) 1000) ex_steps_3 in
  let m := default (fun _ => 0) (shared_memory c) in
  let s := default (init_symbol_data BTCUSDT) (symbols c !! 0%nat) in
  let ws := publish_symbol m 0 s in
  load_u64 (apply_writes m ws) (slot_start m 0) = 219 /\
  bytes_written (tail ws) = 219.
Proof. vm_compute. split; reflexivity. Qed.

(** ** Symbol comparison against the bytes of the region *)










(** ** Retries without a limit *)





Section Retries.
Variable n : nat.
Hypothesis n_fits : 32 * Z.of_nat n + 73 <= 6710852.





End Retries.


(** Two mismatching headers and a frame: two warnings, two retries,
    then the record. *)
Example reader_after_two_retries :
  display_symbol_data (ex_retries 2) BTCUSDT 10
  = [Print (L_data_size 137); Print L_data_for;
     Read 16 1; ReadStr 16 2; Print (L_mismatch (c_str "X"));
     Read 48 1; ReadStr 48 2; Print (L_mismatch (c_str "X"));
     Read 80 8; Read 64 4; Read 68 4; Read 96 41;
     Print (L_trade (ex_trade 1 price_10000_0));
     Print L_blank].
Proof. vm_compute. reflexivity. Qed.

(** ** Ingestion and the log streams *)

Lemma publish_symbol_in_memory m i s s' :
  in_memory s = in_memory s' ->
  publish_symbol m i s = publish_symbol m i s'.
Proof.
  unfold in_memory. intros [= _ Ht Hk _ _ _ _].
  unfold publish_symbol, publish_plan. by rewrite Ht, Hk.
Qed.

Lemma publish_loop_in_memory syms :
  forall syms' m i,
    map in_memory syms = map in_memory syms' ->
    publish_loop m i syms = publish_loop m i syms'.
Proof.
  induction syms as [| s syms IH]; intros [| s' syms'] m i Hmem; try done.
  cbn [map] in Hmem.
  assert (in_memory s = in_memory s') as Hs by congruence.
  assert (map in_memory syms = map in_memory syms') as Hrest by congruence.
  cbn [publish_loop]. rewrite (publish_symbol_in_memory m i s s' Hs).
  by rewrite (IH syms' _ _ Hrest).
Qed.

(** A pass stores the same whatever the streams of the table have
    seen. *)
Lemma update_shared_memory_in_memory syms syms' shm t now :
  map in_memory syms = map in_memory syms' ->
  snd (update_shared_memory (mk_collector syms shm t) now)
  = snd (update_shared_memory (mk_collector syms' shm t) now) /\
  shared_memory (fst (update_shared_memory (mk_collector syms shm t) now))
  = shared_memory (fst (update_shared_memory (mk_collector syms' shm t) now)).
Proof.
  intros Hmem. unfold update_shared_memory.
  cbn [shared_memory symbols last_update_time].
  destruct shm as [m |]; [| done].
  destruct (now - t <? 1); [done |].
  rewrite (publish_loop_in_memory syms syms' _ 0 Hmem).
  by destruct (publish_loop _ 0 syms').
Qed.

(** C5 (as the code has it). For a known symbol the record reaches the
    ring buffer and the counters exactly when [fwrite] returns 1 on the
    symbol's stream: then it is appended and the counters advance; for
    any other result of [fwrite] the ring buffers and the counters stay
    as they were, only the stream has seen the two calls, and the next
    pass of the publisher stores what it would have stored without the
    message. The result of [fflush] is discarded: the outcome of the
    call is the same for every value of it. The same holds for
    klines. *)
Theorem ingest_gated_by_fwrite syms symbol i :
  find_symbol syms symbol 0 = Some i ->
  exists s, syms !! Z.to_nat i = Some s /\ name s = symbol /\
    (forall r fflush_result now,
       handle_aggTrade syms symbol r 1 fflush_result now =
       (<[Z.to_nat i :=
            mk_symbol (name s)
              (trade_file s ++ [Fwrite r 1; Fflush fflush_result])
              (kline_file s)
              (rb_append r (make_header DATA_TYPE_TRADE sizeof_trade_record_t
                              now symbol) (trades s))
              (klines s)
              (add64 (trade_count s) 1) (kline_count s)
              (add64 (message_count s) 1)
              (add64 (bytes_processed s) sizeof_trade_record_t)]> syms,
        Ingested)) /\
    (forall r fwrite_result fflush_result now,
       fwrite_result <> 1 ->
       handle_aggTrade syms symbol r fwrite_result fflush_result now =
       (<[Z.to_nat i :=
            mk_symbol (name s)
              (trade_file s ++ [Fwrite r fwrite_result; Fflush fflush_result])
              (kline_file s) (trades s) (klines s)
              (trade_count s) (kline_count s) (message_count s)
              (bytes_processed s)]> syms,
        WriteFailed)) /\
    (forall r fflush_result now,
       handle_kline syms symbol r 1 fflush_result now =
       (<[Z.to_nat i :=
            mk_symbol (name s) (trade_file s)
              (kline_file s ++ [Fwrite r 1; Fflush fflush_result])
              (trades s)
              (rb_append r (make_header DATA_TYPE_KLINE sizeof_kline_record_t
                              now symbol) (klines s))
              (trade_count s) (add64 (kline_count s) 1)
              (add64 (message_count s) 1)
              (add64 (bytes_processed s) sizeof_kline_record_t)]> syms,
        Ingested)) /\
    (forall r fwrite_result fflush_result now,
       fwrite_result <> 1 ->
       handle_kline syms symbol r fwrite_result fflush_result now =
       (<[Z.to_nat i :=
            mk_symbol (name s) (trade_file s)
              (kline_file s ++ [Fwrite r fwrite_result; Fflush fflush_result])
              (trades s) (klines s)
              (trade_count s) (kline_count s) (message_count s)
              (bytes_processed s)]> syms,
        WriteFailed)) /\
    (forall r fwrite_result fflush_result now shm t pass,
       fwrite_result <> 1 ->
       let syms' :=
         fst (handle_aggTrade syms symbol r fwrite_result fflush_result now)
       in
       map in_memory syms' = map in_memory syms /\
       snd (update_shared_memory (mk_collector syms' shm t) pass)
       = snd (update_shared_memory (mk_collector syms shm t) pass)) /\
    (forall r fwrite_result fflush_result now shm t pass,
       fwrite_result <> 1 ->
       let syms' :=
         fst (handle_kline syms symbol r fwrite_result fflush_result now)
       in
       map in_memory syms' = map in_memory syms /\
       snd (update_shared_memory (mk_collector syms' shm t) pass)
       = snd (update_shared_memory (mk_collector syms shm t) pass)) /\
    (forall r f1 f2 now,
       map in_memory (fst (handle_aggTrade syms symbol r 1 f1 now))
       = map in_memory (fst (handle_aggTrade syms symbol r 1 f2 now)) /\
       snd (handle_aggTrade syms symbol r 1 f1 now)
       = snd (handle_aggTrade syms symbol r 1 f2 now)) /\
    (forall r f1 f2 now,
       map in_memory (fst (handle_kline syms symbol r 1 f1 now))
       = map in_memory (fst (handle_kline syms symbol r 1 f2 now)) /\
       snd (handle_kline syms symbol r 1 f1 now)
       = snd (handle_kline syms symbol r 1 f2 now)).
Proof.
  intros Hfind.
  destruct (find_symbol_spec _ _ _ _ Hfind) as [_ (s & Hs & Hname)].
  rewrite Z.sub_0_r in Hs.
  exists s. split; [done |]. split; [done |].
  assert (forall r w f now, w <> 1 ->
            handle_aggTrade syms symbol r w f now
            = (<[Z.to_nat i :=
                   mk_symbol (name s)
                     (trade_file s ++ [Fwrite r w; Fflush f])
                     (kline_file s) (trades s) (klines s)
                     (trade_count s) (kline_count s) (message_count s)
                     (bytes_processed s)]> syms,
               WriteFailed)) as Htf.
  { intros r w f now Hw. unfold handle_aggTrade. rewrite Hfind, Hs.
    by destruct (Z.eqb_spec w 1). }
  assert (forall r w f now, w <> 1 ->
            handle_kline syms symbol r w f now
            = (<[Z.to_nat i :=
                   mk_symbol (name s) (trade_file s)
                     (kline_file s ++ [Fwrite r w; Fflush f])
                     (trades s) (klines s)
                     (trade_count s) (kline_count s) (message_count s)
                     (bytes_processed s)]> syms,
               WriteFailed)) as Hkf.
  { intros r w f now Hw. unfold handle_kline. rewrite Hfind, Hs.
    by destruct (Z.eqb_spec w 1). }
  split; [| split; [exact Htf | split; [| split; [exact Hkf |]]]].
  - intros r f now. unfold handle_aggTrade. by rewrite Hfind, Hs.
  - intros r f now. unfold handle_kline. by rewrite Hfind, Hs.
  - split; [| split; [| split]].
    + intros r w f now shm t pass Hw syms'. subst syms'.
      rewrite (Htf r w f now Hw). cbn [fst].
      assert (map in_memory
                (<[Z.to_nat i :=
                     mk_symbol (name s)
                       (trade_file s ++ [Fwrite r w; Fflush f])
                       (kline_file s) (trades s) (klines s)
                       (trade_count s) (kline_count s) (message_count s)
                       (bytes_processed s)]> syms)
              = map in_memory syms) as Hmem
        by (by apply (map_in_memory_insert _ _ s)).
      split; [done |].
      by destruct (update_shared_memory_in_memory _ _ shm t pass Hmem).
    + intros r w f now shm t pass Hw syms'. subst syms'.
      rewrite (Hkf r w f now Hw). cbn [fst].
      assert (map in_memory
                (<[Z.to_nat i :=
                     mk_symbol (name s) (trade_file s)
                       (kline_file s ++ [Fwrite r w; Fflush f])
                       (trades s) (klines s)
                       (trade_count s) (kline_count s) (message_count s)
                       (bytes_processed s)]> syms)
              = map in_memory syms) as Hmem
        by (by apply (map_in_memory_insert _ _ s)).
      split; [done |].
      by destruct (update_shared_memory_in_memory _ _ shm t pass Hmem).
    + intros r f1 f2 now. unfold handle_aggTrade. rewrite Hfind, Hs.
      change (1 =? 1) with true. cbn [negb fst snd]. split; [| done].
      match goal with
      | |- map in_memory ?l1 = map in_memory ?l2 =>
          change (in_memory <$> l1 = in_memory <$> l2)
      end.
      by rewrite !list_fmap_insert.
    + intros r f1 f2 now. unfold handle_kline. rewrite Hfind, Hs.
      change (1 =? 1) with true. cbn [negb fst snd]. split; [| done].
      match goal with
      | |- map in_memory ?l1 = map in_memory ?l2 =>
          change (in_memory <$> l1 = in_memory <$> l2)
      end.
      by rewrite !list_fmap_insert.
Qed.

Lemma ingest_gated_by_fwrite_witness :
  exists s, ex_symbols !! Z.to_nat 0 = Some s /\ name s = BTCUSDT /\
    (forall r fflush_result now,
       handle_aggTrade ex_symbols BTCUSDT r 1 fflush_result now =
       (<[Z.to_nat 0 :=
            mk_symbol (name s)
              (trade_file s ++ [Fwrite r 1; Fflush fflush_result])
              (kline_file s)
              (rb_append r (make_header DATA_TYPE_TRADE sizeof_trade_record_t
                              now BTCUSDT) (trades s))
              (klines s)
              (add64 (trade_count s) 1) (kline_count s)
              (add64 (message_count s) 1)
              (add64 (bytes_processed s) sizeof_trade_record_t)]> ex_symbols,
        Ingested)) /\
    (forall r fwrite_result fflush_result now,
       fwrite_result <> 1 ->
       handle_aggTrade ex_symbols BTCUSDT r fwrite_result fflush_result now =
       (<[Z.to_nat 0 :=
            mk_symbol (name s)
              (trade_file s ++ [Fwrite r fwrite_result; Fflush fflush_result])
              (kline_file s) (trades s) (klines s)
              (trade_count s) (kline_count s) (message_count s)
              (bytes_processed s)]> ex_symbols,
        WriteFailed)) /\
    (forall r fflush_result now,
       handle_kline ex_symbols BTCUSDT r 1 fflush_result now =
       (<[Z.to_nat 0 :=
            mk_symbol (name s) (trade_file s)
              (kline_file s ++ [Fwrite r 1; Fflush fflush_result])
              (trades s)
              (rb_append r (make_header DATA_TYPE_KLINE sizeof_kline_record_t
                              now BTCUSDT) (klines s))
              (trade_count s) (add64 (kline_count s) 1)
              (add64 (message_count s) 1)
              (add64 (bytes_processed s) sizeof_kline_record_t)]> ex_symbols,
        Ingested)) /\
    (forall r fwrite_result fflush_result now,
       fwrite_result <> 1 ->
       handle_kline ex_symbols BTCUSDT r fwrite_result fflush_result now =
       (<[Z.to_nat 0 :=
            mk_symbol (name s) (trade_file s)
              (kline_file s ++ [Fwrite r fwrite_result; Fflush fflush_result])
              (trades s) (klines s)
              (trade_count s) (kline_count s) (message_count s)
              (bytes_processed s)]> ex_symbols,
        WriteFailed)) /\
    (forall r fwrite_result fflush_result now shm t pass,
       fwrite_result <> 1 ->
       let syms' :=
         fst (handle_aggTrade ex_symbols BTCUSDT r fwrite_result fflush_result now)
       in
       map in_memory syms' = map in_memory ex_symbols /\
       snd (update_shared_memory (mk_collector syms' shm t) pass)
       = snd (update_shared_memory (mk_collector ex_symbols shm t) pass)) /\
    (forall r fwrite_result fflush_result now shm t pass,
       fwrite_result <> 1 ->
       let syms' :=
         fst (handle_kline ex_symbols BTCUSDT r fwrite_result fflush_result now)
       in
       map in_memory syms' = map in_memory ex_symbols /\
       snd (update_shared_memory (mk_collector syms' shm t) pass)
       = snd (update_shared_memory (mk_collector ex_symbols shm t) pass)) /\
    (forall r f1 f2 now,
       map in_memory (fst (handle_aggTrade ex_symbols BTCUSDT r 1 f1 now))
       = map in_memory (fst (handle_aggTrade ex_symbols BTCUSDT r 1 f2 now)) /\
       snd (handle_aggTrade ex_symbols BTCUSDT r 1 f1 now)
       = snd (handle_aggTrade ex_symbols BTCUSDT r 1 f2 now)) /\
    (forall r f1 f2 now,
       map in_memory (fst (handle_kline ex_symbols BTCUSDT r 1 f1 now))
       = map in_memory (fst (handle_kline ex_symbols BTCUSDT r 1 f2 now)) /\
       snd (handle_kline ex_symbols BTCUSDT r 1 f1 now)
       = snd (handle_kline ex_symbols BTCUSDT r 1 f2 now)).
Proof.
  apply (ingest_gated_by_fwrite ex_symbols BTCUSDT 0). reflexivity.
Defined.


(** A full disk, as the program meets it: [fwrite] puts the record into
    the buffer of the stream and returns 1, [fflush] fails and returns
    [EOF]; the record is ingested and reported as such. *)
Example ingested_though_fflush_failed :
  let '(syms, result) :=
    handle_aggTrade ex_symbols BTCUSDT (ex_trade 1 price_10000_0) 1 (-1) 1001
  in
  result = Ingested /\
  map (fun s => (rb_count (trades s), trade_count s, trade_file s)) syms
  = [(1, 1, [Fwrite (ex_trade 1 price_10000_0) 1; Fflush (-1)])].
Proof. vm_compute. split; reflexivity. Qed.

(** C5 as stated fails: when [fwrite] reports a failure, a trade for the
    known symbol BTCUSDT is not appended to its ring buffer. *)
Lemma ingest_regardless_of_persistence_fails :
  ~ (forall syms symbol i s r (fwrite_result fflush_result : Z) now,
       find_symbol syms symbol 0 = Some i ->
       syms !! Z.to_nat i = Some s ->
       exists s',
         fst (handle_aggTrade syms symbol r fwrite_result fflush_result now)
           !! Z.to_nat i = Some s' /\
         trades s' =
           rb_append r (make_header DATA_TYPE_TRADE sizeof_trade_record_t
                          now symbol) (trades s)).
Proof.
  intros H.
  destruct (H ex_symbols BTCUSDT 0 (init_symbol_data BTCUSDT)
              (ex_trade 1 price_10000_0) 0 0 1000
              eq_refl eq_refl) as (s' & Hs' & Ht).
  cbn in Hs'. injection Hs' as <-.
  apply (f_equal rb_count) in Ht. vm_compute in Ht. discriminate.
Qed.
